(* ===== verification/_CoqProject ===== *)
-Q . S2P
Prelude.v
Types.v
Player.v
ScoringEngine.v
TurnManager.v
VotingManager.v
WordBank.v
GameRoom.v
Router.v
Server.v
ClientState.v
Canvas.v
ClientUI.v
AppFlow.v
Views.v
Socket.v
ClientServer.v
