(* ===== verification/Prelude.v ===== *)
(** * Loki: a verification development of the loki-game server and client

    The repository is a real-time social-deduction drawing game.  Its server
    ([src/server/src]) keeps one [GameRoom] per four-letter room code; each
    room owns a roster of [Player]s, the game [settings], the strokes of the
    current round, a [TurnManager] (drawing order and round counter), a
    [VotingManager] (one secret ballot) and the role assignments; the
    [ScoringEngine] is a pure function from a finished vote to round points,
    and [WordBank] supplies the secret word.  [messages.ts] ([handleMessage])
    routes each client message to the room of its sender, calls the room's
    methods, sends server messages and schedules the role-reveal callback;
    [index.ts] keeps the connection tables, hands [handleMessage] its [send]
    and [broadcast], and removes players and empty rooms when a connection
    closes.  The React client ([src/client/src]) keeps one
    [ClientGameState], updated by the reducer of [useGame] for every server
    message; its pages turn clicks into the actions of [useGame], which
    sends client messages through the socket hook [useWebSocket] (a queue
    while connecting, automatic reconnection).

    ** Files and what they model

    - [Prelude] (this file): the scope [loki_scope]; the error monad
      [result] for pure code that throws; the state-exception monad
      [stx S E] for a method that mutates its object and may throw part-way
      (the mutations made before the [throw] stay, as in JavaScript), with
      the rewrite database [stx]; [Math.random()] as a stream [rng] of 53-bit
      integers ([k] standing for [k / 2^53], as V8 draws them) with
      [random_floor] for [Math.floor(Math.random() * n)];
      [toLowerCase], [toUpperCase] and [trim] on 8-bit strings (ASCII
      letters and 8-bit white space: JavaScript's Unicode case mappings
      and spaces beyond them are not modelled), [String(n)]
      of an integer ([js_string_of_Z], through the Standard Library's
      decimal numbers, with its reader [parse_Z]) and [padStart]; and the
      JavaScript [Map] and
      [Set] as association lists in insertion order ([map_get], [map_set],
      [map_delete], [map_alter], [set_add], ...), with their lemmas, the hint
      database [loki] and the shared tactics.
    - [Types]: [src/shared/types.ts]: phases, roles, strokes, settings, vote
      and round results, client and server messages, constants, and
      [GameError], one constructor per [throw] of the server.
    - [Player]: [Player.ts]; the colour of a new player for every index.
    - [ScoringEngine]: [ScoringEngine.ts]; [calculate] refines the per-player
      rule [round_points].
    - [TurnManager]: [TurnManager.ts]; the Fisher-Yates shuffle is a
      permutation for every stream; after [k] advances the index is
      [k mod n], the round [1 + k / n], and the sequencer is complete exactly
      from [n * rounds] advances on (a termination bound for the drawing
      phase).
    - [VotingManager]: [VotingManager.ts]; every error of [castVote], the
      ballot invariant, completion, and the one-pass plurality scan of
      [getResult] equal to a declarative reference.
    - [WordBank]: [WordBank.ts]; every category and word of the constructor,
      and [getRandomWord].
    - [GameRoom]: [GameRoom.ts]; the room record and every method in
      [stx]; the room as a state machine over method calls ([call], [run],
      [reachable]) with its invariant; the lobby-to-voting run for every
      roster and stream; [calculateScores] against the scoring rule.
    - [Router]: [messages.ts]; every case of [handleMessage] and the
      [setTimeout] callback over a [world] whose room objects live in a heap
      (callbacks keep their room object, as closures do); the outbox
      framework [sends_only]; the findings on the router.
    - [Server]: [index.ts]; connections, [send], [broadcast] and
      [wrappedSend], the message,
      close and timer events, runs of events; a timer callback that throws
      stops the process ([Err]).  [ServerScenarios] replays games.
    - [ClientState]: [gameState.ts] and [useGame.ts]: the client state
      record, the reducer [handleMessage] (one case per server message, with
      whether [notifyTurn] is called) and the user actions ([perform]: the
      state update, whether [connect] is called, the message sent); the
      spectator state and reducer of [SharedScreen.tsx].
    - [ClientUI]: the decisions and local state of the pages: [Home] (code
      field, buttons, the page's state over typing and clicks),
      [App.renderPage] (the page for a state), [Voting]
      (App's and the page's [hasVoted]), [Lobby] (settings form, start
      button, what the lobby shows), [ImposterGuess] (a state machine over typing, clicks, Enter
      and interval ticks, with the closure its [setInterval] captured),
      [PlayerList] (its rows, ringed for the current player),
      [Timer] and [GameBoard] (the drawing timer, [isMyTurn], the turn
      list, the props of its canvas: only the active player's is enabled,
      and the texts it renders), [SharedScreen] (what the shared screen
      renders) and [Scoreboard] (a stable sort by total, the winner, rows,
      buttons and the texts around the table).
    - [Canvas]: [useCanvas.ts] and [components/Canvas.tsx] as a state
      machine over pointer, render and resize events; the calls made on
      the 2D context form a trace, given a meaning by a small model of the
      Canvas API ([exec]: the segments and rectangles painted) and compared
      up to [pic_equiv], opaque marks of one colour in any order, with
      [Proper] instances for setoid rewriting; points are rationals, related
      up to [Qeq]. The drawer's live painting equals a replay of the stroke
      it emits, and the refs keep their invariant.
    - [AppFlow]: App's own flags and effects over time ([App.tsx] 29-55)
      with the reveal page's timeout ([RoleReveal.tsx]), and what the reveal
      page shows.
    - [Views]: what the remaining components show: the [m:ss] countdown
      of the voting and guess pages ([Clock]: minutes, a colon and two
      digits that read back as the seconds left); the [Timer] component's
      label, seconds, colour and percentage over the states its interval
      goes through ([TimerView]: with a clock that does not go back it
      shows 0 exactly when it has called [onComplete], and its seconds and
      colour never go back); the texts and buttons of [Voting] and
      [ImposterGuess] over their page states; the props and attributes of
      the [Canvas] component; App's error banner and fallback page
      ([AppView]: an error stays on screen until the next game start).
    - [Socket]: [useWebSocket.ts] as a state machine over socket events and
      calls; reconnection and the queue of a connecting socket.
    - [ClientServer]: theorems across both sides: the code typed is the code
      drawn, the client's players after [ROUND_RESULT] are the scored room's,
      the scoreboard's game-over agrees with [NEXT_ROUND], the lobby's start
      button and settings and the vote buttons are accepted by the room, the
      timed-out imposter guess, connections bound to no player, the
      spectator connection that is never written to, and the stale turn of
      the next round's reveal whose stroke the server refuses.

    ** Randomness, ids, numbers

    Every use of [Math.random] draws from an explicit [rng], every
    [randomUUID] from a stream of ids; every general theorem holds for every
    stream.  [Array.prototype.sort] with the random comparator of
    [assignRoles] is modelled as an insertion sort asking the comparator
    once per comparison; only its being a permutation is used.  The client's
    [[...players].sort] with a consistent comparator is stable (ES2019), so
    it is modelled by a stable insertion sort.  Scores,
    rounds and colour indices are [Z], list indices [nat]: the server only
    adds small integers, exact below 2^53.  No definition uses fuel: every
    loop of the code is over a list, and the client's timers are explicit
    events ([ImposterGuess.Tick], [Socket.fire_reconnect], [AppFlow.tick]
    with the time in milliseconds).  Canvas coordinates are JavaScript
    numbers, modelled as [Q]: exact arithmetic stands for IEEE doubles, and
    the theorems on normalised points assume a laid out element (no
    division by a zero width).  The timer's percentage is a [Q] as well;
    the seconds shown are integers and printed as JavaScript prints them.
    The sixty two-digit seconds fields of the clock are checked by
    evaluation.

    ** Findings

    START_GAME has no phase check, so two of them schedule two role-reveal
    callbacks and the second throws in a timer and stops the server
    ([Router.double_start_crash]); SUBMIT_GUESS is accepted from any
    player in any phase and scores the round again
    ([Router.submit_guess_rescores]); [startGame] changes the settings
    before a failing word draw; a colliding room code replaces a running
    room; closing the last connection of a room leaves its callback
    pending; with six or more players the second imposter is never scored.
    On the client: [connect] resets the retry counter, so [MAX_RETRIES]
    never stops reconnecting ([Socket.reconnect_never_stops]); the imposter
    page's interval submits the empty guess of its first render when time
    runs out ([ClientServer.imposter_timeout_discards_guess]); a reconnected
    socket is a new, unbound connection whose messages the server drops
    without reply ([ClientServer.unbound_connection_ignored]); the shared
    screen never names its room, so the server never writes to it
    ([ClientServer.spectator_receives_nothing]); the drawing timer's
    [onComplete] is empty, "handled by server", but no server path ends a
    turn on time ([ClientServer.draw_time_not_enforced]); [GAME_STARTING]
    does not reset [activePlayerId], so after [NEXT_ROUND] the last drawer
    may get an enabled canvas during [ROLE_REVEAL], and the server refuses
    its stroke ([ClientServer.stale_turn_stroke_refused]); the reveal
    page's timeout restarts at every message, because App passes it a new
    [onComplete] at every render ([AppFlow.reveal_restarts_on_message]);
    [pointercancel] submits the partial stroke.  The board's round label
    divides by the number of players, not of rounds
    ([GameBoard.round_label_counts_players]); a board shown before the
    first [TURN_START] reads "undefined's Turn"
    ([AppFlow.first_round_board_undefined]); a player who drew in the
    first drawing round is struck through while drawing again.  An error
    from the server stays in App's banner over every later page until
    the next game start ([AppView.error_banner_sticks]).

    ** Not modelled

    Styles and class names of the client (every page is modelled as the
    record of texts, flags and buttons it shows), [ColorBadge], which only
    styles a circle, and the SVG ring of [Timer], whose dash offset is a
    multiple of pi; the pixels of the canvas (anti-aliasing, the overdraw
    of a path stroked again), below the level of [exec]; the express app
    with its CORS headers, the health endpoint, JSON serialisation and
    logging of [index.ts], which are I/O and change no game state. *)

From Stdlib Require Import ZArith Lia.
From Stdlib Require DecimalString DecimalZ.
From stdpp Require Export base list sets strings.

Declare Scope loki_scope.
Delimit Scope loki_scope with loki.
Open Scope loki_scope.

Create HintDb loki discriminated.
Create Rewrite HintDb loki.

(** Close a goal after splitting on every [decide] in it. *)
Ltac decide_solve :=
  repeat case_decide; first [done | lia | set_solver | naive_solver].

(** Prove a decidable proposition on closed data by evaluating its decision. *)
Ltac decide_by_eval := apply (bool_decide_unpack _); vm_compute; exact I.

(** ** The error monad: a method either returns or throws. *)

Inductive result (E A : Type) : Type :=
  | Ok (a : A)
  | Err (e : E).
Arguments Ok {E A} a.
Arguments Err {E A} e.

Definition rbind {E A B} (m : result E A) (k : A -> result E B) : result E B :=
  match m with
  | Ok a => k a
  | Err e => Err e
  end.

(** [throw_if c e] is [if (c) throw e]. *)
Definition throw_if {E} (c : bool) (e : E) : result E unit :=
  if c then Err e else Ok tt.

Notation "x <- m ;; k" := (rbind m (fun x => k))
  (at level 100, m at next level, right associativity) : loki_scope.

Lemma rbind_Ok {E A B} (a : A) (k : A -> result E B) : rbind (Ok a) k = k a.
Proof. reflexivity. Qed.

Lemma rbind_Err {E A B} (e : E) (k : A -> result E B) : rbind (Err e) k = Err e.
Proof. reflexivity. Qed.

Lemma rbind_Ok_inv {E A B} (m : result E A) (k : A -> result E B) b :
  rbind m k = Ok b -> exists a, m = Ok a /\ k a = Ok b.
Proof. destruct m; simpl; [eauto | discriminate]. Qed.

Lemma throw_if_Ok {E} c (e : E) : throw_if c e = Ok tt <-> c = false.
Proof. destruct c; simpl; split; congruence. Qed.

#[export] Hint Rewrite @rbind_Ok @rbind_Err : loki.

(** ** Methods of a mutable object that may throw

    A JavaScript method mutates its object and may throw part-way: the
    mutations made before the [throw] stay.  [stx S E A] is such a method on
    an object of type [S]: it returns the result (or the error) and the
    object as it is afterwards, in both cases. *)

Definition stx (S E A : Type) : Type := S -> result E A * S.

Definition sret {S E A} (a : A) : stx S E A := fun s => (Ok a, s).
Definition sthrow {S E A} (e : E) : stx S E A := fun s => (Err e, s).
Definition sbind {S E A B} (m : stx S E A) (k : A -> stx S E B) : stx S E B :=
  fun s => match m s with
           | (Ok a, s') => k a s'
           | (Err e, s') => (Err e, s')
           end.
Definition sget {S E} : stx S E S := fun s => (Ok s, s).
Definition smodify {S E} (f : S -> S) : stx S E unit := fun s => (Ok tt, f s).
Definition slift {S E A} (r : result E A) : stx S E A := fun s => (r, s).

Notation "'let*' x ':=' m 'in' k" := (sbind m (fun x => k))
  (at level 10, x name, m at level 100, k at level 200) : loki_scope.

Lemma sbind_ret {S E A B} (a : A) (k : A -> stx S E B) s : sbind (sret a) k s = k a s.
Proof. reflexivity. Qed.

Lemma sbind_assoc {S E A B C} (m : stx S E A) (k1 : A -> stx S E B) (k2 : B -> stx S E C) s :
  sbind (sbind m k1) k2 s = sbind m (fun a => sbind (k1 a) k2) s.
Proof. unfold sbind. by destruct (m s) as [[a|e] s']. Qed.

Lemma sbind_get {S E B} (k : S -> stx S E B) s : sbind sget k s = k s s.
Proof. reflexivity. Qed.

Lemma sbind_modify {S E B} (f : S -> S) (k : unit -> stx S E B) s :
  sbind (smodify f) k s = k tt (f s).
Proof. reflexivity. Qed.

Create Rewrite HintDb stx.
#[export] Hint Rewrite @sbind_assoc @sbind_get @sbind_modify @sbind_ret : stx.

Lemma sbind_Ok {S E A B} (m : stx S E A) (k : A -> stx S E B) s a s' :
  m s = (Ok a, s') -> sbind m k s = k a s'.
Proof. unfold sbind. by intros ->. Qed.

Lemma sbind_Err {S E A B} (m : stx S E A) (k : A -> stx S E B) s e s' :
  m s = (Err e, s') -> sbind m k s = (Err e, s').
Proof. unfold sbind. by intros ->. Qed.

(** A property of the state that a computation keeps, whether it returns
    or throws. *)
Section Keeps.
Context {S E : Type} (Q : S -> Prop).

Definition keeps {A} (m : stx S E A) : Prop := forall s, Q s -> Q (m s).2.

Lemma keeps_ret {A} (a : A) : keeps (sret a).
Proof. by intros s. Qed.

Lemma keeps_throw {A} (e : E) : keeps (A:=A) (sthrow e).
Proof. by intros s. Qed.

Lemma keeps_get : keeps sget.
Proof. by intros s. Qed.

Lemma keeps_lift {A} (r : result E A) : keeps (slift r).
Proof. by intros s. Qed.

Lemma keeps_modify (f : S -> S) : (forall s, Q s -> Q (f s)) -> keeps (smodify f).
Proof. intros Hf s. apply Hf. Qed.

Lemma keeps_bind {A B} (m : stx S E A) (k : A -> stx S E B) :
keeps m -> (forall a, keeps (k a)) -> keeps (sbind m k).
Proof.
intros Hm Hk s Hs. unfold sbind. specialize (Hm s Hs).
destruct (m s) as [[a|e] s']; [by apply Hk | done].
Qed.
End Keeps.

#[export] Hint Resolve keeps_ret keeps_throw keeps_get keeps_lift : loki.

(** ** [String.prototype.toLowerCase] on ASCII letters. *)
Definition ascii_lower (c : Ascii.ascii) : Ascii.ascii :=
  let n := Ascii.nat_of_ascii c in
  if (65 <=? n) && (n <=? 90) then Ascii.ascii_of_nat (n + 32) else c.

Fixpoint string_lower (s : string) : string :=
  match s with
  | EmptyString => EmptyString
  | String c s' => String (ascii_lower c) (string_lower s')
  end.

(** [String.prototype.toUpperCase] on ASCII letters. *)
Definition ascii_upper (c : Ascii.ascii) : Ascii.ascii :=
  let n := Ascii.nat_of_ascii c in
  if (97 <=? n) && (n <=? 122) then Ascii.ascii_of_nat (n - 32) else c.

Fixpoint string_upper (s : string) : string :=
  match s with
  | EmptyString => EmptyString
  | String c s' => String (ascii_upper c) (string_upper s')
  end.

(** The white space [String.prototype.trim] removes, among the 8-bit
    characters: tab, line feed, vertical tab, form feed, carriage return,
    space and no-break space. *)
Definition is_space (c : Ascii.ascii) : bool :=
  let n := Ascii.nat_of_ascii c in
  ((9 <=? n) && (n <=? 13)) || (n =? 32) || (n =? 160).

Fixpoint trim_start (s : string) : string :=
  match s with
  | EmptyString => EmptyString
  | String c s' => if is_space c then trim_start s' else s
  end.

Definition string_rev (s : string) : string :=
  String.string_of_list_ascii (rev (String.list_ascii_of_string s)).

(** [String.prototype.trim] *)
Definition trim (s : string) : string := string_rev (trim_start (string_rev (trim_start s))).

(** An upper-case ASCII letter. *)
Definition is_upper (c : Ascii.ascii) : bool :=
  let n := Ascii.nat_of_ascii c in (65 <=? n) && (n <=? 90).

Lemma ascii_upper_lower c : is_upper c = true -> ascii_upper (ascii_lower c) = c.
Proof.
  unfold is_upper, ascii_upper, ascii_lower. intros Hc.
  rewrite Hc. rewrite Ascii.nat_ascii_embedding by (apply andb_prop in Hc as [H1 H2];
    apply Nat.leb_le in H2; lia).
  apply andb_prop in Hc as [H1 H2]. apply Nat.leb_le in H1, H2.
  replace ((97 <=? _) && (_ <=? 122)) with true
    by (symmetry; apply andb_true_intro; split; apply Nat.leb_le; lia).
  replace (Ascii.nat_of_ascii c + 32 - 32) with (Ascii.nat_of_ascii c) by lia.
  apply Ascii.ascii_nat_embedding.
Qed.

Lemma ascii_upper_id c : is_upper c = true -> ascii_upper c = c.
Proof.
  unfold is_upper, ascii_upper. intros Hc. apply andb_prop in Hc as [H1 H2]. apply Nat.leb_le in H1, H2.
  replace ((97 <=? _) && (_ <=? 122)) with false; [done |].
  symmetry. apply andb_false_iff. left. apply Nat.leb_gt. lia.
Qed.

Lemma is_upper_not_space c : is_upper c = true -> is_space c = false.
Proof.
  unfold is_upper, is_space. intros Hc. apply andb_prop in Hc as [H1 H2]. apply Nat.leb_le in H1, H2.
  apply orb_false_iff. split; [apply orb_false_iff; split |].
  - apply andb_false_iff. right. apply Nat.leb_gt. lia.
  - apply Nat.eqb_neq. lia.
  - apply Nat.eqb_neq. lia.
Qed.

(** Upper-case words are left alone by [toUpperCase], [trim] and [slice]. *)
Lemma string_upper_id s : forallb is_upper (String.list_ascii_of_string s) = true -> string_upper s = s.
Proof.
  induction s as [|c s IH]; simpl; [done |]. intros [Hc Hs]%andb_prop.
  by rewrite ascii_upper_id, IH.
Qed.

Lemma trim_start_upper s : forallb is_upper (String.list_ascii_of_string s) = true -> trim_start s = s.
Proof. destruct s as [|c s]; simpl; [done |]. intros [Hc _]%andb_prop. by rewrite is_upper_not_space. Qed.

(** ** [String(n)] for an integer [n], and [String.prototype.padStart] *)

(** The decimal digits of [n], after a ['-'] when it is negative. *)
Definition js_string_of_Z (n : Z) : string := DecimalString.NilEmpty.string_of_int (Z.to_int n).

(** Reading such a text back. *)
Definition parse_Z (s : string) : option Z := Z.of_int <$> DecimalString.NilEmpty.int_of_string s.

Lemma parse_js_string_of_Z n : parse_Z (js_string_of_Z n) = Some n.
Proof. unfold parse_Z, js_string_of_Z. rewrite DecimalString.NilEmpty.isi. cbn. by rewrite DecimalZ.of_to. Qed.

Lemma js_string_of_Z_inj n m : js_string_of_Z n = js_string_of_Z m -> n = m.
Proof. intros H. apply (f_equal parse_Z) in H. rewrite !parse_js_string_of_Z in H. congruence. Qed.

(** [s.padStart(n, c)] with a one-character [c]. *)
Definition padStart (n : nat) (c : Ascii.ascii) (s : string) : string :=
  String.string_of_list_ascii (replicate (n - String.length s) c) ++ s.

Definition is_digit (c : Ascii.ascii) : bool :=
  let n := Ascii.nat_of_ascii c in (48 <=? n) && (n <=? 57).

Lemma string_of_uint_digits d :
  forallb is_digit (String.list_ascii_of_string (DecimalString.NilEmpty.string_of_uint d)) = true.
Proof. induction d; cbn; rewrite ?IHd; done. Qed.

(** A non-negative number prints as digits only. *)
Lemma js_string_of_Z_digits n :
  (0 <= n)%Z -> forallb is_digit (String.list_ascii_of_string (js_string_of_Z n)) = true.
Proof. intros Hn. destruct n; [done | apply string_of_uint_digits | lia]. Qed.

Lemma string_rev_involutive s : string_rev (string_rev s) = s.
Proof.
  unfold string_rev. rewrite String.list_ascii_of_string_of_list_ascii, rev_involutive.
  apply String.string_of_list_ascii_of_string.
Qed.

Lemma string_rev_upper s :
  forallb is_upper (String.list_ascii_of_string s) = true ->
  forallb is_upper (String.list_ascii_of_string (string_rev s)) = true.
Proof.
  unfold string_rev. rewrite String.list_ascii_of_string_of_list_ascii, !forallb_forall.
  intros H c Hc. apply H, in_rev, Hc.
Qed.

Lemma trim_upper s : forallb is_upper (String.list_ascii_of_string s) = true -> trim s = s.
Proof.
  intros H. unfold trim. rewrite (trim_start_upper s H), trim_start_upper by by apply string_rev_upper.
  apply string_rev_involutive.
Qed.

Lemma substring_app_length s rest : String.substring 0 (String.length s) (s ++ rest) = s.
Proof. induction s as [|c s IH]; simpl; [by destruct rest | by rewrite IH]. Qed.


(** ** [Math.random()]

    V8 draws [Math.random()] as [k / 2^53] for a 53-bit integer [k].  A
    random source is the stream of those integers; [rng_next] takes one. *)

Definition rng := nat -> Z.

Section Random.
Local Open Scope Z_scope.

Definition RANDOM_BITS : Z := 2 ^ 53.

Definition rng_next (g : rng) : Z * rng := (g O mod RANDOM_BITS, fun n => g (S n)).

(** [Math.floor(Math.random() * n)] for the draw [r]. *)
Definition random_floor (r n : Z) : Z := r * n / RANDOM_BITS.

Lemma rng_next_bound g : 0 <= fst (rng_next g) < RANDOM_BITS.
Proof. unfold rng_next, RANDOM_BITS; simpl. apply Z.mod_pos_bound. lia. Qed.

Lemma random_floor_bounds r n :
0 <= r < RANDOM_BITS -> 0 < n -> 0 <= random_floor r n < n.
Proof.
unfold random_floor, RANDOM_BITS. intros Hr Hn. split.
- apply Z.div_pos; nia.
- apply Z.div_lt_upper_bound; nia.
Qed.
End Random.

(** ** JavaScript [Map]: an association list in insertion order.

    [set] on a present key replaces the value in place; on a new key it
    appends; [delete] removes the entry; iteration is in list order. *)

Section JsMap.
Context {K V : Type} `{EqDecision K}.

Fixpoint map_get (k : K) (m : list (K * V)) : option V :=
match m with
| [] => None
| (k', v) :: m' => if decide (k = k') then Some v else map_get k m'
end.

Definition map_has (k : K) (m : list (K * V)) : bool :=
match map_get k m with Some _ => true | None => false end.

Fixpoint map_set (k : K) (v : V) (m : list (K * V)) : list (K * V) :=
match m with
| [] => [(k, v)]
| (k', v') :: m' =>
if decide (k = k') then (k, v) :: m' else (k', v') :: map_set k v m'
end.

Definition map_delete (k : K) (m : list (K * V)) : list (K * V) :=
filter (fun p => p.1 <> k) m.

(** [m.get(k)] followed by a mutation of the object found, in place. *)
Definition map_alter (f : V -> V) (k : K) (m : list (K * V)) : list (K * V) :=
map (fun p => if decide (p.1 = k) then (p.1, f p.2) else p) m.

Definition map_keys (m : list (K * V)) : list K := map fst m.

Lemma map_get_set_eq k v m : map_get k (map_set k v m) = Some v.
Proof.
induction m as [|[k' v'] m IH]; simpl; [by rewrite decide_True |].
case_decide; simpl; [by rewrite decide_True | by rewrite decide_False].
Qed.

(** Writing back the value found leaves the map as it is. *)
Lemma map_set_same k v m : map_get k m = Some v -> map_set k v m = m.
Proof.
induction m as [|[k' v'] m IH]; simpl; [done |].
case_decide; [by intros [= ->]; subst | intros Hg; by rewrite IH].
Qed.

Lemma map_set_twice k v v' m : map_set k v (map_set k v' m) = map_set k v m.
Proof.
induction m as [|[k' v0] m IH]; simpl; [by rewrite decide_True |].
case_decide; simpl; [by rewrite decide_True | rewrite decide_False by done; by rewrite IH].
Qed.

Lemma map_get_set_ne k k' v m : k <> k' -> map_get k' (map_set k v m) = map_get k' m.
Proof.
intros Hne. induction m as [|[k0 v0] m IH]; simpl.
- by rewrite decide_False.
- case_decide as Hk; simpl.
+ subst. by rewrite !decide_False.
+ case_decide; [done | exact IH].
Qed.

Lemma map_get_In k m v : map_get k m = Some v -> k ∈ map_keys m.
Proof.
induction m as [|[k' v'] m IH]; simpl; [done |].
case_decide; intros Hg; subst; [left | right; auto].
Qed.

Lemma map_get_In_value k m v : map_get k m = Some v -> (k, v) ∈ m.
Proof.
induction m as [|[k' v'] m IH]; simpl; [done |].
case_decide; intros Hg; simplify_eq; [left | right; auto].
Qed.

Lemma map_get_None k m : map_get k m = None <-> k ∉ map_keys m.
Proof.
induction m as [|[k' v'] m IH]; simpl; [set_solver |].
case_decide; subst; [set_solver |]. rewrite IH. set_solver.
Qed.

Lemma map_keys_set_new k v m : k ∉ map_keys m -> map_keys (map_set k v m) = map_keys m ++ [k].
Proof.
induction m as [|[k' v'] m IH]; simpl; [done |].
intros Hk. rewrite decide_False by set_solver. simpl. f_equal. apply IH. set_solver.
Qed.

Lemma map_keys_set_old k v m : k ∈ map_keys m -> map_keys (map_set k v m) = map_keys m.
Proof.
induction m as [|[k' v'] m IH]; simpl; [set_solver |].
intros Hk. case_decide; simpl; subst; [done |]. f_equal. apply IH. set_solver.
Qed.

Lemma map_keys_set_NoDup k v m : NoDup (map_keys m) -> NoDup (map_keys (map_set k v m)).
Proof.
destruct (decide (k ∈ map_keys m)) as [Hin|Hin].
- by rewrite map_keys_set_old.
- rewrite map_keys_set_new by done. intros Hnd. apply NoDup_app.
split; [done | split; [set_solver | apply NoDup_singleton]].
Qed.

Lemma map_keys_delete k m : map_keys (map_delete k m) = filter (fun k' => k' <> k) (map_keys m).
Proof.
induction m as [|[k' v'] m IH]; [done |]. unfold map_delete in *. simpl.
rewrite !filter_cons. simpl. case_decide; simpl; by rewrite IH.
Qed.

Lemma map_set_length k v m : length (map_set k v m) <= S (length m).
Proof.
rewrite <- !(length_map fst). fold (map_keys (map_set k v m)) (map_keys m).
destruct (decide (k ∈ map_keys m)).
- rewrite map_keys_set_old by done. lia.
- rewrite map_keys_set_new, length_app by done. simpl. lia.
Qed.

Lemma map_delete_length k m : length (map_delete k m) <= length m.
Proof. apply length_filter. Qed.

Lemma map_keys_delete_NoDup k m : NoDup (map_keys m) -> NoDup (map_keys (map_delete k m)).
Proof. rewrite map_keys_delete. apply NoDup_filter. Qed.

Lemma map_get_delete_eq k m : map_get k (map_delete k m) = None.
Proof. apply map_get_None. rewrite map_keys_delete. intros Hk%list_elem_of_filter. naive_solver. Qed.

Lemma map_keys_alter f k m : map_keys (map_alter f k m) = map_keys m.
Proof.
unfold map_keys, map_alter. rewrite map_map. apply map_ext. intros [k' v']. simpl.
by case_decide.
Qed.

Lemma map_get_alter_eq f k m : map_get k (map_alter f k m) = f <$> map_get k m.
Proof.
induction m as [|[k' v'] m IH]; [done |]. simpl.
repeat (case_decide; simplify_eq/=); done.
Qed.

Lemma map_get_alter_ne f k k' m : k <> k' -> map_get k' (map_alter f k m) = map_get k' m.
Proof.
intros Hne. induction m as [|[k0 v0] m IH]; [done |]. simpl.
repeat (case_decide; simplify_eq/=); done.
Qed.
(** Properties of every entry, through [set], [delete] and in-place mutation. *)
Lemma Forall_map_set (P : K -> V -> Prop) k v m :
Forall (fun e => P e.1 e.2) m -> P k v -> Forall (fun e => P e.1 e.2) (map_set k v m).
Proof.
induction m as [|[k' v'] m IH]; intros Hm Hp; simpl; [by constructor |].
apply Forall_cons in Hm as [H1 H2]. case_decide; constructor; auto.
Qed.

Lemma Forall_map_delete (P : K -> V -> Prop) k m :
Forall (fun e => P e.1 e.2) m -> Forall (fun e => P e.1 e.2) (map_delete k m).
Proof.
rewrite !Forall_forall. intros Hm e He. apply list_elem_of_filter in He as [_ He]. by apply Hm.
Qed.

Lemma Forall_map_alter (P : K -> V -> Prop) f k m :
(forall v, P k v -> P k (f v)) ->
Forall (fun e => P e.1 e.2) m -> Forall (fun e => P e.1 e.2) (map_alter f k m).
Proof.
intros Hf Hm. apply Forall_fmap, (Forall_impl _ _ _ Hm). intros [k' v'] H. simpl in *.
case_decide; simplify_eq/=; auto.
Qed.

(** With distinct keys, an entry of the list is what [get] finds. *)
Lemma map_get_NoDup_elem k v m : NoDup (map_keys m) -> (k, v) ∈ m -> map_get k m = Some v.
Proof.
induction m as [|[k' v'] m IH]; intros Hnd Hin; [set_solver |]. simpl in Hnd |- *.
apply NoDup_cons in Hnd as [Hk' Hnd]. apply elem_of_cons in Hin as [[= -> ->]|Hin].
- by rewrite decide_True.
- rewrite decide_False; [by apply IH |]. intros Heq. subst k'. apply Hk', list_elem_of_fmap. by exists (k, v).
Qed.
(** The values of a map after [set] and [delete]. *)
Lemma map_set_values k v m x : x ∈ map snd (map_set k v m) -> x = v \/ x ∈ map snd m.
Proof.
induction m as [|[k' v'] m IH]; simpl; [set_solver |].
case_decide; simpl; rewrite !elem_of_cons; [set_solver |].
intros [->|Hx]; [by right; left | destruct (IH Hx); [by left | by right; right]].
Qed.

Lemma map_delete_values k m x : x ∈ map snd (map_delete k m) -> x ∈ map snd m.
Proof.
intros (e & -> & He)%list_elem_of_fmap. apply list_elem_of_filter in He as [_ He].
by apply list_elem_of_fmap_2.
Qed.
End JsMap.

Lemma filter_empty_intro {A} (P : A -> Prop) `{forall x, Decision (P x)} (l : list A) :
  (forall x, x ∈ l -> ~ P x) -> filter P l = [].
Proof.
  induction l as [|x l IH]; intros Hl; [done |]. rewrite filter_cons.
  rewrite decide_False by set_solver. apply IH. set_solver.
Qed.

Lemma NoDup_singleton_of {A} (l : list A) x :
  NoDup l -> x ∈ l -> (forall y, y ∈ l -> y = x) -> l = [x].
Proof.
  destruct l as [|a l]; [set_solver |]. intros Hnd Hx Hall.
  pose proof (Hall a ltac:(set_solver)) as ->. apply NoDup_cons in Hnd as [Hn _].
  destruct l as [|b l]; [done |]. pose proof (Hall b ltac:(set_solver)) as ->. set_solver.
Qed.

Lemma NoDup_two_iff {A} (l : list A) :
  NoDup l -> 1 < length l <-> exists a b, a ∈ l /\ b ∈ l /\ a <> b.
Proof.
  intros Hnd. split.
  - destruct l as [|a [|b l]]; simpl; intros Hl; [lia | lia |].
    apply NoDup_cons in Hnd as [Hn _]. exists a, b. set_solver.
  - intros (a & b & Ha & Hb & Hab). destruct l as [|x [|y l]]; simpl; [set_solver | | lia].
    apply list_elem_of_singleton in Ha, Hb. congruence.
Qed.

(** The graph of [f] over the keys [S], as an association list. *)
Definition graph {K V} (f : K -> V) (S : list K) : list (K * V) := map (fun p => (p, f p)) S.

Section Graph.
Context {K V : Type} `{EqDecision K}.

Lemma graph_get (f : K -> V) S k :
map_get k (graph f S) = if decide (k ∈ S) then Some (f k) else None.
Proof.
induction S as [|x S IH]; simpl; [decide_solve |].
rewrite IH. repeat case_decide; subst; set_solver.
Qed.

Lemma graph_values (f : K -> V) S : map snd (graph f S) = map f S.
Proof. unfold graph. by rewrite map_map. Qed.

Lemma graph_keys (f : K -> V) S : map_keys (graph f S) = S.
Proof. unfold map_keys, graph. rewrite map_map. apply map_id. Qed.

Lemma map_set_new_app (k : K) (v : V) m : k ∉ map_keys m -> map_set k v m = m ++ [(k, v)].
Proof.
induction m as [|[k' v'] m IH]; simpl; [done |]. intros Hk.
rewrite decide_False by set_solver. f_equal. apply IH. set_solver.
Qed.

Lemma graph_set_in (f : K -> V) S k v :
NoDup S -> k ∈ S ->
map_set k v (graph f S) = graph (fun p => if decide (p = k) then v else f p) S.
Proof.
induction S as [|x S IH]; intros Hnd Hk; [set_solver |].
apply NoDup_cons in Hnd as [Hx Hnd]. simpl. case_decide as Hkx.
- subst. rewrite decide_True by done. f_equal. unfold graph. apply map_ext_in.
intros p Hp%list_elem_of_In. rewrite decide_False; [done | set_solver].
- rewrite decide_False by congruence. f_equal. apply IH; [done | set_solver].
Qed.
End Graph.

#[export] Hint Rewrite @map_get_set_eq @map_get_delete_eq @map_keys_alter
  @map_get_alter_eq : loki.
#[export] Hint Resolve map_keys_set_NoDup map_keys_delete_NoDup : loki.

(** ** JavaScript [Set]: a duplicate-free list in insertion order. *)

Section JsSet.
Context {K : Type} `{EqDecision K}.

Definition set_add (x : K) (s : list K) : list K :=
if decide (x ∈ s) then s else s ++ [x].

Definition set_remove (x : K) (s : list K) : list K := filter (fun y => y <> x) s.

(** [new Set(array)] *)
Definition set_of_list (l : list K) : list K := foldl (fun s x => set_add x s) [] l.

Lemma set_add_NoDup x s : NoDup s -> NoDup (set_add x s).
Proof.
unfold set_add. case_decide; [done |]. intros Hnd. apply NoDup_app.
split; [done | split; [set_solver | apply NoDup_singleton]].
Qed.

Lemma elem_of_set_add y x s : y ∈ set_add x s <-> y = x \/ y ∈ s.
Proof. unfold set_add. case_decide; set_solver. Qed.

Lemma set_of_list_spec l :
NoDup (set_of_list l) /\ (forall y, y ∈ set_of_list l <-> y ∈ l).
Proof.
unfold set_of_list.
cut (forall s, NoDup s -> NoDup (foldl (fun s x => set_add x s) s l) /\
forall y, y ∈ foldl (fun s x => set_add x s) s l <-> y ∈ s \/ y ∈ l).
{ intros H. destruct (H [] (NoDup_nil_2)) as [H1 H2]. split; [done |].
intros y. rewrite H2. set_solver. }
induction l as [|x l IH]; intros s Hs; simpl; [split; [done | set_solver] |].
destruct (IH (set_add x s)) as [H1 H2]; [by apply set_add_NoDup |].
split; [done |]. intros y. rewrite H2, elem_of_set_add. set_solver.
Qed.

Lemma set_of_list_NoDup_id l : NoDup l -> set_of_list l = l.
Proof.
unfold set_of_list.
cut (forall s, NoDup (s ++ l) -> foldl (fun s x => set_add x s) s l = s ++ l).
{ intros H Hnd. by apply (H []). }
induction l as [|x l IH]; intros s Hnd; simpl; [by rewrite app_nil_r |].
unfold set_add at 2. rewrite decide_False.
- rewrite IH; [by rewrite <- app_assoc | by rewrite <- app_assoc].
- apply NoDup_app in Hnd as (_ & Hd & _). intros Hx. apply (Hd x Hx). set_solver.
Qed.

Lemma set_of_list_snoc l x : set_of_list (l ++ [x]) = set_add x (set_of_list l).
Proof. unfold set_of_list. by rewrite foldl_app. Qed.

Lemma elem_of_set_of_list y l : y ∈ set_of_list l <-> y ∈ l.
Proof. apply set_of_list_spec. Qed.

Lemma set_of_list_NoDup l : NoDup (set_of_list l).
Proof. apply set_of_list_spec. Qed.
End JsSet.
