(* ===== verification/Types.v ===== *)
(** * Types: the shared data model of [src/shared/types.ts]

    Phases, roles, role assignments, strokes, settings, vote and round
    results, the client and server messages and the constants, with the
    error values that the server's methods throw.  Records that share field
    names in the source ([playerId]) are kept apart by one [Module] each. *)

From Stdlib Require Import ZArith QArith.
From S2P Require Import Prelude.

Local Open Scope string_scope.

(** ** Game phases (types.ts 2-8) *)
Inductive GamePhase :=
  | LOBBY
  | ROLE_REVEAL
  | DRAWING
  | VOTING
  | IMPOSTER_GUESS
  | SCOREBOARD.

#[export] Instance GamePhase_eq_dec : EqDecision GamePhase.
Proof. solve_decision. Defined.

(** ** Player data sent to clients (types.ts 11-18) *)
Module PlayerData.
Record t := mk {
id : string;
name : string;
color : string;
isHost : bool;
isReady : bool;
score : Z
}.
End PlayerData.

(** ** Roles (types.ts 20-26) *)
Inductive Role := artist | imposter.

#[export] Instance Role_eq_dec : EqDecision Role.
Proof. solve_decision. Defined.

Module RoleAssignment.
Record t := mk {
playerId : string;
role : Role;
word : option string   (** [null] for the imposter *)
}.
End RoleAssignment.

(** ** Strokes (types.ts 29-40); coordinates are normalised numbers. *)
Module Point.
Record t := mk { x : Q; y : Q }.
End Point.

Module Stroke.
Record t := mk {
playerId : string;
color : string;
points : list Point.t;
brushSize : Z;
timestamp : Z
}.

(** [{ ...stroke, playerId }] (messages.ts 160) *)
Definition with_playerId (s : t) (pid : string) : t :=
mk pid (color s) (points s) (brushSize s) (timestamp s).
End Stroke.

(** ** Settings (types.ts 43-58) *)
Inductive CanvasMode := shared | individual.

Module GameSettings.
Record t := mk {
category : string;
customWord : option string;   (** optional field: [undefined] is [None] *)
drawTimeLimit : Z;
rounds : Z;
canvasMode : CanvasMode;
winScore : Z
}.
End GameSettings.

Definition DEFAULT_SETTINGS : GameSettings.t :=
  GameSettings.mk "random" None 20 2 shared 10.

(** The truthiness of an optional string ([if (settings.customWord)] and
    [settings.customWord || ...]): [undefined] and [""] are falsy. *)
Definition truthy_string (o : option string) : option string :=
  match o with
  | Some s => if decide (s = "") then None else Some s
  | None => None
  end.

Lemma truthy_Some (s : string) : s <> "" -> truthy_string (Some s) = Some s.
Proof. intros Hs. simpl. by rewrite decide_False. Qed.

(** ** Voting and scoring results (types.ts 61-75).  A [Record<string, T>]
    keyed by player ids (never array-index strings) iterates in insertion
    order, so it is an association list like a [Map]. *)
Module VoteResult.
Record t := mk {
votes : list (string * string);
caughtPlayerId : option string;
isTie : bool
}.
End VoteResult.

Module RoundResult.
Record t := mk {
scores : list (string * Z);
totalScores : list (string * Z);
imposterId : string;
imposterCaught : bool;
imposterGuessCorrect : option bool;
secretWord : option string   (** [this.secretWord!]: [null] if no word was set *)
}.
End RoundResult.

(** ** The serialised room (types.ts 78-89) *)
Module GameState.
Record t := mk {
roomCode : string;
phase : GamePhase;
players : list PlayerData.t;
settings : GameSettings.t;
currentRound : Z;
currentTurnIndex : nat;
turnOrder : list string;
activePlayerId : option string;
strokes : list Stroke.t
}.
End GameState.

(** ** Messages (types.ts 92-122) *)
Inductive ClientMessage :=
  | CREATE_GAME (hostName : string)
  | JOIN_GAME (roomCode : string) (playerName : string)
  | PLAYER_READY
  | START_GAME (settings : GameSettings.t)
  | SUBMIT_STROKE (stroke : Stroke.t)
  | SUBMIT_VOTE (votedPlayerId : string)
  | SUBMIT_GUESS (word : string)
  | NEXT_ROUND
  | REQUEST_TIMEOUT
  | CANCEL_TIMEOUT
  | PLAY_AGAIN.

Inductive ServerMessage :=
  | GAME_CREATED (roomCode : string) (player : PlayerData.t)
  | PLAYER_JOINED (player : PlayerData.t) (players : list PlayerData.t)
  | PLAYER_LEFT (playerId : string) (players : list PlayerData.t)
  | PLAYER_READY_UPDATE (playerId : string) (isReady : bool) (players : list PlayerData.t)
  | GAME_STARTING (role : Role) (word : option string) (turnOrder : list string)
      (players : list PlayerData.t) (settings : GameSettings.t)
  | TURN_START (activePlayerId : option string) (round : Z) (timeLimit : Z)
  | STROKE_BROADCAST (stroke : Stroke.t)
  | TURN_TIMEOUT (playerId : string)
  | VOTING_START (players : list PlayerData.t)
  | VOTE_CAST (voterId : string)
  | VOTE_RESULT (votes : list (string * string)) (caughtPlayerId : option string) (isTie : bool)
  | IMPOSTER_GUESS_PHASE (imposterId : string)
  | ROUND_RESULT (result : RoundResult.t)
  | RETURN_TO_LOBBY (players : list PlayerData.t)
  | TIMEOUT_UPDATE (timeoutPlayerIds : list string)
  | ERROR (message : string).

(** ** Constants (types.ts 125-141) *)
Definition PLAYER_COLORS : list string :=
  ["#E74C3C"; "#3498DB"; "#2ECC71"; "#F39C12"; "#9B59B6"; "#1ABC9C"; "#E67E22"; "#34495E"].

Definition ROLE_REVEAL_DURATION : Z := 5000.
Definition VOTING_DURATION : Z := 30000.
Definition IMPOSTER_GUESS_DURATION : Z := 20000.
Definition MIN_PLAYERS : nat := 3.
Definition MAX_PLAYERS : nat := 8.
Definition WIN_SCORE : Z := 10.

(** ** The errors the server's methods throw, one per [throw new Error]
    (and the [TypeError] of a non-null assertion on [undefined]). *)
Inductive GameError :=
  | NotInLobby            (** GameRoom.ts 63 *)
  | RoomFull              (** GameRoom.ts 66 *)
  | NotEnoughPlayers      (** GameRoom.ts 97 *)
  | NotAllReady           (** GameRoom.ts 102 *)
  | CategoryNotFound (category : string)   (** WordBank.ts 243 *)
  | NotRoleReveal         (** GameRoom.ts 152 *)
  | NotDrawing            (** GameRoom.ts 159 *)
  | NoTurnManager         (** GameRoom.ts 162 *)
  | NotYourTurn           (** GameRoom.ts 167 *)
  | VotingNotStarted      (** GameRoom.ts 188, 200, 216 *)
  | NoSecretWord          (** GameRoom.ts 207 *)
  | NoRoleAssignment (playerId : string)   (** GameRoom.ts 281 *)
  | InvalidVoter          (** VotingManager.ts 17 *)
  | InvalidTarget         (** VotingManager.ts 22 *)
  | SelfVote              (** VotingManager.ts 27 *)
  | AlreadyVoted          (** VotingManager.ts 32 *)
  | UndefinedPlayerId     (** [find(...)!.playerId] on [undefined] *)
  | NullProperty (prop : string).   (** [x!.prop] on [null] (messages.ts 122, 133) *)

#[export] Instance GameError_eq_dec : EqDecision GameError.
Proof. solve_decision. Defined.

Definition error_message (e : GameError) : string :=
  match e with
  | NotInLobby => "Can only join during LOBBY phase"
  | RoomFull => "Room is full"
  | NotEnoughPlayers => "Need at least 3 players to start"
  | NotAllReady => "All players must be ready to start"
  | CategoryNotFound c => "Category '" ++ c ++ "' not found"
  | NotRoleReveal => "Can only start drawing from ROLE_REVEAL phase"
  | NotDrawing => "Can only submit strokes during DRAWING phase"
  | NoTurnManager => "Turn manager not initialized"
  | NotYourTurn => "Not your turn"
  | VotingNotStarted => "Voting has not started"
  | NoSecretWord => "No secret word set"
  | NoRoleAssignment p => "No role assignment found for player " ++ p
  | InvalidVoter => "Voter is not a valid player"
  | InvalidTarget => "Voted-for player is not valid"
  | SelfVote => "Cannot vote for self"
  | AlreadyVoted => "Player has already voted"
  | UndefinedPlayerId => "Cannot read properties of undefined (reading 'playerId')"
  | NullProperty p => "Cannot read properties of null (reading '" ++ p ++ "')"
  end.

(** The server's methods: they return or throw a [GameError]. *)
Abbreviation res := (result GameError).
