(* ===== verification/Player.v ===== *)
(** * Player: [src/server/src/Player.ts]

    A player is a record; the constructor takes the [randomUUID] id as an
    argument and normalises the colour index with JavaScript's remainder
    ([%] is [Z.rem]: its sign follows the dividend).  The theorems show that
    the normalised index is the Euclidean residue, hence always a valid
    index of the palette, and that colours cycle with the join order. *)

From Stdlib Require Import ZArith Lia.
From S2P Require Import Prelude Types.

Local Open Scope Z_scope.

Module Player.
Record t := mk {
id : string;
name : string;
color : string;
isHost : bool;
isReady : bool;
score : Z
}.

Definition PALETTE_SIZE : Z := Z.of_nat (length PLAYER_COLORS).

(** [((colorIndex % n) + n) % n] *)
Definition normalizedIndex (colorIndex : Z) : Z :=
Z.rem (Z.rem colorIndex PALETTE_SIZE + PALETTE_SIZE) PALETTE_SIZE.

(** [new Player(name, colorIndex, isHost)] with [id = randomUUID()]. *)
Definition create (uuid name : string) (colorIndex : Z) (isHost : bool) : t :=
mk uuid name (nth (Z.to_nat (normalizedIndex colorIndex)) PLAYER_COLORS "")
isHost false 0.

Definition toggleReady (p : t) : t :=
mk (id p) (name p) (color p) (isHost p) (negb (isReady p)) (score p).

Definition addPoints (points : Z) (p : t) : t :=
mk (id p) (name p) (color p) (isHost p) (isReady p) (score p + points).

Definition toData (p : t) : PlayerData.t :=
PlayerData.mk (id p) (name p) (color p) (isHost p) (isReady p) (score p).

Lemma PALETTE_SIZE_eq : PALETTE_SIZE = 8%Z.
Proof. reflexivity. Qed.

(** The remainder trick computes the Euclidean residue. *)
Lemma normalizedIndex_mod (ci : Z) : normalizedIndex ci = (ci mod PALETTE_SIZE)%Z.
Proof.
unfold normalizedIndex. rewrite PALETTE_SIZE_eq.
pose proof (Z.quot_rem' ci 8) as Hq.
pose proof (Z.rem_bound_abs ci 8 ltac:(lia)) as Hb.
rewrite Z.rem_mod_nonneg by lia.
replace (Z.rem ci 8 + 8)%Z with (ci + (1 - Z.quot ci 8) * 8)%Z by lia.
apply Z_mod_plus_full.
Qed.

Lemma normalizedIndex_bounds (ci : Z) : 0 <= normalizedIndex ci < PALETTE_SIZE.
Proof. rewrite normalizedIndex_mod, PALETTE_SIZE_eq. apply Z.mod_pos_bound. lia. Qed.

(** the colour of a new player is the palette entry at the Euclidean
residue of its colour index, for every index (negative ones too). *)
Theorem create_color (uuid nm : string) (ci : Z) (host : bool) :
color (create uuid nm ci host) = nth (Z.to_nat (ci mod PALETTE_SIZE)) PLAYER_COLORS ""
/\ color (create uuid nm ci host) ∈ PLAYER_COLORS.
Proof.
unfold create. cbn [color]. rewrite <- normalizedIndex_mod. split; [done |].
rewrite list_elem_of_In. apply nth_In.
pose proof (normalizedIndex_bounds ci) as Hb. unfold PALETTE_SIZE in Hb. lia.
Qed.
End Player.
