(* ===== verification/ScoringEngine.v ===== *)
(** * ScoringEngine: [src/server/src/ScoringEngine.ts]

    [calculate] is translated statement by statement: the score object is
    built by assignments in insertion order ([map_set]), [scores[k] += n] is
    [record_add], and the three branches follow the source.  [round_points]
    is the rule of the game stated per player (the spec's three regimes);
    [calculate_spec] shows that [calculate] gives every listed player exactly
    [round_points] and nobody else a score, and [calculate_keys] gives the
    order of the keys. *)

From Stdlib Require Import ZArith Lia.
From S2P Require Import Prelude Types.

Local Open Scope Z_scope.

Module ScoringEngine.
Record ScoreInput := mk_input {
votes : list (string * string);        (** voterId -> votedForId *)
imposterId : string;
artistIds : list string;
imposterCaught : bool;
imposterGuessCorrect : option bool      (** [null] if not caught *)
}.

(** [scores[k] += n].  [calculate] only applies it to keys it has set,
so the [None] branch ([undefined + n]) is never taken. *)
Definition record_add (k : string) (n : Z) (s : list (string * Z)) : list (string * Z) :=
match map_get k s with
| Some v => map_set k (v + n) s
| None => s
end.

(** [artistIds.forEach(id => { scores[id] = 0; })] *)
Definition init_scores (ids : list string) (s : list (string * Z)) : list (string * Z) :=
foldl (fun s id => map_set id 0 s) s ids.

(** [artistIds.forEach(artistId => { if (votes[artistId] === imposterId) scores[artistId] += 1 })] *)
Definition reward_correct_voters (votes : list (string * string)) (imp : string)
(ids : list string) (s : list (string * Z)) : list (string * Z) :=
foldl (fun s a => if decide (map_get a votes = Some imp) then record_add a 1 s else s) s ids.

Definition calculate (input : ScoreInput) : list (string * Z) :=
let imp := imposterId input in
let scores := map_set imp 0 (init_scores (artistIds input) []) in
if negb (imposterCaught input) then record_add imp 2 scores
else if decide (imposterGuessCorrect input = Some true) then record_add imp 1 scores
else reward_correct_voters (votes input) imp (artistIds input) scores.

(** The scoring rule per player: the reference [calculate] refines. *)
Definition round_points (input : ScoreInput) (k : string) : Z :=
let imp := imposterId input in
if negb (imposterCaught input) then (if decide (k = imp) then 2 else 0)
else if decide (imposterGuessCorrect input = Some true) then (if decide (k = imp) then 1 else 0)
else if decide (k = imp) then 0
else if decide (map_get k (votes input) = Some imp) then 1 else 0.

(** ** Lemmas on the building blocks *)

Lemma record_add_get_eq k n s : map_get k (record_add k n s) = (fun v => v + n) <$> map_get k s.
Proof. unfold record_add. destruct (map_get k s) eqn:E; [apply map_get_set_eq | done]. Qed.

Lemma record_add_get_ne k k' n s : k <> k' -> map_get k' (record_add k n s) = map_get k' s.
Proof. unfold record_add. destruct (map_get k s); [apply map_get_set_ne | done]. Qed.

Lemma record_add_keys k n s : map_keys (record_add k n s) = map_keys s.
Proof.
unfold record_add. destruct (map_get k s) eqn:E; [| done].
apply map_keys_set_old. by eapply map_get_In.
Qed.

Lemma init_scores_keys ids s :
NoDup (map_keys s ++ ids) -> map_keys (init_scores ids s) = map_keys s ++ ids.
Proof.
revert s. induction ids as [|x ids IH]; intros s Hnd; simpl; [by rewrite app_nil_r |].
assert (Hx : x ∉ map_keys s).
{ apply NoDup_app in Hnd as (_ & Hd & _). intros Hx. apply (Hd x Hx). set_solver. }
rewrite IH; rewrite map_keys_set_new by done; [by rewrite <- app_assoc |].
by rewrite <- app_assoc.
Qed.

Lemma init_scores_get ids s k :
map_get k (init_scores ids s) = if decide (k ∈ ids) then Some 0 else map_get k s.
Proof.
unfold init_scores. revert s. induction ids as [|x ids IH]; intros s; cbn [foldl].
- rewrite decide_False; [done | set_solver].
- rewrite IH. destruct (decide (k = x)) as [->|Hne].
+ rewrite map_get_set_eq. repeat case_decide; set_solver.
+ rewrite map_get_set_ne by congruence. repeat case_decide; set_solver.
Qed.

Lemma reward_keys votes imp ids s :
map_keys (reward_correct_voters votes imp ids s) = map_keys s.
Proof.
revert s. induction ids as [|x ids IH]; intros s; simpl; [done |].
rewrite IH. case_decide; [apply record_add_keys | done].
Qed.

Lemma reward_get votes imp ids s k :
NoDup ids ->
map_get k (reward_correct_voters votes imp ids s) =
(fun v => v + if decide (k ∈ ids /\ map_get k votes = Some imp) then 1 else 0)
<$> map_get k s.
Proof.
unfold reward_correct_voters. revert s.
induction ids as [|x ids IH]; intros s Hnd; cbn [foldl].
- destruct (map_get k s); cbn; [f_equal; decide_solve | done].
- apply NoDup_cons in Hnd as [Hx Hnd]. rewrite IH by done.
destruct (decide (map_get x votes = Some imp)) as [Hv|Hv].
+ destruct (decide (k = x)) as [->|Hne].
* rewrite record_add_get_eq. destruct (map_get x s); cbn; [f_equal | done].
decide_solve.
* rewrite record_add_get_ne by congruence.
destruct (map_get k s); cbn; [f_equal; decide_solve | done].
+ destruct (map_get k s); cbn; [f_equal; decide_solve | done].
Qed.

#[export] Hint Rewrite record_add_keys reward_keys init_scores_get : loki.

Lemma initial_scores_get ids imp k :
map_get k (map_set imp 0 (init_scores ids [])) =
if decide (k ∈ ids \/ k = imp) then Some 0 else None.
Proof.
destruct (decide (k = imp)) as [->|Hne].
- rewrite map_get_set_eq. decide_solve.
- rewrite map_get_set_ne, init_scores_get by congruence. decide_solve.
Qed.

Section WellFormedInput.
Context (input : ScoreInput).
Hypothesis artists_NoDup : NoDup (artistIds input).
Hypothesis imposter_not_artist : imposterId input ∉ artistIds input.

(** the score object has exactly the artists, in order, then the imposter. *)
Theorem calculate_keys : map_keys (calculate input) = artistIds input ++ [imposterId input].
Proof.
unfold calculate.
assert (Hk : map_keys (map_set (imposterId input) 0 (init_scores (artistIds input) []))
= artistIds input ++ [imposterId input]).
{ rewrite map_keys_set_new; rewrite init_scores_keys; simpl; done. }
destruct (imposterCaught input); simpl; [case_decide |]; by autorewrite with loki.
Qed.

(** C36: [calculate] refines the per-player rule [round_points]: every
artist and the imposter get exactly their [round_points], and no other
id appears. *)
Theorem calculate_spec (k : string) :
map_get k (calculate input) =
if decide (k ∈ artistIds input \/ k = imposterId input)
then Some (round_points input k) else None.
Proof.
unfold calculate, round_points.
destruct (imposterCaught input); cbn [negb];
[destruct (decide (imposterGuessCorrect input = Some true)) |].
- destruct (decide (k = imposterId input)) as [->|Hne].
+ rewrite record_add_get_eq, initial_scores_get. decide_solve.
+ rewrite record_add_get_ne, initial_scores_get by congruence. decide_solve.
- rewrite reward_get, initial_scores_get by done. decide_solve.
- destruct (decide (k = imposterId input)) as [->|Hne].
+ rewrite record_add_get_eq, initial_scores_get. decide_solve.
+ rewrite record_add_get_ne, initial_scores_get by congruence. decide_solve.
Qed.
End WellFormedInput.
End ScoringEngine.

(** The scoring cases of the specification, evaluated. *)
Module ScoringEngineExamples.
Import ScoringEngine.
Local Open Scope string_scope.

Definition artists := ["p1"; "p3"; "p4"].
Definition wrong_votes := [("p1", "p2"); ("p3", "p4"); ("p4", "p2")].

(** not caught gives the imposter 2; caught with a correct guess gives
the imposter 1; caught with a wrong guess gives 1 to each artist who
voted for the imposter. *)
Theorem calculate_spec_cases :
calculate (mk_input [] "p2" artists false None) = [("p1", 0); ("p3", 0); ("p4", 0); ("p2", 2)]
/\ calculate (mk_input wrong_votes "p2" artists true (Some true))
= [("p1", 0); ("p3", 0); ("p4", 0); ("p2", 1)]
/\ calculate (mk_input wrong_votes "p2" artists true (Some false))
= [("p1", 1); ("p3", 0); ("p4", 1); ("p2", 0)].
Proof. vm_compute. auto. Qed.
End ScoringEngineExamples.

(** Witnesses: the theorems with hypotheses, applied to the specification's
    wrong-guess case. *)
Module ScoringEngineWitnesses.
Import ScoringEngine ScoringEngineExamples.
Local Open Scope string_scope.

Definition wrong_guess_input : ScoreInput := mk_input wrong_votes "p2" artists true (Some false).

Lemma calculate_spec_witness :
map_get "p4" (calculate wrong_guess_input) = Some (round_points wrong_guess_input "p4").
Proof.
rewrite (calculate_spec wrong_guess_input); [| decide_by_eval | decide_by_eval].
rewrite decide_True; [reflexivity | decide_by_eval].
Defined.

Lemma calculate_keys_witness :
map_keys (calculate wrong_guess_input) = ["p1"; "p3"; "p4"; "p2"].
Proof.
rewrite (calculate_keys wrong_guess_input); [reflexivity | decide_by_eval | decide_by_eval].
Defined.
End ScoringEngineWitnesses.
