(* ===== verification/TurnManager.v ===== *)
(** * TurnManager: [src/server/src/TurnManager.ts]

    The drawing order is a Fisher-Yates shuffle of the roster, translated
    loop for loop: [i] runs from [length - 1] down to [1], [j] is
    [Math.floor(Math.random() * (i + 1))] on the next draw of the random
    stream, and the destructuring swap writes [a[i]] first, then [a[j]].
    [advanceTurn] and [isComplete] are the methods of the class.

    Theorems: the shuffle is a permutation of the roster for every random
    stream; the turn index stays inside the order; after [k] advances the
    turn index is [k mod n] and the round is [1 + k / n]; and the sequencer
    is complete exactly when [k >= n * rounds]. *)

From Stdlib Require Import ZArith Lia.
From S2P Require Import Prelude Types.

Module TurnManager.
Record t := mk {
turnOrder : list string;
currentRound : Z;
turnIndex : nat;
totalRounds : Z
}.

(** [[shuffled[i], shuffled[j]] = [shuffled[j], shuffled[i]]] *)
Definition swap (a : list string) (i j : nat) : list string :=
<[j := a !!! i]> (<[i := a !!! j]> a).

(** One iteration of the loop body for index [i], then the rest. *)
Fixpoint fisher_yates (i : nat) (a : list string) (g : rng) : list string * rng :=
match i with
| O => (a, g)
| S i' =>
let '(r, g') := rng_next g in
let j := Z.to_nat (random_floor r (Z.of_nat (S i'))) in
fisher_yates i' (swap a (S i') j) g'
end.

(** [shuffle(array)]: [for (let i = array.length - 1; i > 0; i--)] *)
Definition shuffle (a : list string) (g : rng) : list string * rng :=
fisher_yates (pred (length a)) a g.

(** [new TurnManager(playerIds, rounds)] *)
Definition create (playerIds : list string) (rounds : Z) (g : rng) : t * rng :=
let '(order, g') := shuffle playerIds g in
(mk order 1 0 rounds, g').

Definition getTurnOrder (tm : t) : list string := turnOrder tm.

(** [this.turnOrder[this.turnIndex]]: [undefined] out of range. *)
Definition getCurrentPlayerId (tm : t) : option string := turnOrder tm !! turnIndex tm.

Definition getCurrentRound (tm : t) : Z := currentRound tm.

Definition advanceTurn (tm : t) : t :=
let idx := S (turnIndex tm) in
if decide (length (turnOrder tm) <= idx)
then mk (turnOrder tm) (currentRound tm + 1) 0 (totalRounds tm)
else mk (turnOrder tm) (currentRound tm) idx (totalRounds tm).

Definition isComplete (tm : t) : bool := bool_decide (totalRounds tm < currentRound tm)%Z.

(** [k] calls of [advanceTurn]. *)
Definition advance_n (k : nat) (tm : t) : t := Nat.iter k advanceTurn tm.

(** ** The shuffle is a permutation *)

Lemma swap_perm a i j : i < length a -> j < length a -> swap a i j ≡ₚ a.
Proof.
intros Hi Hj. unfold swap.
apply Permutation_insert_swap; apply list_lookup_lookup_total_lt; lia.
Qed.

Lemma swap_length a i j : length (swap a i j) = length a.
Proof. unfold swap. by rewrite !length_insert. Qed.

Lemma random_index_bound (r : Z) (i : nat) :
(0 <= r < RANDOM_BITS)%Z -> Z.to_nat (random_floor r (Z.of_nat (S i))) <= i.
Proof.
intros Hr. pose proof (random_floor_bounds r (Z.of_nat (S i)) Hr ltac:(lia)) as Hb.
apply Nat2Z.inj_le. rewrite Z2Nat.id; lia.
Qed.

Lemma fisher_yates_perm i a g : i < length a -> (fisher_yates i a g).1 ≡ₚ a.
Proof.
revert a g. induction i as [|i IH]; intros a g Hi; [done |]. cbn [fisher_yates].
pose proof (random_index_bound (rng_next g).1 i (rng_next_bound g)) as Hj.
destruct (rng_next g) as [r g'] eqn:E. cbn [fst] in Hj.
rewrite IH by (rewrite swap_length; lia). apply swap_perm; lia.
Qed.

(** for every random stream, the drawing order is a permutation of the
roster: every player draws, nobody twice. *)
Theorem shuffle_perm (a : list string) (g : rng) : (shuffle a g).1 ≡ₚ a.
Proof.
unfold shuffle. destruct a as [|x a]; [done |].
apply fisher_yates_perm. simpl. lia.
Qed.

Lemma create_order playerIds rounds g : turnOrder (create playerIds rounds g).1 ≡ₚ playerIds.
Proof.
unfold create. pose proof (shuffle_perm playerIds g).
destruct (shuffle playerIds g). done.
Qed.

(** ** Counting turns

[turn_position tm] is the number of turns already taken in a sequencer
whose index stays inside the order: [(round - 1) * n + index]. *)
Definition turn_position (tm : t) : Z :=
((currentRound tm - 1) * Z.of_nat (length (turnOrder tm)) + Z.of_nat (turnIndex tm))%Z.

Definition index_in_range (tm : t) : Prop :=
turnIndex tm < length (turnOrder tm) /\ (1 <= currentRound tm)%Z.

Lemma advanceTurn_frame tm :
turnOrder (advanceTurn tm) = turnOrder tm /\ totalRounds (advanceTurn tm) = totalRounds tm.
Proof. unfold advanceTurn. by case_decide. Qed.

Lemma advanceTurn_position tm :
index_in_range tm ->
index_in_range (advanceTurn tm) /\ turn_position (advanceTurn tm) = (turn_position tm + 1)%Z.
Proof.
unfold index_in_range, turn_position, advanceTurn. intros [Hi Hr].
case_decide; simpl; split; try split; lia.
Qed.

Lemma advance_n_frame k tm :
turnOrder (advance_n k tm) = turnOrder tm /\ totalRounds (advance_n k tm) = totalRounds tm.
Proof.
induction k as [|k IH]; [done |]. simpl.
destruct (advanceTurn_frame (advance_n k tm)) as [-> ->]. exact IH.
Qed.

Lemma advance_n_position k tm :
index_in_range tm ->
index_in_range (advance_n k tm) /\ turn_position (advance_n k tm) = (turn_position tm + Z.of_nat k)%Z.
Proof.
intros H0. induction k as [|k [Hin Hpos]]; [split; [done | simpl; lia] |].
change (advance_n (S k) tm) with (advanceTurn (advance_n k tm)).
destruct (advanceTurn_position _ Hin) as [Hin' Hpos']. split; [done |]. lia.
Qed.

Lemma create_in_range playerIds rounds g :
playerIds <> [] -> index_in_range (create playerIds rounds g).1.
Proof.
intros Hne. pose proof (create_order playerIds rounds g) as Hp.
unfold create in *. destruct (shuffle playerIds g). simpl in *.
unfold index_in_range; simpl. split; [| lia]. apply Permutation_length in Hp. destruct playerIds; [done |]. simpl in Hp. lia.
Qed.

Section Fresh.
Context (playerIds : list string) (rounds : Z) (g : rng).
Hypothesis roster_nonempty : playerIds <> [].

Let n := length playerIds.
Let tm0 := (create playerIds rounds g).1.

Lemma fresh_state k :
length (turnOrder (advance_n k tm0)) = n /\ (totalRounds (advance_n k tm0) = rounds)%Z /\
index_in_range (advance_n k tm0) /\ turn_position (advance_n k tm0) = Z.of_nat k.
Proof.
destruct (advance_n_frame k tm0) as [-> ->].
destruct (advance_n_position k tm0 (create_in_range playerIds rounds g roster_nonempty)) as [H1 H2].
assert (Hl : length (turnOrder tm0) = n).
{ apply Permutation_length, create_order. }
assert (H0 : turn_position tm0 = 0%Z /\ totalRounds tm0 = rounds).
{ unfold turn_position, tm0, create. destruct (shuffle playerIds g). simpl. lia. }
destruct H0 as [H0 ->]. rewrite H0 in H2. repeat split; try done; try apply H1; lia.
Qed.

(** after [k] turns of a fresh sequencer, the index is [k mod n] and
the round is [1 + k / n]: the same order is replayed every round. *)
Theorem advance_n_index_round (k : nat) :
turnIndex (advance_n k tm0) = k mod n /\
currentRound (advance_n k tm0) = (1 + Z.of_nat (k / n))%Z.
Proof.
destruct (fresh_state k) as (Hl & _ & [Hi Hr] & Hpos).
unfold turn_position in Hpos. rewrite Hl in Hi, Hpos.
assert (Hq : Z.of_nat (Z.to_nat (currentRound (advance_n k tm0) - 1)) =
(currentRound (advance_n k tm0) - 1)%Z) by lia.
assert (Hk : k = n * Z.to_nat (currentRound (advance_n k tm0) - 1) + turnIndex (advance_n k tm0)).
{ apply Nat2Z.inj. rewrite Nat2Z.inj_add, Nat2Z.inj_mul, Hq. nia. }
split.
- apply (Nat.mod_unique _ _ _ _ Hi Hk).
- rewrite <- (Nat.div_unique _ _ _ _ Hi Hk). lia.
Qed.

(** C37: a fresh sequencer over [n >= 1] players is not complete before
[n * rounds] advances and is complete from that point on. *)
Theorem isComplete_after_iff (k : nat) :
isComplete (advance_n k tm0) = bool_decide (rounds * Z.of_nat n <= Z.of_nat k)%Z.
Proof.
destruct (fresh_state k) as (Hl & Ht & [Hi Hr] & Hpos).
unfold isComplete, turn_position in *. rewrite Hl in Hi, Hpos. rewrite Ht.
apply bool_decide_ext. nia.
Qed.
End Fresh.
End TurnManager.

(** Witnesses on a three-player roster drawing twice, with a constant
    random stream. *)
Module TurnManagerWitnesses.
Import TurnManager.
Local Open Scope string_scope.

Definition roster := ["a"; "b"; "c"].
Definition zeros : rng := fun _ => 0%Z.

Lemma advance_n_index_round_witness :
turnIndex (advance_n 5 (create roster 2 zeros).1) = 5 mod 3 /\
currentRound (advance_n 5 (create roster 2 zeros).1) = (1 + Z.of_nat (5 / 3))%Z.
Proof. apply (advance_n_index_round roster 2 zeros). discriminate. Defined.

Lemma isComplete_after_iff_witness :
isComplete (advance_n 6 (create roster 2 zeros).1) = bool_decide (2 * Z.of_nat 3 <= Z.of_nat 6)%Z.
Proof. apply (isComplete_after_iff roster 2 zeros). discriminate. Defined.
End TurnManagerWitnesses.
