(* ===== verification/VotingManager.v ===== *)
(** * VotingManager: [src/server/src/VotingManager.ts]

    The roster is a [Set] built from the player ids, the ballots a [Map]
    from voter to target in insertion order.  [castVote] checks its four
    guards in the order of the source and throws the first that fails.
    [getResult] is translated as written: the tally [voteCounts] is built in
    one pass over the ballots, the maximum and the list of players holding it
    in one pass over the tally, and [caughtPlayerId] is
    [playersWithMaxVotes[0] || null].

    Theorems: the ballot invariant (voters and targets on the roster, no
    self-vote, one ballot per voter) is preserved by [castVote]; [castVote]
    succeeds exactly when the four guards pass and then adds one ballot;
    a full round of valid ballots completes the vote; the one-pass
    computation of [getResult] equals a declarative reference. *)

From Stdlib Require Import ZArith Lia.
From S2P Require Import Prelude Types.

Module VotingManager.
Record t := mk {
playerIds : list string;            (** a [Set] *)
imposterId : string;
votes : list (string * string)      (** [Map] voterId -> votedForId *)
}.

(** [new VotingManager(playerIds, imposterId)] *)
Definition create (ids : list string) (imp : string) : t := mk (set_of_list ids) imp [].

Definition castVote (voterId votedForId : string) (vm : t) : res t :=
if negb (bool_decide (voterId ∈ playerIds vm)) then Err InvalidVoter
else if negb (bool_decide (votedForId ∈ playerIds vm)) then Err InvalidTarget
else if decide (voterId = votedForId) then Err SelfVote
else if map_has voterId (votes vm) then Err AlreadyVoted
else Ok (mk (playerIds vm) (imposterId vm) (map_set voterId votedForId (votes vm))).

Definition getVoteCount (vm : t) : nat := length (votes vm).

Definition isComplete (vm : t) : bool := Nat.eqb (length (votes vm)) (length (playerIds vm)).

(** [voteCounts.set(votedForId, (voteCounts.get(votedForId) || 0) + 1)] over the ballots. *)
Definition tally (ballots : list (string * string)) : list (string * nat) :=
foldl (fun counts b => map_set b.2 (default 0 (map_get b.2 counts) + 1) counts) [] ballots.

(** The [voteCounts.forEach] loop: [(maxVotes, playersWithMaxVotes)]. *)
Definition max_step (acc : nat * list string) (entry : string * nat) : nat * list string :=
let '(maxVotes, players) := acc in
let '(playerId, count) := entry in
if decide (maxVotes < count) then (count, [playerId])
else if decide (count = maxVotes) then (maxVotes, players ++ [playerId])
else (maxVotes, players).

Definition max_scan (counts : list (string * nat)) : nat * list string :=
foldl max_step (0, []) counts.

(** [votesRecord]: the ballots copied into an object, in the same order. *)
Definition votes_record (ballots : list (string * string)) : list (string * string) :=
foldl (fun r b => map_set b.1 b.2 r) [] ballots.

Definition getResult (vm : t) : VoteResult.t :=
let top := (max_scan (tally (votes vm))).2 in
let isTie := bool_decide (1 < length top) in
let caught := if isTie then None else truthy_string (head top) in
VoteResult.mk (votes_record (votes vm)) caught isTie.

Definition isCaughtPlayerImposter (vm : t) : bool :=
let r := getResult vm in
if VoteResult.isTie r then false
else match VoteResult.caughtPlayerId r with
| None => false
| Some c => bool_decide (c = imposterId vm)
end.

(** ** The ballot invariant *)

Definition ballots_wf (ids : list string) (ballots : list (string * string)) : Prop :=
NoDup (map_keys ballots) /\
forall v tgt, (v, tgt) ∈ ballots -> v ∈ ids /\ tgt ∈ ids /\ v <> tgt.

Definition wf (vm : t) : Prop := NoDup (playerIds vm) /\ ballots_wf (playerIds vm) (votes vm).

Lemma create_wf ids imp : wf (create ids imp).
Proof.
unfold wf, create, ballots_wf; simpl. destruct (set_of_list_spec ids) as [Hnd _].
split; [done | split; [constructor | set_solver]].
Qed.

Lemma map_has_false {V} k (m : list (string * V)) : map_has k m = false <-> k ∉ map_keys m.
Proof. unfold map_has. rewrite <- map_get_None. destruct (map_get k m); naive_solver. Qed.

(** [castVote] succeeds exactly when the four guards pass, and then
appends the ballot. *)
Lemma castVote_Ok voter target vm vm' :
castVote voter target vm = Ok vm' <->
voter ∈ playerIds vm /\ target ∈ playerIds vm /\ voter <> target /\
(voter ∉ map_keys (votes vm)) /\
vm' = mk (playerIds vm) (imposterId vm) (votes vm ++ [(voter, target)]).
Proof.
unfold castVote. rewrite <- map_has_false.
destruct (bool_decide_reflect (voter ∈ playerIds vm));
destruct (bool_decide_reflect (target ∈ playerIds vm)); simpl;
try (split; [discriminate | naive_solver]).
case_decide; [split; [discriminate | naive_solver] |].
destruct (map_has voter (votes vm)) eqn:Hh; [split; [discriminate | naive_solver] |].
rewrite map_set_new_app by (by apply map_has_false).
split; [intros [= <-]; naive_solver | naive_solver].
Qed.

(** [castVote] throws, and which error it throws, exactly as the
guards of the source decide, in their order. *)
Theorem castVote_Err voter target vm e :
castVote voter target vm = Err e <->
((voter ∉ playerIds vm) /\ e = InvalidVoter) \/
(voter ∈ playerIds vm /\ (target ∉ playerIds vm) /\ e = InvalidTarget) \/
(voter ∈ playerIds vm /\ target ∈ playerIds vm /\ voter = target /\ e = SelfVote) \/
(voter ∈ playerIds vm /\ target ∈ playerIds vm /\ voter <> target /\
voter ∈ map_keys (votes vm) /\ e = AlreadyVoted).
Proof.
unfold castVote.
destruct (bool_decide_reflect (voter ∈ playerIds vm));
destruct (bool_decide_reflect (target ∈ playerIds vm)); simpl;
try (split; [intros [= <-] | intros ?]; naive_solver).
case_decide; [split; [intros [= <-] | intros ?]; naive_solver |].
destruct (map_has voter (votes vm)) eqn:Hh.
- assert (voter ∈ map_keys (votes vm)).
{ destruct (decide (voter ∈ map_keys (votes vm))) as [|Hn]; [done |].
apply map_has_false in Hn. congruence. }
split; [intros [= <-] | intros ?]; naive_solver.
- apply map_has_false in Hh. split; [discriminate | naive_solver].
Qed.

(** C38: [castVote] preserves the ballot invariant: every ballot is cast by
a roster member for another roster member, one ballot per voter. *)
Theorem castVote_wf voter target vm vm' :
wf vm -> castVote voter target vm = Ok vm' -> wf vm'.
Proof.
intros (Hnd & Hkeys & Hb) (Hv & Ht & Hne & Hnew & ->)%castVote_Ok.
split; [done |]. split; simpl.
- unfold map_keys. rewrite map_app. apply NoDup_app.
split; [done | split; [set_solver | apply NoDup_singleton]].
- intros v tgt [Hin | [= -> ->]%list_elem_of_singleton]%elem_of_app; [by apply Hb | done].
Qed.

Lemma ballot_voters_incl vm : wf vm -> map_keys (votes vm) ⊆ playerIds vm.
Proof.
intros (_ & _ & Hb) v ([v' tgt] & -> & Hin)%list_elem_of_fmap. by apply (Hb v' tgt).
Qed.

(** the number of ballots never exceeds the roster. *)
Theorem vote_count_bound vm : wf vm -> getVoteCount vm <= length (playerIds vm).
Proof.
intros Hwf. unfold getVoteCount. pose proof (ballot_voters_incl vm Hwf) as Hi.
destruct Hwf as (_ & Hk & _). rewrite <- (length_map fst (votes vm)).
apply NoDup_incl_length; [by apply NoDup_ListNoDup |]. intros x. rewrite <- !list_elem_of_In. apply Hi.
Qed.

(** the vote is complete exactly when every roster member has voted. *)
Theorem isComplete_iff vm :
wf vm -> isComplete vm = true <-> forall p, p ∈ playerIds vm -> p ∈ map_keys (votes vm).
Proof.
intros Hwf. pose proof (ballot_voters_incl vm Hwf) as Hi.
pose proof (vote_count_bound vm Hwf) as Hc. unfold getVoteCount in Hc.
destruct Hwf as (Hnd & Hk & _). unfold isComplete. rewrite Nat.eqb_eq. split.
- intros Hl p Hp. apply list_elem_of_In.
apply (NoDup_length_incl (l := map_keys (votes vm)) (l' := playerIds vm));
[by apply NoDup_ListNoDup | | |].
+ unfold map_keys. rewrite length_map. lia.
+ intros x. rewrite <- !list_elem_of_In. apply Hi.
+ by apply list_elem_of_In.
- intros Hall. apply Nat.le_antisymm; [done |]. unfold map_keys. rewrite <- (length_map fst).
apply NoDup_incl_length; [by apply NoDup_ListNoDup |].
intros x. rewrite <- !list_elem_of_In. apply Hall.
Qed.

(** ** A round of ballots *)

(** The ballots cast one after the other, stopping at the first error. *)
Fixpoint cast_all (ballots : list (string * string)) (vm : t) : res t :=
match ballots with
| [] => Ok vm
| (v, tgt) :: bs => rbind (castVote v tgt vm) (cast_all bs)
end.

Lemma cast_all_valid ids imp cast bs :
NoDup (map fst (cast ++ bs)) ->
(forall v tgt, (v, tgt) ∈ bs -> v ∈ ids /\ tgt ∈ ids /\ v <> tgt) ->
cast_all bs (mk ids imp cast) = Ok (mk ids imp (cast ++ bs)).
Proof.
revert cast. induction bs as [|[v tgt] bs IH]; intros cast Hnd Hv; simpl.
- by rewrite app_nil_r.
- destruct (Hv v tgt ltac:(set_solver)) as (Hv1 & Ht1 & Hne).
assert (Hnew : v ∉ map_keys cast).
{ unfold map_keys. rewrite map_app in Hnd. apply NoDup_app in Hnd as (_ & Hd & _).
intros Hin. apply (Hd v Hin). simpl. set_solver. }
rewrite (proj2 (castVote_Ok v tgt (mk ids imp cast) (mk ids imp (cast ++ [(v, tgt)]))))
by (simpl; naive_solver).
simpl. rewrite IH; [by rewrite <- app_assoc | by rewrite <- app_assoc |].
intros v' t' Hin. apply Hv. set_solver.
Qed.

(** when every roster member casts one valid ballot (for another roster
member), all ballots are accepted and the vote is complete. *)
Theorem full_round_completes (ids : list string) (imp : string) (bs : list (string * string)) :
NoDup ids -> map fst bs ≡ₚ ids ->
(forall v tgt, (v, tgt) ∈ bs -> tgt ∈ ids /\ v <> tgt) ->
exists vm, cast_all bs (create ids imp) = Ok vm /\ votes vm = bs /\ isComplete vm = true.
Proof.
intros Hnd Hp Hv. unfold create. rewrite set_of_list_NoDup_id by done.
exists (mk ids imp bs). split; [| split; [done |]].
- apply (cast_all_valid ids imp [] bs); [simpl; by rewrite Hp |].
intros v tgt Hin. destruct (Hv v tgt Hin). split; [| done].
rewrite <- Hp. apply list_elem_of_fmap. by exists (v, tgt).
- unfold isComplete. simpl. apply Nat.eqb_eq. rewrite <- (length_map fst bs).
by apply Permutation_length.
Qed.

(** ** [getResult] against a declarative reference *)

Definition vote_count (ballots : list (string * string)) (p : string) : nat :=
length (filter (fun b => b.2 = p) ballots).

(** The targets, in the order of their first ballot. *)
Definition vote_targets (ballots : list (string * string)) : list string :=
set_of_list (map snd ballots).

Lemma vote_count_snoc bs b p :
vote_count (bs ++ [b]) p = vote_count bs p + if decide (b.2 = p) then 1 else 0.
Proof. unfold vote_count. rewrite filter_app, length_app. simpl. rewrite filter_cons. decide_solve. Qed.

Lemma vote_count_pos bs p : 0 < vote_count bs p <-> p ∈ vote_targets bs.
Proof.
unfold vote_count, vote_targets. rewrite elem_of_set_of_list, list_elem_of_fmap.
split.
- intros Hc. destruct (filter (fun b => b.2 = p) bs) as [|b l] eqn:E; simpl in Hc; [lia |].
assert (Hb : b ∈ filter (fun b => b.2 = p) bs) by (rewrite E; set_solver).
apply list_elem_of_filter in Hb as [<- Hb]. by exists b.
- intros [b [-> Hb]]. destruct (filter (fun b' => b'.2 = b.2) bs) eqn:E; simpl; [| lia].
assert (Hb' : b ∈ filter (fun b' => b'.2 = b.2) bs) by (by apply list_elem_of_filter).
rewrite E in Hb'. set_solver.
Qed.

Lemma tally_snoc bs b :
tally (bs ++ [b]) = map_set b.2 (default 0 (map_get b.2 (tally bs)) + 1) (tally bs).
Proof. unfold tally. by rewrite foldl_app. Qed.

(** The one-pass tally is the graph of [vote_count] over the targets. *)
Lemma tally_spec bs : tally bs = graph (vote_count bs) (vote_targets bs).
Proof.
induction bs as [|b bs IH] using rev_ind; [done |].
rewrite tally_snoc, IH, graph_get. unfold vote_targets. rewrite map_app. cbn [map].
rewrite set_of_list_snoc.
fold (vote_targets bs). unfold set_add. case_decide as Hin.
- rewrite graph_set_in by (done || apply set_of_list_NoDup). unfold graph. apply map_ext.
intros p. rewrite vote_count_snoc. decide_solve.
- rewrite map_set_new_app by (by rewrite graph_keys). unfold graph. rewrite map_app. f_equal.
+ apply map_ext_in. intros p Hp%list_elem_of_In. rewrite vote_count_snoc.
rewrite decide_False by set_solver. f_equal. lia.
+ simpl. rewrite vote_count_snoc, decide_True by done. f_equal.
enough (vote_count bs b.2 = 0) as -> by done.
destruct (vote_count bs b.2) eqn:E; [done |]. exfalso. apply Hin, vote_count_pos. lia.
Qed.

(** The [forEach] scan keeps the running maximum and, in order, every
entry that reaches it; counts are positive, so the initial [0] never
survives. *)
Lemma max_scan_spec (l : list (string * nat)) :
Forall (fun e => 1 <= e.2) l ->
max_scan l = (list_max (map snd l), map fst (filter (fun e => e.2 = list_max (map snd l)) l)).
Proof.
induction l as [|[p c] l IH] using rev_ind; intros Hpos; [done |].
apply Forall_app in Hpos as [Hpos Hc]. apply Forall_singleton in Hc. simpl in Hc.
unfold max_scan in *. rewrite foldl_app, IH by done. simpl.
rewrite map_app, list_max_app. simpl. rewrite filter_app, map_app, filter_cons, filter_nil.
pose proof (proj1 (list_max_le (map snd l) (list_max (map snd l))) (le_n _)) as Hle.
rewrite Nat.max_0_r. cbn [fst snd].
case_decide as Hlt.
- replace (Nat.max (list_max (map snd l)) c) with c by lia. rewrite decide_True by done.
rewrite filter_empty_intro; [done |].
intros [p' c'] Hin%list_elem_of_In Heq. simpl in Heq. subst c'. rewrite Forall_forall in Hle.
apply (in_map snd), list_elem_of_In in Hin. specialize (Hle _ Hin). simpl in *. lia.
- case_decide as Heq.
+ subst c. rewrite Nat.max_id, decide_True by done. done.
+ replace (Nat.max (list_max (map snd l)) c) with (list_max (map snd l)) by lia.
rewrite decide_False by lia. by rewrite app_nil_r.
Qed.

Lemma graph_filter_fst (f : string -> nat) (S : list string) m :
map fst (filter (fun e => e.2 = m) (graph f S)) = filter (fun p => f p = m) S.
Proof.
induction S as [|x S IH]; [done |]. simpl. rewrite !filter_cons. simpl.
case_decide; simpl; by rewrite IH.
Qed.

(** The largest number of votes any player received. *)
Definition max_votes (ballots : list (string * string)) : nat :=
list_max (map (vote_count ballots) (vote_targets ballots)).

(** The declarative result: the targets, in first-vote order, holding the
largest number of votes. *)
Definition top_ref (ballots : list (string * string)) : list string :=
filter (fun p => vote_count ballots p = max_votes ballots) (vote_targets ballots).

Definition getResult_ref (vm : t) : VoteResult.t :=
let top := top_ref (votes vm) in
let isTie := bool_decide (1 < length top) in
VoteResult.mk (votes_record (votes vm)) (if isTie then None else truthy_string (head top)) isTie.

(** C6: the one-pass tally-and-scan of [getResult] computes exactly the
declarative plurality result [getResult_ref]. *)
Theorem getResult_eq_ref (vm : t) : getResult vm = getResult_ref vm.
Proof.
unfold getResult, getResult_ref, top_ref, max_votes. rewrite tally_spec, max_scan_spec.
- simpl. by rewrite graph_values, graph_filter_fst.
- apply Forall_forall. intros [p c] Hin. unfold graph in Hin.
apply list_elem_of_fmap in Hin as (p' & [= -> ->] & Hp'). simpl.
apply vote_count_pos in Hp'. lia.
Qed.

Section Plurality.
Context (bs : list (string * string)).
#[local] Abbreviation cnt := (vote_count bs).

Lemma vote_count_le_max p : cnt p <= max_votes bs.
Proof.
destruct (decide (p ∈ vote_targets bs)) as [Hin|Hin].
- unfold max_votes. pose proof (proj1 (list_max_le (map cnt (vote_targets bs)) _) (le_n _)) as Hle.
rewrite Forall_forall in Hle. apply Hle, list_elem_of_fmap. eauto.
- rewrite <- vote_count_pos in Hin. lia.
Qed.

Lemma max_votes_attained a : (forall p, cnt p <= cnt a) -> cnt a = max_votes bs.
Proof.
intros Hall. apply Nat.le_antisymm; [apply vote_count_le_max |].
unfold max_votes. apply list_max_le, Forall_forall.
intros x (p & -> & _)%list_elem_of_fmap. apply Hall.
Qed.

Lemma elem_of_top_ref p : p ∈ top_ref bs <-> 0 < cnt p /\ cnt p = max_votes bs.
Proof. unfold top_ref. rewrite list_elem_of_filter, <- vote_count_pos. tauto. Qed.

Lemma top_ref_NoDup : NoDup (top_ref bs).
Proof. apply NoDup_filter, set_of_list_NoDup. Qed.

End Plurality.

(** the vote catches [c] exactly when [c] received strictly more
votes than every other player (and [c] is not the empty id, which
[|| null] would turn into [null]). *)
Theorem getResult_caught (vm : t) (c : string) :
VoteResult.caughtPlayerId (getResult vm) = Some c <->
c <> "" /\ 0 < vote_count (votes vm) c /\ forall p, p <> c -> vote_count (votes vm) p < vote_count (votes vm) c.
Proof.
rewrite getResult_eq_ref. unfold getResult_ref. simpl.
pose proof (top_ref_NoDup (votes vm)) as Hnd. split.
- case_bool_decide as Hlen; [done |].
destruct (top_ref (votes vm)) as [|c' [|d l]] eqn:E; simpl in *; [done | | lia].
unfold truthy_string. case_decide; [done |]. intros [= <-].
assert (Hc : c' ∈ top_ref (votes vm)) by (rewrite E; set_solver).
apply (elem_of_top_ref (votes vm)) in Hc as [Hc Hmax]. split; [done | split; [done |]].
intros p Hp. pose proof (vote_count_le_max (votes vm) p).
destruct (decide (vote_count (votes vm) p = vote_count (votes vm) c')) as [Heq|]; [| lia].
assert (Hp' : p ∈ top_ref (votes vm)) by (apply (elem_of_top_ref (votes vm)); lia).
rewrite E in Hp'. set_solver.
- intros (Hne & Hpos & Hstrict).
assert (Hmax : vote_count (votes vm) c = max_votes (votes vm)).
{ apply max_votes_attained. intros p. destruct (decide (p = c)); [subst; lia |].
specialize (Hstrict p ltac:(done)). lia. }
rewrite (NoDup_singleton_of (top_ref (votes vm)) c); [| done | by apply (elem_of_top_ref (votes vm)) |].
+ simpl. unfold truthy_string. by rewrite !decide_False.
+ intros y [_ Hy]%(elem_of_top_ref (votes vm)). destruct (decide (y = c)); [done |].
specialize (Hstrict y ltac:(done)). lia.
Qed.

(** the vote is a tie exactly when two different players share the
highest (positive) number of votes. *)
Theorem getResult_tie (vm : t) :
VoteResult.isTie (getResult vm) = true <->
exists a b, a <> b /\ 0 < vote_count (votes vm) a /\ vote_count (votes vm) a = vote_count (votes vm) b /\ forall p, vote_count (votes vm) p <= vote_count (votes vm) a.
Proof.
rewrite getResult_eq_ref. unfold getResult_ref. simpl.
rewrite bool_decide_eq_true, (NoDup_two_iff _ (top_ref_NoDup (votes vm))). split.
- intros (a & b & [Ha Hma]%(elem_of_top_ref (votes vm)) & [Hb Hmb]%(elem_of_top_ref (votes vm)) & Hab).
exists a, b. split; [done |]. split; [done |]. split; [lia |].
intros p. pose proof (vote_count_le_max (votes vm) p). lia.
- intros (a & b & Hab & Hpos & Heq & Hall). pose proof (max_votes_attained (votes vm) a Hall).
exists a, b. rewrite !(elem_of_top_ref (votes vm)). split; [lia |]. split; [lia | done].
Qed.
(** [isCaughtPlayerImposter] holds exactly when the vote catches the
tracked imposter. *)
Theorem isCaughtPlayerImposter_spec (vm : t) :
isCaughtPlayerImposter vm = true <->
VoteResult.caughtPlayerId (getResult vm) = Some (imposterId vm).
Proof.
unfold isCaughtPlayerImposter. rewrite getResult_eq_ref. unfold getResult_ref. simpl.
case_bool_decide; [done |].
destruct (truthy_string (head (top_ref (votes vm)))); [| done].
rewrite bool_decide_eq_true. naive_solver.
Qed.
End VotingManager.

(** Witnesses on a three-player roster where everyone votes. *)
Module VotingManagerWitnesses.
Import VotingManager.
Local Open Scope string_scope.

Definition roster := ["a"; "b"; "c"].
Definition ballots := [("a", "b"); ("b", "c"); ("c", "b")].
Definition one_vote : t := mk roster "a" [("a", "b")].

Lemma castVote_wf_witness : wf one_vote.
Proof.
apply (castVote_wf "a" "b" (create roster "a")); [apply create_wf | reflexivity].
Defined.

Lemma vote_count_bound_witness : getVoteCount one_vote <= length (playerIds one_vote).
Proof. apply vote_count_bound, castVote_wf_witness. Defined.

Lemma isComplete_iff_witness :
isComplete one_vote = true <->
forall p, p ∈ playerIds one_vote -> p ∈ map_keys (votes one_vote).
Proof. apply isComplete_iff, castVote_wf_witness. Defined.

Lemma full_round_completes_witness :
exists vm, cast_all ballots (create roster "a") = Ok vm /\ votes vm = ballots /\
isComplete vm = true.
Proof.
apply full_round_completes; [decide_by_eval | decide_by_eval |].
intros v tgt Hin%list_elem_of_In. simpl in Hin.
destruct Hin as [[= <- <-]|[[= <- <-]|[[= <- <-]|[]]]];
(split; [decide_by_eval | discriminate]).
Defined.
End VotingManagerWitnesses.
