(* ===== verification/WordBank.v ===== *)
(** * WordBank: [src/server/src/WordBank.ts]

    The word supplier.  Its categories are a [Map] from name to word list,
    filled by the constructor in source order; the word lists below are the
    constructor's literals, one definition per category.  [getRandomWord]
    draws [Math.floor(Math.random() * words.length)] from the random stream.

    Theorems: the categories are the thirteen of the source, every one
    non-empty, so a known category always yields one of its words; an
    unknown category throws [CategoryNotFound]. *)

From Stdlib Require Import ZArith Lia.
From S2P Require Import Prelude Types.

Local Open Scope string_scope.

Module WordBank.
(** [animals] (WordBank.ts 7-22) *)
Definition words_animals : list string := [
"dog"; "cat"; "elephant"; "lion"; "tiger"; "bear"; "monkey"; "giraffe"; "zebra";
"penguin"; "dolphin"; "whale"; "shark"; "eagle"; "parrot"; "rabbit"; "horse"; "cow";
"pig"; "sheep"; "goat"; "deer"; "wolf"; "fox"; "owl"; "frog"; "snake"; "turtle";
"octopus"; "jellyfish"; "butterfly"; "bee"; "ant"; "spider"; "crab"; "lobster";
"kangaroo"; "koala"; "panda"; "hippo"; "rhino"; "crocodile"; "flamingo"; "peacock";
"hamster"; "squirrel"; "bat"; "seal"; "otter"; "chameleon"; "mouse"; "rat"; "beaver";
"raccoon"; "chipmunk"; "hedgehog"; "skunk"; "moose"; "reindeer"; "camel"; "llama";
"alpaca"; "donkey"; "mule"; "buffalo"; "yak"; "gorilla"; "chimpanzee"; "orangutan";
"lemur"; "sloth"; "armadillo"; "porcupine"; "anteater"; "platypus"; "wombat"; "dodo";
"ostrich"; "emu"; "pelican"; "toucan"; "hummingbird"; "swan"; "duck"; "goose";
"chicken"; "rooster"; "turkey"; "quail"; "pigeon"; "seagull"; "raven"; "crow";
"woodpecker"; "stork"; "vulture"; "hawk"].

(** [food] (WordBank.ts 24-41) *)
Definition words_food : list string := [
"pizza"; "burger"; "pasta"; "sushi"; "salad"; "steak"; "chicken"; "rice"; "bread";
"cheese"; "apple"; "banana"; "orange"; "grape"; "strawberry"; "watermelon";
"pineapple"; "mango"; "avocado"; "tomato"; "potato"; "carrot"; "broccoli"; "corn";
"mushroom"; "onion"; "garlic"; "chocolate"; "ice cream"; "cake"; "cookie"; "donut";
"pancake"; "waffle"; "taco"; "burrito"; "sandwich"; "soup"; "noodles"; "dumpling";
"popcorn"; "pretzel"; "hot dog"; "french fries"; "egg"; "bacon"; "lobster"; "shrimp";
"salmon"; "coconut"; "bagel"; "croissant"; "muffin"; "cupcake"; "brownie"; "pie";
"churro"; "pear"; "peach"; "plum"; "cherry"; "blueberry"; "raspberry"; "kiwi"; "lemon";
"lime"; "grapefruit"; "papaya"; "melon"; "dragonfruit"; "burrito bowl"; "quesadilla";
"nachos"; "chips"; "salsa"; "guacamole"; "ramen"; "pho"; "dim sum"; "spring roll";
"tempura"; "bento box"; "lasagna"; "ravioli"; "spaghetti"; "macaroni"; "gnocchi";
"risotto"; "kebab"; "falafel"; "hummus"; "pita"; "tzatziki"; "gyro"; "milkshake";
"smoothie"; "latte"; "cappuccino"; "espresso"; "tea"].

(** [objects] (WordBank.ts 43-60) *)
Definition words_objects : list string := [
"table"; "chair"; "lamp"; "phone"; "computer"; "book"; "pen"; "clock"; "mirror";
"bottle"; "key"; "wallet"; "camera"; "guitar"; "bicycle"; "umbrella"; "glasses"; "hat";
"shoe"; "backpack"; "pillow"; "blanket"; "candle"; "scissors"; "hammer"; "ladder";
"broom"; "bucket"; "rope"; "balloon"; "envelope"; "newspaper"; "map"; "compass";
"telescope"; "microscope"; "trophy"; "crown"; "sword"; "shield"; "drum"; "violin";
"piano"; "headphones"; "microphone"; "remote control"; "toothbrush"; "doorbell";
"lightbulb"; "battery"; "magnet"; "sofa"; "bed"; "desk"; "shelf"; "drawer"; "cabinet";
"wardrobe"; "painting"; "frame"; "vase"; "plant pot"; "rug"; "curtain"; "fan";
"heater"; "air conditioner"; "vacuum"; "iron"; "washing machine"; "refrigerator";
"oven"; "toaster"; "blender"; "kettle"; "teapot"; "calculator"; "stapler"; "tape";
"ruler"; "notebook"; "pencil"; "eraser"; "sharpener"; "suitcase"; "briefcase"; "purse";
"toolbox"; "drill"; "saw"; "wrench"; "screwdriver"; "pliers"; "axe"; "shovel"; "rake";
"hose"; "sprinkler"; "wheelbarrow"; "lawnmower"].

(** [places] (WordBank.ts 62-78) *)
Definition words_places : list string := [
"beach"; "mountain"; "forest"; "city"; "park"; "library"; "museum"; "restaurant";
"hospital"; "school"; "airport"; "stadium"; "theater"; "mall"; "zoo"; "castle";
"church"; "farm"; "island"; "volcano"; "desert"; "jungle"; "cave"; "waterfall";
"bridge"; "lighthouse"; "prison"; "palace"; "temple"; "pyramid"; "train station";
"subway"; "harbor"; "playground"; "gym"; "cinema"; "bakery"; "garage"; "garden";
"rooftop"; "basement"; "attic"; "balcony"; "fountain"; "cemetery"; "skyscraper";
"igloo"; "treehouse"; "carnival"; "aquarium"; "bank"; "post office"; "supermarket";
"gas station"; "hotel"; "motel"; "cafe"; "diner"; "bar"; "nightclub"; "casino";
"arcade"; "bowling alley"; "ice rink"; "swimming pool"; "spa"; "salon"; "factory";
"warehouse"; "dock"; "pier"; "marina"; "shipyard"; "observatory"; "planetarium";
"laboratory"; "greenhouse"; "nursery"; "ranch"; "vineyard"; "orchard"; "windmill";
"dam"; "power plant"; "laundromat"; "dry cleaner"; "pawn shop"; "pharmacy";
"bookstore"].

(** [actions] (WordBank.ts 80-95) *)
Definition words_actions : list string := [
"run"; "jump"; "swim"; "fly"; "dance"; "sing"; "read"; "write"; "cook"; "sleep";
"drive"; "climb"; "paint"; "talk"; "laugh"; "cry"; "sneeze"; "yawn"; "whistle"; "clap";
"wave"; "hug"; "kick"; "throw"; "catch"; "dig"; "pour"; "stir"; "chop"; "knit"; "sew";
"juggle"; "surf"; "ski"; "skateboard"; "fish"; "hunt"; "camp"; "hike"; "meditate";
"stretch"; "lift"; "push"; "pull"; "blow"; "wink"; "bow"; "salute"; "roll"; "spin";
"cartwheel"; "backflip"; "handstand"; "tiptoe"; "crawl"; "hop"; "skip"; "march";
"strut"; "stumble"; "trip"; "slide"; "lean"; "bend"; "squat"; "kneel"; "crouch";
"dunk"; "shoot"; "tackle"; "block"; "dodge"; "punch"; "slap"; "tickle"; "poke";
"pinch"; "scratch"; "shrug"; "nod"; "shake head"; "point"; "snap fingers"; "high five";
"fist bump"; "thumbs up"; "peace sign"; "rock on"; "eat"; "drink"; "bite"; "chew";
"sip"; "gulp"; "lick"; "taste"].

(** [vehicles] (WordBank.ts 97-112) *)
Definition words_vehicles : list string := [
"car"; "bus"; "train"; "airplane"; "helicopter"; "motorcycle"; "bicycle"; "boat";
"ship"; "submarine"; "rocket"; "hot air balloon"; "skateboard"; "scooter"; "ambulance";
"fire truck"; "police car"; "taxi"; "tractor"; "bulldozer"; "crane"; "forklift";
"jet ski"; "canoe"; "sailboat"; "gondola"; "cable car"; "sled"; "unicycle"; "tank";
"spaceship"; "hovercraft"; "segway"; "rickshaw"; "chariot"; "limousine"; "convertible";
"pickup truck"; "van"; "minivan"; "suv"; "monster truck"; "race car"; "go-kart";
"dune buggy"; "snowmobile"; "yacht"; "cruise ship"; "ferry"; "speedboat"; "rowboat";
"kayak"; "raft"; "houseboat"; "tugboat"; "battleship"; "aircraft carrier"; "blimp";
"glider"; "hang glider"; "parachute"; "fighter jet"; "drone"; "trolley"; "monorail";
"steam train"; "bullet train"; "tram"; "dump truck"; "cement mixer"; "excavator";
"backhoe"; "steamroller"; "golf cart"; "shopping cart"; "wheelchair"; "stroller";
"wagon"].

(** [professions] (WordBank.ts 114-130) *)
Definition words_professions : list string := [
"doctor"; "teacher"; "firefighter"; "police officer"; "chef"; "pilot"; "astronaut";
"farmer"; "painter"; "musician"; "dancer"; "athlete"; "photographer"; "dentist";
"nurse"; "veterinarian"; "mechanic"; "electrician"; "plumber"; "carpenter";
"architect"; "scientist"; "judge"; "detective"; "magician"; "clown"; "pirate";
"knight"; "ninja"; "samurai"; "cowboy"; "lifeguard"; "barber"; "baker"; "butcher";
"waiter"; "DJ"; "surgeon"; "librarian"; "mailman"; "delivery driver"; "taxi driver";
"truck driver"; "sailor"; "captain"; "soldier"; "general"; "spy"; "superhero";
"reporter"; "anchor"; "weatherman"; "actor"; "director"; "producer"; "comedian";
"juggler"; "acrobat"; "tightrope walker"; "stunt person"; "coach"; "referee"; "umpire";
"trainer"; "bodyguard"; "bouncer"; "lawyer"; "accountant"; "banker"; "CEO";
"secretary"; "receptionist"; "janitor"; "gardener"; "florist"; "bartender";
"sommelier"; "tailor"; "cobbler"; "blacksmith"; "jeweler"; "watchmaker"].

(** [nature] (WordBank.ts 132-147) *)
Definition words_nature : list string := [
"sun"; "moon"; "star"; "cloud"; "rainbow"; "lightning"; "tornado"; "volcano";
"earthquake"; "tsunami"; "avalanche"; "river"; "lake"; "ocean"; "waterfall"; "glacier";
"desert"; "forest"; "meadow"; "swamp"; "coral reef"; "geyser"; "canyon"; "cliff";
"cave"; "mushroom"; "cactus"; "palm tree"; "rose"; "sunflower"; "tulip"; "snowflake";
"icicle"; "aurora"; "comet"; "meteor"; "eclipse"; "wind"; "storm"; "blizzard"; "fog";
"mist"; "dew"; "frost"; "hail"; "rain"; "snow"; "thunder"; "hurricane"; "typhoon";
"mountain peak"; "valley"; "hill"; "dune"; "boulder"; "pebble"; "sand"; "mud";
"quicksand"; "lava"; "magma"; "hot spring"; "pond"; "stream"; "creek"; "rapids";
"tide pool"; "bay"; "oak tree"; "pine tree"; "willow tree"; "bamboo"; "fern"; "moss";
"ivy"; "vine"; "lily"; "orchid"; "daisy"; "dandelion"; "clover"; "wheat"; "grass";
"reed"; "seaweed"; "algae"; "plankton"].

(** [sports] (WordBank.ts 149-164) *)
Definition words_sports : list string := [
"soccer"; "basketball"; "tennis"; "baseball"; "volleyball"; "golf"; "bowling";
"boxing"; "wrestling"; "karate"; "fencing"; "archery"; "surfing"; "skiing";
"snowboarding"; "ice skating"; "hockey"; "rugby"; "cricket"; "badminton";
"table tennis"; "diving"; "gymnastics"; "weightlifting"; "cycling"; "horse riding";
"rock climbing"; "skateboarding"; "sailing"; "rowing"; "darts"; "football"; "lacrosse";
"field hockey"; "water polo"; "handball"; "curling"; "bobsled"; "luge"; "biathlon";
"triathlon"; "marathon"; "pole vault"; "high jump"; "long jump"; "javelin"; "discus";
"shot put"; "hurdles"; "relay race"; "sprint"; "judo"; "taekwondo"; "kickboxing";
"motocross"; "bmx"; "mountain biking"; "roller derby"; "frisbee"; "ultimate frisbee";
"croquet"; "bocce ball"; "shuffleboard"; "pickleball"; "squash"; "racquetball"; "polo";
"rodeo"; "bull riding"; "parkour"; "free running"; "bungee jumping"; "skydiving";
"hang gliding"].

(** [movies & tv] (WordBank.ts 166-180) *)
Definition words_movies_tv : list string := [
"superhero"; "zombie"; "vampire"; "werewolf"; "ghost"; "alien"; "robot"; "dinosaur";
"dragon"; "mermaid"; "wizard"; "witch"; "fairy"; "giant"; "dwarf"; "elf"; "troll";
"unicorn"; "phoenix"; "centaur"; "minotaur"; "cyclops"; "grim reaper"; "angel";
"demon"; "frankenstein"; "yeti"; "bigfoot"; "kraken"; "sphinx"; "griffin"; "godzilla";
"king kong"; "mummy"; "skeleton"; "gargoyle"; "golem"; "leprechaun"; "gnome"; "goblin";
"orc"; "ogre"; "hydra"; "medusa"; "pegasus"; "cerberus"; "basilisk"; "banshee";
"genie"; "djinn"; "time traveler"; "cyborg"; "android"; "hologram"; "clone"; "mutant";
"ninja"; "samurai"; "gladiator"; "viking"; "spartan"; "barbarian"; "cowboy";
"gangster"; "spy"; "detective"; "mad scientist"; "villain"; "sidekick"; "damsel";
"princess"; "prince"; "king"; "queen"; "pirate captain"; "space marine"; "jedi";
"sith"; "bounty hunter"].

(** [music] (WordBank.ts 182-196) *)
Definition words_music : list string := [
"guitar"; "piano"; "drums"; "violin"; "trumpet"; "flute"; "saxophone"; "harp"; "cello";
"accordion"; "banjo"; "ukulele"; "harmonica"; "xylophone"; "tambourine"; "maracas";
"tuba"; "clarinet"; "bagpipes"; "bongo"; "triangle"; "kazoo"; "organ"; "mandolin";
"didgeridoo"; "sitar"; "microphone"; "headphones"; "electric guitar"; "bass guitar";
"bass drum"; "snare drum"; "cymbals"; "timpani"; "gong"; "chimes"; "cowbell";
"castanets"; "wood block"; "vibraphone"; "marimba"; "steel drum"; "djembe"; "congas";
"tabla"; "trombone"; "french horn"; "oboe"; "piccolo"; "recorder"; "pan flute";
"synthesizer"; "keyboard"; "electric piano"; "turntable"; "mixer"; "amplifier";
"speaker"; "metronome"; "tuning fork"; "music stand"; "baton"; "pick"; "bow"; "reed";
"mouthpiece"; "drumstick"; "sheet music"; "musical note"; "treble clef"; "bass clef";
"microphone stand"].

(** [clothing] (WordBank.ts 198-213) *)
Definition words_clothing : list string := [
"shirt"; "pants"; "dress"; "skirt"; "jacket"; "coat"; "sweater"; "hoodie"; "hat";
"cap"; "scarf"; "gloves"; "socks"; "boots"; "sandals"; "sneakers"; "high heels"; "tie";
"bow tie"; "belt"; "bikini"; "swimsuit"; "pajamas"; "robe"; "apron"; "crown"; "helmet";
"sunglasses"; "watch"; "ring"; "necklace"; "bracelet"; "t-shirt"; "tank top"; "blouse";
"cardigan"; "vest"; "blazer"; "tuxedo"; "suit"; "shorts"; "jeans"; "leggings";
"sweatpants"; "tracksuit"; "jumpsuit"; "overalls"; "poncho"; "cape"; "cloak";
"bandana"; "beanie"; "beret"; "fedora"; "sombrero"; "top hat"; "mittens"; "earmuffs";
"headband"; "wristband"; "ankle bracelet"; "earrings"; "nose ring"; "brooch";
"cufflinks"; "tiara"; "veil"; "slippers"; "flip flops"; "clogs"; "loafers";
"moccasins"; "ballet flats"; "raincoat"; "windbreaker"; "parka"; "trench coat";
"leather jacket"; "suspenders"; "cummerbund"; "sash"; "shawl"; "stole"].

(** [random] (WordBank.ts 215-233) *)
Definition words_random : list string := [
"birthday party"; "treasure map"; "time machine"; "haunted house"; "roller coaster";
"campfire"; "snowman"; "scarecrow"; "traffic jam"; "solar system"; "black hole";
"lava lamp"; "disco ball"; "jack-o-lantern"; "christmas tree"; "ferris wheel";
"bunk bed"; "quicksand"; "mousetrap"; "sandcastle"; "igloo"; "treehouse"; "hammock";
"trampoline"; "boomerang"; "parachute"; "zipline"; "slingshot"; "catapult"; "maze";
"jigsaw puzzle"; "pinata"; "snow globe"; "kaleidoscope"; "bubble bath"; "pillow fight";
"food fight"; "paper airplane"; "origami"; "fortune cookie"; "vending machine";
"shopping cart"; "parking meter"; "fire hydrant"; "mailbox"; "trash can"; "dumpster";
"recycling bin"; "street sign"; "stop sign"; "speed bump"; "pothole"; "manhole cover";
"flagpole"; "banner"; "billboard"; "neon sign"; "traffic light"; "bench";
"picnic table"; "swing set"; "seesaw"; "slide"; "monkey bars"; "sandbox";
"wishing well"; "bird bath"; "sundial"; "weather vane"; "bird house"; "dog house";
"wind chime"; "garden gnome"; "flamingo lawn ornament"; "tiki torch"; "porch swing";
"doormat"; "welcome mat"; "fence"; "gate"; "stepping stone"].

Record t := mk { categories : list (string * list string) }.

(** [new WordBank()]: [this.categories.set(name, words)] in source order. *)
Definition create : t :=
mk (foldl (fun m e => map_set e.1 e.2 m) [] [
("animals", words_animals);
("food", words_food);
("objects", words_objects);
("places", words_places);
("actions", words_actions);
("vehicles", words_vehicles);
("professions", words_professions);
("nature", words_nature);
("sports", words_sports);
("movies & tv", words_movies_tv);
("music", words_music);
("clothing", words_clothing);
("random", words_random)]).

Definition getCategories (wb : t) : list string := map_keys (categories wb).

Definition getWordsByCategory (category : string) (wb : t) : res (list string) :=
match map_get category (categories wb) with
| Some words => Ok words
| None => Err (CategoryNotFound category)
end.

(** [words[Math.floor(Math.random() * words.length)]]: [undefined] for an
empty list. *)
Definition getRandomWord (category : string) (wb : t) (g : rng) : res (option string * rng) :=
words <- getWordsByCategory category wb ;;
let '(r, g') := rng_next g in
Ok (words !! Z.to_nat (random_floor r (Z.of_nat (length words))), g').

Definition addCategory (name : string) (words : list string) (wb : t) : t :=
mk (map_set name words (categories wb)).

(** A draw from a non-empty list is one of its words. *)
Lemma random_pick_in (words : list string) (r : Z) :
words <> [] -> (0 <= r < RANDOM_BITS)%Z ->
exists w, words !! Z.to_nat (random_floor r (Z.of_nat (length words))) = Some w /\ w ∈ words.
Proof.
intros Hne Hr. destruct words as [|w0 ws]; [done |].
pose proof (random_floor_bounds r (Z.of_nat (length (w0 :: ws))) Hr ltac:(simpl; lia)) as Hb.
destruct (lookup_lt_is_Some_2 (w0 :: ws) (Z.to_nat (random_floor r (Z.of_nat (length (w0 :: ws))))))
as [w Hw]; [lia |].
exists w. split; [done |]. by eapply list_elem_of_lookup_2.
Qed.

Lemma create_categories_nonempty c ws :
map_get c (categories create) = Some ws -> ws <> [].
Proof.
intros Hc. apply map_get_In_value in Hc.
assert (Hall : Forall (fun ws => ws <> []) (map snd (categories create))) by decide_by_eval.
rewrite Forall_forall in Hall. apply Hall, list_elem_of_fmap. exists (c, ws). done.
Qed.

(** [getRandomWord] on the constructor's word bank either throws
[CategoryNotFound] for an unknown category or returns one of the
category's words. *)
Theorem getRandomWord_create (c : string) (g : rng) :
((c ∉ getCategories create) /\ getRandomWord c create g = Err (CategoryNotFound c)) \/
(exists ws w, getWordsByCategory c create = Ok ws /\
getRandomWord c create g = Ok (Some w, (rng_next g).2) /\ w ∈ ws).
Proof.
unfold getRandomWord, getWordsByCategory, getCategories.
destruct (map_get c (categories create)) as [ws|] eqn:Hc.
- right. destruct (random_pick_in ws (rng_next g).1) as (w & Hw & Hin);
[by eapply create_categories_nonempty | apply rng_next_bound |].
exists ws, w. split; [done |]. cbn [rbind]. destruct (rng_next g) as [r g'].
cbn [fst snd] in *. by rewrite Hw.
- left. split; [by apply map_get_None | done].
Qed.
End WordBank.
