(* ===== verification/GameRoom.v ===== *)
(** * GameRoom: [src/server/src/GameRoom.ts]

    The room coordinator.  Its fields are the record [t]; each method is a
    [Exc] computation (the state-exception monad [stx] of the Prelude on
    [t]): the object after the call is returned even when the method throws,
    as JavaScript keeps the mutations made before a [throw].  Methods that
    call [Math.random] take the random stream and return what is left of it.
    The word bank of a room is the constructor's [WordBank.create] (the room
    never adds a category).

    The theorems: the roster bound and the distinct-id invariant of every
    method; [assignRoles] gives one imposter below six players and two from
    six on, the secret word to every artist and [null] to every imposter;
    [startGame] and the drawing phase compose so that a game of [n] players
    and [R] rounds reaches [VOTING] after exactly [n * R] strokes; the
    invariant of every room reachable by method calls (roster bound,
    distinct ids, role words, a turn manager while drawing, a vote collector
    while voting); [calculateScores] adds exactly the scoring rule's points;
    a [startGame] that fails on the word bank has already changed the
    settings. *)

From Stdlib Require Import ZArith Lia.
From S2P Require Import Prelude Types Player ScoringEngine TurnManager VotingManager WordBank.

Local Open Scope string_scope.

Module GameRoom.

Record t := mk {
roomCode : string;
phase : GamePhase;
players : list (string * Player.t);       (** [Map<string, Player>] *)
settings : GameSettings.t;
strokes : list Stroke.t;
turnManager : option TurnManager.t;
votingManager : option VotingManager.t;
timeoutRequests : list string;            (** [Set<string>] *)
secretWord : option string;
roleAssignments : list RoleAssignment.t;
imposterGuessCorrect : option bool;
colorIndex : Z
}.

(** One setter per assigned field. *)
Definition set_phase (x : GamePhase) (r : t) : t :=
mk (roomCode r) x (players r) (settings r) (strokes r) (turnManager r) (votingManager r)
(timeoutRequests r) (secretWord r) (roleAssignments r) (imposterGuessCorrect r) (colorIndex r).
Definition set_players (x : list (string * Player.t)) (r : t) : t :=
mk (roomCode r) (phase r) x (settings r) (strokes r) (turnManager r) (votingManager r)
(timeoutRequests r) (secretWord r) (roleAssignments r) (imposterGuessCorrect r) (colorIndex r).
Definition set_settings (x : GameSettings.t) (r : t) : t :=
mk (roomCode r) (phase r) (players r) x (strokes r) (turnManager r) (votingManager r)
(timeoutRequests r) (secretWord r) (roleAssignments r) (imposterGuessCorrect r) (colorIndex r).
Definition set_strokes (x : list Stroke.t) (r : t) : t :=
mk (roomCode r) (phase r) (players r) (settings r) x (turnManager r) (votingManager r)
(timeoutRequests r) (secretWord r) (roleAssignments r) (imposterGuessCorrect r) (colorIndex r).
Definition set_turnManager (x : option TurnManager.t) (r : t) : t :=
mk (roomCode r) (phase r) (players r) (settings r) (strokes r) x (votingManager r)
(timeoutRequests r) (secretWord r) (roleAssignments r) (imposterGuessCorrect r) (colorIndex r).
Definition set_votingManager (x : option VotingManager.t) (r : t) : t :=
mk (roomCode r) (phase r) (players r) (settings r) (strokes r) (turnManager r) x
(timeoutRequests r) (secretWord r) (roleAssignments r) (imposterGuessCorrect r) (colorIndex r).
Definition set_timeoutRequests (x : list string) (r : t) : t :=
mk (roomCode r) (phase r) (players r) (settings r) (strokes r) (turnManager r) (votingManager r)
x (secretWord r) (roleAssignments r) (imposterGuessCorrect r) (colorIndex r).
Definition set_secretWord (x : option string) (r : t) : t :=
mk (roomCode r) (phase r) (players r) (settings r) (strokes r) (turnManager r) (votingManager r)
(timeoutRequests r) x (roleAssignments r) (imposterGuessCorrect r) (colorIndex r).
Definition set_roleAssignments (x : list RoleAssignment.t) (r : t) : t :=
mk (roomCode r) (phase r) (players r) (settings r) (strokes r) (turnManager r) (votingManager r)
(timeoutRequests r) (secretWord r) x (imposterGuessCorrect r) (colorIndex r).
Definition set_imposterGuessCorrect (x : option bool) (r : t) : t :=
mk (roomCode r) (phase r) (players r) (settings r) (strokes r) (turnManager r) (votingManager r)
(timeoutRequests r) (secretWord r) (roleAssignments r) x (colorIndex r).
Definition set_colorIndex (x : Z) (r : t) : t :=
mk (roomCode r) (phase r) (players r) (settings r) (strokes r) (turnManager r) (votingManager r)
(timeoutRequests r) (secretWord r) (roleAssignments r) (imposterGuessCorrect r) x.

Arguments set_phase _ _ /.
Arguments set_players _ _ /.
Arguments set_settings _ _ /.
Arguments set_strokes _ _ /.
Arguments set_turnManager _ _ /.
Arguments set_votingManager _ _ /.
Arguments set_timeoutRequests _ _ /.
Arguments set_secretWord _ _ /.
Arguments set_roleAssignments _ _ /.
Arguments set_imposterGuessCorrect _ _ /.
Arguments set_colorIndex _ _ /.

(** A method of the room. *)
Abbreviation Exc := (stx t GameError).

(** ** Construction *)

Definition ALPHABET : string := "ABCDEFGHIJKLMNOPQRSTUVWXYZ".

(** [code += chars.charAt(Math.floor(Math.random() * chars.length))], [k] times. *)
Fixpoint code_chars (k : nat) (g : rng) : string * rng :=
match k with
| O => ("", g)
| S k' =>
let '(r, g1) := rng_next g in
let i := Z.to_nat (random_floor r (Z.of_nat (String.length ALPHABET))) in
let '(rest, g2) := code_chars k' g1 in
(match String.get i ALPHABET with Some c => String c rest | None => rest end, g2)
end.

Definition generateRoomCode (g : rng) : string * rng := code_chars 4 g.

(** [new GameRoom()] *)
Definition create (g : rng) : t * rng :=
let '(code, g') := generateRoomCode g in
(mk code LOBBY [] DEFAULT_SETTINGS [] None None [] None [] None 0, g').

(** ** Player management *)

Definition addPlayer (uuid name : string) (isHost : bool) : Exc Player.t :=
let* r := sget in
if decide (phase r <> LOBBY) then sthrow NotInLobby
else if decide (MAX_PLAYERS <= length (players r)) then sthrow RoomFull
else
let player := Player.create uuid name (colorIndex r) isHost in
let* _ := smodify (set_colorIndex (colorIndex r + 1)%Z) in
let* _ := smodify (fun r => set_players (map_set (Player.id player) player (players r)) r) in
sret player.

Definition removePlayer (playerId : string) : Exc unit :=
smodify (fun r => set_players (map_delete playerId (players r)) r).

Definition togglePlayerReady (playerId : string) : Exc unit :=
smodify (fun r => set_players (map_alter Player.toggleReady playerId (players r)) r).

Definition allPlayersReady (r : t) : bool :=
bool_decide (MIN_PLAYERS <= length (players r)) &&
forallb (fun e => Player.isReady e.2) (players r).

(** ** Roles

[[...playerIds].sort(() => Math.random() - 0.5)]: the comparator is
positive when the draw exceeds one half.  JavaScript leaves the order of
an inconsistent comparator to the engine; the model sorts by insertion,
asking the comparator once per comparison.  Only the fact that the
result is a permutation is used below, and it holds for every sequence
of comparisons. *)
Fixpoint insert_random (x : string) (l : list string) (g : rng) : list string * rng :=
match l with
| [] => ([x], g)
| y :: l' =>
let '(r, g1) := rng_next g in
if decide (2 ^ 52 < r)%Z
then let '(l'', g2) := insert_random x l' g1 in (y :: l'', g2)
else (x :: y :: l', g1)
end.

Definition random_sort (l : list string) (g : rng) : list string * rng :=
foldl (fun acc x => insert_random x acc.1 acc.2) ([], g) l.

Definition numImposters (n : nat) : nat := if decide (6 <= n) then 2 else 1.

(** The assignments for a roster, a secret word and the shuffled roster. *)
Definition role_assignments (playerIds : list string) (word : option string)
(shuffled : list string) : list RoleAssignment.t :=
let imposterIds := take (numImposters (length playerIds)) shuffled in
map (fun id => if decide (id ∈ imposterIds)
then RoleAssignment.mk id imposter None
else RoleAssignment.mk id artist word) playerIds.

Definition assignRoles (g : rng) : Exc (list RoleAssignment.t * rng) :=
let* r := sget in
let playerIds := map_keys (players r) in
let '(shuffled, g') := random_sort playerIds g in
let assignments := role_assignments playerIds (secretWord r) shuffled in
let* _ := smodify (set_roleAssignments assignments) in
sret (assignments, g').

(** ** Game lifecycle *)

Definition pickSecretWord (s : GameSettings.t) (g : rng) : res (option string * rng) :=
match truthy_string (GameSettings.customWord s) with
| Some w => Ok (Some w, g)
| None => WordBank.getRandomWord (GameSettings.category s) WordBank.create g
end.

Definition startGame (newSettings : option GameSettings.t) (g : rng) : Exc rng :=
let* r := sget in
if decide (length (players r) < MIN_PLAYERS) then sthrow NotEnoughPlayers
else if negb (forallb (fun e => Player.isReady e.2) (players r)) then sthrow NotAllReady
else
let* _ := smodify (fun r => match newSettings with Some s => set_settings s r | None => r end) in
let* r := sget in
let* w := slift (pickSecretWord (settings r) g) in
let '(word, g1) := w in
let* _ := smodify (set_secretWord word) in
let '(tm, g2) := TurnManager.create (map_keys (players r)) (GameSettings.rounds (settings r)) g1 in
let* _ := smodify (set_turnManager (Some tm)) in
let* ra := assignRoles g2 in
let '(roles, g3) := ra in
let* _ := smodify (set_roleAssignments roles) in
let* _ := smodify (set_strokes []) in
let* _ := smodify (set_imposterGuessCorrect None) in
let* _ := smodify (set_phase ROLE_REVEAL) in
sret g3.

Definition startDrawing : Exc unit :=
let* r := sget in
if decide (phase r <> ROLE_REVEAL) then sthrow NotRoleReveal
else smodify (set_phase DRAWING).

(** [this.roleAssignments.find((r) => r.role === 'imposter')!.playerId]:
a [TypeError] when there is no imposter. *)
Definition findImposterId (roles : list RoleAssignment.t) : res string :=
match list_find (fun ra => RoleAssignment.role ra = imposter) roles with
| Some (_, ra) => Ok (RoleAssignment.playerId ra)
| None => Err UndefinedPlayerId
end.

Definition startVoting : Exc unit :=
let* r := sget in
let playerIds := map_keys (players r) in
let* imposterId := slift (findImposterId (roleAssignments r)) in
let* _ := smodify (set_votingManager (Some (VotingManager.create playerIds imposterId))) in
smodify (set_phase VOTING).

Definition submitStroke (playerId : string) (stroke : Stroke.t) : Exc unit :=
let* r := sget in
if decide (phase r <> DRAWING) then sthrow NotDrawing
else match turnManager r with
| None => sthrow NoTurnManager
| Some tm =>
if decide (Some playerId <> TurnManager.getCurrentPlayerId tm) then sthrow NotYourTurn
else
let* _ := smodify (set_strokes (strokes r ++ [stroke])) in
let tm' := TurnManager.advanceTurn tm in
let* _ := smodify (set_turnManager (Some tm')) in
if TurnManager.isComplete tm' then startVoting else sret tt
end.

Definition submitVote (voterId votedForId : string) : Exc unit :=
let* r := sget in
match votingManager r with
| None => sthrow VotingNotStarted
| Some vm =>
let* vm' := slift (VotingManager.castVote voterId votedForId vm) in
smodify (set_votingManager (Some vm'))
end.

Definition allVotesIn (r : t) : bool :=
match votingManager r with
| None => false
| Some vm => VotingManager.isComplete vm
end.

Definition resolveVotes : Exc VoteResult.t :=
let* r := sget in
match votingManager r with
| None => sthrow VotingNotStarted
| Some vm => sret (VotingManager.getResult vm)
end.

(** [word.toLowerCase() === this.secretWord.toLowerCase()] *)
Definition submitImposterGuess (word : string) : Exc bool :=
let* r := sget in
match truthy_string (secretWord r) with
| None => sthrow NoSecretWord
| Some w =>
let correct := bool_decide (string_lower word = string_lower w) in
let* _ := smodify (set_imposterGuessCorrect (Some correct)) in
sret correct
end.

(** [for (const [id, points] of Object.entries(roundScores)) player?.addPoints(points)] *)
Definition applyScores (roundScores : list (string * Z)) (ps : list (string * Player.t)) :
list (string * Player.t) :=
foldl (fun ps e => map_alter (Player.addPoints e.2) e.1 ps) ps roundScores.

Definition totalScores (ps : list (string * Player.t)) : list (string * Z) :=
map (fun e => (e.1, Player.score e.2)) ps.

(** The argument object of [ScoringEngine.calculate] (lines 219-232). *)
Definition artist_ids (roles : list RoleAssignment.t) : list string :=
map RoleAssignment.playerId (filter (fun ra => RoleAssignment.role ra = artist) roles).

Definition round_input (r : t) (vm : VotingManager.t) (imposterId : string) : ScoringEngine.ScoreInput :=
let voteResult := VotingManager.getResult vm in
let imposterCaught := VotingManager.isCaughtPlayerImposter vm in
ScoringEngine.mk_input (VoteResult.votes voteResult) imposterId (artist_ids (roleAssignments r))
imposterCaught (if imposterCaught then imposterGuessCorrect r else None).

Definition calculateScores : Exc RoundResult.t :=
let* r := sget in
match votingManager r with
| None => sthrow VotingNotStarted
| Some vm =>
let* imposterId := slift (findImposterId (roleAssignments r)) in
let input := round_input r vm imposterId in
let roundScores := ScoringEngine.calculate input in
let* _ := smodify (fun r => set_players (applyScores roundScores (players r)) r) in
let* r := sget in
sret (RoundResult.mk roundScores (totalScores (players r)) imposterId
(ScoringEngine.imposterCaught input) (ScoringEngine.imposterGuessCorrect input)
(secretWord r))
end.

(** ** Serialisation *)

Definition getPlayerList (r : t) : list PlayerData.t := map (fun e => Player.toData e.2) (players r).

Definition getState (r : t) : GameState.t :=
GameState.mk (roomCode r) (phase r) (getPlayerList r) (settings r)
(default 0%Z (TurnManager.getCurrentRound <$> turnManager r))
(default 0 (TurnManager.turnIndex <$> turnManager r))
(default [] (TurnManager.getTurnOrder <$> turnManager r))
(turnManager r ≫= TurnManager.getCurrentPlayerId)
(strokes r).

Definition getRoleForPlayer (playerId : string) (r : t) : res RoleAssignment.t :=
match list_find (fun ra => RoleAssignment.playerId ra = playerId) (roleAssignments r) with
| Some (_, ra) => Ok ra
| None => Err (NoRoleAssignment playerId)
end.

(** ** Roles: the theorems *)

Lemma insert_random_perm x l g : (insert_random x l g).1 ≡ₚ x :: l.
Proof.
revert g. induction l as [|y l IH]; intros g; [done |].
change (insert_random x (y :: l) g) with
(let '(r, g1) := rng_next g in
if decide (2 ^ 52 < r)%Z
then let '(l'', g2) := insert_random x l g1 in (y :: l'', g2)
else (x :: y :: l, g1)).
destruct (rng_next g) as [r g1]. case_decide; [| done].
specialize (IH g1). destruct (insert_random x l g1) as [l'' g2]. simpl in *.
rewrite IH. apply perm_swap.
Qed.

Lemma random_sort_perm_acc l acc g :
(foldl (fun acc x => insert_random x acc.1 acc.2) (acc, g) l).1 ≡ₚ l ++ acc.
Proof.
revert acc g. induction l as [|x l IH]; intros acc g; simpl; [done |].
pose proof (insert_random_perm x acc g) as Hp.
destruct (insert_random x acc g) as [acc' g']. rewrite IH. simpl in Hp.
rewrite Hp. by rewrite <- Permutation_middle.
Qed.

Lemma random_sort_perm l g : (random_sort l g).1 ≡ₚ l.
Proof. unfold random_sort. rewrite random_sort_perm_acc. by rewrite app_nil_r. Qed.

Lemma take_perm_sub (sh ids : list string) k :
sh ≡ₚ ids -> NoDup ids -> k <= length ids ->
NoDup (take k sh) /\ length (take k sh) = k /\ (forall x, x ∈ take k sh -> x ∈ ids).
Proof.
intros Hp Hnd Hk. pose proof (Permutation_length Hp) as Hl.
split; [| split].
- apply (sublist_NoDup _ sh); [by rewrite Hp | apply sublist_take].
- rewrite length_take. lia.
- intros x Hx. rewrite <- Hp. by apply (subseteq_take k sh).
Qed.

(** The imposters among the roster are exactly the chosen ones. *)
Lemma filter_in_sub_length (ids sub : list string) :
NoDup ids -> NoDup sub -> (forall x, x ∈ sub -> x ∈ ids) ->
length (filter (fun x => x ∈ sub) ids) = length sub.
Proof.
intros Hids Hsub Hin. apply Permutation_length, NoDup_Permutation.
- by apply NoDup_filter.
- done.
- intros x. rewrite list_elem_of_filter. naive_solver.
Qed.

Definition roles_consistent (word : option string) (roles : list RoleAssignment.t) : Prop :=
forall ra, ra ∈ roles ->
(RoleAssignment.role ra = artist /\ RoleAssignment.word ra = word) \/
(RoleAssignment.role ra = imposter /\ RoleAssignment.word ra = None).

Lemma role_assignments_consistent ids w sh : roles_consistent w (role_assignments ids w sh).
Proof.
intros ra (id & -> & _)%list_elem_of_fmap. case_decide; [right | left]; done.
Qed.

Lemma role_assignments_ids ids w sh : map RoleAssignment.playerId (role_assignments ids w sh) = ids.
Proof.
unfold role_assignments. rewrite map_map. erewrite map_ext; [apply map_id |].
intros id. simpl. by case_decide.
Qed.

Lemma role_assignments_imposter_count ids w sh :
length (filter (fun ra => RoleAssignment.role ra = imposter) (role_assignments ids w sh)) =
length (filter (fun id => id ∈ take (numImposters (length ids)) sh) ids).
Proof.
unfold role_assignments. generalize (take (numImposters (length ids)) sh) as imps. intros imps.
induction ids as [|id ids IH]; [done |]. cbn [map]. rewrite !filter_cons.
destruct (decide (id ∈ imps)); cbn [RoleAssignment.role].
- rewrite !decide_True by done. simpl. by rewrite IH.
- rewrite !decide_False by (done || congruence). exact IH.
Qed.

Lemma role_assignments_imposter_exact ids w sh :
NoDup ids -> sh ≡ₚ ids -> ids <> [] ->
length (filter (fun ra => RoleAssignment.role ra = imposter) (role_assignments ids w sh)) =
numImposters (length ids).
Proof.
intros Hnd Hp Hne. rewrite role_assignments_imposter_count.
assert (Hk : numImposters (length ids) <= length ids).
{ unfold numImposters. destruct ids; [done |]. simpl. case_decide; lia. }
destruct (take_perm_sub sh _ _ Hp Hnd Hk) as (Htnd & Htl & Hsub).
rewrite filter_in_sub_length; done.
Qed.

(** C39: for every random stream, [assignRoles] gives every player of the
roster exactly one assignment, in roster order; one player is the
imposter below six players and two from six on; every artist gets the
secret word and every imposter [null]. *)
Theorem assignRoles_spec (g : rng) (r : t) :
NoDup (map_keys (players r)) -> players r <> [] ->
exists roles g',
assignRoles g r = (Ok (roles, g'), set_roleAssignments roles r) /\
map RoleAssignment.playerId roles = map_keys (players r) /\
length (filter (fun ra => RoleAssignment.role ra = imposter) roles) =
(if decide (6 <= length (players r)) then 2 else 1) /\
roles_consistent (secretWord r) roles.
Proof.
intros Hnd Hne. unfold assignRoles, sbind, sget, smodify, sret. cbn.
pose proof (random_sort_perm (map_keys (players r)) g) as Hp.
destruct (random_sort (map_keys (players r)) g) as [sh g'] eqn:E. simpl in Hp.
eexists _, g'. split; [reflexivity |]. split; [apply role_assignments_ids |].
split; [| apply role_assignments_consistent].
rewrite role_assignments_imposter_exact; [unfold numImposters, map_keys; by rewrite length_map | done | done |].
unfold map_keys. intros Hn. by apply map_eq_nil in Hn.
Qed.

(** ** Room codes *)

(** Every character of a string is an upper-case ASCII letter. *)
Definition all_upper (s : string) : bool := forallb is_upper (String.list_ascii_of_string s).

Lemma alphabet_get i : i < 26 -> exists c, String.get i ALPHABET = Some c /\ is_upper c = true.
Proof. intros Hi. do 26 (destruct i as [|i]; [eexists; split; reflexivity |]). lia. Qed.

Lemma code_chars_wf k g :
String.length (code_chars k g).1 = k /\ all_upper (code_chars k g).1 = true.
Proof.
revert g. induction k as [|k IH]; intros g; [done |]. cbn [code_chars].
pose proof (random_floor_bounds (rng_next g).1 (Z.of_nat (String.length ALPHABET))
(rng_next_bound g) ltac:(simpl; lia)) as Hb.
destruct (rng_next g) as [r g1]. cbn [fst] in Hb.
destruct (alphabet_get (Z.to_nat (random_floor r (Z.of_nat (String.length ALPHABET)))))
as (c & Hc & Hu); [simpl in Hb |- *; lia |].
destruct (IH g1) as [Hl Ha]. destruct (code_chars k g1) as [rest g2]. rewrite Hc.
unfold all_upper in *. simpl in *. by rewrite Hl, Hu, Ha.
Qed.

(** C32: every room code is four upper-case letters of [ALPHABET], for
every random stream. *)
Theorem generateRoomCode_wf (g : rng) :
String.length (generateRoomCode g).1 = 4 /\ all_upper (generateRoomCode g).1 = true.
Proof. apply code_chars_wf. Qed.

(** ** The room as a state machine

[call] is one method call with its arguments, [run] its effect on the
room (whether it returns or throws), [reachable] the rooms that a
sequence of calls on a new room can produce. *)

Inductive call :=
| CallAddPlayer (uuid name : string) (isHost : bool)
| CallRemovePlayer (playerId : string)
| CallToggleReady (playerId : string)
| CallStartGame (newSettings : option GameSettings.t) (g : rng)
| CallAssignRoles (g : rng)
| CallStartDrawing
| CallSubmitStroke (playerId : string) (stroke : Stroke.t)
| CallStartVoting
| CallSubmitVote (voterId votedForId : string)
| CallResolveVotes
| CallSubmitGuess (word : string)
| CallCalculateScores.

Definition run (c : call) (r : t) : t :=
match c with
| CallAddPlayer u n h => (addPlayer u n h r).2
| CallRemovePlayer p => (removePlayer p r).2
| CallToggleReady p => (togglePlayerReady p r).2
| CallStartGame s g => (startGame s g r).2
| CallAssignRoles g => (assignRoles g r).2
| CallStartDrawing => (startDrawing r).2
| CallSubmitStroke p st => (submitStroke p st r).2
| CallStartVoting => (startVoting r).2
| CallSubmitVote v tg => (submitVote v tg r).2
| CallResolveVotes => (resolveVotes r).2
| CallSubmitGuess w => (submitImposterGuess w r).2
| CallCalculateScores => (calculateScores r).2
end.

Inductive reachable : t -> Prop :=
| reachable_create g : reachable (create g).1
| reachable_step c r : reachable r -> reachable (run c r).

Ltac run_monad :=
unfold sbind, sget, smodify, sret, sthrow, slift in *;
repeat (case_match; simplify_eq/=); simpl in *.

Definition roster_ok (r : t) : Prop :=
NoDup (map_keys (players r)) /\ length (players r) <= MAX_PLAYERS.

Lemma applyScores_keys sc ps : map_keys (applyScores sc ps) = map_keys ps.
Proof.
unfold applyScores. revert ps. induction sc as [|e sc IH]; intros ps; simpl; [done |].
by rewrite IH, map_keys_alter.
Qed.

Lemma length_keys {V} (m : list (string * V)) : length (map_keys m) = length m.
Proof. apply length_map. Qed.

Lemma applyScores_length sc ps : length (applyScores sc ps) = length ps.
Proof. by rewrite <- !length_keys, applyScores_keys. Qed.

Lemma map_alter_length {V} (f : V -> V) k (m : list (string * V)) : length (map_alter f k m) = length m.
Proof. apply length_map. Qed.

Lemma run_roster_ok c r : roster_ok r -> roster_ok (run c r).
Proof.
unfold roster_ok. intros [Hnd Hlen].
destruct c; simpl;
unfold addPlayer, removePlayer, togglePlayerReady, startGame, assignRoles, startDrawing,
submitStroke, startVoting, submitVote, resolveVotes, submitImposterGuess, calculateScores;
run_monad; rewrite ?map_keys_alter, ?applyScores_keys, ?applyScores_length, ?map_alter_length;
try done.
- split; [by apply map_keys_set_NoDup |]. pose proof (map_set_length uuid
(Player.create uuid name (colorIndex r) isHost) (players r)). unfold MAX_PLAYERS in *. lia.
- split; [by apply map_keys_delete_NoDup |]. pose proof (map_delete_length playerId (players r)). lia.
Qed.
Definition phase_ok (r : t) : Prop :=
((phase r = ROLE_REVEAL \/ phase r = DRAWING) -> is_Some (turnManager r)) /\
(phase r = VOTING -> is_Some (votingManager r)).

(** The invariant of a room under the methods of [GameRoom.ts]. *)
Definition room_inv (r : t) : Prop :=
roster_ok r /\ roles_consistent (secretWord r) (roleAssignments r) /\ phase_ok r.

Ltac unfold_methods :=
unfold addPlayer, removePlayer, togglePlayerReady, startGame, assignRoles, startDrawing,
submitStroke, startVoting, submitVote, resolveVotes, submitImposterGuess, calculateScores.

Lemma run_roles c r :
roles_consistent (secretWord r) (roleAssignments r) ->
roles_consistent (secretWord (run c r)) (roleAssignments (run c r)).
Proof.
intros Hr. destruct c; simpl; unfold_methods; run_monad; try done;
apply role_assignments_consistent.
Qed.

Lemma run_phase c r : phase_ok r -> phase_ok (run c r).
Proof.
unfold phase_ok. intros [Htm Hvm].
destruct c; simpl; unfold_methods; run_monad; try done.
all: split; intros; simplify_eq/=; try by eexists; try done.
all: try (rewrite ?H0 in Htm, Hvm; naive_solver).
apply Htm; left; by apply dec_stable.
Qed.

Lemma create_inv g : room_inv (create g).1.
Proof.
unfold create. destruct (generateRoomCode g). simpl.
split; [split; [constructor | unfold MAX_PLAYERS; simpl; lia] |].
split; [intros ra Hra; set_solver |]. split; [intros [?|?]; discriminate | discriminate].
Qed.

(** C1: every room reachable from a new room by any sequence of method
calls (returning or throwing) has at most [MAX_PLAYERS] players with
distinct ids, role assignments where every artist holds the current
secret word and every imposter [null], a turn manager whenever it is in
[ROLE_REVEAL] or [DRAWING], and a vote collector whenever it is in
[VOTING]. *)
Theorem reachable_inv (r : t) : reachable r -> room_inv r.
Proof.
induction 1 as [g | c r _ [Hro [Hrl Hph]]]; [apply create_inv |].
split; [by apply run_roster_ok | split; [by apply run_roles | by apply run_phase]].
Qed.
(** ** The drawing phase *)

(** The active drawer submits each stroke in turn. *)
Definition activePlayer (r : t) : string :=
default "" (turnManager r ≫= TurnManager.getCurrentPlayerId).

Fixpoint draw_turns (sts : list Stroke.t) (r : t) : t :=
match sts with
| [] => r
| st :: sts' => draw_turns sts' (submitStroke (activePlayer r) st r).2
end.

Lemma findImposterId_Ok roles :
(exists ra, ra ∈ roles /\ RoleAssignment.role ra = imposter) ->
exists imp, findImposterId roles = Ok imp.
Proof.
intros (ra & Hin & Hr). unfold findImposterId.
destruct (list_find _ roles) as [[i ra']|] eqn:E; [by eexists |].
apply list_find_None in E. rewrite Forall_forall in E. by apply E in Hin.
Qed.

(** One turn of the active drawer. *)
Lemma submitStroke_active r tm p st imp :
phase r = DRAWING -> turnManager r = Some tm -> TurnManager.getCurrentPlayerId tm = Some p ->
findImposterId (roleAssignments r) = Ok imp ->
submitStroke p st r =
let r1 := set_turnManager (Some (TurnManager.advanceTurn tm)) (set_strokes (strokes r ++ [st]) r) in
if TurnManager.isComplete (TurnManager.advanceTurn tm)
then (Ok tt, set_phase VOTING
(set_votingManager (Some (VotingManager.create (map_keys (players r)) imp)) r1))
else (Ok tt, r1).
Proof.
intros Hph Htm Hp Himp. unfold submitStroke, startVoting, sbind, sget, smodify, sret, sthrow, slift.
rewrite Hph, decide_False by congruence. rewrite Htm, Hp, decide_False by congruence.
simpl. destruct (TurnManager.isComplete _); simpl; [rewrite Himp |]; done.
Qed.

Section Drawing.
Context (ids : list string) (rounds : Z) (g : rng) (imp : string).
Hypothesis ids_nonempty : ids <> [].
Let n := length ids.
Let tm0 := (TurnManager.create ids rounds g).1.

Lemma current_player_exists k : exists p, TurnManager.getCurrentPlayerId (TurnManager.advance_n k tm0) = Some p.
Proof.
destruct (TurnManager.fresh_state ids rounds g ids_nonempty k) as (Hl & _ & [Hi _] & _).
unfold TurnManager.getCurrentPlayerId. apply lookup_lt_is_Some_2. fold tm0 in Hi. lia.
Qed.

(** From [j] turns taken, [k] more strokes of the active drawer, while the
game lasts, take the room to [j + k] turns; it stays in [DRAWING] until
[n * rounds] turns are taken and is in [VOTING] at that point. *)
Lemma draw_turns_spec sts : forall j r,
phase r = DRAWING -> turnManager r = Some (TurnManager.advance_n j tm0) ->
findImposterId (roleAssignments r) = Ok imp ->
(Z.of_nat (j + length sts) <= rounds * Z.of_nat n)%Z ->
(rounds * Z.of_nat n > Z.of_nat j)%Z ->
let r' := draw_turns sts r in
phase r' = (if bool_decide (rounds * Z.of_nat n <= Z.of_nat (j + length sts))%Z then VOTING else DRAWING) /\
turnManager r' = Some (TurnManager.advance_n (j + length sts) tm0) /\
strokes r' = (strokes r ++ sts)%list /\ players r' = players r /\ roleAssignments r' = roleAssignments r.
Proof.
induction sts as [|st sts IH]; intros j r Hph Htm Himp Hle Hgt; simpl.
- rewrite Nat.add_0_r, app_nil_r, Hph, Htm. rewrite bool_decide_eq_false_2 by lia. done.
- destruct (current_player_exists j) as [p Hp].
assert (Hact : activePlayer r = p) by (unfold activePlayer; rewrite Htm; simpl; by rewrite Hp).
rewrite Hact, (submitStroke_active r _ p st imp Hph Htm Hp Himp). simpl.
change (TurnManager.advanceTurn (TurnManager.advance_n j tm0)) with (TurnManager.advance_n (S j) tm0).
pose proof (TurnManager.isComplete_after_iff ids rounds g ids_nonempty (S j)) as Hcomp.
change (TurnManager.create ids rounds g).1 with tm0 in Hcomp. rewrite Hcomp. fold n.
destruct (decide (rounds * Z.of_nat n <= Z.of_nat (S j))%Z) as [Hc|Hc].
+ assert (sts = []) as -> by (destruct sts; [done | simpl in Hle; lia]).
rewrite !bool_decide_eq_true_2 by (simpl; lia). cbn. rewrite Nat.add_1_r. done.
+ rewrite !bool_decide_eq_false_2 by (simpl; lia).
match goal with |- context [draw_turns sts ?r1] =>
destruct (IH (S j) r1 Hph eq_refl Himp ltac:(simpl in *; lia) ltac:(lia))
as (Hph' & Htm' & Hst' & Hpl' & Hro');
rewrite Hph', Htm', Hst', Hpl', Hro' end.
cbn. rewrite <- app_assoc, Nat.add_succ_r. done.
Qed.
End Drawing.
Lemma role_assignments_has_imposter ids w sh :
NoDup ids -> sh ≡ₚ ids -> ids <> [] ->
exists imp, findImposterId (role_assignments ids w sh) = Ok imp.
Proof.
intros Hnd Hp Hne. apply findImposterId_Ok.
pose proof (role_assignments_imposter_exact ids w sh Hnd Hp Hne) as Hc.
destruct (filter _ _) as [|ra l] eqn:E.
- unfold numImposters in Hc. simpl in Hc. case_decide; lia.
- exists ra.
assert (Hin : ra ∈ filter (fun ra => RoleAssignment.role ra = imposter) (role_assignments ids w sh))
by (rewrite E; set_solver).
apply list_elem_of_filter in Hin. naive_solver.
Qed.

(** ** Starting a game *)

Lemma startGame_Ok r s g w g1 :
MIN_PLAYERS <= length (players r) ->
forallb (fun e => Player.isReady e.2) (players r) = true ->
pickSecretWord s g = Ok (w, g1) ->
let ids := map_keys (players r) in
let tm_g2 := TurnManager.create ids (GameSettings.rounds s) g1 in
let sh_g3 := random_sort ids tm_g2.2 in
let roles := role_assignments ids w sh_g3.1 in
startGame (Some s) g r =
(Ok sh_g3.2,
set_phase ROLE_REVEAL (set_imposterGuessCorrect None (set_strokes []
(set_roleAssignments roles (set_roleAssignments roles
(set_turnManager (Some tm_g2.1) (set_secretWord w (set_settings s r)))))))).
Proof.
intros Hmin Hready Hpick. simpl.
unfold startGame, assignRoles, sbind, sget, smodify, sret, sthrow, slift.
rewrite decide_False by lia. rewrite Hready. simpl. rewrite Hpick.
destruct (TurnManager.create _ _ g1) as [tm g2]. simpl.
destruct (random_sort _ g2) as [sh g3]. done.
Qed.

Lemma startDrawing_Ok r : phase r = ROLE_REVEAL -> startDrawing r = (Ok tt, set_phase DRAWING r).
Proof.
intros Hph. unfold startDrawing, sbind, sget, smodify, sthrow. rewrite Hph.
by rewrite decide_False by congruence.
Qed.

(** C2: the game of the specification's scenario, for every roster and
every random stream: a lobby of [n] distinct, ready players (at least
[MIN_PLAYERS]) starts a game of [R >= 1] rounds with a word it can
draw; after [startDrawing] and [k <= n * R] strokes, each submitted by
the active drawer, the room is still [DRAWING] while [k < n * R] and is
[VOTING] at [k = n * R], with exactly those strokes recorded. *)
Theorem game_reaches_voting (r : t) (s : GameSettings.t) (g : rng) (sts : list Stroke.t) :
roster_ok r ->
MIN_PLAYERS <= length (players r) ->
forallb (fun e => Player.isReady e.2) (players r) = true ->
(exists w g1, pickSecretWord s g = Ok (w, g1)) ->
(1 <= GameSettings.rounds s)%Z ->
(Z.of_nat (length sts) <= GameSettings.rounds s * Z.of_nat (length (players r)))%Z ->
let r3 := draw_turns sts (startDrawing (startGame (Some s) g r).2).2 in
phase r3 = (if bool_decide (GameSettings.rounds s * Z.of_nat (length (players r))
    <= Z.of_nat (length sts))%Z then VOTING else DRAWING) /\
strokes r3 = sts.
Proof.
intros [Hnd Hmax] Hmin Hready (w & g1 & Hpick) HR Hlen. cbv zeta.
rewrite (startGame_Ok r s g w g1 Hmin Hready Hpick). cbn [snd].
rewrite startDrawing_Ok by reflexivity. cbn [snd].
set (ids := map_keys (players r)).
assert (Hne : ids <> []).
{ unfold ids, map_keys. intros Hn. apply map_eq_nil in Hn. rewrite Hn in Hmin. simpl in Hmin.
unfold MIN_PLAYERS in Hmin. lia. }
assert (Hn : length ids = length (players r)) by apply length_keys.
pose proof (random_sort_perm ids (TurnManager.create ids (GameSettings.rounds s) g1).2) as Hp.
destruct (random_sort ids _) as [sh g3]. simpl in Hp |- *.
destruct (role_assignments_has_imposter ids w sh Hnd Hp Hne) as [imp Himp].
match goal with |- context [draw_turns sts ?r2] =>
destruct (draw_turns_spec ids (GameSettings.rounds s) g1 imp Hne sts 0 r2 eq_refl eq_refl Himp
ltac:(rewrite Hn; simpl; lia) ltac:(rewrite Hn; unfold MIN_PLAYERS in Hmin; nia)) as (Hph & _ & Hst & _) end.
rewrite Hph, Hst, Hn. done.
Qed.

(** ** Scoring a round *)

Lemma applyScores_get sc ps k :
NoDup (map_keys sc) ->
map_get k (applyScores sc ps) =
(fun p => match map_get k sc with Some n => Player.addPoints n p | None => p end) <$> map_get k ps.
Proof.
unfold applyScores. revert ps. induction sc as [|[k' n] sc IH]; intros ps Hnd; cbn [foldl].
- by destruct (map_get k ps).
- apply NoDup_cons in Hnd as [Hk' Hnd]. cbn [fst] in Hk'. rewrite IH by done. cbn [map_get fst snd].
destruct (decide (k = k')) as [->|Hne].
+ rewrite map_get_alter_eq. apply map_get_None in Hk'. rewrite Hk'.
by destruct (map_get k' ps).
+ by rewrite map_get_alter_ne by congruence.
Qed.

Lemma NoDup_map_elem_eq {A B} (f : A -> B) (l : list A) x y :
NoDup (map f l) -> x ∈ l -> y ∈ l -> f x = f y -> x = y.
Proof.
induction l as [|z l IH]; intros Hnd Hx Hy Hf; [set_solver |].
simpl in Hnd. apply NoDup_cons in Hnd as [Hz Hnd].
apply elem_of_cons in Hx as [->|Hx], Hy as [->|Hy]; try done.
- destruct Hz. rewrite Hf. by apply list_elem_of_fmap_2.
- destruct Hz. rewrite <- Hf. by apply list_elem_of_fmap_2.
- by apply IH.
Qed.

Lemma findImposterId_role roles imp :
findImposterId roles = Ok imp ->
exists ra, ra ∈ roles /\ RoleAssignment.role ra = imposter /\ RoleAssignment.playerId ra = imp.
Proof.
unfold findImposterId. destruct (list_find _ roles) as [[i ra]|] eqn:E; intros H; simplify_eq.
apply list_find_Some in E as (Hi & Hr & _). exists ra. split; [by eapply list_elem_of_lookup_2 | done].
Qed.

Lemma artist_ids_NoDup roles :
NoDup (map RoleAssignment.playerId roles) -> NoDup (artist_ids roles).
Proof.
unfold artist_ids. intros Hnd. eapply sublist_NoDup; [exact Hnd |].
induction roles as [|ra roles IH]; simpl; [done |]. rewrite filter_cons.
apply NoDup_cons in Hnd as [_ Hnd]. case_decide; simpl; [apply sublist_skip | apply sublist_cons]; auto.
Qed.

Lemma imposter_not_artist roles imp :
NoDup (map RoleAssignment.playerId roles) -> findImposterId roles = Ok imp ->
imp ∉ artist_ids roles.
Proof.
intros Hnd Himp Hin. destruct (findImposterId_role roles imp Himp) as (ra & Hra & Hr & Hid).
apply list_elem_of_fmap_1 in Hin as (ra' & Hid' & Hin).
apply list_elem_of_filter in Hin as [Hr' Hin].
assert (ra = ra') as -> by (apply (NoDup_map_elem_eq RoleAssignment.playerId roles); congruence).
congruence.
Qed.

(** C5: [calculateScores] on a room whose role assignments have distinct
player ids and an imposter returns the score object of
[ScoringEngine.calculate], adds to every artist and to the imposter
exactly its [round_points] of the round, leaves every other player's
score unchanged, and changes nothing else in the room. *)
Theorem calculateScores_spec (r : t) (vm : VotingManager.t) (imp : string) :
NoDup (map RoleAssignment.playerId (roleAssignments r)) ->
votingManager r = Some vm -> findImposterId (roleAssignments r) = Ok imp ->
let input := round_input r vm imp in
let r' := (calculateScores r).2 in
(exists res, (calculateScores r).1 = Ok res /\
RoundResult.scores res = ScoringEngine.calculate input) /\
r' = set_players (players r') r /\
forall k, map_get k (players r') =
(fun p => if decide (k ∈ artist_ids (roleAssignments r) \/ k = imp)
then Player.addPoints (ScoringEngine.round_points input k) p else p)
<$> map_get k (players r).
Proof.
intros Hnd Hvm Himp. cbv zeta. unfold calculateScores, sbind, sget, smodify, sret, slift.
rewrite Hvm, Himp. cbn. split; [by eexists | split; [done |]].
intros k. pose proof (artist_ids_NoDup _ Hnd) as Ha.
pose proof (imposter_not_artist _ _ Hnd Himp) as Hi.
rewrite applyScores_get.
2: { rewrite (ScoringEngine.calculate_keys (round_input r vm imp)) by done.
apply NoDup_app. split; [done | split; [set_solver | apply NoDup_singleton]]. }
rewrite (ScoringEngine.calculate_spec (round_input r vm imp)) by done. cbn.
destruct (map_get k (players r)); simpl; [by case_decide | done].
Qed.

(** C40: when the settings passed to [startGame] name a category the word
bank does not have and no custom word, [startGame] throws the word
bank's error after it has already replaced the room's settings: the
failed call leaves a changed room. *)
Theorem startGame_error_keeps_settings (r : t) (s : GameSettings.t) (g : rng) (e : GameError) :
MIN_PLAYERS <= length (players r) ->
forallb (fun e => Player.isReady e.2) (players r) = true ->
pickSecretWord s g = Err e ->
startGame (Some s) g r = (Err e, set_settings s r) /\
(settings r <> s -> (startGame (Some s) g r).2 <> r).
Proof.
intros Hmin Hready Hpick.
assert (Heq : startGame (Some s) g r = (Err e, set_settings s r)).
{ unfold startGame, sbind, sget, smodify, sret, sthrow, slift.
rewrite decide_False by lia. rewrite Hready. simpl. by rewrite Hpick. }
split; [done |]. rewrite Heq. intros Hs Hr. apply Hs. by rewrite <- Hr.
Qed.
End GameRoom.

(** Witnesses: a lobby of three ready players built by method calls on a
    new room, with the constant random stream. *)
Module GameRoomWitnesses.
Import GameRoom.
Local Open Scope string_scope.

Definition zeros : rng := fun _ => 0%Z.

Definition lobby : t :=
foldl (fun r c => run c r) (create zeros).1
[CallAddPlayer "u1" "Ann" true; CallAddPlayer "u2" "Bo" false; CallAddPlayer "u3" "Cy" false;
CallToggleReady "u1"; CallToggleReady "u2"; CallToggleReady "u3"].

Definition one_round : GameSettings.t := GameSettings.mk "animals" (Some "cat") 20 1 shared 10.

Definition dot : Stroke.t := Stroke.mk "" "#000000" [] 4 0.

Lemma game_reaches_voting_witness :
let r3 := draw_turns [dot; dot; dot] (startDrawing (startGame (Some one_round) zeros lobby).2).2 in
phase r3 = (if bool_decide (GameSettings.rounds one_round * Z.of_nat (length (players lobby))
    <= Z.of_nat (length [dot; dot; dot]))%Z then VOTING else DRAWING) /\
strokes r3 = [dot; dot; dot].
Proof.
apply (game_reaches_voting lobby one_round zeros [dot; dot; dot]);
[decide_by_eval | decide_by_eval | reflexivity | eexists _, _; reflexivity
| decide_by_eval | decide_by_eval].
Defined.

(** The round of the scenario, by method calls: the drawing order for the
constant stream is [u2; u3; u1], and [u3] is the imposter. *)
Definition voted : t :=
foldl (fun r c => run c r) lobby
[CallStartGame (Some one_round) zeros; CallStartDrawing;
CallSubmitStroke "u2" dot; CallSubmitStroke "u3" dot; CallSubmitStroke "u1" dot;
CallSubmitVote "u1" "u3"; CallSubmitVote "u2" "u1"; CallSubmitVote "u3" "u1"].

Definition voted_vm : VotingManager.t :=
default (VotingManager.create [] "") (votingManager voted).

Lemma reachable_inv_witness : room_inv voted.
Proof.
apply reachable_inv. unfold voted, lobby. cbn [foldl]. repeat constructor.
Defined.

Lemma assignRoles_spec_witness :
exists roles g',
assignRoles zeros lobby = (Ok (roles, g'), set_roleAssignments roles lobby) /\
map RoleAssignment.playerId roles = map_keys (players lobby) /\
length (filter (fun ra => RoleAssignment.role ra = imposter) roles) =
(if decide (6 <= length (players lobby)) then 2 else 1) /\
roles_consistent (secretWord lobby) roles.
Proof. apply (assignRoles_spec zeros lobby); [decide_by_eval | vm_compute; discriminate]. Defined.

Lemma calculateScores_spec_witness :
let input := round_input voted voted_vm "u3" in
let r' := (calculateScores voted).2 in
(exists res, (calculateScores voted).1 = Ok res /\
RoundResult.scores res = ScoringEngine.calculate input) /\
r' = set_players (players r') voted /\
forall k, map_get k (players r') =
(fun p => if decide (k ∈ artist_ids (roleAssignments voted) \/ k = "u3")
then Player.addPoints (ScoringEngine.round_points input k) p else p)
<$> map_get k (players voted).
Proof. apply calculateScores_spec; [decide_by_eval | reflexivity | reflexivity]. Defined.

Definition unknown_category : GameSettings.t := GameSettings.mk "nope" None 20 1 shared 10.

Lemma startGame_error_keeps_settings_witness :
startGame (Some unknown_category) zeros lobby =
(Err (CategoryNotFound "nope"), set_settings unknown_category lobby) /\
(settings lobby <> unknown_category -> (startGame (Some unknown_category) zeros lobby).2 <> lobby).
Proof.
apply startGame_error_keeps_settings; [decide_by_eval | reflexivity | reflexivity].
Defined.
End GameRoomWitnesses.
