(* ===== verification/Router.v ===== *)
(** * Router: [handleMessage] of [src/server/src/messages.ts]

    [handleMessage] reads and mutates the two maps of the server
    ([rooms], [playerRooms]) and the room objects they point to, calls
    [send] and [broadcast], and schedules [setTimeout] callbacks.  The
    model keeps all of it in one [world]:
    - the room objects live in a [heap] of locations, and [rooms] maps a
      room code to a location, so that a pending callback keeps its own
      reference to the room object, as the JavaScript closure does, even
      after the map entry is replaced or deleted;
    - [outbox] is the sequence of [send(playerId, message)] calls;
      [broadcast] is the implementation [index.ts] hands in: it looks the
      room up at call time and sends to each of its players in order;
    - [timers] are the pending [setTimeout] callbacks in scheduling order,
      each with the room object, the room code and the connection whose
      [wrappedBroadcast] it captured;
    - [Math.random] and [randomUUID] are streams.

    A handler is a method of the state-exception monad [stx world]: a
    throw keeps the mutations made before it, and [handleMessage] catches
    it and sends the one [ERROR] message of the [catch] block. *)

From Stdlib Require Import ZArith Lia.
From S2P Require Import Prelude Types Player TurnManager VotingManager ScoringEngine WordBank GameRoom.

Local Open Scope string_scope.

Module Router.
Import GameRoom.

(** A pending [setTimeout(() => { room.startDrawing(); broadcast(...) })]. *)
Record timer := mk_timer {
tm_room : nat;       (** the room object of the closure *)
tm_code : string;    (** [roomCode] of the closure *)
tm_conn : nat        (** the connection of the [broadcast] closure *)
}.

Record world := mk_world {
heap : list (nat * GameRoom.t);
next_loc : nat;
rooms : list (string * nat);            (** [Map<string, GameRoom>] *)
playerRooms : list (string * string);   (** playerId -> roomCode *)
timers : list timer;
outbox : list (string * ServerMessage);
rand : rng;                             (** [Math.random] *)
uuids : nat -> string                   (** [randomUUID] *)
}.

Definition set_heap x w := mk_world x (next_loc w) (rooms w) (playerRooms w) (timers w) (outbox w) (rand w) (uuids w).
Definition set_next_loc x w := mk_world (heap w) x (rooms w) (playerRooms w) (timers w) (outbox w) (rand w) (uuids w).
Definition set_rooms x w := mk_world (heap w) (next_loc w) x (playerRooms w) (timers w) (outbox w) (rand w) (uuids w).
Definition set_playerRooms x w := mk_world (heap w) (next_loc w) (rooms w) x (timers w) (outbox w) (rand w) (uuids w).
Definition set_timers x w := mk_world (heap w) (next_loc w) (rooms w) (playerRooms w) x (outbox w) (rand w) (uuids w).
Definition set_outbox x w := mk_world (heap w) (next_loc w) (rooms w) (playerRooms w) (timers w) x (rand w) (uuids w).
Definition set_rand x w := mk_world (heap w) (next_loc w) (rooms w) (playerRooms w) (timers w) (outbox w) x (uuids w).
Definition set_uuids x w := mk_world (heap w) (next_loc w) (rooms w) (playerRooms w) (timers w) (outbox w) (rand w) x.
Arguments set_heap _ _ /.
Arguments set_next_loc _ _ /.
Arguments set_rooms _ _ /.
Arguments set_playerRooms _ _ /.
Arguments set_timers _ _ /.
Arguments set_outbox _ _ /.
Arguments set_rand _ _ /.
Arguments set_uuids _ _ /.

#[local] Abbreviation Act := (stx world GameError).

(** The value returned to [index.ts]: [{ playerId?, roomCode? }]. *)
Definition reply : Type := option string * option string.

Definition none : reply := (None, None).

(** ** Effects *)

Definition send (playerId : string) (message : ServerMessage) : Act unit :=
smodify (fun w => set_outbox (outbox w ++ [(playerId, message)]) w).

Definition room_at (w : world) (code : string) : option GameRoom.t :=
map_get code (rooms w) ≫= fun l => map_get l (heap w).

(** [wrappedBroadcast] of index.ts: [exclude] is never passed by the router. *)
Definition broadcast (roomCode : string) (message : ServerMessage) : Act unit :=
smodify (fun w =>
match room_at w roomCode with
| None => w
| Some room => set_outbox (outbox w ++ map (fun p => (p, message)) (map_keys (players room))) w
end).

(** A method call on the room object at location [l]: the object is
updated whether the method returns or throws. *)
Definition on_room {A} (l : nat) (m : Exc A) : Act A :=
fun w => match map_get l (heap w) with
| None => (Err (NullProperty "room"), w)
| Some r => let '(res, r') := m r in (res, set_heap (map_set l r' (heap w)) w)
end.

Definition room_field {A} (l : nat) (f : GameRoom.t -> A) : Act A :=
on_room l (let* r := sget in sret (f r)).

(** A method that draws from [Math.random]. *)
Definition with_rand {A} (k : rng -> Act (A * rng)) : Act A :=
let* w := sget in
let* ag := k (rand w) in
let '(a, g') := ag in
let* _ := smodify (set_rand g') in
sret a.

(** [new GameRoom()]: allocates a room object. *)
Definition new_room : Act nat :=
let* w := sget in
let '(room, g') := GameRoom.create (rand w) in
let l := next_loc w in
let* _ := smodify (fun w => set_rand g' (set_next_loc (S l) (set_heap (map_set l room (heap w)) w))) in
sret l.

(** [room.addPlayer(name, isHost)]: the constructor of [Player] draws a
[randomUUID] once the guards have passed. *)
Definition add_player (l : nat) (name : string) (isHost : bool) : Act Player.t :=
let* w := sget in
let* p := on_room l (addPlayer (uuids w O) name isHost) in
let* _ := smodify (fun w => set_uuids (fun n => uuids w (S n)) w) in
sret p.

Definition ERROR_of (e : GameError) : ServerMessage :=
ERROR (match error_message e with "" => "An error occurred" | m => m end).

(** ** The guards shared by the cases

[if (!playerId) return {}; const roomCode = playerRooms.get(playerId);
if (!roomCode) { send(ERROR); return {} } const room = rooms.get(roomCode);
if (!room) { send(ERROR); return {} }]; the timeout cases return
without a message ([notify = false]). *)
Definition with_room (notify : bool) (playerId : option string)
(k : string -> string -> nat -> Act reply) : Act reply :=
match truthy_string playerId with
| None => sret none
| Some pid =>
let* w := sget in
match truthy_string (map_get pid (playerRooms w)) with
| None =>
let* _ := (if notify then send pid (ERROR "You are not in a room") else sret tt) in
sret none
| Some code =>
match map_get code (rooms w) with
| None =>
let* _ := (if notify then send pid (ERROR "Room not found") else sret tt) in
sret none
| Some l => k pid code l
end
end
end.

(** [const player = room.players.get(playerId); if (!player || !player.isHost) ...] *)
Definition require_host (pid : string) (l : nat) (message : string) (k : Act reply) : Act reply :=
let* p := room_field l (fun r => map_get pid (players r)) in
match p with
| Some p => if Player.isHost p then k else let* _ := send pid (ERROR message) in sret none
| None => let* _ := send pid (ERROR message) in sret none
end.

(** [for (const [pid] of room.players) { ... send(pid, GAME_STARTING) }] *)
Fixpoint send_roles (l : nat) (ids : list string) : Act unit :=
match ids with
| [] => sret tt
| pid :: ids' =>
let* a := on_room l (let* r := sget in slift (getRoleForPlayer pid r)) in
let* r := room_field l id in
match turnManager r with
| None => sthrow (NullProperty "getTurnOrder")
| Some tm =>
let* _ := send pid (GAME_STARTING (RoleAssignment.role a) (RoleAssignment.word a)
        (TurnManager.getTurnOrder tm) (getPlayerList r) (settings r)) in
send_roles l ids'
end
end.

(** [setTimeout(() => { ... }, ROLE_REVEAL_DURATION)] *)
Definition schedule (l : nat) (code : string) (conn : nat) : Act unit :=
smodify (fun w => set_timers (timers w ++ [mk_timer l code conn]) w).

(** The callback: [room.startDrawing(); broadcast(roomCode, TURN_START)].
It runs outside [handleMessage]'s [try]. *)
Definition fire (t : timer) : Act unit :=
let l := tm_room t in
let* _ := on_room l startDrawing in
let* r := room_field l id in
match turnManager r with
| None => sthrow (NullProperty "getCurrentPlayerId")
| Some tm =>
broadcast (tm_code t) (TURN_START (TurnManager.getCurrentPlayerId tm)
       (TurnManager.getCurrentRound tm) (GameSettings.drawTimeLimit (settings r)))
end.

(** ** The cases of [handleMessage] *)

Definition create_game (hostName : string) : Act reply :=
let* l := new_room in
let* code := room_field l roomCode in
let* _ := smodify (fun w => set_rooms (map_set code l (rooms w)) w) in
let* player := add_player l hostName true in
let newPlayerId := Player.id player in
let* _ := smodify (fun w => set_playerRooms (map_set newPlayerId code (playerRooms w)) w) in
let* _ := send newPlayerId (GAME_CREATED code (Player.toData player)) in
sret (Some newPlayerId, Some code).

Definition join_game (roomCode playerName : string) (playerId : option string) : Act reply :=
let* w := sget in
match map_get roomCode (rooms w) with
| None =>
let* _ := (match truthy_string playerId with
| Some p => send p (ERROR "Room not found")
| None => sret tt
end) in
sret none
| Some l =>
let* player := add_player l playerName false in
let newPlayerId := Player.id player in
let* _ := smodify (fun w => set_playerRooms (map_set newPlayerId roomCode (playerRooms w)) w) in
let* r := room_field l id in
let* _ := broadcast roomCode (PLAYER_JOINED (Player.toData player) (getPlayerList r)) in
sret (Some newPlayerId, Some roomCode)
end.

Definition player_ready (playerId : option string) : Act reply :=
with_room true playerId (fun pid code l =>
let* _ := on_room l (togglePlayerReady pid) in
let* r := room_field l id in
let* _ := (match map_get pid (players r) with
| Some p => broadcast code (PLAYER_READY_UPDATE pid (Player.isReady p) (getPlayerList r))
| None => sret tt
end) in
sret none).

Definition start_game (s : GameSettings.t) (playerId : option string) (conn : nat) : Act reply :=
with_room true playerId (fun pid code l =>
require_host pid l "Only the host can start the game" (
let* _ := with_rand (fun g => let* g' := on_room l (startGame (Some s) g) in sret (tt, g')) in
let* r := room_field l id in
let* _ := send_roles l (map_keys (players r)) in
let* _ := schedule l code conn in
sret none)).

Definition submit_stroke (stroke : Stroke.t) (playerId : option string) : Act reply :=
with_room true playerId (fun pid code l =>
let stroke' := Stroke.with_playerId stroke pid in
let* _ := on_room l (submitStroke pid stroke') in
let* _ := broadcast code (STROKE_BROADCAST stroke') in
let* r := room_field l id in
let* _ :=
(if decide (phase r = VOTING) then broadcast code (VOTING_START (getPlayerList r))
else match turnManager r with
| Some tm =>
if negb (TurnManager.isComplete tm)
then broadcast code (TURN_START (TurnManager.getCurrentPlayerId tm)
(TurnManager.getCurrentRound tm) (GameSettings.drawTimeLimit (settings r)))
else sret tt
| None => sret tt
end) in
sret none).

(** [room.phase = 'IMPOSTER_GUESS'] or [calculateScores] and [room.phase = 'SCOREBOARD']. *)
Definition after_votes (code : string) (l : nat) : Act unit :=
let* vr := on_room l resolveVotes in
let* _ := broadcast code (VOTE_RESULT (VoteResult.votes vr) (VoteResult.caughtPlayerId vr)
      (VoteResult.isTie vr)) in
let* r := room_field l id in
if default false (VotingManager.isCaughtPlayerImposter <$> votingManager r) then
let* imp := slift (findImposterId (roleAssignments r)) in
let* _ := on_room l (smodify (set_phase IMPOSTER_GUESS)) in
broadcast code (IMPOSTER_GUESS_PHASE imp)
else
let* result := on_room l calculateScores in
let* _ := on_room l (smodify (set_phase SCOREBOARD)) in
broadcast code (ROUND_RESULT result).

Definition submit_vote (votedPlayerId : string) (playerId : option string) : Act reply :=
with_room true playerId (fun pid code l =>
let* _ := on_room l (submitVote pid votedPlayerId) in
let* _ := broadcast code (VOTE_CAST pid) in
let* complete := room_field l allVotesIn in
let* _ := (if complete then after_votes code l else sret tt) in
sret none).

Definition submit_guess (word : string) (playerId : option string) : Act reply :=
with_room true playerId (fun pid code l =>
let* _ := on_room l (submitImposterGuess word) in
let* result := on_room l calculateScores in
let* _ := on_room l (smodify (set_phase SCOREBOARD)) in
let* _ := broadcast code (ROUND_RESULT result) in
sret none).

(** [REQUEST_TIMEOUT] ([request = true]) and [CANCEL_TIMEOUT]. The set is
never [undefined], so [if (!room.timeoutRequests)] does nothing. *)
Definition timeout_request (request : bool) (playerId : option string) : Act reply :=
with_room false playerId (fun pid code l =>
let* _ := on_room l (smodify (fun r =>
set_timeoutRequests ((if request then set_add pid else set_remove pid) (timeoutRequests r)) r)) in
let* r := room_field l id in
let* _ := broadcast code (TIMEOUT_UPDATE (timeoutRequests r)) in
sret none).

Definition someone_won (r : GameRoom.t) : bool :=
existsb (fun e => bool_decide (GameSettings.winScore (settings r) <= Player.score e.2)%Z) (players r).

Definition next_round (playerId : option string) (conn : nat) : Act reply :=
with_room true playerId (fun pid code l =>
require_host pid l "Only the host can start the next round" (
let* r := room_field l id in
if someone_won r then
let* _ := send pid (ERROR "Game is over! Use Play Again to return to lobby.") in sret none
else
let* word := with_rand (fun g => slift (pickSecretWord (settings r) g)) in
let* _ := on_room l (smodify (set_secretWord word)) in
let playerIds := map_keys (players r) in
let* _ := with_rand (fun g =>
let '(tm, g') := TurnManager.create playerIds (GameSettings.rounds (settings r)) g in
let* _ := on_room l (smodify (set_turnManager (Some tm))) in
sret (tt, g')) in
let* roles := with_rand (fun g => on_room l (assignRoles g)) in
let* _ := on_room l (smodify (set_roleAssignments roles)) in
let* _ := on_room l (smodify (fun r =>
set_timeoutRequests [] (set_votingManager None (set_strokes [] r)))) in
let* _ := on_room l (smodify (set_phase ROLE_REVEAL)) in
let* _ := send_roles l playerIds in
let* _ := schedule l code conn in
sret none)).

(** [p.isReady = false; p.score = 0] *)
Definition reset_player (p : Player.t) : Player.t :=
Player.mk (Player.id p) (Player.name p) (Player.color p) (Player.isHost p) false 0.

Definition play_again (playerId : option string) : Act reply :=
with_room true playerId (fun pid code l =>
require_host pid l "Only the host can restart the game" (
let* _ := on_room l (smodify (fun r =>
set_votingManager None (set_turnManager None (set_strokes [] (set_phase LOBBY r))))) in
let* _ := on_room l (smodify (fun r =>
set_players (map (fun e => (e.1, reset_player e.2)) (players r)) r)) in
let* r := room_field l id in
let* _ := broadcast code (RETURN_TO_LOBBY (getPlayerList r)) in
sret none)).

(** [switch (msg.type)] *)
Definition dispatch (msg : ClientMessage) (playerId : option string) (conn : nat) : Act reply :=
match msg with
| CREATE_GAME hostName => create_game hostName
| JOIN_GAME code name => join_game code name playerId
| PLAYER_READY => player_ready playerId
| START_GAME s => start_game s playerId conn
| SUBMIT_STROKE st => submit_stroke st playerId
| SUBMIT_VOTE v => submit_vote v playerId
| SUBMIT_GUESS w => submit_guess w playerId
| REQUEST_TIMEOUT => timeout_request true playerId
| CANCEL_TIMEOUT => timeout_request false playerId
| NEXT_ROUND => next_round playerId conn
| PLAY_AGAIN => play_again playerId
end.

(** [handleMessage]: the [catch] block sends the error to the sender. *)
Definition handleMessage (msg : ClientMessage) (playerId : option string) (conn : nat)
(w : world) : reply * world :=
match dispatch msg playerId conn w with
| (Ok r, w') => (r, w')
| (Err e, w') =>
(none, match truthy_string playerId with
| Some p => (send p (ERROR_of e) w').2
| None => w'
end)
end.

(** ** Running the building blocks *)

Lemma set_heap_same w : set_heap (heap w) w = w.
Proof. by destruct w. Qed.

Lemma on_room_run {A} l (m : Exc A) w r :
map_get l (heap w) = Some r -> on_room l m w = ((m r).1, set_heap (map_set l (m r).2 (heap w)) w).
Proof. intros H. unfold on_room. rewrite H. by destruct (m r). Qed.

(** Consecutive calls on the room object just written. *)
Lemma on_room_after {A} l (m : Exc A) r hp w :
on_room l m (set_heap (map_set l r hp) w) = ((m r).1, set_heap (map_set l (m r).2 hp) w).
Proof. rewrite (on_room_run _ _ _ r) by apply map_get_set_eq. simpl. by rewrite map_set_twice. Qed.

Lemma room_field_run {A} l (f : GameRoom.t -> A) w r :
map_get l (heap w) = Some r -> room_field l f w = (Ok (f r), w).
Proof.
intros H. unfold room_field. rewrite (on_room_run _ _ _ _ H).
cbn [sbind sget sret fst snd]. rewrite map_set_same by done. by rewrite set_heap_same.
Qed.

Lemma sbind_room_field {A B} l (f : GameRoom.t -> A) (k : A -> Act B) w r :
map_get l (heap w) = Some r -> sbind (room_field l f) k w = k (f r) w.
Proof. intros H. unfold sbind at 1. by rewrite (room_field_run _ _ _ _ H). Qed.

Lemma sbind_on_room {A B} l (m : Exc A) (k : A -> Act B) w r a r' :
map_get l (heap w) = Some r -> m r = (Ok a, r') ->
sbind (on_room l m) k w = k a (set_heap (map_set l r' (heap w)) w).
Proof. intros H Hm. unfold sbind at 1. rewrite (on_room_run _ _ _ _ H), Hm. done. Qed.

Lemma getRoleForPlayer_Ok pid r :
pid ∈ map RoleAssignment.playerId (roleAssignments r) -> exists a, getRoleForPlayer pid r = Ok a.
Proof.
unfold getRoleForPlayer. intros Hin.
destruct (list_find _ _) as [[i a]|] eqn:E; [by eexists |].
apply list_find_None in E. rewrite Forall_forall in E. apply list_elem_of_fmap_1 in Hin as (a & -> & Ha).
by destruct (E a Ha).
Qed.

(** [GAME_STARTING] goes to every listed player that has a role. *)
(** The [GAME_STARTING] message [send_roles] sends to [pid] from room [r]. *)
Definition role_message (r : GameRoom.t) (tm : TurnManager.t) (pid : string) (m : string * ServerMessage) : Prop :=
exists a, getRoleForPlayer pid r = Ok a /\
m = (pid, GAME_STARTING (RoleAssignment.role a) (RoleAssignment.word a)
    (TurnManager.getTurnOrder tm) (getPlayerList r) (settings r)).

Lemma send_roles_Ok l r tm ids w :
map_get l (heap w) = Some r -> turnManager r = Some tm ->
Forall (fun pid => pid ∈ map RoleAssignment.playerId (roleAssignments r)) ids ->
exists msgs, send_roles l ids w = (Ok tt, set_outbox (outbox w ++ msgs) w) /\
Forall2 (role_message r tm) ids msgs.
Proof.
revert w. induction ids as [|pid ids IH]; intros w Hl Htm Hall.
- exists []. rewrite app_nil_r. split; [by destruct w | constructor].
- apply Forall_cons in Hall as [Hpid Hall].
destruct (getRoleForPlayer_Ok pid r Hpid) as [a Ha].
cbn [send_roles]. unfold sbind at 1. rewrite (on_room_run _ _ _ _ Hl).
cbn [sbind sget slift fst snd]. rewrite Ha, map_set_same, set_heap_same by done.
unfold sbind at 1. rewrite (room_field_run _ _ _ _ Hl). cbv beta iota delta [id]. rewrite Htm.
unfold sbind at 1, send, smodify.
destruct (IH (set_outbox (outbox w ++ [(pid, GAME_STARTING (RoleAssignment.role a)
(RoleAssignment.word a) (TurnManager.getTurnOrder tm) (getPlayerList r) (settings r))]) w))
as [msgs [Hm Hf]]; [by destruct w | done | done |].
rewrite Hm. eexists. split; [simpl; by rewrite <- app_assoc |].
constructor; [by exists a | exact Hf].
Qed.

Lemma with_room_run notify pid code l k w :
pid <> "" -> code <> "" -> map_get pid (playerRooms w) = Some code -> map_get code (rooms w) = Some l ->
with_room notify (Some pid) k w = k pid code l w.
Proof.
intros Hp Hc Hpr Hr. unfold with_room. rewrite truthy_Some by done.
cbn [sbind sget]. rewrite Hpr, truthy_Some, Hr by done. done.
Qed.

Lemma require_host_run pid l msg k w r p :
map_get l (heap w) = Some r -> map_get pid (players r) = Some p -> Player.isHost p = true ->
require_host pid l msg k w = k w.
Proof.
intros Hl Hp Hh. unfold require_host, sbind at 1. rewrite (room_field_run _ _ _ _ Hl).
by rewrite Hp, Hh.
Qed.

Lemma with_rand_run {A} (k : rng -> Act (A * rng)) w :
with_rand k w = match k (rand w) w with
| (Ok (a, g'), w') => (Ok a, set_rand g' w')
| (Err e, w') => (Err e, w')
end.
Proof. unfold with_rand, sbind, sget. by destruct (k (rand w) w) as [[[a g']|e] w']. Qed.

(** [START_GAME] from the host of a full, ready room whose word draw
succeeds: [startGame] returns, the room is in [ROLE_REVEAL] with a turn
manager and its roster, every player is sent its [GAME_STARTING] in
roster order, and one callback is scheduled. *)
Lemma start_game_run (w : world) (pid code : string) (l : nat) (r : GameRoom.t)
(host : Player.t) (s : GameSettings.t) (conn : nat) :
pid <> "" -> code <> "" -> map_get pid (playerRooms w) = Some code ->
map_get code (rooms w) = Some l -> map_get l (heap w) = Some r ->
map_get pid (players r) = Some host -> Player.isHost host = true ->
MIN_PLAYERS <= length (players r) ->
forallb (fun e => Player.isReady e.2) (players r) = true ->
(exists wd g1, pickSecretWord s (rand w) = Ok (wd, g1)) ->
let r1 := (startGame (Some s) (rand w) r).2 in
exists g3 tm msgs,
(startGame (Some s) (rand w) r).1 = Ok g3 /\
turnManager r1 = Some tm /\ phase r1 = ROLE_REVEAL /\ players r1 = players r /\
Forall2 (role_message r1 tm) (map_keys (players r)) msgs /\
handleMessage (START_GAME s) (Some pid) conn w =
(none, set_timers (timers w ++ [mk_timer l code conn])
(set_outbox (outbox w ++ msgs)
(set_rand g3 (set_heap (map_set l r1 (heap w)) w)))).
Proof.
intros Hp Hc Hpr Hr Hl Hhost Hh Hmin Hready (wd & g1 & Hpick) r1.
pose proof (startGame_Ok r s (rand w) wd g1 Hmin Hready Hpick) as Hs. cbv zeta in Hs.
unfold r1. destruct (startGame (Some s) (rand w) r) as [res r1'] eqn:E. injection Hs as Hres Hr1.
destruct res as [g3|e]; [| discriminate Hres]. cbn [fst snd]. exists g3.
set (tm := (TurnManager.create (map_keys (players r)) (GameSettings.rounds s) g1).1).
set (w1 := set_rand g3 (set_heap (map_set l r1' (heap w)) w)).
assert (Hl1 : map_get l (heap w1) = Some r1') by apply map_get_set_eq.
destruct (send_roles_Ok l r1' tm (map_keys (players r1')) w1 Hl1) as [msgs [Hm Hf]].
{ rewrite Hr1. reflexivity. }
{ apply Forall_forall. intros x Hx. rewrite Hr1. cbn. rewrite role_assignments_ids.
rewrite Hr1 in Hx. exact Hx. }
assert (Hpl : players r1' = players r) by (rewrite Hr1; reflexivity).
exists tm, msgs. split_and!; [done | rewrite Hr1; reflexivity | rewrite Hr1; reflexivity | done | by rewrite <- Hpl |].
unfold handleMessage, dispatch, start_game. rewrite (with_room_run _ _ code l) by done.
rewrite (require_host_run _ _ _ _ _ _ _ Hl Hhost Hh).
unfold sbind at 1. rewrite with_rand_run. unfold sbind at 1. rewrite (on_room_run _ _ _ _ Hl).
rewrite E. cbn [fst snd sret]. fold w1.
unfold sbind at 1. rewrite (room_field_run _ _ _ _ Hl1). cbv beta iota delta [id].
unfold sbind at 1. rewrite Hm. done.
Qed.

(** C8: [START_GAME] from the host is accepted in every phase of the room
(the handler and [startGame] check the roster, never the phase): the
room is restarted by [startGame], every player of the roster is sent,
in roster order, the [GAME_STARTING] carrying its own role and word,
and one more [startDrawing] callback is scheduled for the room. *)
Theorem start_game_any_phase (w : world) (pid code : string) (l : nat) (r : GameRoom.t)
(host : Player.t) (s : GameSettings.t) (conn : nat) :
pid <> "" -> code <> "" -> map_get pid (playerRooms w) = Some code ->
map_get code (rooms w) = Some l -> map_get l (heap w) = Some r ->
map_get pid (players r) = Some host -> Player.isHost host = true ->
MIN_PLAYERS <= length (players r) ->
forallb (fun e => Player.isReady e.2) (players r) = true ->
(exists wd g1, pickSecretWord s (rand w) = Ok (wd, g1)) ->
exists g3 tm msgs,
(startGame (Some s) (rand w) r).1 = Ok g3 /\
turnManager (startGame (Some s) (rand w) r).2 = Some tm /\
Forall2 (role_message (startGame (Some s) (rand w) r).2 tm) (map_keys (players r)) msgs /\
handleMessage (START_GAME s) (Some pid) conn w =
(none, set_timers (timers w ++ [mk_timer l code conn])
(set_outbox (outbox w ++ msgs)
(set_rand g3 (set_heap (map_set l (startGame (Some s) (rand w) r).2 (heap w)) w)))).
Proof.
intros Hp Hc Hpr Hr Hl Hhost Hh Hmin Hready Hpick.
destruct (start_game_run w pid code l r host s conn Hp Hc Hpr Hr Hl Hhost Hh Hmin Hready Hpick)
as (g3 & tm & msgs & Hg & Htm & _ & _ & Hf & Hrun).
exists g3, tm, msgs. by split_and!.
Qed.

Lemma broadcast_heap code m w : heap (broadcast code m w).2 = heap w.
Proof. unfold broadcast, smodify. simpl. by destruct (room_at w code). Qed.

(** [broadcast] returns and only appends to the outbox. *)
Lemma broadcast_run code m w :
exists msgs, broadcast code m w = (Ok tt, set_outbox (outbox w ++ msgs) w).
Proof.
unfold broadcast, smodify. destruct (room_at w code); [by eexists | exists [] ].
rewrite app_nil_r. by destruct w.
Qed.

(** Two callbacks of one room, the first firing while it is in
[ROLE_REVEAL]: the first moves it to [DRAWING], the second throws. *)
Lemma fire_twice (w : world) (t1 t2 : timer) (r : GameRoom.t) (tm : TurnManager.t) :
tm_room t2 = tm_room t1 -> map_get (tm_room t1) (heap w) = Some r ->
phase r = ROLE_REVEAL -> turnManager r = Some tm ->
let w1 := (fire t1 w).2 in
(fire t1 w).1 = Ok tt /\ map_get (tm_room t1) (heap w1) = Some (set_phase DRAWING r) /\
fire t2 w1 = (Err NotRoleReveal, w1).
Proof.
intros Ht Hl Hph Htm. cbv zeta.
assert (Hl1 : map_get (tm_room t1) (heap (set_heap (map_set (tm_room t1) (set_phase DRAWING r) (heap w)) w))
= Some (set_phase DRAWING r)) by apply map_get_set_eq.
assert (Hf : fire t1 w = broadcast (tm_code t1) (TURN_START (TurnManager.getCurrentPlayerId tm)
(TurnManager.getCurrentRound tm) (GameSettings.drawTimeLimit (settings r)))
(set_heap (map_set (tm_room t1) (set_phase DRAWING r) (heap w)) w)).
{ unfold fire, sbind at 1. rewrite (on_room_run _ _ _ _ Hl), (startDrawing_Ok r Hph).
cbn [fst snd]. unfold sbind at 1. rewrite (room_field_run _ _ _ _ Hl1).
cbv beta iota delta [id]. cbn [turnManager settings set_phase]. by rewrite Htm. }
rewrite Hf. set (w1 := broadcast _ _ _).
assert (Hw1 : map_get (tm_room t1) (heap w1.2) = Some (set_phase DRAWING r))
by (unfold w1; rewrite broadcast_heap; exact Hl1).
assert (Hok : w1.1 = Ok tt) by (unfold w1, broadcast, smodify; done).
split; [done | split; [done |]].
unfold fire. rewrite Ht. unfold sbind at 1. rewrite (on_room_run _ _ _ _ Hw1).
unfold startDrawing, sbind, sget, sthrow. cbn [phase set_phase fst snd].
rewrite decide_True by discriminate. cbn [fst snd].
rewrite map_set_same by exact Hw1. by rewrite set_heap_same.
Qed.

(** C33: two pending [startDrawing] callbacks for the same room, the first
firing while the room is in [ROLE_REVEAL] (after a repeated
[START_GAME], say): the first moves the room to [DRAWING] and the
second throws [NotRoleReveal] outside any [try]. *)
Theorem second_timer_throws (w : world) (t1 t2 : timer) (r : GameRoom.t) (tm : TurnManager.t) :
tm_room t2 = tm_room t1 -> map_get (tm_room t1) (heap w) = Some r ->
phase r = ROLE_REVEAL -> turnManager r = Some tm ->
let w1 := (fire t1 w).2 in
(fire t1 w).1 = Ok tt /\ map_get (tm_room t1) (heap w1) = Some (set_phase DRAWING r) /\
fire t2 w1 = (Err NotRoleReveal, w1).
Proof. apply fire_twice. Qed.

(** C3: [START_GAME] has no phase check: when the host of a full, ready
room whose category always yields a word sends it twice, both are
accepted, two [startDrawing] callbacks for the room are queued behind
the pending ones, and when they fire the first moves the room to
[DRAWING] and the second throws [NotRoleReveal], outside any [try]. *)
Theorem double_start_crash (w : world) (pid code : string) (l : nat) (r : GameRoom.t)
(host : Player.t) (s : GameSettings.t) (conn : nat) :
pid <> "" -> code <> "" -> map_get pid (playerRooms w) = Some code ->
map_get code (rooms w) = Some l -> map_get l (heap w) = Some r ->
map_get pid (players r) = Some host -> Player.isHost host = true ->
MIN_PLAYERS <= length (players r) ->
forallb (fun e => Player.isReady e.2) (players r) = true ->
(forall g, exists wd g1, pickSecretWord s g = Ok (wd, g1)) ->
let w1 := (handleMessage (START_GAME s) (Some pid) conn w).2 in
let w2 := (handleMessage (START_GAME s) (Some pid) conn w1).2 in
let t := mk_timer l code conn in
(handleMessage (START_GAME s) (Some pid) conn w).1 = none /\
(handleMessage (START_GAME s) (Some pid) conn w1).1 = none /\
timers w2 = (timers w ++ [t; t])%list /\
(fire t w2).1 = Ok tt /\ (fire t (fire t w2).2).1 = Err NotRoleReveal.
Proof.
intros Hp Hc Hpr Hr Hl Hhost Hh Hmin Hready Hpick w1 w2 t.
destruct (start_game_run w pid code l r host s conn Hp Hc Hpr Hr Hl Hhost Hh Hmin Hready (Hpick _))
as (g3 & tm1 & msgs1 & _ & _ & _ & Hpl1 & _ & Hrun1).
set (r1 := (startGame (Some s) (rand w) r).2) in *.
assert (Hw1 : w1 = set_timers (timers w ++ [t])%list (set_outbox (outbox w ++ msgs1)%list
(set_rand g3 (set_heap (map_set l r1 (heap w)) w)))) by (unfold w1; by rewrite Hrun1).
assert (Hl1 : map_get l (heap w1) = Some r1) by (rewrite Hw1; apply map_get_set_eq).
destruct (start_game_run w1 pid code l r1 host s conn Hp Hc) as (g4 & tm2 & msgs2 & _ & Htm2 & Hph2 & _ & _ & Hrun2);
try (rewrite ?Hw1; done); try rewrite Hpl1; try done.
set (r2 := (startGame (Some s) (rand w1) r1).2) in *.
assert (Hw2 : w2 = set_timers (timers w1 ++ [t])%list (set_outbox (outbox w1 ++ msgs2)%list
(set_rand g4 (set_heap (map_set l r2 (heap w1)) w1)))) by (unfold w2; by rewrite Hrun2).
assert (Hl2 : map_get (tm_room t) (heap w2) = Some r2) by (rewrite Hw2; apply map_get_set_eq).
destruct (fire_twice w2 t t r2 tm2 eq_refl Hl2 Hph2 Htm2) as (Hok & _ & Herr).
split_and!; [by rewrite Hrun1 | by rewrite Hrun2 | | done | by rewrite Herr].
rewrite Hw2, Hw1. cbn. by rewrite <- app_assoc.
Qed.

(** C4: [SUBMIT_GUESS] is accepted from any player of the room, in any
phase, once the room has a secret word and a vote collector: the
guess is recorded, the round is scored again by [calculateScores]
(every artist and the imposter get their [round_points] once more,
after a round already scored as well) and the room is put in
[SCOREBOARD]. *)
Theorem submit_guess_rescores (w : world) (pid code : string) (l : nat) (r : GameRoom.t)
(word sw imp : string) (vm : VotingManager.t) (conn : nat) :
pid <> "" -> code <> "" -> map_get pid (playerRooms w) = Some code ->
map_get code (rooms w) = Some l -> map_get l (heap w) = Some r ->
truthy_string (secretWord r) = Some sw -> votingManager r = Some vm ->
NoDup (map RoleAssignment.playerId (roleAssignments r)) ->
findImposterId (roleAssignments r) = Ok imp ->
let r1 := (submitImposterGuess word r).2 in
exists r', map_get l (heap (handleMessage (SUBMIT_GUESS word) (Some pid) conn w).2) = Some r' /\
phase r' = SCOREBOARD /\
forall k, map_get k (players r') =
(fun p => if decide (k ∈ artist_ids (roleAssignments r) \/ k = imp)
then Player.addPoints (ScoringEngine.round_points (round_input r1 vm imp) k) p else p)
<$> map_get k (players r).
Proof.
intros Hp Hc Hpr Hr Hl Hsw Hvm Hnd Himp. cbv zeta.
assert (Hg : submitImposterGuess word r =
(Ok (bool_decide (string_lower word = string_lower sw)),
set_imposterGuessCorrect (Some (bool_decide (string_lower word = string_lower sw))) r)).
{ unfold submitImposterGuess, sbind, sget, smodify, sret. by rewrite Hsw. }
rewrite Hg. cbn [snd]. set (r1 := set_imposterGuessCorrect _ r).
destruct (calculateScores_spec r1 vm imp Hnd Hvm Himp) as ([res [Hres _]] & Hr2 & Hk).
cbv zeta in Hres, Hr2, Hk.
destruct (calculateScores r1) as [cres r2] eqn:Ec. cbn [fst snd] in Hres, Hr2, Hk. subst cres.
exists (set_phase SCOREBOARD r2).
unfold handleMessage, dispatch, submit_guess. rewrite (with_room_run _ _ code l) by done.
unfold sbind at 1. rewrite (on_room_run _ _ _ _ Hl), Hg. cbn [fst snd]. fold r1.
unfold sbind at 1. rewrite on_room_after, Ec. cbn [fst snd].
unfold sbind at 1. rewrite on_room_after.
cbn [fst snd smodify]. unfold sbind at 1.
destruct (broadcast_run code (ROUND_RESULT res) (set_heap (map_set l (set_phase SCOREBOARD r2) (heap w)) w))
as [msgs ->].
cbn [sret heap set_outbox set_heap snd]. rewrite map_get_set_eq.
split; [done | split; [done |]]. intros k. cbn [players set_phase]. rewrite Hk. done.
Qed.

(** ** What a handler sends

[sends_only P m]: whatever the world, [m] only appends to the outbox,
and every message it appends satisfies [P]. *)
Section SendsOnly.
Local Open Scope list_scope.
Variable P : ServerMessage -> Prop.

Definition sends_only {A} (m : Act A) : Prop :=
forall w, exists msgs, outbox (m w).2 = (outbox w ++ msgs)%list /\ Forall (fun e => P e.2) msgs.

Lemma sends_only_ret {A} (a : A) : sends_only (sret a).
Proof. intros w. exists []. by rewrite app_nil_r. Qed.

Lemma sends_only_throw {A} e : sends_only (A:=A) (sthrow e).
Proof. intros w. exists []. by rewrite app_nil_r. Qed.

Lemma sends_only_bind {A B} (m : Act A) (k : A -> Act B) :
sends_only m -> (forall a, sends_only (k a)) -> sends_only (sbind m k).
Proof.
intros Hm Hk w. unfold sbind. destruct (Hm w) as (msgs1 & H1 & F1).
destruct (m w) as [[a|e] w1]; simpl in *.
- destruct (Hk a w1) as (msgs2 & H2 & F2). exists (msgs1 ++ msgs2).
rewrite H2, H1, app_assoc. split; [done | by apply Forall_app].
- by exists msgs1.
Qed.

Lemma sends_only_get : sends_only sget.
Proof. intros w. exists []. by rewrite app_nil_r. Qed.

Lemma sends_only_lift {A} (r : res A) : sends_only (slift r).
Proof. intros w. exists []. by rewrite app_nil_r. Qed.

Lemma sends_only_send p m : P m -> sends_only (send p m).
Proof. intros Hm w. exists [(p, m)]. split; [done | by constructor]. Qed.

Lemma sends_only_broadcast code m : P m -> sends_only (broadcast code m).
Proof.
intros Hm w. unfold broadcast, smodify. destruct (room_at w code) as [room|]; simpl.
- exists (map (fun p => (p, m)) (map_keys (players room))). split; [done |].
apply Forall_forall. intros e He. apply list_elem_of_fmap_1 in He as (q & -> & _). exact Hm.
- exists []. rewrite app_nil_r. split; [done | constructor].
Qed.

Lemma sends_only_on_room {A} l (m : Exc A) : sends_only (on_room l m).
Proof.
intros w. unfold on_room. exists []. rewrite app_nil_r.
destruct (map_get l (heap w)); [destruct (m t0) |]; done.
Qed.

Lemma sends_only_room_field {A} l (f : GameRoom.t -> A) : sends_only (room_field l f).
Proof. apply sends_only_on_room. Qed.

Lemma sends_only_with_room notify pid k :
P (ERROR "You are not in a room") -> P (ERROR "Room not found") ->
(forall p code l, truthy_string pid = Some p -> sends_only (k p code l)) ->
sends_only (with_room notify pid k).
Proof.
intros H1 H2 Hk. unfold with_room.
destruct (truthy_string pid) as [p|] eqn:Ep; [| apply sends_only_ret].
specialize (fun code l => Hk p code l eq_refl).
apply sends_only_bind; [apply sends_only_get |]. intros w.
destruct (truthy_string (map_get p (playerRooms w))) as [code|]; [destruct (map_get code (rooms w)) |].
all: try apply Hk.
all: apply sends_only_bind; [destruct notify; [by apply sends_only_send | apply sends_only_ret] |].
all: intros; apply sends_only_ret.
Qed.
End SendsOnly.

#[export] Hint Resolve sends_only_ret sends_only_throw sends_only_get sends_only_lift
sends_only_on_room sends_only_room_field : loki.

Ltac sends_solve :=
repeat first
[ progress intros
| apply sends_only_bind
| apply sends_only_send
| apply sends_only_broadcast
| apply sends_only_with_room
| solve [eauto with loki]
| case_match ].

(** A [STROKE_BROADCAST] that names [p] as the author. *)
Definition stamped (p : string) (m : ServerMessage) : Prop :=
forall st, m = STROKE_BROADCAST st -> Stroke.playerId st = p.

Lemma truthy_Some_inv (p q : string) : truthy_string (Some p) = Some q -> q = p.
Proof. simpl. case_decide; congruence. Qed.

(** C7: on every path of the [SUBMIT_STROKE] handler, errors included,
the server only appends to the messages sent, and every stroke it
broadcasts carries the sender's id, whatever id the client put in the
stroke (spec, section 6). *)
Theorem submit_stroke_stamped (w : world) (st : Stroke.t) (p : string) (conn : nat) :
exists msgs, outbox (handleMessage (SUBMIT_STROKE st) (Some p) conn w).2 = (outbox w ++ msgs)%list /\
Forall (fun e => stamped p e.2) msgs.
Proof.
assert (Hd : sends_only (stamped p) (dispatch (SUBMIT_STROKE st) (Some p) conn)).
{ unfold dispatch, submit_stroke. apply sends_only_with_room; [by intros ? [=] .. |].
intros q code l Hq%truthy_Some_inv. subst q.
sends_solve; try (intros ? [=]; fail). intros ? [= <-]. done. }
unfold handleMessage. destruct (Hd w) as (msgs & Ho & Hf).
destruct (dispatch _ _ _ w) as [[r|e] w']; cbn [fst snd] in *; [by exists msgs |].
destruct (truthy_string (Some p)); [| by exists msgs].
exists (msgs ++ [(s, ERROR_of e)])%list. cbn. rewrite Ho, app_assoc. split; [done |].
apply Forall_app. split; [done |]. constructor; [| done]. by intros ? [=].
Qed.

(** C34: [CREATE_GAME] does not check the drawn room code against the
existing rooms: when the code is taken, [rooms.set] replaces the room
stored under it by the new room object, whose only player is the new
host, and every player bound to that code now reaches the new room. *)
Theorem create_game_replaces_room (w : world) (name : string) (playerId : option string)
(conn l0 : nat) :
let code := roomCode (GameRoom.create (rand w)).1 in
map_get code (rooms w) = Some l0 ->
let w' := (handleMessage (CREATE_GAME name) playerId conn w).2 in
map_get code (rooms w') = Some (next_loc w) /\
exists r', map_get (next_loc w) (heap w') = Some r' /\ map_keys (players r') = [uuids w O] /\
(forall q, q <> uuids w O -> map_get q (playerRooms w') = map_get q (playerRooms w)).
Proof.
intros code Hc. cbv zeta.
unfold handleMessage, dispatch, create_game, new_room. autorewrite with stx.
unfold code in *. destruct (GameRoom.create (rand w)) as [room g'] eqn:E.
assert (Hroom : phase room = LOBBY /\ players room = [] /\ colorIndex room = 0%Z).
{ unfold GameRoom.create in E. destruct (generateRoomCode (rand w)). by injection E as <-. }
destruct Hroom as (Hph & Hpl & Hci). autorewrite with stx.
rewrite (sbind_room_field _ _ _ _ room) by (cbn; apply map_get_set_eq). autorewrite with stx.
unfold add_player. autorewrite with stx.
set (p := Player.create (uuids w O) name 0 true).
assert (Hadd : addPlayer (uuids w O) name true room =
(Ok p, set_players (map_set (Player.id p) p (players room)) (set_colorIndex 1 room))).
{ unfold addPlayer. autorewrite with stx. rewrite Hph, decide_False by naive_solver.
rewrite Hpl, decide_False by (unfold MAX_PLAYERS; simpl; lia).
autorewrite with stx. unfold sret. cbn. rewrite Hci, Hpl. reflexivity. }
erewrite sbind_on_room; [| cbn; apply map_get_set_eq | exact Hadd]. autorewrite with stx.
unfold send. autorewrite with stx. unfold sret. cbn [fst snd rooms heap playerRooms set_playerRooms
set_uuids set_heap set_rooms set_rand set_next_loc set_outbox].
rewrite !map_get_set_eq. split; [done |].
eexists. split; [reflexivity |]. split; [cbn; by rewrite Hpl |].
intros q Hq. rewrite map_get_set_ne; [done | unfold p; simpl; congruence].
Qed.
End Router.
