(* ===== verification/Server.v ===== *)
(** * Server: the connection layer of [src/server/src/index.ts]

    [index.ts] keeps, beside the router's maps, the open connections with
    the player and room they are bound to ([connections]) and the
    connection of each player ([playerToWs]).  A connection is a number.
    The server reacts to five events: a connection opens, a message
    arrives (parsed or not), a connection closes, and the oldest pending
    [setTimeout] callback fires (all have the same delay,
    [ROLE_REVEAL_DURATION], so they fire in scheduling order).

    [send] resolves a player's connection when it is called and writes
    only to an open connection; the [wrappedSend] of a message falls back
    to the connection the message came on.  An exception thrown by a timer
    callback is not caught by anything: the Node process stops, which
    [step] returns as [Err]. *)

From Stdlib Require Import ZArith Lia.
From S2P Require Import Prelude Types Player TurnManager VotingManager ScoringEngine WordBank GameRoom Router.

Local Open Scope string_scope.

Module Server.
Import GameRoom Router.

(** [connections.get(ws)]: [{ playerId, roomCode }] *)
Record conn := mk_conn { c_player : option string; c_room : option string }.

Record server := mk_server {
router : Router.world;
connections : list (nat * conn);
playerToWs : list (string * nat);
delivered : list (nat * ServerMessage)   (** [ws.send(JSON.stringify(message))] in order *)
}.

Definition set_router x s := mk_server x (connections s) (playerToWs s) (delivered s).
Definition set_connections x s := mk_server (router s) x (playerToWs s) (delivered s).
Definition set_playerToWs x s := mk_server (router s) (connections s) x (delivered s).
Definition set_delivered x s := mk_server (router s) (connections s) (playerToWs s) x.
Arguments set_router _ _ /.
Arguments set_connections _ _ /.
Arguments set_playerToWs _ _ /.
Arguments set_delivered _ _ /.

Inductive event :=
| Connect (ws : nat)
| Message (ws : nat) (msg : ClientMessage)
| Malformed (ws : nat) (error : string)   (** [JSON.parse] throws with this message *)
| Close (ws : nat)
| Timer.

Definition is_open (s : server) (ws : nat) : bool := map_has ws (connections s).

(** [send] of index.ts (lines 38-43). *)
Definition send_top (s : server) (p : string) (m : ServerMessage) : server :=
match map_get p (playerToWs s) with
| Some ws => if is_open s ws then set_delivered (delivered s ++ [(ws, m)]) s else s
| None => s
end.

(** [broadcast] of index.ts (lines 46-54), called without [exclude]: [send]
to every player of the room, in the roster's order. *)
Definition broadcast_top (s : server) (code : string) (m : ServerMessage) : server :=
match room_at (router s) code with
| Some room => foldl (fun s p => send_top s p m) s (map_keys (players room))
| None => s
end.

(** [wrappedSend] of a message on [fallback] (lines 70-75). *)
Definition send_wrapped (fallback : nat) (s : server) (p : string) (m : ServerMessage) : server :=
let ws := default fallback (map_get p (playerToWs s)) in
if is_open s ws then set_delivered (delivered s ++ [(ws, m)]) s else s.

(** The [send] calls a handler made, in order. *)
Definition flush (fallback : nat) (s : server) : server :=
let s' := foldl (fun s e => send_wrapped fallback s e.1 e.2) s (outbox (router s)) in
set_router (set_outbox [] (router s')) s'.

(** [ws.on('message')] for a parsed message (lines 62-104). *)
Definition on_message (ws : nat) (msg : ClientMessage) (s : server) : server :=
match map_get ws (connections s) with
| None => s
| Some c =>
let '(res, w') := handleMessage msg (c_player c) ws (router s) in
let s1 := flush ws (set_router w' s) in
let c1 := match truthy_string res.1 with Some p => mk_conn (Some p) (c_room c) | None => c end in
let s2 := match truthy_string res.1 with
| Some p => set_playerToWs (map_set p ws (playerToWs s1)) s1
| None => s1
end in
let c2 := match truthy_string res.2 with Some r => mk_conn (c_player c1) (Some r) | None => c1 end in
set_connections (map_set ws c2 (connections s2)) s2
end.

(** [ws.on('close')] (lines 114-146). *)
Definition on_close (ws : nat) (s : server) : server :=
match map_get ws (connections s) with
| None => s
| Some c =>
let s1 :=
match truthy_string (c_player c), truthy_string (c_room c) with
| Some pid, Some code =>
let s' :=
match map_get code (rooms (router s)) with
| None => s
| Some l =>
let w1 := (on_room l (removePlayer pid) (router s)).2 in
let s0 := set_router w1 s in
let s0 :=
match room_at w1 code with
| Some room => broadcast_top s0 code (PLAYER_LEFT pid (getPlayerList room))
| None => s0
end in
match room_at w1 code with
| Some room =>
if decide (length (players room) = 0)
then set_router (set_rooms (map_delete code (rooms (router s0))) (router s0)) s0
else s0
| None => s0
end
end in
set_playerToWs (map_delete pid (playerToWs s'))
(set_router (set_playerRooms (map_delete pid (playerRooms (router s'))) (router s')) s')
| _, _ => s
end in
set_connections (map_delete ws (connections s1)) s1
end.

(** One event.  [Err e]: a timer callback threw [e] and the process stopped. *)
Definition step (ev : event) (s : server) : result GameError server :=
match ev with
| Connect ws => Ok (set_connections (map_set ws (mk_conn None None) (connections s)) s)
| Message ws msg => Ok (on_message ws msg s)
| Malformed ws err =>
Ok (set_delivered (delivered s ++
[(ws, ERROR (match err with "" => "Failed to process message" | m => m end))]) s)
| Close ws => Ok (on_close ws s)
| Timer =>
match timers (router s) with
| [] => Ok s
| t :: rest =>
match fire t (set_timers rest (router s)) with
| (Ok _, w') => Ok (flush (tm_conn t) (set_router w' s))
| (Err e, _) => Err e
end
end
end.

Fixpoint run_events (evs : list event) (s : server) : result GameError server :=
match evs with
| [] => Ok s
| ev :: evs' => s' <- step ev s ;; run_events evs' s'
end.

Definition init (g : rng) (uuid : nat -> string) : server :=
mk_server (mk_world [] 0 [] [] [] [] g uuid) [] [] [].

(** ** Closing a connection *)

Lemma send_top_router s p m : router (send_top s p m) = router s.
Proof. unfold send_top. repeat case_match; done. Qed.

Lemma broadcast_top_router s code m : router (broadcast_top s code m) = router s.
Proof.
unfold broadcast_top. destruct (room_at (router s) code) as [room|]; [| done].
generalize (map_keys (players room)) as ps. intros ps. clear room.
revert s. induction ps as [|p ps IH]; intros s; [done |]. simpl. by rewrite IH, send_top_router.
Qed.

Lemma on_room_timers {A} l (m : Exc A) w : timers (on_room l m w).2 = timers w.
Proof. unfold on_room. repeat case_match; simplify_eq/=; done. Qed.

(** C35: closing a connection never cancels a pending callback, and when
the player who leaves was the last one of the room, the room is
deleted from [rooms] all the same: a pending [startDrawing] callback
outlives its room (the spec, section 5, asks for it to be cancelled). *)
Theorem close_keeps_timers (ws : nat) (s : server) :
timers (router (on_close ws s)) = timers (router s) /\
forall c pid code l r,
map_get ws (connections s) = Some c -> c_player c = Some pid -> c_room c = Some code ->
pid <> "" -> code <> "" -> map_get code (rooms (router s)) = Some l ->
map_get l (heap (router s)) = Some r -> map_keys (players r) = [pid] ->
map_get code (rooms (router (on_close ws s))) = None.
Proof.
split.
- unfold on_close. destruct (map_get ws (connections s)) as [c|]; [| done].
cbn [router set_connections].
destruct (truthy_string (c_player c)), (truthy_string (c_room c)); try done.
cbn [router set_playerToWs set_router timers set_playerRooms].
destruct (map_get _ (rooms _)); [| done].
destruct (room_at _ _); [case_decide |]; cbn [router set_router timers set_rooms];
rewrite ?broadcast_top_router; cbn [router set_router]; apply on_room_timers.
- intros c pid code l r Hws Hp Hc Hpid Hcode Hl Hr Hkeys. unfold on_close. rewrite Hws, Hp, Hc.
rewrite !truthy_Some by done. rewrite Hl.
assert (Hrm : room_at (on_room l (removePlayer pid) (router s)).2 code =
Some (set_players (map_delete pid (players r)) r)).
{ unfold room_at. rewrite (on_room_run _ _ _ _ Hr). cbn. rewrite Hl. cbn. apply map_get_set_eq. }
rewrite Hrm. rewrite decide_True.
+ cbn. apply map_get_delete_eq.
+ cbn. rewrite <- length_keys, map_keys_delete, Hkeys. rewrite filter_cons_False by naive_solver. done.
Qed.
End Server.

(** ** Scenarios

    Three connections, a constant [Math.random] stream (every room code is
    [AAAA], every draw is the first element) and the ids [a], [b], [c]. *)
Module ServerScenarios.
Import GameRoom Router Server.
Local Open Scope string_scope.
Local Open Scope list_scope.

Definition zeros : rng := fun _ => 0%Z.
Definition uid (n : nat) : string := String (Ascii.ascii_of_nat (97 + n)) "".
Definition sett : GameSettings.t := GameSettings.mk "animals" (Some "cat") 20 1 shared 10.
Definition dot : Stroke.t := Stroke.mk "" "#000000" [] 4 0.

Definition lobby : list event :=
[Connect 1; Connect 2; Connect 3; Message 1 (CREATE_GAME "Ann");
Message 2 (JOIN_GAME "AAAA" "Bo"); Message 3 (JOIN_GAME "AAAA" "Cy");
Message 1 PLAYER_READY; Message 2 PLAYER_READY; Message 3 PLAYER_READY].

(** A round: [b], [c], [a] draw; [c] is the imposter and is not caught. *)
Definition round : list event :=
lobby ++ [Message 1 (START_GAME sett); Timer;
Message 2 (SUBMIT_STROKE dot); Message 3 (SUBMIT_STROKE dot); Message 1 (SUBMIT_STROKE dot);
Message 1 (SUBMIT_VOTE "b"); Message 2 (SUBMIT_VOTE "a"); Message 3 (SUBMIT_VOTE "a")].

Definition after (evs : list event) : server :=
match run_events evs (init zeros uid) with Ok s => s | Err _ => init zeros uid end.

Definition room_of (w : world) (l : nat) : GameRoom.t :=
default (GameRoom.create zeros).1 (map_get l (heap w)).

Definition player_of (r : GameRoom.t) (p : string) : Player.t :=
default (Player.create p "" 0 false) (map_get p (players r)).

(** End to end, from the lobby of three ready players: the host sends [START_GAME] twice before the role-reveal delay
ends: the first callback starts the drawing, the second throws
[NotRoleReveal] in a timer, and the server process stops. *)
Example double_start_scenario :
run_events (lobby ++ [Message 1 (START_GAME sett); Message 1 (START_GAME sett); Timer; Timer])
(init zeros uid) = Err NotRoleReveal.
Proof. vm_compute. reflexivity. Qed.

Definition w_lobby : world := router (after lobby).

(** The lobby of three ready players: the host [a] sends [START_GAME]
twice; the two callbacks it queues fire in order and the second throws. *)
Lemma double_start_crash_witness :
let w1 := (handleMessage (START_GAME sett) (Some "a") 1 w_lobby).2 in
let w2 := (handleMessage (START_GAME sett) (Some "a") 1 w1).2 in
let t := mk_timer 0 "AAAA" 1 in
(handleMessage (START_GAME sett) (Some "a") 1 w_lobby).1 = none /\
(handleMessage (START_GAME sett) (Some "a") 1 w1).1 = none /\
timers w2 = (timers w_lobby ++ [t; t])%list /\
(fire t w2).1 = Ok tt /\ (fire t (fire t w2).2).1 = Err NotRoleReveal.
Proof.
apply (double_start_crash w_lobby "a" "AAAA" 0 (room_of w_lobby 0) (player_of (room_of w_lobby 0) "a") sett 1);
first [discriminate | vm_compute; reflexivity | decide_by_eval | intros g; do 2 eexists; reflexivity].
Defined.

Definition w_started : world := router (after (lobby ++ [Message 1 (START_GAME sett)])).

Lemma start_game_any_phase_witness :
exists g3 tm msgs,
(startGame (Some sett) (rand w_started) (room_of w_started 0)).1 = Ok g3 /\
turnManager (startGame (Some sett) (rand w_started) (room_of w_started 0)).2 = Some tm /\
Forall2 (role_message (startGame (Some sett) (rand w_started) (room_of w_started 0)).2 tm)
(map_keys (players (room_of w_started 0))) msgs /\
handleMessage (START_GAME sett) (Some "a") 1 w_started =
(none, set_timers (timers w_started ++ [mk_timer 0 "AAAA" 1])
(set_outbox (outbox w_started ++ msgs)
(set_rand g3 (set_heap (map_set 0 (startGame (Some sett) (rand w_started)
(room_of w_started 0)).2 (heap w_started)) w_started)))).
Proof.
apply (start_game_any_phase w_started "a" "AAAA" 0 (room_of w_started 0)
(player_of (room_of w_started 0) "a") sett 1);
first [discriminate | vm_compute; reflexivity | decide_by_eval | do 2 eexists; reflexivity].
Defined.

Definition w_twice : world :=
router (after (lobby ++ [Message 1 (START_GAME sett); Message 1 (START_GAME sett)])).

Lemma second_timer_throws_witness :
let t1 := mk_timer 0 "AAAA" 1 in
let w1 := (fire t1 w_twice).2 in
(fire t1 w_twice).1 = Ok tt /\
map_get (tm_room t1) (heap w1) = Some (set_phase DRAWING (room_of w_twice 0)) /\
fire (mk_timer 0 "AAAA" 1) w1 = (Err NotRoleReveal, w1).
Proof.
apply (second_timer_throws w_twice (mk_timer 0 "AAAA" 1) (mk_timer 0 "AAAA" 1) (room_of w_twice 0)
(default (TurnManager.create [] 1 zeros).1 (turnManager (room_of w_twice 0))));
vm_compute; reflexivity.
Defined.

Definition w_scored : world := router (after round).

Lemma submit_guess_rescores_witness :
let r1 := (submitImposterGuess "dog" (room_of w_scored 0)).2 in
exists r', map_get 0 (heap (handleMessage (SUBMIT_GUESS "dog") (Some "b") 2 w_scored).2) = Some r' /\
phase r' = SCOREBOARD /\
forall k, map_get k (players r') =
(fun p => if decide (k ∈ artist_ids (roleAssignments (room_of w_scored 0)) \/ k = "c")
then Player.addPoints (ScoringEngine.round_points
(round_input r1 (default (VotingManager.create [] "") (votingManager (room_of w_scored 0))) "c") k) p
else p)
<$> map_get k (players (room_of w_scored 0)).
Proof.
apply (submit_guess_rescores w_scored "b" "AAAA" 0 (room_of w_scored 0) "dog" "cat" "c"
(default (VotingManager.create [] "") (votingManager (room_of w_scored 0))) 2);
first [discriminate | vm_compute; reflexivity | decide_by_eval].
Defined.

Definition w_one_room : world := router (after [Connect 1; Message 1 (CREATE_GAME "Ann")]).

Lemma create_game_replaces_room_witness :
let code := roomCode (GameRoom.create (rand w_one_room)).1 in
let w' := (handleMessage (CREATE_GAME "Dee") (Some "z") 2 w_one_room).2 in
map_get code (rooms w') = Some (next_loc w_one_room) /\
exists r', map_get (next_loc w_one_room) (heap w') = Some r' /\
map_keys (players r') = [uuids w_one_room O] /\
(forall q, q <> uuids w_one_room O -> map_get q (playerRooms w') = map_get q (playerRooms w_one_room)).
Proof. apply (create_game_replaces_room w_one_room "Dee" (Some "z") 2 0). vm_compute. reflexivity. Defined.

Definition s_alone : server := after [Connect 1; Message 1 (CREATE_GAME "Ann")].

Lemma close_keeps_timers_witness :
timers (router (on_close 1 s_alone)) = timers (router s_alone) /\
map_get "AAAA" (rooms (router (on_close 1 s_alone))) = None.
Proof.
destruct (close_keeps_timers 1 s_alone) as [Ht Hdel]. split; [exact Ht |].
apply (Hdel (mk_conn (Some "a") (Some "AAAA")) "a" "AAAA" 0 (room_of (router s_alone) 0));
first [discriminate | vm_compute; reflexivity].
Defined.
End ServerScenarios.
