(* ===== verification/ClientState.v ===== *)
(** * ClientState: the client's game state, [src/client/src/lib/gameState.ts]
    and the message reducer of [src/client/src/hooks/useGame.ts]

    [ClientGameState] is the record [t], [initialGameState] is [initial].
    The reducer [handleMessage] is the [setState] callback of [useGame]: a
    copy of the previous state with the fields of one [switch] case
    assigned, in the order of the source.  [notifyTurn] (vibration and a
    browser notification) is I/O; the reducer returns whether it is called.
    The user actions of [useGame] ([createGame], [joinGame], ...) are
    [perform]: the state update, whether the socket is (re)connected, and
    the message handed to [send].  [Spectator] is the state and reducer of
    the shared screen, [src/client/src/pages/SharedScreen.tsx]. *)

From Stdlib Require Import ZArith Lia.
From S2P Require Import Prelude Types.

Local Open Scope string_scope.

Module Client.
Record t := mk {
roomCode : option string;
phase : GamePhase;
playerId : option string;
players : list PlayerData.t;
role : option Role;
secretWord : option string;
turnOrder : list string;
activePlayerId : option string;
currentRound : Z;
strokes : list Stroke.t;
roundResult : option RoundResult.t;
timeoutPlayerIds : list string;
votedPlayerIds : list string;
winScore : Z;
drawTimeLimit : Z;
isHost : bool;
error : option string
}.

Definition set_roomCode (x : option string) (s : t) : t := mk x (phase s) (playerId s) (players s) (role s) (secretWord s) (turnOrder s) (activePlayerId s) (currentRound s) (strokes s) (roundResult s) (timeoutPlayerIds s) (votedPlayerIds s) (winScore s) (drawTimeLimit s) (isHost s) (error s).
Definition set_phase (x : GamePhase) (s : t) : t := mk (roomCode s) x (playerId s) (players s) (role s) (secretWord s) (turnOrder s) (activePlayerId s) (currentRound s) (strokes s) (roundResult s) (timeoutPlayerIds s) (votedPlayerIds s) (winScore s) (drawTimeLimit s) (isHost s) (error s).
Definition set_playerId (x : option string) (s : t) : t := mk (roomCode s) (phase s) x (players s) (role s) (secretWord s) (turnOrder s) (activePlayerId s) (currentRound s) (strokes s) (roundResult s) (timeoutPlayerIds s) (votedPlayerIds s) (winScore s) (drawTimeLimit s) (isHost s) (error s).
Definition set_players (x : list PlayerData.t) (s : t) : t := mk (roomCode s) (phase s) (playerId s) x (role s) (secretWord s) (turnOrder s) (activePlayerId s) (currentRound s) (strokes s) (roundResult s) (timeoutPlayerIds s) (votedPlayerIds s) (winScore s) (drawTimeLimit s) (isHost s) (error s).
Definition set_role (x : option Role) (s : t) : t := mk (roomCode s) (phase s) (playerId s) (players s) x (secretWord s) (turnOrder s) (activePlayerId s) (currentRound s) (strokes s) (roundResult s) (timeoutPlayerIds s) (votedPlayerIds s) (winScore s) (drawTimeLimit s) (isHost s) (error s).
Definition set_secretWord (x : option string) (s : t) : t := mk (roomCode s) (phase s) (playerId s) (players s) (role s) x (turnOrder s) (activePlayerId s) (currentRound s) (strokes s) (roundResult s) (timeoutPlayerIds s) (votedPlayerIds s) (winScore s) (drawTimeLimit s) (isHost s) (error s).
Definition set_turnOrder (x : list string) (s : t) : t := mk (roomCode s) (phase s) (playerId s) (players s) (role s) (secretWord s) x (activePlayerId s) (currentRound s) (strokes s) (roundResult s) (timeoutPlayerIds s) (votedPlayerIds s) (winScore s) (drawTimeLimit s) (isHost s) (error s).
Definition set_activePlayerId (x : option string) (s : t) : t := mk (roomCode s) (phase s) (playerId s) (players s) (role s) (secretWord s) (turnOrder s) x (currentRound s) (strokes s) (roundResult s) (timeoutPlayerIds s) (votedPlayerIds s) (winScore s) (drawTimeLimit s) (isHost s) (error s).
Definition set_currentRound (x : Z) (s : t) : t := mk (roomCode s) (phase s) (playerId s) (players s) (role s) (secretWord s) (turnOrder s) (activePlayerId s) x (strokes s) (roundResult s) (timeoutPlayerIds s) (votedPlayerIds s) (winScore s) (drawTimeLimit s) (isHost s) (error s).
Definition set_strokes (x : list Stroke.t) (s : t) : t := mk (roomCode s) (phase s) (playerId s) (players s) (role s) (secretWord s) (turnOrder s) (activePlayerId s) (currentRound s) x (roundResult s) (timeoutPlayerIds s) (votedPlayerIds s) (winScore s) (drawTimeLimit s) (isHost s) (error s).
Definition set_roundResult (x : option RoundResult.t) (s : t) : t := mk (roomCode s) (phase s) (playerId s) (players s) (role s) (secretWord s) (turnOrder s) (activePlayerId s) (currentRound s) (strokes s) x (timeoutPlayerIds s) (votedPlayerIds s) (winScore s) (drawTimeLimit s) (isHost s) (error s).
Definition set_timeoutPlayerIds (x : list string) (s : t) : t := mk (roomCode s) (phase s) (playerId s) (players s) (role s) (secretWord s) (turnOrder s) (activePlayerId s) (currentRound s) (strokes s) (roundResult s) x (votedPlayerIds s) (winScore s) (drawTimeLimit s) (isHost s) (error s).
Definition set_votedPlayerIds (x : list string) (s : t) : t := mk (roomCode s) (phase s) (playerId s) (players s) (role s) (secretWord s) (turnOrder s) (activePlayerId s) (currentRound s) (strokes s) (roundResult s) (timeoutPlayerIds s) x (winScore s) (drawTimeLimit s) (isHost s) (error s).
Definition set_winScore (x : Z) (s : t) : t := mk (roomCode s) (phase s) (playerId s) (players s) (role s) (secretWord s) (turnOrder s) (activePlayerId s) (currentRound s) (strokes s) (roundResult s) (timeoutPlayerIds s) (votedPlayerIds s) x (drawTimeLimit s) (isHost s) (error s).
Definition set_drawTimeLimit (x : Z) (s : t) : t := mk (roomCode s) (phase s) (playerId s) (players s) (role s) (secretWord s) (turnOrder s) (activePlayerId s) (currentRound s) (strokes s) (roundResult s) (timeoutPlayerIds s) (votedPlayerIds s) (winScore s) x (isHost s) (error s).
Definition set_isHost (x : bool) (s : t) : t := mk (roomCode s) (phase s) (playerId s) (players s) (role s) (secretWord s) (turnOrder s) (activePlayerId s) (currentRound s) (strokes s) (roundResult s) (timeoutPlayerIds s) (votedPlayerIds s) (winScore s) (drawTimeLimit s) x (error s).
Definition set_error (x : option string) (s : t) : t := mk (roomCode s) (phase s) (playerId s) (players s) (role s) (secretWord s) (turnOrder s) (activePlayerId s) (currentRound s) (strokes s) (roundResult s) (timeoutPlayerIds s) (votedPlayerIds s) (winScore s) (drawTimeLimit s) (isHost s) x.
Arguments set_roomCode _ _ /.
Arguments set_phase _ _ /.
Arguments set_playerId _ _ /.
Arguments set_players _ _ /.
Arguments set_role _ _ /.
Arguments set_secretWord _ _ /.
Arguments set_turnOrder _ _ /.
Arguments set_activePlayerId _ _ /.
Arguments set_currentRound _ _ /.
Arguments set_strokes _ _ /.
Arguments set_roundResult _ _ /.
Arguments set_timeoutPlayerIds _ _ /.
Arguments set_votedPlayerIds _ _ /.
Arguments set_winScore _ _ /.
Arguments set_drawTimeLimit _ _ /.
Arguments set_isHost _ _ /.
Arguments set_error _ _ /.

Definition initial : t :=
mk None LOBBY None [] None None [] None 0 [] None [] [] 10 20 false None.

(** [score: msg.result.totalScores[player.id] ?? player.score] *)
Definition update_score (totals : list (string * Z)) (p : PlayerData.t) : PlayerData.t :=
PlayerData.mk (PlayerData.id p) (PlayerData.name p) (PlayerData.color p) (PlayerData.isHost p)
(PlayerData.isReady p) (default (PlayerData.score p) (map_get (PlayerData.id p) totals)).

(** [msg.players.find(p => p.id === s.playerId)] *)
Definition find_player (id : string) (ps : list PlayerData.t) : option PlayerData.t :=
snd <$> list_find (fun p => PlayerData.id p = id) ps.

(** [msg.activePlayerId === s.playerId]: [undefined] never equals [null]. *)
Definition same_id (a b : option string) : bool :=
match a, b with
| Some x, Some y => bool_decide (x = y)
| _, _ => false
end.

(** The reducer: the new state, and whether [notifyTurn()] was called. *)
Definition handleMessage (msg : ServerMessage) (s : t) : t * bool :=
match msg with
| GAME_CREATED code player =>
(set_error None (set_phase LOBBY (set_isHost true (set_players [player]
(set_playerId (Some (PlayerData.id player)) (set_roomCode (Some code) s))))), false)
| PLAYER_JOINED player ps =>
let pid := match truthy_string (playerId s) with
| Some p => Some p
| None => Some (PlayerData.id player)
end in
(set_error None (set_phase LOBBY (set_players ps (set_playerId pid s))), false)
| PLAYER_LEFT _ ps =>
let s1 := set_players ps s in
(match truthy_string (playerId s1) with
| Some me => match find_player me ps with
| Some p => set_isHost (PlayerData.isHost p) s1
| None => s1
end
| None => s1
end, false)
| PLAYER_READY_UPDATE _ _ ps => (set_players ps s, false)
| GAME_STARTING r word order ps settings =>
(set_error None (set_currentRound 1 (set_strokes [] (set_drawTimeLimit (GameSettings.drawTimeLimit settings)
(set_winScore (GameSettings.winScore settings) (set_players ps (set_turnOrder order
(set_secretWord word (set_role (Some r) (set_phase ROLE_REVEAL s))))))))), false)
| TURN_START active round _ =>
let s1 := set_currentRound round (set_activePlayerId active (set_phase DRAWING s)) in
(s1, same_id active (playerId s1))
| STROKE_BROADCAST st => (set_strokes (strokes s ++ [st]) s, false)
| TURN_TIMEOUT _ => (s, false)
| VOTING_START ps => (set_votedPlayerIds [] (set_players ps (set_phase VOTING s)), false)
| VOTE_CAST voter => (set_votedPlayerIds (votedPlayerIds s ++ [voter]) s, false)
| VOTE_RESULT _ _ _ => (s, false)
| IMPOSTER_GUESS_PHASE _ => (set_phase IMPOSTER_GUESS s, false)
| TIMEOUT_UPDATE ids => (set_timeoutPlayerIds ids s, false)
| ROUND_RESULT res =>
(set_players (map (update_score (RoundResult.totalScores res)) (players s))
(set_timeoutPlayerIds [] (set_roundResult (Some res) (set_phase SCOREBOARD s))), false)
| RETURN_TO_LOBBY ps =>
(set_roundResult None (set_strokes [] (set_currentRound 0 (set_activePlayerId None
(set_turnOrder [] (set_secretWord None (set_role None (set_players ps (set_phase LOBBY s)))))))), false)
| ERROR m =>
let s1 := set_error (Some m) s in
(match truthy_string (playerId s1) with
| Some _ => s1
| None => set_phase LOBBY (set_roomCode None s1)
end, false)
end.

(** The messages a client has received, in order. *)
Definition receive_all (msgs : list ServerMessage) (s : t) : t :=
foldl (fun s m => (handleMessage m s).1) s msgs.

(** ** User actions *)

Inductive action :=
| CreateGame (name : string)
| JoinGame (name roomCode : string)
| ToggleReady
| StartGame (settings : GameSettings.t)
| SubmitStroke (stroke : Stroke.t)
| SubmitVote (votedPlayerId : string)
| SubmitGuess (word : string)
| RequestTimeout
| CancelTimeout
| NextRound
| PlayAgain.

(** The state after the action, whether [connect(WS_URL)] is called, and
the message handed to [send]. *)
Definition perform (a : action) (s : t) : t * bool * ClientMessage :=
match a with
| CreateGame name => (s, true, CREATE_GAME name)
| JoinGame name code => (set_roomCode (Some (string_upper code)) s, true, JOIN_GAME code name)
| ToggleReady => (s, false, PLAYER_READY)
| StartGame st => (s, false, START_GAME st)
| SubmitStroke st => (s, false, SUBMIT_STROKE st)
| SubmitVote v => (s, false, SUBMIT_VOTE v)
| SubmitGuess w => (s, false, SUBMIT_GUESS w)
| RequestTimeout => (s, false, REQUEST_TIMEOUT)
| CancelTimeout => (s, false, CANCEL_TIMEOUT)
| NextRound => (s, false, NEXT_ROUND)
| PlayAgain => (s, false, PLAY_AGAIN)
end.
End Client.

(** ** The spectator page, [src/client/src/pages/SharedScreen.tsx]

    The shared screen keeps its own [SpectatorState] and reducer; it calls
    [connect(WS_URL)] and never sends a message. *)
Module Spectator.
Record t := mk {
phase : GamePhase;
players : list PlayerData.t;
strokes : list Stroke.t;
activePlayerId : option string;
currentRound : Z;
connected : bool
}.

Definition initial : t := mk LOBBY [] [] None 0 false.

(** [msg.result.totalScores[player.id] || player.score]: a total of [0]
keeps the previous score. *)
Definition rescore (totals : list (string * Z)) (p : PlayerData.t) : PlayerData.t :=
PlayerData.mk (PlayerData.id p) (PlayerData.name p) (PlayerData.color p) (PlayerData.isHost p)
(PlayerData.isReady p)
(match map_get (PlayerData.id p) totals with
| Some n => if decide (n = 0%Z) then PlayerData.score p else n
| None => PlayerData.score p
end).

(** The [setState] callback of [handleMessage]: [connected] is set, then
the fields of one case. *)
Definition handleMessage (msg : ServerMessage) (prev : t) : t :=
let s := mk (phase prev) (players prev) (strokes prev) (activePlayerId prev) (currentRound prev) true in
match msg with
| GAME_STARTING _ _ _ ps _ => mk ROLE_REVEAL ps [] (activePlayerId s) 1 true
| TURN_START active round _ => mk DRAWING (players s) (strokes s) active round true
| STROKE_BROADCAST st => mk (phase s) (players s) (strokes prev ++ [st]) (activePlayerId s) (currentRound s) true
| VOTING_START ps => mk VOTING ps (strokes s) (activePlayerId s) (currentRound s) true
| IMPOSTER_GUESS_PHASE _ => mk IMPOSTER_GUESS (players s) (strokes s) (activePlayerId s) (currentRound s) true
| ROUND_RESULT res =>
mk SCOREBOARD (map (rescore (RoundResult.totalScores res)) (players s)) (strokes s)
(activePlayerId s) (currentRound s) true
| RETURN_TO_LOBBY ps => mk LOBBY ps [] None 0 true
| PLAYER_JOINED _ ps => mk (phase s) ps (strokes s) (activePlayerId s) (currentRound s) true
| PLAYER_LEFT _ ps => mk (phase s) ps (strokes s) (activePlayerId s) (currentRound s) true
| _ => s
end.

(** The effect [setState((prev) => ({ ...prev, connected }))]. *)
Definition set_connected (c : bool) (s : t) : t :=
mk (phase s) (players s) (strokes s) (activePlayerId s) (currentRound s) c.

Definition receive_all (msgs : list ServerMessage) (s : t) : t :=
foldl (fun s m => handleMessage m s) s msgs.
End Spectator.
