(* ===== verification/Canvas.v ===== *)
(** * Canvas: the drawing surface of the client

    [hooks/useCanvas.ts] and [components/Canvas.tsx]. The hook keeps two
    refs, [isDrawingRef] and [currentStrokeRef], and registers pointer
    handlers on the canvas element; each handler reads the props of the
    last render. The component sizes the bitmap to its container and
    repaints the strokes of the client state.

    - [Canvas.t] is the state the handlers read and write: the props, the
      layout of the element, the two refs; [step] is one browser event.
    - The 2D context is modelled by the trace of calls made on it ([cmd]);
      [exec] gives a trace its meaning as the line segments and rectangles
      it paints ([pen], [mark]). Pixels, anti-aliasing and overdraw are not
      modelled: two pictures are equivalent ([pic_equiv]) when their layers,
      maximal runs of marks of one colour, have the same colours and the
      same shapes, in any order and with repetitions; [exec] respects that
      equivalence ([exec_Proper]).
    - Coordinates are JavaScript numbers, modelled as rationals [Q] as in
      [Types.Point]; a division by a zero width, which JavaScript makes
      [Infinity] or [NaN], is outside the theorems, which assume a laid
      out element. *)

From Stdlib Require Import ZArith QArith Qminmax Qfield Lqa Lia.
From Stdlib Require Import Morphisms.
From S2P Require Import Prelude Types.

Module Canvas.
Local Open Scope Q_scope.

(** ** The element and the context *)

(** The canvas element: its bitmap size ([canvas.width], [canvas.height])
and its box on the page ([getBoundingClientRect()]). *)
Record element := mk_element {
width : Q; height : Q;
left : Q; top : Q; rect_width : Q; rect_height : Q
}.

(** Calls made on the element's [CanvasRenderingContext2D], in order. *)
Inductive cmd :=
| SetStrokeStyle (c : string)     (** [ctx.strokeStyle = c] *)
| SetLineWidth (w : Z)            (** [ctx.lineWidth = w] *)
| SetLineCap (c : string)         (** [ctx.lineCap = c] *)
| SetLineJoin (c : string)        (** [ctx.lineJoin = c] *)
| BeginPath                       (** [ctx.beginPath()] *)
| MoveTo (x y : Q)                (** [ctx.moveTo(x, y)] *)
| LineTo (x y : Q)                (** [ctx.lineTo(x, y)] *)
| StrokePath                      (** [ctx.stroke()] *)
| SetFillStyle (c : string)       (** [ctx.fillStyle = c] *)
| FillRect (x y w h : Q)          (** [ctx.fillRect(x, y, w, h)] *)
| SetSize (w h : Q).              (** [canvas.width = w; canvas.height = h]: clears the bitmap *)

(** ** The hook's state *)

(** The props of [useCanvas] and [Canvas]. *)
Record options := mk_options { color : string; brushSize : Z; enabled : bool }.

Record t := mk {
opts : options;                   (** props of the last render *)
strokes : list Stroke.t;          (** the [strokes] prop of [Canvas] *)
container : option (Q * Q);       (** [canvas.parentElement]'s client width and height *)
canvas : option element;          (** [canvasRef.current] *)
isDrawing : bool;                 (** [isDrawingRef.current] *)
currentStroke : list Point.t      (** [currentStrokeRef.current] *)
}.

Definition set_refs (b : bool) (pts : list Point.t) (s : t) : t :=
mk (opts s) (strokes s) (container s) (canvas s) b pts.

(** [normalizePoint] (useCanvas.ts 34-43) *)
Definition normalizePoint (c : option element) (x y : Q) : Point.t :=
match c with
| None => Point.mk 0 0
| Some e => Point.mk ((x - left e) / rect_width e) ((y - top e) / rect_height e)
end.

(** [denormalizePoint] (useCanvas.ts 45-53) *)
Definition denormalizePoint (c : option element) (p : Point.t) : Q * Q :=
match c with
| None => (0, 0)
| Some e => (Point.x p * width e, Point.y p * height e)
end.

Definition moveTo (xy : Q * Q) : cmd := MoveTo xy.1 xy.2.
Definition lineTo (xy : Q * Q) : cmd := LineTo xy.1 xy.2.

(** The four assignments that open [drawStroke] and [handlePointerDown]. *)
Definition stroke_style (c : string) (w : Z) : list cmd :=
[SetStrokeStyle c; SetLineWidth w; SetLineCap "round"; SetLineJoin "round"].

(** [drawStroke] (useCanvas.ts 55-74); [getContext()] is [null] exactly
when [canvasRef.current] is. *)
Definition drawStroke (c : option element) (st : Stroke.t) : list cmd :=
match c, Stroke.points st with
| Some _, p0 :: ps =>
stroke_style (Stroke.color st) (Stroke.brushSize st) ++
BeginPath :: moveTo (denormalizePoint c p0) ::
map (fun p => lineTo (denormalizePoint c p)) ps ++ [StrokePath]
| _, _ => []
end.

(** [clearCanvas] (useCanvas.ts 76-83) *)
Definition clearCanvas (c : option element) : list cmd :=
match c with
| None => []
| Some e => [SetFillStyle "#1a1a1a"; FillRect 0 0 (width e) (height e)]
end.

(** [drawAllStrokes] (useCanvas.ts 85-88) *)
Definition drawAllStrokes (c : option element) (ss : list Stroke.t) : list cmd :=
clearCanvas c ++ concat (map (drawStroke c) ss).

(** A handler's effect: the new state, the context calls, the strokes
passed to [onStrokeComplete]. *)
Definition result : Type := t * list cmd * list Stroke.t.

(** [handlePointerDown] (useCanvas.ts 90-111) *)
Definition handlePointerDown (x y : Q) (s : t) : result :=
if negb (enabled (opts s)) then (s, [], []) else
let point := normalizePoint (canvas s) x y in
let s' := set_refs true [point] s in
match canvas s with
| None => (s', [], [])
| Some _ =>
(s', stroke_style (color (opts s)) (brushSize (opts s)) ++
[BeginPath; moveTo (denormalizePoint (canvas s) point)], [])
end.

(** [handlePointerMove] (useCanvas.ts 113-126) *)
Definition handlePointerMove (x y : Q) (s : t) : result :=
if negb (enabled (opts s)) || negb (isDrawing s) then (s, [], []) else
let point := normalizePoint (canvas s) x y in
let s' := set_refs true (currentStroke s ++ [point]) s in
match canvas s with
| None => (s', [], [])
| Some _ => (s', [lineTo (denormalizePoint (canvas s) point); StrokePath], [])
end.

(** [handlePointerUp] (useCanvas.ts 128-146), also the [pointercancel]
listener; [now] is [Date.now()]. *)
Definition handlePointerUp (now : Z) (s : t) : result :=
if negb (enabled (opts s)) || negb (isDrawing s) then (s, [], []) else
let emitted :=
if bool_decide (0 < length (currentStroke s))%nat
then [Stroke.mk "" (color (opts s)) (currentStroke s) (brushSize (opts s)) now]
else [] in
(set_refs false [] s, [], emitted).

(** [updateCanvasSize] (Canvas.tsx 31-40) *)
Definition updateCanvasSize (s : t) : t * list cmd :=
match canvas s, container s with
| Some e, Some (cw, ch) =>
let size := Qmin cw ch in
let c' := Some (mk_element size size (left e) (top e) (rect_width e) (rect_height e)) in
(mk (opts s) (strokes s) (container s) c' (isDrawing s) (currentStroke s),
SetSize size size :: drawAllStrokes c' (strokes s))
| _, _ => (s, [])
end.

(** ** Events *)

(** A browser event reaching the component. [render o ss] is a render with
props [o]; [ss] is [Some] when the [strokes] array is a new one, which
re-runs the two effects of [Canvas] that depend on it (Canvas.tsx
27-52). [resize] is the window's [resize] event after the layout gave
the container and the element's box new sizes. *)
Inductive event :=
| pointerdown (x y : Q)
| pointermove (x y : Q)
| pointerup (now : Z)
| pointercancel (now : Z)
| render (o : options) (ss : option (list Stroke.t))
| resize (cont : option (Q * Q)) (l tp rw rh : Q).

Definition set_layout (cont : option (Q * Q)) (l tp rw rh : Q) (s : t) : t :=
mk (opts s) (strokes s) cont
(option_map (fun e => mk_element (width e) (height e) l tp rw rh) (canvas s))
(isDrawing s) (currentStroke s).

(** The listeners registered by useCanvas.ts 148-163 and the effects of
Canvas.tsx 27-52. *)
Definition step (ev : event) (s : t) : result :=
match ev with
| pointerdown x y => handlePointerDown x y s
| pointermove x y => handlePointerMove x y s
| pointerup now | pointercancel now => handlePointerUp now s
| render o None => (mk o (strokes s) (container s) (canvas s) (isDrawing s) (currentStroke s), [], [])
| render o (Some ss) =>
let '(s', cs) := updateCanvasSize (mk o ss (container s) (canvas s) (isDrawing s) (currentStroke s)) in
(s', cs ++ drawAllStrokes (canvas s') ss, [])
| resize cont l tp rw rh =>
let '(s', cs) := updateCanvasSize (set_layout cont l tp rw rh s) in (s', cs, [])
end.

(** The first render: the effects of [useCanvas] (its [clearCanvas], 165-167)
run before those of [Canvas] (27-52). *)
Definition mount (o : options) (ss : list Stroke.t) (cont : option (Q * Q)) (e : element) : t * list cmd :=
let '(s, cs) := updateCanvasSize (mk o ss cont (Some e) false []) in
(s, clearCanvas (Some e) ++ cs ++ drawAllStrokes (canvas s) ss).

Definition collect (acc : result) (ev : event) : result :=
let '(s, cs, out) := acc in
let '(s', cs', out') := step ev s in
(s', cs ++ cs', out ++ out').

Definition run (evs : list event) (s : t) : result := foldl collect (s, [], []) evs.

(** ** What a trace paints *)

(** A painted mark: a stroked segment or a filled rectangle. *)
Inductive mark :=
| Line (ink : string) (w : Z) (a b : Q * Q)
| Rect (ink : string) (x y w h : Q).

(** The context's state and the marks painted so far, bottom first. *)
Record pen := mk_pen {
strokeStyle : string; lineWidth : Z; fillStyle : string;
cur : option (Q * Q);                     (** the current point *)
path : list ((Q * Q) * (Q * Q));          (** the segments of the current path *)
pic : list mark
}.

(** A fresh or resized canvas: the context's defaults, an empty bitmap. *)
Definition fresh : pen := mk_pen "#000000" 1 "#000000" None [] [].

Definition set_pic (m : list mark) (P : pen) : pen :=
mk_pen (strokeStyle P) (lineWidth P) (fillStyle P) (cur P) (path P) m.

(** The marks [ctx.stroke()] paints for the segments of a path. *)
Definition lines (c : string) (w : Z) (sgs : list ((Q * Q) * (Q * Q))) : list mark :=
map (fun sg => Line c w sg.1 sg.2) sgs.

(** One call on the context. A [lineWidth] that is not positive is ignored;
[lineTo] without a current point only sets it. *)
Definition exec1 (P : pen) (c : cmd) : pen :=
match c with
| SetStrokeStyle c => mk_pen c (lineWidth P) (fillStyle P) (cur P) (path P) (pic P)
| SetLineWidth w =>
if bool_decide (0 < w)%Z then mk_pen (strokeStyle P) w (fillStyle P) (cur P) (path P) (pic P) else P
| SetLineCap _ | SetLineJoin _ => P
| BeginPath => mk_pen (strokeStyle P) (lineWidth P) (fillStyle P) None [] (pic P)
| MoveTo x y => mk_pen (strokeStyle P) (lineWidth P) (fillStyle P) (Some (x, y)) (path P) (pic P)
| LineTo x y =>
match cur P with
| None => mk_pen (strokeStyle P) (lineWidth P) (fillStyle P) (Some (x, y)) (path P) (pic P)
| Some a => mk_pen (strokeStyle P) (lineWidth P) (fillStyle P) (Some (x, y)) (path P ++ [(a, (x, y))]) (pic P)
end
| StrokePath => set_pic (pic P ++ lines (strokeStyle P) (lineWidth P) (path P)) P
| SetFillStyle c => mk_pen (strokeStyle P) (lineWidth P) c (cur P) (path P) (pic P)
| FillRect x y w h => set_pic (pic P ++ [Rect (fillStyle P) x y w h]) P
| SetSize _ _ => fresh
end.

Definition exec (P : pen) (cs : list cmd) : pen := foldl exec1 P cs.

(** ** Pictures up to the order of marks of one colour

Opaque marks of one colour painted one after the other colour the union
of their shapes, whatever their order and repetitions. A picture is
read as its layers, top first: maximal runs of marks of one ink, each
a list of shapes. *)
Inductive shape :=
| Seg (w : Z) (a b : Q * Q)
| Box (x y w h : Q).

Definition ink (m : mark) : string := match m with Line c _ _ _ | Rect c _ _ _ _ => c end.
Definition shape_of (m : mark) : shape :=
match m with Line _ w a b => Seg w a b | Rect _ x y w h => Box x y w h end.

Definition layer : Type := string * list shape.

Definition add_mark (L : list layer) (m : mark) : list layer :=
match L with
| (c, sh) :: L' => if bool_decide (c = ink m) then (c, shape_of m :: sh) :: L' else (ink m, [shape_of m]) :: L
| [] => [(ink m, [shape_of m])]
end.

Definition layers (A : list mark) : list layer := foldl add_mark [] A.

Definition layer_equiv (l1 l2 : layer) : Prop := l1.1 = l2.1 /\ forall x, x ∈ l1.2 <-> x ∈ l2.2.
Definition layers_equiv (L1 L2 : list layer) : Prop := Forall2 layer_equiv L1 L2.

(** Two pictures that look the same. *)
Definition pic_equiv (A B : list mark) : Prop := layers_equiv (layers A) (layers B).

(** Two contexts in the same state with pictures that look the same. *)
Definition pen_equiv (P1 P2 : pen) : Prop :=
strokeStyle P1 = strokeStyle P2 /\ lineWidth P1 = lineWidth P2 /\ fillStyle P1 = fillStyle P2 /\
cur P1 = cur P2 /\ path P1 = path P2 /\ pic_equiv (pic P1) (pic P2).

(** ** The picture equivalence is a congruence for the context's calls *)

#[global] Instance layer_equiv_Equivalence : Equivalence layer_equiv.
Proof.
split.
- intros [c sh]. by split.
- intros [c1 s1] [c2 s2] [H1 H2]. split; [done |]. intros x. by rewrite H2.
- intros [c1 s1] [c2 s2] [c3 s3] [H1 H2] [H3 H4]. split; [congruence |]. intros x. by rewrite H2, H4.
Qed.

#[global] Instance layers_equiv_Equivalence : Equivalence layers_equiv.
Proof. change (Equivalence (Forall2 layer_equiv)). apply _. Qed.

#[global] Instance pic_equiv_Equivalence : Equivalence pic_equiv.
Proof. unfold pic_equiv. split; red; intros; by etransitivity || symmetry || reflexivity. Qed.

#[global] Instance pen_equiv_Equivalence : Equivalence pen_equiv.
Proof.
unfold pen_equiv. split.
- intros P. split_and!; reflexivity.
- intros P1 P2 H. decompose [and] H. split_and!; by symmetry.
- intros P1 P2 P3 H1 H2. decompose [and] H1. decompose [and] H2. split_and!; by etransitivity.
Qed.

#[global] Instance add_mark_Proper : Proper (layers_equiv ==> eq ==> layers_equiv) add_mark.
Proof.
intros L1 L2 HL m ? <-. destruct HL as [|[c1 s1] [c2 s2] L1 L2 [Hc Hs] HL]; simpl in *; [reflexivity |].
subst c2. case_bool_decide.
- constructor; [| done]. split; [done |]. intros y. cbn. by rewrite !elem_of_cons, Hs.
- constructor; [reflexivity |]. by constructor.
Qed.

#[global] Instance foldl_add_mark_Proper : Proper (layers_equiv ==> eq ==> layers_equiv) (foldl add_mark).
Proof.
intros L1 L2 HL M ? <-. revert L1 L2 HL. induction M as [|m M IH]; intros L1 L2 HL; simpl; [done |].
apply IH. by rewrite HL.
Qed.

Lemma layers_app A M : layers (A ++ M) = foldl add_mark (layers A) M.
Proof. unfold layers. by rewrite foldl_app. Qed.

#[global] Instance app_pic_Proper : Proper (pic_equiv ==> eq ==> pic_equiv) (@app mark).
Proof. intros A B H M ? <-. unfold pic_equiv in *. rewrite !layers_app. by apply foldl_add_mark_Proper. Qed.

#[global] Instance exec1_Proper : Proper (pen_equiv ==> eq ==> pen_equiv) exec1.
Proof.
intros [s1 w1 f1 c1 p1 A] [s2 w2 f2 c2 p2 B] (Hs & Hw & Hf & Hc & Hp & HA) c ? <-.
simpl in *. subst. unfold pen_equiv.
destruct c; simpl; repeat case_bool_decide; try destruct c2; simpl; split_and!; try done; by rewrite HA.
Qed.

#[global] Instance exec_Proper : Proper (pen_equiv ==> eq ==> pen_equiv) exec.
Proof.
intros P1 P2 HP cs ? <-. unfold exec. revert P1 P2 HP.
induction cs as [|c cs IH]; intros P1 P2 HP; simpl; [done |]. apply IH. by rewrite HP.
Qed.

(** Marks of one ink painted on a picture join its top layer when it has
that ink, and form a new top layer otherwise. *)
Definition merge (c : string) (shs : list shape) (L : list layer) : list layer :=
match L with
| (c', sh) :: L' => if bool_decide (c' = c) then (c', reverse shs ++ sh) :: L' else (c, reverse shs) :: L
| [] => [(c, reverse shs)]
end.

Lemma merge_merge c X Y L : X <> [] -> merge c Y (merge c X L) = merge c (X ++ Y) L.
Proof.
intros HX. destruct L as [|[c' sh] L]; simpl.
- rewrite bool_decide_eq_true_2 by done. by rewrite reverse_app, ?app_assoc.
- case_bool_decide; simpl; rewrite bool_decide_eq_true_2 by done; by rewrite reverse_app, ?app_assoc.
Qed.

Lemma foldl_add_mark_ink c M L :
M <> [] -> Forall (fun m => ink m = c) M -> foldl add_mark L M = merge c (map shape_of M) L.
Proof.
revert L. induction M as [|m M IH]; intros L HM HF; [done |]. apply Forall_cons in HF as [Hm HF].
assert (add_mark L m = merge c [shape_of m] L) as Hadd.
{ destruct L as [|[c' sh] L]; simpl; subst; [done |]. by case_bool_decide. }
simpl. rewrite Hadd. destruct M as [|m' M]; [done |].
rewrite IH by done. by rewrite merge_merge.
Qed.

Lemma merge_Proper c X Y L : (forall x, x ∈ X <-> x ∈ Y) -> layers_equiv (merge c X L) (merge c Y L).
Proof.
intros HXY. assert (forall sh x, x ∈ reverse X ++ sh <-> x ∈ reverse Y ++ sh) as H.
{ intros sh x. by rewrite !elem_of_app, !elem_of_reverse, HXY. }
assert (forall x, x ∈ reverse X <-> x ∈ reverse Y) as H0.
{ intros x. specialize (H [] x). by rewrite !app_nil_r in H. }
destruct L as [|[c' sh] L]; simpl; [| case_bool_decide];
constructor; try reflexivity; split; try done; intros x; cbn; by apply H || apply H0.
Qed.

Lemma pic_equiv_one_ink c A X Y :
Forall (fun m => ink m = c) X -> Forall (fun m => ink m = c) Y -> (X = [] <-> Y = []) ->
(forall m, m ∈ X <-> m ∈ Y) -> pic_equiv (A ++ X) (A ++ Y).
Proof.
intros HX HY HXY Hm. destruct X as [|x X]; [destruct Y; [reflexivity | discriminate (proj1 HXY eq_refl)] |].
destruct Y as [|y Y]; [discriminate (proj2 HXY eq_refl) |].
unfold pic_equiv. rewrite !layers_app, !(foldl_add_mark_ink c) by done.
apply merge_Proper. intros z. rewrite !list_elem_of_In, !in_map_iff.
setoid_rewrite <- list_elem_of_In. by setoid_rewrite Hm.
Qed.

Lemma exec_app P cs1 cs2 : exec P (cs1 ++ cs2) = exec (exec P cs1) cs2.
Proof. unfold exec. apply foldl_app. Qed.

(** ** Runs of events *)

Lemma events_collect_acc evs s cs out :
foldl collect (s, cs, out) evs = ((run evs s).1.1, cs ++ (run evs s).1.2, out ++ (run evs s).2).
Proof.
unfold run. revert s cs out. induction evs as [|ev evs IH]; intros s cs out; cbn [foldl fst snd].
{ by rewrite !app_nil_r. }
assert (Hc : collect (s, cs, out) ev =
((collect (s, [], []) ev).1.1, cs ++ (collect (s, [], []) ev).1.2, out ++ (collect (s, [], []) ev).2)).
{ unfold collect. destruct (step ev s) as [[s' cs'] out']. reflexivity. }
rewrite Hc. destruct (collect (s, [], []) ev) as [[s' cs'] out']. cbn [fst snd].
rewrite (IH s' (cs ++ cs')), (IH s' cs'). cbn [fst snd]. by rewrite !app_assoc.
Qed.

Lemma events_run_cons ev evs s :
run (ev :: evs) s =
((run evs (step ev s).1.1).1.1, (step ev s).1.2 ++ (run evs (step ev s).1.1).1.2,
(step ev s).2 ++ (run evs (step ev s).1.1).2).
Proof.
unfold run at 1. cbn [foldl]. unfold collect at 2.
destruct (step ev s) as [[s' cs'] out']. apply events_collect_acc.
Qed.

Lemma events_run_app evs1 evs2 s :
run (evs1 ++ evs2) s =
((run evs2 (run evs1 s).1.1).1.1, (run evs1 s).1.2 ++ (run evs2 (run evs1 s).1.1).1.2,
(run evs1 s).2 ++ (run evs2 (run evs1 s).1.1).2).
Proof.
unfold run at 1. rewrite foldl_app. fold (run evs1 s).
destruct (run evs1 s) as [[s1 cs1] o1]. apply events_collect_acc.
Qed.

(** ** A stroke drawn with the pointer *)

(** Pressing at [(x0, y0)], moving through [moves], releasing at [now]. *)
Definition gesture (x0 y0 : Q) (moves : list (Q * Q)) (now : Z) : list event :=
pointerdown x0 y0 :: map (fun xy => pointermove xy.1 xy.2) moves ++ [pointerup now].

Definition normalized (c : option element) (moves : list (Q * Q)) : list Point.t :=
map (fun xy => normalizePoint c xy.1 xy.2) moves.

(** The calls [handlePointerMove] makes for the points [pts]. *)
Definition move_cmds (c : option element) (pts : list Point.t) : list cmd :=
match c with
| None => []
| Some _ => concat (map (fun p => [lineTo (denormalizePoint c p); StrokePath]) pts)
end.

Lemma run_moves moves s :
enabled (opts s) = true -> isDrawing s = true ->
run (map (fun xy => pointermove xy.1 xy.2) moves) s =
(set_refs true (currentStroke s ++ normalized (canvas s) moves) s,
move_cmds (canvas s) (normalized (canvas s) moves), []).
Proof.
destruct s as [o ss ct c d cur]; cbn [opts isDrawing currentStroke canvas]. intros He ->.
revert cur. induction moves as [|[x y] moves IH]; intros cur.
{ unfold run, set_refs. cbn. rewrite app_nil_r. by destruct c. }
rewrite map_cons, events_run_cons. cbn [step fst snd]. unfold handlePointerMove. cbn [opts isDrawing currentStroke canvas].
rewrite He. cbn [negb orb].
destruct c as [e|]; cbn [fst snd]; unfold set_refs; cbn [opts strokes container canvas isDrawing currentStroke];
rewrite !IH; cbn; by rewrite <- app_assoc.
Qed.

Lemma run_gesture s x0 y0 moves now :
enabled (opts s) = true ->
run (gesture x0 y0 moves now) s =
(set_refs false [] s,
match canvas s with
| None => []
| Some _ =>
stroke_style (color (opts s)) (brushSize (opts s)) ++
[BeginPath; moveTo (denormalizePoint (canvas s) (normalizePoint (canvas s) x0 y0))] ++
move_cmds (canvas s) (normalized (canvas s) moves)
end,
[Stroke.mk "" (color (opts s)) (normalized (canvas s) ((x0, y0) :: moves)) (brushSize (opts s)) now]).
Proof.
destruct s as [o ss ct c d cur]; cbn [opts canvas]. intros He.
unfold gesture. rewrite events_run_cons. cbn [step]. unfold handlePointerDown. cbn [opts canvas]. rewrite He. cbn [negb].
destruct c as [e|]; cbn [fst snd]; rewrite events_run_app, run_moves by done; rewrite events_run_cons;
cbn [fst snd step]; unfold handlePointerUp; cbn; rewrite He; cbn; rewrite ?app_nil_r; by rewrite ?app_assoc.
Qed.

(** ** What the drawer paints, and what a replay paints *)

(** The segments of the polyline from [a] through [qs]. *)
Fixpoint segs (a : Q * Q) (qs : list (Q * Q)) : list ((Q * Q) * (Q * Q)) :=
match qs with [] => [] | q :: qs => (a, q) :: segs q qs end.

Lemma lines_ink c w sgs : Forall (fun m => ink m = c) (lines c w sgs).
Proof. induction sgs; constructor; done. Qed.

Lemma lines_nil c w sgs : lines c w sgs = [] <-> sgs = [].
Proof. by destruct sgs. Qed.

Lemma lines_app c w sgs1 sgs2 : lines c w (sgs1 ++ sgs2) = lines c w sgs1 ++ lines c w sgs2.
Proof. apply map_app. Qed.

Lemma default_last_cons {A} (a q : A) qs : default a (last (q :: qs)) = default q (last qs).
Proof. rewrite last_cons. by destruct (last qs). Qed.

Lemma exec_lineTo P a q :
cur P = Some a ->
exec1 P (lineTo q) = mk_pen (strokeStyle P) (lineWidth P) (fillStyle P) (Some q) (path P ++ [(a, q)]) (pic P).
Proof. intros H. destruct q. unfold lineTo. cbn. by rewrite H. Qed.

Lemma exec_lineTos P a qs :
cur P = Some a ->
exec P (map lineTo qs) =
mk_pen (strokeStyle P) (lineWidth P) (fillStyle P) (Some (default a (last qs))) (path P ++ segs a qs) (pic P).
Proof.
revert P a. induction qs as [|q qs IH]; intros P a H.
{ destruct P; cbn in *. by rewrite app_nil_r, H. }
rewrite map_cons. unfold exec. cbn [foldl]. rewrite (exec_lineTo P a) by done.
fold exec. rewrite (IH _ q) by done. cbn. by rewrite default_last_cons, <- app_assoc.
Qed.

(** The drawer's context: each move adds a segment to the path and strokes
the whole path again. *)
Lemma exec_drawing P a qs :
cur P = Some a ->
exists X,
exec P (concat (map (fun q => [lineTo q; StrokePath]) qs)) =
mk_pen (strokeStyle P) (lineWidth P) (fillStyle P) (Some (default a (last qs))) (path P ++ segs a qs) (pic P ++ X) /\
Forall (fun m => ink m = strokeStyle P) X /\ (X = [] <-> qs = []) /\
(forall m, m ∈ X <-> qs <> [] /\ m ∈ lines (strokeStyle P) (lineWidth P) (path P ++ segs a qs)).
Proof.
revert P a. induction qs as [|q qs IH]; intros P a H.
{ exists []. destruct P; cbn in *. rewrite !app_nil_r, H. split; [done |]. split; [constructor |]. split; [done |].
intros m. split; [intros Hm; inversion Hm | by intros [? _]]. }
set (P1 := mk_pen (strokeStyle P) (lineWidth P) (fillStyle P) (Some q) (path P ++ [(a, q)])
  (pic P ++ lines (strokeStyle P) (lineWidth P) (path P ++ [(a, q)]))).
assert (HP1 : exec P [lineTo q; StrokePath] = P1).
{ unfold exec. cbn [foldl]. rewrite (exec_lineTo P a) by done. reflexivity. }
destruct (IH P1 q eq_refl) as (X & HX & Hink & Hnil & Hm).
exists (lines (strokeStyle P) (lineWidth P) (path P ++ [(a, q)]) ++ X).
cbn [map concat]. rewrite exec_app, HP1, HX. cbn [P1 strokeStyle lineWidth fillStyle path pic cur].
rewrite default_last_cons, <- !app_assoc. split_and!; try done.
- apply Forall_app. split; [apply lines_ink | done].
- split; [| done]. intros Hn. apply app_eq_nil in Hn as [Hn _]. apply lines_nil in Hn. by destruct (path P).
- intros m. rewrite elem_of_app, Hm. cbn [P1 strokeStyle lineWidth path].
rewrite <- app_assoc. cbn [app]. unfold lines. rewrite !map_app.
destruct qs as [|q' qs]; cbn [segs map]; set_solver.
Qed.

(** A replay's context: the polyline is stroked once. *)
Lemma exec_replay P a qs :
cur P = Some a ->
exec P (map lineTo qs ++ [StrokePath]) =
mk_pen (strokeStyle P) (lineWidth P) (fillStyle P) (Some (default a (last qs))) (path P ++ segs a qs)
(pic P ++ lines (strokeStyle P) (lineWidth P) (path P ++ segs a qs)).
Proof. intros H. rewrite exec_app, (exec_lineTos P a) by done. reflexivity. Qed.

(** The drawer's path after [beginPath(); moveTo(d0)]. *)
Lemma exec_start P c w d0 :
cur (exec P (stroke_style c w ++ [BeginPath; moveTo d0])) = Some d0 /\
path (exec P (stroke_style c w ++ [BeginPath; moveTo d0])) = [].
Proof. destruct d0. unfold exec, stroke_style, moveTo. cbn. by repeat case_match. Qed.

(** The drawer's calls and a replay's calls paint the same picture. *)
Lemma drawing_paints_as_replay P c w d0 qs :
pen_equiv (exec P (stroke_style c w ++ [BeginPath; moveTo d0] ++ concat (map (fun q => [lineTo q; StrokePath]) qs)))
(exec P (stroke_style c w ++ BeginPath :: moveTo d0 :: map lineTo qs ++ [StrokePath])).
Proof.
change (BeginPath :: moveTo d0 :: ?l) with ([BeginPath; moveTo d0] ++ l).
rewrite !(app_assoc (stroke_style c w) [BeginPath; moveTo d0]), !(exec_app P (stroke_style c w ++ _)).
set (P1 := exec P (stroke_style c w ++ [BeginPath; moveTo d0])).
destruct (exec_start P c w d0) as [Hcur Hpath]. fold P1 in Hcur, Hpath.
rewrite (exec_replay P1 d0 qs Hcur).
destruct (exec_drawing P1 d0 qs Hcur) as (X & -> & Hink & Hnil & Hm).
rewrite Hpath. cbn [app]. split_and!; try done. cbn [pic].
apply (pic_equiv_one_ink (strokeStyle P1)); [done | apply lines_ink | |].
- rewrite Hnil, lines_nil. destruct qs; done.
- intros m. rewrite Hm. destruct qs; cbn; [| naive_solver]. split; [by intros [? _] | intros Hl; inversion Hl].
Qed.

(** ** Invariant of the two refs *)

(** [isDrawingRef] is false exactly when [currentStrokeRef] is empty. *)
Definition refs_ok (s : t) : Prop := isDrawing s = false <-> currentStroke s = [].

Lemma updateCanvasSize_refs s : isDrawing (updateCanvasSize s).1 = isDrawing s /\
currentStroke (updateCanvasSize s).1 = currentStroke s /\ opts (updateCanvasSize s).1 = opts s.
Proof. unfold updateCanvasSize. by destruct (canvas s), (container s) as [[]|]. Qed.

Lemma up_refs_ok now s :
refs_ok s -> refs_ok (handlePointerUp now s).1.1 /\ Forall (fun st => Stroke.points st <> []) (handlePointerUp now s).2.
Proof.
intros H. unfold handlePointerUp. destruct (enabled (opts s)), (isDrawing s) eqn:Hd; cbn; try done.
split; [by unfold refs_ok |]. destruct (bool_decide _) eqn:Hl; [| constructor].
apply bool_decide_eq_true in Hl. apply Forall_singleton. cbn. intros Hn. rewrite Hn in Hl. cbn in Hl. lia.
Qed.

Lemma step_refs_ok ev s :
refs_ok s -> refs_ok (step ev s).1.1 /\ Forall (fun st => Stroke.points st <> []) (step ev s).2.
Proof.
intros H. destruct ev as [x y|x y|now|now|o [ss|]|cont l tp rw rh]; cbn [step].
- unfold handlePointerDown. destruct (enabled (opts s)); cbn; [| done].
destruct (canvas s); split; unfold refs_ok; cbn; done.
- unfold handlePointerMove. destruct (enabled (opts s)), (isDrawing s) eqn:Hd; cbn; try done.
destruct (canvas s); split; unfold refs_ok; cbn; try done;
(split; [done | intros Hn; by apply app_eq_nil in Hn as [_ ?]]).
- by apply up_refs_ok.
- by apply up_refs_ok.
- pose proof (updateCanvasSize_refs (mk o ss (container s) (canvas s) (isDrawing s) (currentStroke s))) as (H1 & H2 & _).
destruct (updateCanvasSize _) as [s' cs]. unfold refs_ok in *. cbn in *. rewrite H1, H2. split; [done | constructor].
- split; [done | constructor].
- pose proof (updateCanvasSize_refs (set_layout cont l tp rw rh s)) as (H1 & H2 & _).
destruct (updateCanvasSize _) as [s' cs]. unfold refs_ok in *. cbn in *. rewrite H1, H2. split; [done | constructor].
Qed.

Lemma run_refs_ok evs s :
refs_ok s -> refs_ok (run evs s).1.1 /\ Forall (fun st => Stroke.points st <> []) (run evs s).2.
Proof.
revert s. induction evs as [|ev evs IH]; intros s H; [done |].
rewrite events_run_cons. destruct (step_refs_ok ev s H) as [H1 H2].
destruct (IH _ H1) as [H3 H4]. split; [done | by apply Forall_app].
Qed.

Lemma mount_refs_ok o ss cont e : refs_ok (mount o ss cont e).1.
Proof.
unfold mount. pose proof (updateCanvasSize_refs (mk o ss cont (Some e) false [])) as (H1 & H2 & _).
destruct (updateCanvasSize _) as [s' cs]. unfold refs_ok. cbn in *. by rewrite H1, H2.
Qed.

(** ** Points on the page and on the bitmap *)

Definition peq (p1 p2 : Point.t) : Prop := Point.x p1 == Point.x p2 /\ Point.y p1 == Point.y p2.
Definition qeq2 (a b : Q * Q) : Prop := a.1 == b.1 /\ a.2 == b.2.

#[global] Instance peq_Equivalence : Equivalence peq.
Proof.
unfold peq. split.
- intros p. split; reflexivity.
- intros p1 p2 [H1 H2]. split; by symmetry.
- intros p1 p2 p3 [H1 H2] [H3 H4]. split; by etransitivity.
Qed.

#[global] Instance normalizePoint_Proper c : Proper (Qeq ==> Qeq ==> peq) (normalizePoint c).
Proof. intros x1 x2 Hx y1 y2 Hy. destruct c; unfold peq; cbn; [by rewrite Hx, Hy | done]. Qed.

#[global] Instance denormalizePoint_Proper c : Proper (peq ==> qeq2) (denormalizePoint c).
Proof. intros p1 p2 [Hx Hy]. destruct c; unfold qeq2; cbn; [by rewrite Hx, Hy | done]. Qed.

(** A laid out element: its bitmap and its box have sizes. *)
Definition laid_out (e : element) : Prop :=
~ width e == 0 /\ ~ height e == 0 /\ ~ rect_width e == 0 /\ ~ rect_height e == 0.

(** The bitmap pixel under the client position [(x, y)]. *)
Definition pixel_at (e : element) (xy : Q * Q) : Q * Q :=
((xy.1 - left e) * width e / rect_width e, (xy.2 - top e) * height e / rect_height e).

(** The client position of the bitmap pixel [(X, Y)]. *)
Definition client_at (e : element) (XY : Q * Q) : Q * Q :=
(left e + XY.1 * rect_width e / width e, top e + XY.2 * rect_height e / height e).

Definition in_box (e : element) (xy : Q * Q) : Prop :=
left e <= xy.1 <= left e + rect_width e /\ top e <= xy.2 <= top e + rect_height e.

Definition in_unit (p : Point.t) : Prop := 0 <= Point.x p <= 1 /\ 0 <= Point.y p <= 1.

Lemma unit_div a w : 0 < w -> 0 <= a <= w -> 0 <= a / w <= 1.
Proof.
intros Hw [H0 H1]. split.
- apply Qle_shift_div_l; [done |]. by rewrite Qmult_0_l.
- apply Qle_shift_div_r; [done |]. by rewrite Qmult_1_l.
Qed.

Lemma normalize_in_unit e xy :
0 < rect_width e -> 0 < rect_height e -> in_box e xy -> in_unit (normalizePoint (Some e) xy.1 xy.2).
Proof.
intros Hw Hh [[Hx1 Hx2] [Hy1 Hy2]]. unfold in_unit. cbn. split; apply unit_div; try done; lra.
Qed.

(** ** Properties of the canvas *)

(** C19: Pressing, moving and releasing the pointer on an enabled canvas
passes to [onStrokeComplete] exactly one stroke: its points are the
normalised pointer positions in order, the first one the press, its
colour and brush size are the props, its player id is empty (the
server stamps it) and its timestamp the release time; the refs are
reset. *)
Theorem capture_emits_stroke (s : t) (x0 y0 : Q) (moves : list (Q * Q)) (now : Z) :
enabled (opts s) = true ->
(run (gesture x0 y0 moves now) s).1.1 = set_refs false [] s /\
(run (gesture x0 y0 moves now) s).2 =
[Stroke.mk "" (color (opts s)) (normalized (canvas s) ((x0, y0) :: moves)) (brushSize (opts s)) now].
Proof. intros He. by rewrite run_gesture. Qed.

(** C17: What the drawer sees is what a replay shows: the context calls the
handlers make while the stroke is drawn (a segment added and the whole
path stroked again at every move) leave the context in the state, and
the picture equivalent to the one, that [drawStroke] of the emitted
stroke leaves, on every picture painted before. *)
Theorem capture_paints_as_replay (s : t) (x0 y0 : Q) (moves : list (Q * Q)) (now : Z) (P : pen) :
enabled (opts s) = true ->
pen_equiv (exec P (run (gesture x0 y0 moves now) s).1.2)
(exec P (drawStroke (canvas s)
(Stroke.mk "" (color (opts s)) (normalized (canvas s) ((x0, y0) :: moves)) (brushSize (opts s)) now))).
Proof.
intros He. rewrite run_gesture by done. cbn [fst snd].
destruct (canvas s) as [e|]; [| reflexivity].
pose proof (drawing_paints_as_replay P (color (opts s)) (brushSize (opts s))
(denormalizePoint (Some e) (normalizePoint (Some e) x0 y0))
(map (fun xy => denormalizePoint (Some e) (normalizePoint (Some e) xy.1 xy.2)) moves)) as H.
unfold drawStroke, move_cmds, normalized. cbn [Stroke.points Stroke.color Stroke.brushSize map fst snd].
rewrite !map_map. rewrite !map_map in H. exact H.
Qed.

(** Events that keep the canvas disabled: renders with [enabled = false]. *)
Definition keeps_disabled (ev : event) : bool :=
match ev with render o _ => negb (enabled o) | _ => true end.

Lemma step_disabled ev s :
enabled (opts s) = false -> keeps_disabled ev = true ->
(step ev s).2 = [] /\ enabled (opts (step ev s).1.1) = false.
Proof.
intros He Hk. destruct ev as [x y|x y|now|now|o [ss|]|cont l tp rw rh]; cbn [step].
- unfold handlePointerDown. by rewrite He.
- unfold handlePointerMove. by rewrite He.
- unfold handlePointerUp. by rewrite He.
- unfold handlePointerUp. by rewrite He.
- cbn in Hk. pose proof (updateCanvasSize_refs (mk o ss (container s) (canvas s) (isDrawing s) (currentStroke s))) as (_ & _ & H).
destruct (updateCanvasSize _) as [s' cs]. cbn in *. rewrite H. by destruct (enabled o).
- cbn in *. by destruct (enabled o).
- pose proof (updateCanvasSize_refs (set_layout cont l tp rw rh s)) as (_ & _ & H).
destruct (updateCanvasSize _) as [s' cs]. cbn in *. by rewrite H.
Qed.

(** A canvas rendered disabled passes no stroke to [onStrokeComplete],
whatever the pointer does, as long as it is rendered disabled. *)
Lemma disabled_emits_nothing (s : t) (evs : list event) :
enabled (opts s) = false -> Forall (fun ev => keeps_disabled ev = true) evs ->
(run evs s).2 = [] /\ enabled (opts (run evs s).1.1) = false.
Proof.
intros He Hk. revert s He. induction Hk as [|ev evs Hev _ IH]; intros s He; [done |].
rewrite events_run_cons. destruct (step_disabled ev s He Hev) as [-> H]. cbn. by apply IH.
Qed.

(** C21: From the first render on, whatever the events, [isDrawingRef] is
false exactly when [currentStrokeRef] is empty, and every stroke passed
to [onStrokeComplete] has a point: the [length > 0] test of
[handlePointerUp] never fails. *)
Theorem canvas_refs_invariant (o : options) (ss : list Stroke.t) (cont : option (Q * Q)) (e : element) (evs : list event) :
refs_ok (run evs (mount o ss cont e).1).1.1 /\
Forall (fun st => Stroke.points st <> []) (run evs (mount o ss cont e).1).2.
Proof. apply run_refs_ok, mount_refs_ok. Qed.

(** C22: When every pointer position of a stroke lies in the element's box,
every point of the stroke passed to [onStrokeComplete] is normalised:
both coordinates lie in [0, 1]. *)
Theorem captured_points_in_unit (s : t) (e : element) (x0 y0 : Q) (moves : list (Q * Q)) (now : Z) :
canvas s = Some e -> enabled (opts s) = true -> 0 < rect_width e -> 0 < rect_height e ->
Forall (in_box e) ((x0, y0) :: moves) ->
Forall (fun st => Forall in_unit (Stroke.points st)) (run (gesture x0 y0 moves now) s).2.
Proof.
intros Hc He Hw Hh Hbox. rewrite run_gesture by done. apply Forall_singleton. cbn [Stroke.points].
rewrite Hc. unfold normalized. induction Hbox as [|xy l Hxy _ IH]; constructor; [| done].
by apply normalize_in_unit.
Qed.

(** C23: Normalising and denormalising are inverse through the layout: the
point of a stroke painted at bitmap pixel [(X, Y)] normalises back to
itself from the client position of that pixel, and a pointer position
is painted at the bitmap pixel under it. *)
Theorem point_roundtrip (e : element) (p : Point.t) (xy : Q * Q) :
laid_out e ->
peq (normalizePoint (Some e) (client_at e (denormalizePoint (Some e) p)).1
             (client_at e (denormalizePoint (Some e) p)).2) p /\
qeq2 (denormalizePoint (Some e) (normalizePoint (Some e) xy.1 xy.2)) (pixel_at e xy).
Proof.
intros (Hw & Hh & Hrw & Hrh). split.
- assert (H : qeq2 (client_at e (denormalizePoint (Some e) p))
   (left e + Point.x p * rect_width e, top e + Point.y p * rect_height e)).
{ unfold qeq2. cbn. split; field; done. }
destruct H as [H1 H2]. rewrite H1, H2. unfold peq. cbn. split; field; done.
- unfold qeq2. cbn. split; field; done.
Qed.
End Canvas.

(** Witnesses: a canvas of 300 by 300 pixels at the page position (10, 20),
    mounted with the props of the active player's board. *)
Module CanvasWitnesses.
Import Canvas.
Local Open Scope Q_scope.

Definition e0 : element := mk_element 300 300 10 20 300 300.
Definition o0 : options := mk_options "#FF6B6B" 3 true.
Definition s0 : t := (mount o0 [] (Some (300, 300)) e0).1.

Lemma capture_emits_stroke_witness :
(run (gesture 40 50 [(70, 80); (100, 110)] 1000) s0).1.1 = set_refs false [] s0 /\
(run (gesture 40 50 [(70, 80); (100, 110)] 1000) s0).2 =
[Stroke.mk "" "#FF6B6B" (normalized (canvas s0) [(40, 50); (70, 80); (100, 110)]) 3 1000].
Proof. apply (capture_emits_stroke s0). reflexivity. Defined.

Lemma capture_paints_as_replay_witness :
pen_equiv (exec fresh (run (gesture 40 50 [(70, 80); (100, 110)] 1000) s0).1.2)
(exec fresh (drawStroke (canvas s0)
(Stroke.mk "" "#FF6B6B" (normalized (canvas s0) [(40, 50); (70, 80); (100, 110)]) 3 1000))).
Proof. apply (capture_paints_as_replay s0 40 50 [(70, 80); (100, 110)] 1000 fresh). reflexivity. Defined.

Lemma captured_points_in_unit_witness :
Forall (fun st => Forall in_unit (Stroke.points st)) (run (gesture 40 50 [(70, 80); (310, 320)] 1000) s0).2.
Proof.
apply (captured_points_in_unit s0 e0); try reflexivity.
repeat constructor; cbn; discriminate.
Defined.

Lemma point_roundtrip_witness :
peq (normalizePoint (Some e0) (client_at e0 (denormalizePoint (Some e0) (Point.mk (1#3) (1#2)))).1
              (client_at e0 (denormalizePoint (Some e0) (Point.mk (1#3) (1#2)))).2) (Point.mk (1#3) (1#2)) /\
qeq2 (denormalizePoint (Some e0) (normalizePoint (Some e0) 40 50)) (pixel_at e0 (40, 50)).
Proof. apply (point_roundtrip e0 (Point.mk (1#3) (1#2)) (40, 50)). split_and!; discriminate. Defined.
End CanvasWitnesses.
