(* ===== verification/ClientUI.v ===== *)
(** * ClientUI: the decisions the client's pages take

    - [Home] ([src/client/src/pages/Home.tsx]): the room-code field
      upper-cases and cuts what is typed to four characters; the buttons
      trim the name and the code and are enabled by [isNameValid] and
      [isJoinValid]; the page's own state ([page]) over typing and clicks
      ([step], [run]), with the code field kept to four characters, and
      what it shows ([Home.render]).
    - [App] ([src/client/src/App.tsx]): the page shown for a client state.
    - [Voting] ([src/client/src/pages/Voting.tsx]): the players one may vote
      for, and App's and the page's [hasVoted] flags over clicks.
    - [Lobby] ([src/client/src/pages/Lobby.tsx]): the settings form, its
      option buttons, [allReady], [canStart], the settings sent, and what
      the lobby shows ([Lobby.render]): the host's hint appears exactly
      while the start button is disabled.
    - [ImposterGuess] ([src/client/src/pages/ImposterGuess.tsx]): a state
      machine over typing, the button, Enter and the interval's ticks, with
      the [guess] and [hasSubmitted] its [setInterval] callback captured.
    - [Timer] ([src/client/src/components/Timer.tsx]): start time, time
      left and [completedRef] over ticks at given times; [GameBoard]
      ([src/client/src/pages/GameBoard.tsx]): [isMyTurn], the round label,
      the turn-order list, its timer, the props of its [Canvas] (enabled on
      the active player's board only), what a stroke or the timer does and
      the texts the board renders ([GameBoard.render]).
    - [SharedScreen] ([src/client/src/pages/SharedScreen.tsx]): what the
      shared screen renders for its room code and spectator state.
    - [Scoreboard] ([src/client/src/pages/Scoreboard.tsx]): the players
      sorted by total score ([Array.prototype.sort] is stable, so the
      comparator [(b) - (a)] determines the order: an insertion sort that
      keeps equal scores in their order), the winner, the rows, the
      buttons offered, the cells of each row, and the texts above and
      below the table
      ([summary_of], [footer_of]).

    - [PlayerList] ([src/client/src/components/PlayerList.tsx]): its
      rows, used by the lobby's view.

    Styles are not modelled; the countdowns and texts of Voting and
    ImposterGuess, and the views of Timer, Canvas and App, are in [Views];
    [RoleReveal] and App's own flags are in [AppFlow]. *)

From Stdlib Require Import ZArith QArith Lia Sorting.Sorted.
From S2P Require Import Prelude Types ClientState Canvas.

Local Open Scope string_scope.

Module Home.
(** [e.target.value.toUpperCase().slice(0, 4)] *)
Definition handleRoomCodeChange (value : string) : string :=
String.substring 0 4 (string_upper value).

Definition isNameValid (playerName : string) : bool := bool_decide (0 < String.length (trim playerName)).

Definition isJoinValid (playerName roomCode : string) : bool :=
isNameValid playerName && bool_decide (String.length (trim roomCode) = 4).

(** [handleCreateGame], behind the button enabled by [isNameValid]. *)
Definition create_click (playerName : string) : option Client.action :=
if isNameValid playerName then
if decide (trim playerName <> "") then Some (Client.CreateGame (trim playerName)) else None
else None.

(** [handleJoinGame], behind the button enabled by [isJoinValid]. *)
Definition join_click (playerName roomCode : string) : option Client.action :=
if isJoinValid playerName roomCode then
if decide (trim playerName <> "" /\ trim roomCode <> "")
then Some (Client.JoinGame (trim playerName) (string_upper (trim roomCode)))
else None
else None.

(** The page's own state (Home.tsx 9-11). *)
Record page := mk_page { playerName : string; roomCode : string; showJoin : bool }.

Definition mount : page := mk_page "" "" false.

(** What the user does on the page (Home.tsx 45-113): typing in the two
inputs, and the buttons. *)
Inductive event :=
| TypeName (v : string)        (** the name input's [onChange] *)
| TypeCode (v : string)        (** the code input's [onChange], rendered once [showJoin] *)
| ClickCreate
| ClickJoinToggle              (** "Join Game", rendered while not [showJoin] *)
| ClickBack                    (** "Back": [setShowJoin(false); setRoomCode('')] *)
| ClickJoin.

(** One event: the new state and the action handed to [useGame]. *)
Definition step (e : event) (p : page) : page * option Client.action :=
match e with
| TypeName v => (mk_page v (roomCode p) (showJoin p), None)
| TypeCode v => if showJoin p then (mk_page (playerName p) (handleRoomCodeChange v) true, None) else (p, None)
| ClickCreate => (p, create_click (playerName p))
| ClickJoinToggle =>
if negb (showJoin p) && isNameValid (playerName p) then (mk_page (playerName p) (roomCode p) true, None)
else (p, None)
| ClickBack => if showJoin p then (mk_page (playerName p) "" false, None) else (p, None)
| ClickJoin => if showJoin p then (p, join_click (playerName p) (roomCode p)) else (p, None)
end.

Definition run (evs : list event) (p : page) : page * list Client.action :=
foldl (fun acc e => let '(p', a) := step e acc.1 in (p', (acc.2 ++ option_list a)%list)) (p, []) evs.

(** What the page shows (Home.tsx 33-121): the inputs' values, whether
Create Game is enabled, the Join Game toggle (with whether it is
enabled) while not [showJoin], and the Join button (with whether it is
enabled) once [showJoin]. *)
Record view := mk_view {
nameValue : string;
createEnabled : bool;
joinToggle : option bool;
codeValue : option string;
joinEnabled : option bool
}.

Definition render (p : page) : view :=
mk_view (playerName p) (isNameValid (playerName p))
(if showJoin p then None else Some (isNameValid (playerName p)))
(if showJoin p then Some (roomCode p) else None)
(if showJoin p then Some (isJoinValid (playerName p) (roomCode p)) else None).

(** An enabled Join button sends [JOIN_GAME] of the trimmed name and the
upper-cased code; a disabled one is never clicked. *)
Lemma join_enabled_sends p :
joinEnabled (render p) = Some true ->
(step ClickJoin p).2 = Some (Client.JoinGame (trim (playerName p)) (string_upper (trim (roomCode p)))).
Proof.
unfold render; cbn. destruct (showJoin p); [| done]. intros [= Hj]. cbn.
unfold join_click. rewrite Hj. rewrite decide_True; [done |].
unfold isJoinValid, isNameValid in Hj. apply andb_prop in Hj as [Hn Hc].
apply bool_decide_eq_true in Hn, Hc.
split; intros E; [rewrite E in Hn | rewrite E in Hc]; cbn in *; lia.
Qed.

(** The code field never holds more than four characters. *)
Lemma handleRoomCodeChange_length v : String.length (handleRoomCodeChange v) <= 4.
Proof.
unfold handleRoomCodeChange. generalize (string_upper v) as u.
do 4 (intros [|? u0]; [simpl; lia |]; revert u0). intros u0. simpl. destruct u0; simpl; lia.
Qed.

Lemma step_code_length e p :
String.length (roomCode p) <= 4 -> String.length (roomCode (step e p).1) <= 4.
Proof.
destruct e; cbn; repeat case_match; cbn; try done; try lia.
intros _; apply handleRoomCodeChange_length.
Qed.

(** Every state the page reaches keeps the room code at four characters at most. *)
Lemma run_code_length evs p :
String.length (roomCode p) <= 4 -> String.length (roomCode (run evs p).1) <= 4.
Proof.
unfold run. generalize (@nil Client.action) as l. revert p.
induction evs as [|e evs IH]; intros p l Hp; [done |]. cbn [foldl fst].
pose proof (step_code_length e p Hp). destruct (step e p). cbv beta iota. apply IH. done.
Qed.
End Home.

Module App.
Inductive page :=
| HomePage
| LobbyPage
| RoleRevealPage
| GameBoardPage
| VotingPage
| ImposterGuessPage          (** the guess form *)
| WaitingForGuessPage        (** "Imposter is Guessing" *)
| ScoreboardPage
| ConnectingPage.            (** the fallback *)

(** [renderPage()]; [showRoleReveal] is the page's own state, cleared when
the role-reveal animation completes. *)
Definition renderPage (s : Client.t) (showRoleReveal : bool) : page :=
if decide (truthy_string (Client.roomCode s) = None) then HomePage
else if decide (Client.phase s = LOBBY) then LobbyPage
else if bool_decide (Client.phase s = ROLE_REVEAL) && showRoleReveal then RoleRevealPage
else if bool_decide (Client.phase s = DRAWING) || (bool_decide (Client.phase s = ROLE_REVEAL) && negb showRoleReveal)
then GameBoardPage
else if decide (Client.phase s = VOTING) then VotingPage
else if decide (Client.phase s = IMPOSTER_GUESS) then
(if decide (Client.role s = Some imposter) then ImposterGuessPage else WaitingForGuessPage)
else if bool_decide (Client.phase s = SCOREBOARD) && bool_decide (is_Some (Client.roundResult s))
then ScoreboardPage
else ConnectingPage.
End App.

Module Voting.
(** [players.filter((p) => p.id !== currentPlayerId)] *)
Definition votablePlayers (players : list PlayerData.t) (currentPlayerId : string) : list PlayerData.t :=
filter (fun p => PlayerData.id p <> currentPlayerId) players.

(** The two [hasVoted] flags of a voting phase: App's (cleared by its
effect when the phase becomes [VOTING]) and the page's (a fresh page
is mounted), with the page's [selectedPlayerId]. *)
Record ui := mk_ui { appHasVoted : bool; hasVoted : bool; selectedPlayerId : option string }.

Definition enter : ui := mk_ui false false None.

(** The page's [handleVote], whose [onVote] is App's [handleVote]. *)
Definition handleVote (playerId : string) (u : ui) : ui * list ClientMessage :=
if hasVoted u then (u, [])
else if appHasVoted u then (mk_ui true true (Some playerId), [])
else (mk_ui true true (Some playerId), [SUBMIT_VOTE playerId]).

(** Clicks on vote buttons, in order, with the messages sent. *)
Definition click_all (clicks : list string) (u : ui) : ui * list ClientMessage :=
foldl (fun (acc : ui * list ClientMessage) p =>
let '(u', out) := handleVote p acc.1 in (u', (acc.2 ++ out)%list)) (u, []) clicks.
End Voting.

Module PlayerList.
(** [src/client/src/components/PlayerList.tsx]: one row per player, in
the roster's order: ringed for [currentPlayerId], a HOST badge, and the
ready mark ([Some true]: "✓", [Some false]: "...") when [showReady]. *)
Record row := mk_row { row_player : PlayerData.t; highlighted : bool; hostBadge : bool; readyMark : option bool }.

Definition render (players : list PlayerData.t) (currentPlayerId : option string) (showReady : bool) : list row :=
map (fun p => mk_row p (bool_decide (Some (PlayerData.id p) = currentPlayerId)) (PlayerData.isHost p)
         (if showReady then Some (PlayerData.isReady p) else None)) players.

(** The ringed rows are the rows of the players whose id is [currentPlayerId]. *)
Lemma highlighted_rows players me sr :
map row_player (filter (fun r => highlighted r = true) (render players (Some me) sr)) =
filter (fun p => PlayerData.id p = me) players.
Proof.
unfold render. induction players as [|p ps IH]; [done |]. cbn.
repeat case_decide; repeat case_bool_decide; simplify_eq/=; try congruence;
first [exact IH | f_equal; exact IH].
Qed.

Lemma filter_id_at_most_one (players : list PlayerData.t) me :
NoDup (map PlayerData.id players) -> length (filter (fun p => PlayerData.id p = me) players) <= 1.
Proof.
induction players as [|p ps IH]; intros Hnd; [cbn; lia |]. rewrite filter_cons.
cbn [map] in Hnd. apply NoDup_cons in Hnd as [Hp Hnd]. case_decide as Hme; cbn [length]; [| by apply IH].
enough (filter (fun q => PlayerData.id q = me) ps = []) as -> by (cbn; lia).
apply filter_empty_intro. intros q Hq Hq'. apply Hp. rewrite Hme, <- Hq'. by apply list_elem_of_fmap_2.
Qed.

(** Among players with distinct ids, at most one row is ringed. *)
Lemma highlighted_at_most_one players me sr :
NoDup (map PlayerData.id players) ->
length (filter (fun r => highlighted r = true) (render players (Some me) sr)) <= 1.
Proof. intros Hnd. rewrite <- length_map with (f := row_player), highlighted_rows. by apply filter_id_at_most_one. Qed.
End PlayerList.

Module Lobby.
Definition CATEGORIES : list string :=
["random"; "animals"; "food"; "objects"; "places"; "actions"; "vehicles"; "professions";
"nature"; "sports"; "movies & tv"; "music"; "clothing"].
Definition DRAW_TIME_OPTIONS : list Z := [10; 15; 20; 30]%Z.
Definition WIN_SCORE_OPTIONS : list Z := [5; 10; 15; 20]%Z.

(** The settings form: [category], [drawTime], [canvasMode], [winScore]. *)
Record form := mk_form { category : string; drawTime : Z; canvasMode : CanvasMode; winScore : Z }.

Definition initial_form : form := mk_form "random" 20 shared 10.

(** The buttons of the form, one per option rendered. *)
Inductive click :=
| SetCategory (c : string)
| SetDrawTime (t : Z)
| SetCanvasMode (m : CanvasMode)
| SetWinScore (w : Z).

Definition offered (c : click) : Prop :=
match c with
| SetCategory c => c ∈ CATEGORIES
| SetDrawTime t => t ∈ DRAW_TIME_OPTIONS
| SetCanvasMode _ => True
| SetWinScore w => w ∈ WIN_SCORE_OPTIONS
end.

#[global] Instance offered_dec c : Decision (offered c).
Proof. destruct c; simpl; apply _. Defined.

Definition apply_click (c : click) (f : form) : form :=
match c with
| SetCategory c => mk_form c (drawTime f) (canvasMode f) (winScore f)
| SetDrawTime t => mk_form (category f) t (canvasMode f) (winScore f)
| SetCanvasMode m => mk_form (category f) (drawTime f) m (winScore f)
| SetWinScore w => mk_form (category f) (drawTime f) (canvasMode f) w
end.

Definition fill (clicks : list click) : form := foldl (fun f c => apply_click c f) initial_form clicks.

(** [state.players.find(p => p.id === state.playerId)] *)
Definition currentPlayer (s : Client.t) : option PlayerData.t :=
match Client.playerId s with
| Some me => Client.find_player me (Client.players s)
| None => None
end.

Definition allReady (players : list PlayerData.t) : bool :=
bool_decide (MIN_PLAYERS <= length players) && forallb PlayerData.isReady players.

Definition canStart (s : Client.t) : bool := Client.isHost s && allReady (Client.players s).

(** [handleStartGame]: no [customWord], two rounds. *)
Definition handleStartGame (f : form) : GameSettings.t :=
GameSettings.mk (category f) None (drawTime f) 2 (canvasMode f) (winScore f).

(** The start button: rendered for the host, enabled by [canStart]. *)
Definition start_click (f : form) (s : Client.t) : option Client.action :=
if canStart s then Some (Client.StartGame (handleStartGame f)) else None.

(** What the lobby shows (Lobby.tsx 41-218). *)
Record view := mk_view {
roomCodeText : option string;
playerCount : nat;               (** [{state.players.length}/8 players] *)
playerRows : list PlayerList.row;  (** [PlayerList] with [showReady] *)
settingsPanel : option form;     (** the host's settings, with the selected options *)
readyText : string;              (** the ready button *)
startEnabled : option bool;      (** the host's start button, enabled by [canStart] *)
info : option string;
errorText : option string
}.

(** [Need at least ${MIN_PLAYERS} players to start], with [MIN_PLAYERS = 3]. *)
Definition render (s : Client.t) (f : form) : view :=
let ps := Client.players s in
mk_view (Client.roomCode s) (length ps)
(PlayerList.render ps (truthy_string (Client.playerId s)) true)
(if Client.isHost s then Some f else None)
(match currentPlayer s with Some p => if PlayerData.isReady p then "Ready!" else "Not Ready" | None => "Not Ready" end)
(if Client.isHost s then Some (canStart s) else None)
(if Client.isHost s && negb (allReady ps)
then Some (if bool_decide (length ps < MIN_PLAYERS) then "Need at least 3 players to start"
  else "Waiting for all players to ready up...")
else None)
(truthy_string (Client.error s)).

(** The host sees a hint exactly while the start button is disabled, and
the hint names the missing players when fewer than three have joined. *)
Lemma lobby_hint_iff_disabled s f :
Client.isHost s = true ->
startEnabled (render s f) = Some (canStart s) /\
(info (render s f) = None <-> canStart s = true) /\
(length (Client.players s) < MIN_PLAYERS ->
info (render s f) = Some "Need at least 3 players to start").
Proof.
intros Hh. unfold render, canStart; cbn. rewrite Hh; cbn.
destruct (allReady (Client.players s)) eqn:Ha; cbn.
- split_and!; try done. intros Hl. unfold allReady in Ha.
apply andb_true_iff in Ha as [Ha _]. apply bool_decide_eq_true in Ha. lia.
- split_and!; [done | naive_solver | intros; case_bool_decide; [done | lia]].
Qed.

(** When the host's start button is enabled, every row of the list is ticked. *)
Lemma start_enabled_all_ticked s f :
startEnabled (render s f) = Some true -> Forall (fun r => PlayerList.readyMark r = Some true) (playerRows (render s f)).
Proof.
unfold render, canStart, allReady; cbn. case_match; [| done]. intros [= [_ Hall]%andb_prop].
apply Forall_forall. intros r (p & -> & Hp)%list_elem_of_fmap. cbn. f_equal.
rewrite forallb_forall in Hall. apply Hall. by apply list_elem_of_In.
Qed.

Lemma fill_category (clicks : list click) :
Forall offered clicks -> category (fill clicks) ∈ CATEGORIES.
Proof.
unfold fill. assert (Hi : category initial_form ∈ CATEGORIES) by (cbn; left).
revert Hi. generalize initial_form. induction clicks as [|c cs IH]; intros f Hf Hcs; [done |].
apply Forall_cons in Hcs as [Hc Hcs]. apply IH; [| done]. by destruct c.
Qed.
End Lobby.


Module ImposterGuess.
(** The page's state, and the closure of its [setInterval] callback: the
effect depends on [hasSubmitted] only, so the callback calls the
[handleSubmit] of the render that last ran the effect, with that
render's [guess] ([cap_guess]) and [hasSubmitted] ([cap_submitted]). *)
Record page := mk_page {
guess : string;
hasSubmitted : bool;
timeRemaining : Z;
cap_guess : string;
cap_submitted : bool
}.

(** Mounted with [timeLimit = IMPOSTER_GUESS_DURATION / 1000]. *)
Definition mount (timeLimit : Z) : page := mk_page "" false timeLimit "" false.

Inductive event :=
| Change (value : string)   (** [onChange] of the input *)
| SubmitClick               (** the button, disabled while [!guess.trim()] *)
| EnterKey                  (** [handleKeyPress] with [e.key === 'Enter'] *)
| Tick.                     (** the interval, every second *)

(** [handleSubmit] of a render whose [guess] and [hasSubmitted] are [g] and
[hs]; setting [hasSubmitted] re-runs the effect with the current render. *)
Definition handleSubmit (g : string) (hs : bool) (p : page) : page * list ClientMessage :=
if hs then (p, [])
else (mk_page (guess p) true (timeRemaining p) (guess p) true, [SUBMIT_GUESS (trim g)]).

Definition step (e : event) (p : page) : page * list ClientMessage :=
match e with
| Change v => (mk_page v (hasSubmitted p) (timeRemaining p) (cap_guess p) (cap_submitted p), [])
| SubmitClick =>
if decide (trim (guess p) = "") then (p, []) else handleSubmit (guess p) (hasSubmitted p) p
| EnterKey =>
if decide (trim (guess p) <> "" /\ hasSubmitted p = false)
then handleSubmit (guess p) (hasSubmitted p) p else (p, [])
| Tick =>
let next := Z.max 0 (timeRemaining p - 1) in
let p1 := mk_page (guess p) (hasSubmitted p) next (cap_guess p) (cap_submitted p) in
if bool_decide (next = 0%Z) && negb (cap_submitted p)
then handleSubmit (cap_guess p) (cap_submitted p) p1 else (p1, [])
end.

(** The page after a sequence of events, with the messages sent. *)
Definition collect (acc : page * list ClientMessage) (e : event) : page * list ClientMessage :=
let '(p', out) := step e acc.1 in (p', (acc.2 ++ out)%list).

Definition run (evs : list event) (p : page) : page * list ClientMessage := foldl collect (p, []) evs.

Lemma collect_acc evs p o :
foldl collect (p, o) evs = ((run evs p).1, (o ++ (run evs p).2)%list).
Proof.
unfold run. revert p o. induction evs as [|e evs IH]; intros p o; cbn [foldl fst snd].
{ by rewrite app_nil_r. }
assert (Hc : collect (p, o) e = ((collect (p, []) e).1, (o ++ (collect (p, []) e).2)%list)).
{ unfold collect. cbn [fst snd]. destruct (step e p) as [p' out]. reflexivity. }
rewrite Hc. destruct (collect (p, []) e) as [p' out]. cbn [fst snd].
rewrite (IH p' (o ++ out)%list), (IH p' out). cbn [fst snd]. by rewrite app_assoc.
Qed.

Lemma run_app evs1 evs2 p :
run (evs1 ++ evs2) p = ((run evs2 (run evs1 p).1).1, ((run evs1 p).2 ++ (run evs2 (run evs1 p).1).2)%list).
Proof. unfold run at 1. rewrite foldl_app. fold (run evs1 p). destruct (run evs1 p) as [p1 o1]. apply collect_acc. Qed.

(** Typing changes the input only. *)
Lemma run_typing typed p :
run (map Change typed) p =
(mk_page (default (guess p) (last typed)) (hasSubmitted p) (timeRemaining p) (cap_guess p) (cap_submitted p), []).
Proof.
revert p. induction typed as [|v typed IH]; intros p; [by destruct p |].
unfold run. cbn [map foldl].
replace (collect (p, []) (Change v))
with (mk_page v (hasSubmitted p) (timeRemaining p) (cap_guess p) (cap_submitted p), @nil ClientMessage)
by reflexivity.
rewrite collect_acc, IH. cbn [fst snd guess hasSubmitted timeRemaining cap_guess cap_submitted app].
destruct typed as [|x typed]; [done |]. rewrite last_cons_cons, last_cons. by destruct (last typed).
Qed.

Lemma step_tick_wait k g tr cg :
tr = Z.of_nat (S (S k)) ->
step Tick (mk_page g false tr cg false) = (mk_page g false (Z.of_nat (S k)) cg false, []).
Proof.
intros ->. unfold step. cbn [timeRemaining guess hasSubmitted cap_guess cap_submitted].
replace (Z.max 0 (Z.of_nat (S (S k)) - 1)) with (Z.of_nat (S k)) by lia.
by rewrite bool_decide_eq_false_2 by lia.
Qed.

Lemma step_tick_last g cg :
step Tick (mk_page g false 1 cg false) = (mk_page g true 0 g true, [SUBMIT_GUESS (trim cg)]).
Proof. reflexivity. Qed.

Lemma run_cons e evs p :
run (e :: evs) p = ((run evs (step e p).1).1, ((step e p).2 ++ (run evs (step e p).1).2)%list).
Proof.
unfold run at 1. cbn [foldl]. unfold collect at 2. cbn [fst snd].
destruct (step e p) as [p' out]. apply collect_acc.
Qed.

(** Waiting out the last [S k] seconds submits the captured guess. *)
Lemma run_ticks k g cg :
run (repeat Tick (S k)) (mk_page g false (Z.of_nat (S k)) cg false) =
(mk_page g true 0 g true, [SUBMIT_GUESS (trim cg)]).
Proof.
induction k as [|k IH]; [reflexivity |].
rewrite (run_cons Tick (repeat Tick (S k))), (step_tick_wait k) by done. cbn [fst snd app].
by rewrite IH.
Qed.
(** Typing and then waiting out a time limit of [S k] seconds sends the
initial, empty guess. *)
Lemma timeout_after_typing (T : Z) (k : nat) (typed : list string) :
T = Z.of_nat (S k) ->
run (map Change typed ++ repeat Tick (Z.to_nat T))%list (mount T) =
(mk_page (default "" (last typed)) true 0 (default "" (last typed)) true, [SUBMIT_GUESS ""]).
Proof.
intros ->. rewrite Nat2Z.id, run_app, run_typing. unfold mount.
cbn [fst snd guess hasSubmitted timeRemaining cap_guess cap_submitted].
by rewrite run_ticks.
Qed.
End ImposterGuess.

Module Timer.
(** [src/client/src/components/Timer.tsx]: the start time ([Date.now()]
when the effect ran), the time left in milliseconds and whether
[onComplete] was called. *)
Record t := mk { duration : Z; startTime : Z; remaining : Z; completed : bool }.

(** The effect on mount (and on a new [duration]). *)
Definition mount (duration now : Z) : t := mk duration now duration false.

(** [tick] at time [now]: the state, and whether [onComplete] is called. *)
Definition tick (now : Z) (s : t) : t * bool :=
let left := Z.max 0 (duration s - (now - startTime s)) in
if bool_decide (left <= 0)%Z && negb (completed s)
then (mk (duration s) (startTime s) left true, true)
else (mk (duration s) (startTime s) left (completed s), false).

(** The ticks of the interval at the given times, with the number of
[onComplete] calls. *)
Fixpoint run (times : list Z) (s : t) : t * nat :=
match times with
| [] => (s, 0%nat)
| now :: times' =>
let '(s1, c) := tick now s in
let '(s2, n) := run times' s1 in (s2, (Nat.b2n c + n)%nat)
end.

(** [Math.ceil(remaining / 1000)] *)
Definition seconds (s : t) : Z := (remaining s + 999) / 1000.

Inductive colour := green | yellow | red.

(** [percentage < 30] and [percentage < 60], [percentage = remaining / duration * 100]. *)
Definition color (s : t) : colour :=
if bool_decide (remaining s * 100 < 30 * duration s)%Z then red
else if bool_decide (remaining s * 100 < 60 * duration s)%Z then yellow
else green.

Lemma tick_fields now s :
duration (tick now s).1 = duration s /\ startTime (tick now s).1 = startTime s /\
completed (tick now s).1 = completed s || bool_decide (duration s <= now - startTime s)%Z /\
(tick now s).2 = negb (completed s) && bool_decide (duration s <= now - startTime s)%Z.
Proof.
unfold tick. destruct (completed s); cbn;
destruct (bool_decide_reflect (Z.max 0 (duration s - (now - startTime s)) <= 0)%Z);
destruct (bool_decide_reflect (duration s <= now - startTime s)%Z); cbn; try done; lia.
Qed.

Lemma run_completed times s : completed s = true -> (run times s).2 = 0%nat.
Proof.
revert s. induction times as [|x times IH]; intros s Hc; cbn; [done |].
destruct (tick_fields x s) as (_ & _ & Hc1 & Hb). rewrite Hc in Hc1, Hb.
destruct (tick x s) as [s1 c]. cbn in *. subst c.
destruct (run times s1) as [s2 n] eqn:E. cbn. change n with (s2, n).2. rewrite <- E. by apply IH.
Qed.

(** The interval calls [onComplete] once if some tick comes [duration]
milliseconds after the start, and never otherwise. *)
Lemma run_completes_once times s :
completed s = false ->
(run times s).2 = (if existsb (fun now => bool_decide (duration s <= now - startTime s)%Z) times then 1 else 0)%nat.
Proof.
revert s. induction times as [|x times IH]; intros s Hc; cbn; [done |].
destruct (tick_fields x s) as (Hd & Hst & Hc1 & Hb). rewrite Hc in Hc1, Hb. cbn in Hc1, Hb.
destruct (tick x s) as [s1 c]. cbn in *. subst c.
destruct (run times s1) as [s2 n] eqn:E. cbn.
destruct (bool_decide (duration s <= x - startTime s)%Z) eqn:Hx; cbn.
- change n with (s2, n).2. rewrite <- E. by rewrite run_completed.
- change n with (s2, n).2. rewrite <- E, IH by done. by rewrite Hd, Hst.
Qed.
End Timer.

Module GameBoard.
(** [src/client/src/pages/GameBoard.tsx]: [isMyTurn]; [undefined] and
[null] are both [None]. *)
Definition isMyTurn (s : Client.t) : bool := bool_decide (Client.activePlayerId s = Client.playerId s).

(** [Round ${state.currentRound}/${totalRounds}], [totalRounds = state.players.length]. *)
Definition roundLabel (s : Client.t) : Z * nat := (Client.currentRound s, length (Client.players s)).

(** One entry of [turnOrderDisplay]. *)
Record turn := mk_turn { turn_player : option PlayerData.t; hasDrawn : bool; isActive : bool }.

Definition turnOrderDisplay (s : Client.t) : list turn :=
map (fun pid => mk_turn (Client.find_player pid (Client.players s))
    (existsb (fun st => bool_decide (Stroke.playerId st = pid)) (Client.strokes s))
    (bool_decide (Client.activePlayerId s = Some pid)))
(Client.turnOrder s).

(** The timer, shown while [state.activePlayerId], counts down
[state.drawTimeLimit * 1000] ms; its [onComplete] does nothing. *)
Definition timer (s : Client.t) (now : Z) : option Timer.t :=
match truthy_string (Client.activePlayerId s) with
| Some _ => Some (Timer.mount (Client.drawTimeLimit s * 1000) now)
| None => None
end.

Definition onTimerComplete (s : Client.t) : option Client.action := None.

(** A stroke of the canvas: the canvas is enabled on [isMyTurn] only. *)
Definition onStrokeComplete (st : Stroke.t) (s : Client.t) : option Client.action :=
if isMyTurn s then Some (Client.SubmitStroke st) else None.

(** [state.players.find((p) => p.id === state.playerId)] (GameBoard.tsx 12) *)
Definition currentPlayer (s : Client.t) : option PlayerData.t :=
match Client.playerId s with
| Some me => Client.find_player me (Client.players s)
| None => None
end.

(** The props of the board's [Canvas] (GameBoard.tsx 86-104): the active
player's canvas draws in [currentPlayer?.color || '#fff'], the others'
is disabled. *)
Definition canvas_options (s : Client.t) : Canvas.options :=
if isMyTurn s
then Canvas.mk_options
(match currentPlayer s with
| Some p => if bool_decide (PlayerData.color p = "") then "#fff" else PlayerData.color p
| None => "#fff"
end) 3 true
else Canvas.mk_options "#fff" 3 false.

(** [state.players.find((p) => p.id === state.activePlayerId)] (GameBoard.tsx 13) *)
Definition activePlayer (s : Client.t) : option PlayerData.t :=
match Client.activePlayerId s with
| Some a => Client.find_player a (Client.players s)
| None => None
end.

(** [${activePlayer?.name}] in a template literal: [undefined] prints as
["undefined"]. *)
Definition name_or_undefined (p : option PlayerData.t) : string :=
match p with Some p => PlayerData.name p | None => "undefined" end.

(** What the board shows (GameBoard.tsx 28-182). *)
Record view := mk_view {
roundText : Z * nat;                          (** [Round ${currentRound}/${totalRounds}] *)
turnText : string;                            (** the turn indicator *)
turnColor : string;                           (** [activePlayer?.color || '#fff'] *)
timerShown : bool;                            (** [state.activePlayerId && <Timer>] *)
canvasProps : Canvas.options;
waitingText : option string;                  (** [Waiting for ${activePlayer?.name}...] *)
turnList : list (PlayerData.t * bool * bool)  (** player, [hasDrawn], [isActive]; entries without a player are skipped *)
}.

Definition render (s : Client.t) : view :=
mk_view (roundLabel s)
(if isMyTurn s then "Your Turn!" else name_or_undefined (activePlayer s) ++ "'s Turn")
(match activePlayer s with
| Some p => if bool_decide (PlayerData.color p = "") then "#fff" else PlayerData.color p
| None => "#fff"
end)
(bool_decide (is_Some (truthy_string (Client.activePlayerId s))))
(canvas_options s)
(if isMyTurn s then None else Some ("Waiting for " ++ name_or_undefined (activePlayer s) ++ "..."))
(omap (fun t => match turn_player t with Some p => Some (p, hasDrawn t, isActive t) | None => None end)
(turnOrderDisplay s)).

(** Before the first [TURN_START] of a game [activePlayerId] is [null]: a
board shown then names no player and prints [undefined]. *)
Lemma board_without_active_player (s : Client.t) (me : string) :
Client.playerId s = Some me -> Client.activePlayerId s = None ->
turnText (render s) = "undefined's Turn" /\ waitingText (render s) = Some "Waiting for undefined..." /\
Canvas.enabled (canvasProps (render s)) = false.
Proof.
intros Hme Hact. unfold render, canvas_options, isMyTurn, activePlayer. cbn [turnText waitingText canvasProps].
rewrite Hme, Hact, bool_decide_eq_false_2 by discriminate. done.
Qed.

(** The label's total is the number of players, whatever the number of
rounds of the settings: after [GAME_STARTING] with roster [ps] and
[TURN_START] of round [k], the board reads [Round k/|ps|]. *)
Lemma round_label_counts_players (s : Client.t) r w order ps st active k limit :
roundText (render (Client.handleMessage (TURN_START active k limit)
       (Client.handleMessage (GAME_STARTING r w order ps st) s).1).1) = (k, length ps).
Proof. reflexivity. Qed.

(** With two drawing rounds, the player who drew in the first is shown
struck through, with its check mark, while it is drawing again. *)
Example drawn_marked_while_active :
let s := Client.set_strokes [Stroke.mk "a" "#fff" [] 3 0]
(Client.set_activePlayerId (Some "a") (Client.set_turnOrder ["a"; "b"]
(Client.set_players [PlayerData.mk "a" "Ann" "#f00" true true 0; PlayerData.mk "b" "Bo" "#0f0" false true 0]
 Client.initial))) in
turnList (render s) = [(PlayerData.mk "a" "Ann" "#f00" true true 0, true, true);
         (PlayerData.mk "b" "Bo" "#0f0" false true 0, false, false)].
Proof. reflexivity. Qed.

(** Canvas events on a board that stays another player's: every render
is one of the board for a state where it is not this client's turn. *)
Definition not_my_board (ev : Canvas.event) : Prop :=
match ev with
| Canvas.render o _ => exists s', o = canvas_options s' /\ isMyTurn s' = false
| _ => True
end.

(** C18: On the board of a client whose turn it is not, the canvas passes
no stroke to the board, whatever the pointer does and however often
the board is rendered again while it is still not that client's turn;
and the board would drop such a stroke anyway. *)
Theorem only_active_player_draws (s : Client.t) (c : Canvas.t) (evs : list Canvas.event) (st : Stroke.t) :
Canvas.opts c = canvas_options s -> isMyTurn s = false -> Forall not_my_board evs ->
(Canvas.run evs c).2 = [] /\ onStrokeComplete st s = None.
Proof.
intros Ho Hm Hevs. unfold onStrokeComplete. rewrite Hm. split; [| done].
apply Canvas.disabled_emits_nothing; [by rewrite Ho; unfold canvas_options; rewrite Hm |].
eapply Forall_impl; [exact Hevs |]. intros [| | | | o ss |] H; try done.
destruct H as (s' & -> & H'). unfold canvas_options. by rewrite H'.
Qed.
End GameBoard.

Module Scoreboard.
(** [result.totalScores[p.id] || 0] *)
Definition total_of (totals : list (string * Z)) (p : PlayerData.t) : Z :=
default 0%Z (map_get (PlayerData.id p) totals).

(** Insert [p] after every player with at least its total. *)
Fixpoint insert_desc (totals : list (string * Z)) (p : PlayerData.t) (l : list PlayerData.t) :
list PlayerData.t :=
match l with
| [] => [p]
| q :: l' => if decide (total_of totals q < total_of totals p)%Z then p :: q :: l'
else q :: insert_desc totals p l'
end.

(** [[...players].sort((a, b) => total(b) - total(a))] *)
Definition sortedPlayers (totals : list (string * Z)) (players : list PlayerData.t) : list PlayerData.t :=
foldl (fun acc p => insert_desc totals p acc) [] players.

(** [sortedPlayers.find((p) => total(p) >= winScore)] *)
Definition winner (totals : list (string * Z)) (players : list PlayerData.t) (winScore : Z) :
option PlayerData.t :=
snd <$> list_find (fun p => winScore <= total_of totals p)%Z (sortedPlayers totals players).

Definition gameOver (totals : list (string * Z)) (players : list PlayerData.t) (winScore : Z) : bool :=
bool_decide (is_Some (winner totals players winScore)).

(** One row: rank, player, round points, total points, imposter, winner. *)
Record row := mk_row { rank : nat; row_player : PlayerData.t; roundPoints : Z; totalPoints : Z;
 row_isImposter : bool; row_isWinner : bool }.

Definition rows (result : RoundResult.t) (players : list PlayerData.t) (winScore : Z) : list row :=
let totals := RoundResult.totalScores result in
let w := winner totals players winScore in
imap (fun i p => mk_row (S i) p (default 0%Z (map_get (PlayerData.id p) (RoundResult.scores result)))
(total_of totals p) (bool_decide (PlayerData.id p = RoundResult.imposterId result))
(bool_decide (is_Some w) && bool_decide ((PlayerData.id <$> w) = Some (PlayerData.id p))))
(sortedPlayers totals players).

(** The round-points cell (Scoreboard.tsx 144-151): "+n" when positive,
"0" when zero, and nothing for a negative count. *)
Definition pointsText (n : Z) : option string :=
if bool_decide (0 < n)%Z then Some ("+" ++ js_string_of_Z n)
else if bool_decide (n = 0)%Z then Some "0" else None.

(** One row as shown (Scoreboard.tsx 117-157): the rank, the name, the
IMP badge, the crown, the round points and the total. *)
Record cells := mk_cells { rankText : string; nameText : string; impBadge : bool; crown : bool;
                 roundText : option string; totalText : string }.

Definition row_cells (r : row) : cells :=
mk_cells (js_string_of_Z (Z.of_nat (rank r))) (PlayerData.name (row_player r)) (row_isImposter r)
(row_isWinner r) (pointsText (roundPoints r)) (js_string_of_Z (totalPoints r)).

(** The round-points cell is empty exactly for a negative count. *)
Lemma pointsText_None n : pointsText n = None <-> (n < 0)%Z.
Proof. unfold pointsText. repeat case_bool_decide; split; intros; try done; lia. Qed.

(** The buttons: the host gets "Play Again" once someone has won and
"Next Round" otherwise; the others get the break toggle while nobody
has won. *)
Definition controls (result : RoundResult.t) (players : list PlayerData.t) (playerId : option string)
(winScore : Z) (timeoutPlayerIds : list string) (isHost : bool) : list Client.action :=
let over := gameOver (RoundResult.totalScores result) players winScore in
if isHost then [if over then Client.PlayAgain else Client.NextRound]
else if over then []
else match truthy_string playerId with
| Some p => if decide (p ∈ timeoutPlayerIds) then [Client.CancelTimeout] else [Client.RequestTimeout]
| None => [Client.RequestTimeout]
end.

(** The round summary above the table (Scoreboard.tsx 18, 29-96). *)
Record summary := mk_summary {
banner : option (PlayerData.t * Z);   (** "{winner.name} Wins!", "First to {winScore} points!" *)
roundHeading : bool;                  (** "Round Results", while nobody has won *)
imposter : option PlayerData.t;       (** "The imposter was:" *)
caughtText : string;                  (** "Caught!" or "Got away!" *)
guessShown : option bool;             (** "Correct!" or "Wrong!", once a caught imposter guessed *)
wordShown : option string             (** "The secret word was:" *)
}.

Definition summary_of (result : RoundResult.t) (players : list PlayerData.t) (winScore : Z) : summary :=
let totals := RoundResult.totalScores result in
mk_summary (option_map (fun p => (p, winScore)) (winner totals players winScore))
(negb (gameOver totals players winScore))
(Client.find_player (RoundResult.imposterId result) players)
(if RoundResult.imposterCaught result then "Caught!" else "Got away!")
(if RoundResult.imposterCaught result then RoundResult.imposterGuessCorrect result else None)
(RoundResult.secretWord result).

(** Below the table (Scoreboard.tsx 164-238): the players who asked for a
break, the non-host's toggle ([Some true]: "Cancel Break Request"), the
host's button and the waiting line. *)
Record footer := mk_footer {
breakNames : list PlayerData.t;
breakToggle : option bool;
hostButton : option string;
waitingLine : option string
}.

Definition footer_of (result : RoundResult.t) (players : list PlayerData.t) (playerId : option string)
(winScore : Z) (timeoutPlayerIds : list string) (isHost : bool) : footer :=
let over := gameOver (RoundResult.totalScores result) players winScore in
mk_footer
(if negb over && bool_decide (0 < length timeoutPlayerIds)%nat
then omap (fun id => Client.find_player id players) timeoutPlayerIds else [])
(if negb isHost && negb over
then Some (match truthy_string playerId with Some p => bool_decide (p ∈ timeoutPlayerIds) | None => false end)
else None)
(if isHost
then Some (if over then "Back to Lobby"
  else if bool_decide (0 < length timeoutPlayerIds)%nat then "Next Round (break requested!)"
  else "Next Round")
else None)
(if isHost then None
else Some (if over then "Waiting for host to return to lobby..." else "Waiting for host to start next round...")).

(** ** The order and the winner *)

Definition ranked (totals : list (string * Z)) (a b : PlayerData.t) : Prop :=
(total_of totals b <= total_of totals a)%Z.

Section Ranking.
Context (totals : list (string * Z)).
#[local] Abbreviation R := (ranked totals).

Lemma insert_desc_perm p l : insert_desc totals p l ≡ₚ p :: l.
Proof.
induction l as [|q l IH]; simpl; [done |]. case_decide; [done |].
rewrite IH. apply perm_swap.
Qed.

Lemma sortedPlayers_perm_acc acc l :
foldl (fun acc p => insert_desc totals p acc) acc l ≡ₚ rev l ++ acc.
Proof.
revert acc. induction l as [|p l IH]; intros acc; simpl; [done |].
rewrite IH, insert_desc_perm. simpl. by rewrite <- app_assoc.
Qed.

Lemma insert_desc_HdRel q p l :
HdRel R q l -> R q p -> HdRel R q (insert_desc totals p l).
Proof.
destruct l as [|q' l]; simpl; intros Hq Hp; [by constructor |].
case_decide; constructor; [done |]. by inversion Hq.
Qed.

Lemma insert_desc_sorted p l : Sorted R l -> Sorted R (insert_desc totals p l).
Proof.
induction l as [|q l IH]; intros Hs; simpl; [by repeat constructor |].
apply Sorted_inv in Hs as [Hs Hq]. case_decide.
- constructor; [by constructor | constructor; unfold ranked; lia].
- constructor; [by apply IH |]. apply insert_desc_HdRel; [done | unfold ranked; lia].
Qed.

Lemma sortedPlayers_sorted_acc acc l :
Sorted R acc -> Sorted R (foldl (fun acc p => insert_desc totals p acc) acc l).
Proof.
revert acc. induction l as [|p l IH]; intros acc Hs; simpl; [done |].
apply IH, insert_desc_sorted, Hs.
Qed.

(** The first player of a ranking who reaches [W] has the highest total. *)
Lemma find_sorted_max (W : Z) l i w :
StronglySorted R l -> list_find (fun p => W <= total_of totals p)%Z l = Some (i, w) ->
forall x, x ∈ l -> (total_of totals x <= total_of totals w)%Z.
Proof.
revert i. induction l as [|y l IH]; intros i Hs Hf x Hx; [set_solver |].
apply StronglySorted_inv in Hs as [Hs Hy]. rewrite Forall_forall in Hy.
simpl in Hf. case_decide.
- simplify_eq. apply elem_of_cons in Hx as [->|Hx]; [lia |]. apply Hy, Hx.
- destruct (list_find _ l) as [[j w']|] eqn:E; simplify_eq/=.
apply elem_of_cons in Hx as [->|Hx]; [| by eapply IH].
apply list_find_Some in E as (Hw & HW & _). lia.
Qed.
End Ranking.

Lemma sortedPlayers_perm (totals : list (string * Z)) (players : list PlayerData.t) :
sortedPlayers totals players ≡ₚ players.
Proof.
unfold sortedPlayers. rewrite sortedPlayers_perm_acc, app_nil_r. symmetry. apply Permutation_rev.
Qed.

Lemma sortedPlayers_strongly (totals : list (string * Z)) (players : list PlayerData.t) :
StronglySorted (ranked totals) (sortedPlayers totals players).
Proof.
apply Sorted_StronglySorted; [unfold ranked; intros a b c; lia |].
apply sortedPlayers_sorted_acc. constructor.
Qed.

Lemma winner_None (totals : list (string * Z)) (players : list PlayerData.t) (W : Z) :
winner totals players W = None <-> forall p, p ∈ players -> (total_of totals p < W)%Z.
Proof.
pose proof (sortedPlayers_perm totals players) as Hp. unfold winner.
destruct (list_find _ _) as [[i w]|] eqn:E; simpl.
- split; [done |]. intros Hall. apply list_find_Some in E as (Hi & HW & _).
apply list_elem_of_lookup_2 in Hi. rewrite Hp in Hi. specialize (Hall w Hi). lia.
- split; [intros _ p Hin | done]. apply list_find_None in E. rewrite Forall_forall in E.
rewrite <- Hp in Hin. specialize (E p Hin). lia.
Qed.

Lemma winner_Some (totals : list (string * Z)) (players : list PlayerData.t) (W : Z) w :
winner totals players W = Some w ->
w ∈ players /\ (W <= total_of totals w)%Z /\
forall p, p ∈ players -> (total_of totals p <= total_of totals w)%Z.
Proof.
pose proof (sortedPlayers_perm totals players) as Hp. unfold winner.
destruct (list_find _ _) as [[i w']|] eqn:E; intros [= <-].
pose proof E as E'. apply list_find_Some in E' as (Hi & HW & _).
apply list_elem_of_lookup_2 in Hi. split; [by rewrite <- Hp | split; [done |]].
intros p Hin. rewrite <- Hp in Hin. eapply find_sorted_max; [apply sortedPlayers_strongly | done | done].
Qed.

(** [!!winner] is whether some player reaches [winScore]. *)
Lemma gameOver_existsb (totals : list (string * Z)) (players : list PlayerData.t) (W : Z) :
gameOver totals players W = existsb (fun p => bool_decide (W <= total_of totals p)%Z) players.
Proof.
unfold gameOver. destruct (winner totals players W) as [w|] eqn:E; simpl; symmetry.
- apply existsb_exists. destruct (winner_Some _ _ _ _ E) as (Hin & HW & _).
exists w. split; [by apply list_elem_of_In | by apply bool_decide_eq_true].
- apply not_true_iff_false. intros (p & Hin & HW)%existsb_exists.
apply list_elem_of_In in Hin. apply bool_decide_eq_true in HW.
apply winner_None with (p := p) in E; [lia | done].
Qed.

(** The host's button says what it does: "Back to Lobby" exactly when it
sends [PLAY_AGAIN], a "Next Round" label otherwise; the toggle offered
to the others is the action [controls] gives. *)
Lemma footer_agrees_controls result players playerId winScore tids isHost :
match controls result players playerId winScore tids isHost with
| [Client.PlayAgain] => hostButton (footer_of result players playerId winScore tids isHost) = Some "Back to Lobby"
| [Client.NextRound] => isHost = true /\ hostButton (footer_of result players playerId winScore tids isHost) <> Some "Back to Lobby"
| [Client.CancelTimeout] => breakToggle (footer_of result players playerId winScore tids isHost) = Some true
| [Client.RequestTimeout] => breakToggle (footer_of result players playerId winScore tids isHost) = Some false
| [] => isHost = false /\ breakToggle (footer_of result players playerId winScore tids isHost) = None
| _ => False
end.
Proof.
unfold controls, footer_of. cbn [hostButton breakToggle].
destruct isHost, (gameOver _ _ _); cbn; try done.
- split; [done |]. case_bool_decide; discriminate.
- destruct (truthy_string playerId) as [p|]; [| done]. by case_decide; case_bool_decide.
Qed.

(** the scoreboard lists every player once, by non-increasing total
score. *)
Theorem sortedPlayers_spec (totals : list (string * Z)) (players : list PlayerData.t) :
sortedPlayers totals players ≡ₚ players /\ Sorted (ranked totals) (sortedPlayers totals players).
Proof.
split; [apply sortedPlayers_perm |]. apply sortedPlayers_sorted_acc. constructor.
Qed.

(** the scoreboard announces a winner exactly when some player reaches
[winScore], and the winner is a player with the highest total. *)
Theorem winner_spec (totals : list (string * Z)) (players : list PlayerData.t) (W : Z) :
(winner totals players W = None <-> forall p, p ∈ players -> (total_of totals p < W)%Z) /\
(forall w, winner totals players W = Some w ->
w ∈ players /\ (W <= total_of totals w)%Z /\
forall p, p ∈ players -> (total_of totals p <= total_of totals w)%Z).
Proof. split; [apply winner_None | apply winner_Some]. Qed.
End Scoreboard.

Module SharedScreen.
(** [src/client/src/pages/SharedScreen.tsx]: what the shared screen shows
for its [roomCode] prop and its spectator state. *)

(** [getPhaseDisplay] (SharedScreen.tsx 110-127) *)
Definition phaseDisplay (ph : GamePhase) : string :=
match ph with
| LOBBY => "Waiting to Start"
| ROLE_REVEAL => "Role Reveal"
| DRAWING => "Drawing Phase"
| VOTING => "Voting Phase"
| IMPOSTER_GUESS => "Imposter Guessing"
| SCOREBOARD => "Round Results"
end.

(** One card of the player footer: the player, whether it is the active
one, and the score shown on the scoreboard. *)
Record row := mk_row { row_player : PlayerData.t; row_active : bool; row_score : option Z }.

Record view := mk_view {
roomCodeText : string;                             (** [roomCode || '----'] *)
phaseText : string;
connectedText : string;
turnBanner : option PlayerData.t;                  (** [{activePlayer.name}'s Turn] in DRAWING *)
canvasShown : option (Canvas.options * list Stroke.t);
lobbyText : option (nat * string);                 (** [{n} player{n !== 1 ? 's' : ''} in lobby] *)
noRoomCode : bool;                                 (** "No room code provided" *)
footer : list row
}.

(** The player footer (SharedScreen.tsx 267-336): shown outside the lobby
once players are known, one card per player, the active one outlined, with
the scores on the scoreboard. *)
Definition footer_rows (s : Spectator.t) : list row :=
let ps := Spectator.players s in
if bool_decide (0 < length ps)%nat && bool_decide (Spectator.phase s <> LOBBY)
then map (fun p => mk_row p (bool_decide (Spectator.activePlayerId s = Some (PlayerData.id p)))
                (if bool_decide (Spectator.phase s = SCOREBOARD) then Some (PlayerData.score p) else None)) ps
else [].

(** The render of SharedScreen (SharedScreen.tsx 108-338). *)
Definition render (roomCode : option string) (s : Spectator.t) : view :=
let ps := Spectator.players s in
let activePlayer :=
match Spectator.activePlayerId s with
| Some a => Client.find_player a ps
| None => None
end in
mk_view (default "----" (truthy_string roomCode))
(phaseDisplay (Spectator.phase s))
(if Spectator.connected s then "Connected" else "Disconnected")
(if bool_decide (Spectator.phase s = DRAWING) then activePlayer else None)
(if bool_decide (Spectator.phase s = DRAWING) || bool_decide (0 < length (Spectator.strokes s))%nat
then Some (Canvas.mk_options "#fff" 3 false, Spectator.strokes s) else None)
(if bool_decide (Spectator.phase s = LOBBY) && bool_decide (0 < length ps)%nat
then Some (length ps, if bool_decide (length ps <> 1)%nat then "s" else "") else None)
(bool_decide (truthy_string roomCode = None))
(footer_rows s).
End SharedScreen.

(** Witness: player [b]'s board while [a] draws; the pointer presses,
    moves and releases, and the board is rendered again for [b]. *)
Module ClientUIWitnesses.
Local Open Scope string_scope.

Definition watcher : Client.t :=
Client.set_activePlayerId (Some "a") (Client.set_playerId (Some "b") Client.initial).

Definition watcher_canvas : Canvas.t :=
(Canvas.mount (GameBoard.canvas_options watcher) [] None CanvasWitnesses.e0).1.

Definition scribble : list Canvas.event :=
[Canvas.pointerdown 40%Q 50%Q; Canvas.pointermove 70%Q 80%Q;
Canvas.render (GameBoard.canvas_options watcher) None; Canvas.pointerup 1000].

Lemma only_active_player_draws_witness :
(Canvas.run scribble watcher_canvas).2 = [] /\
GameBoard.onStrokeComplete (Stroke.mk "" "#fff" [] 3 0) watcher = None.
Proof.
apply (GameBoard.only_active_player_draws watcher); [reflexivity | reflexivity |].
repeat constructor. cbn. exists watcher. split; reflexivity.
Defined.
End ClientUIWitnesses.
