(* ===== verification/AppFlow.v ===== *)
(** * AppFlow: App's own state over time, and the role-reveal page

    [src/client/src/App.tsx] keeps two flags of its own beside the state of
    [useGame]: [hasVoted] and [showRoleReveal]. Effects on [state.phase]
    reset them (App.tsx 32-44); the role-reveal page clears
    [showRoleReveal] from a timeout ([src/client/src/pages/RoleReveal.tsx]
    11-17), after which App shows the game board even while the room is
    still in [ROLE_REVEAL] (App.tsx 106).

    - [RoleReveal.render] is what the reveal page shows for a role and a
      word.
    - [AppFlow.t] is App's state: the client state, the two flags and the
      reveal page's pending timeout; [receive], [tick] and [handleVote]
      are a server message, the clock and a vote click, each followed by
      App's render ([render]) and its effects.
    - When the reveal page's timeout fires before [TURN_START], App shows
      the board during [ROLE_REVEAL] ([reveal_timeout_shows_board]): with
      the previous round's [activePlayerId] after [NEXT_ROUND], or with
      none in the first round.

    Every message makes [useGame]'s reducer build a new state object
    ([{ ...prev }]), so App renders on every message.  App counts its
    renders ([renders]); [handleRoleRevealComplete], declared in App's
    body, is a new function at every render, modelled as the number of the
    render that created it.  The reveal page's effect depends on
    [onComplete] ([reveal_effect]): React runs it again when the function
    differs from the previous render's, so the timeout restarts at every
    render ([render_deadline]); a memoised callback would keep it. *)

From Stdlib Require Import ZArith Lia.
From S2P Require Import Prelude Types ClientState Canvas ClientUI.

Local Open Scope string_scope.

Module RoleReveal.

(** What the page shows (RoleReveal.tsx 19-23 and its markup 25-136). *)
Record view := mk_view {
bgColor : string;
primaryColor : string;
roleText : string;
displayWord : option string;     (** [{displayWord}]: [null] shows nothing *)
wordColor : string;
wordBackground : string;
spaced : bool;                   (** [letterSpacing: '0.2em'] *)
hint : string;
countdown : Z                    (** [Math.ceil(ROLE_REVEAL_DURATION / 1000)] *)
}.

Definition render (role : option Role) (word : option string) : view :=
let isArtist := bool_decide (role = Some artist) in
let displayWord := if isArtist then word else Some "???" in
mk_view (if isArtist then "#1a3a1a" else "#3a1a1a")
(if isArtist then "#2ECC71" else "#E74C3C")
(if isArtist then "Artist" else "IMPOSTER")
displayWord
(if isArtist then "#fff" else "#666")
(if isArtist then "#2a4a2a" else "#4a2a2a")
(bool_decide (displayWord = Some "???"))
(if isArtist then "Draw this word without being too obvious!"
else "Blend in and figure out the secret word!")
((ROLE_REVEAL_DURATION + 999) / 1000).
End RoleReveal.

Module AppFlow.

Record t := mk {
client : Client.t;               (** [state] of [useGame] *)
hasVoted : bool;
showRoleReveal : bool;
revealDeadline : option Z;       (** the reveal page's pending [setTimeout], due at this time *)
renders : nat                    (** the renders of App so far: the last one created closure [renders] *)
}.

Definition page (a : t) : App.page := App.renderPage (client a) (showRoleReveal a).

#[global] Instance page_eq_dec : EqDecision App.page.
Proof. solve_decision. Defined.

(** [handleRoleRevealComplete] (App.tsx 46-48) is declared in App's body,
so every render creates a new function: the closure of render [n] is [n],
and two closures are the same function exactly when they come from the
same render. *)
Definition handleRoleRevealComplete (renderNo : nat) : nat := renderNo.

(** The reveal page's effect (RoleReveal.tsx 11-17), whose dependency is
[onComplete]: it runs when the page mounts, and again at a render whose
[onComplete] is not the function of the previous render, clearing the
old timeout and setting one due [ROLE_REVEAL_DURATION] later; otherwise
the pending timeout stays.  Unmounting clears it. *)
Definition reveal_effect (now : Z) (shown : bool) (prev_onComplete onComplete : nat)
(pending : option Z) : option Z :=
if shown then
match pending with
| Some d => if decide (onComplete = prev_onComplete) then Some d else Some (now + ROLE_REVEAL_DURATION)%Z
| None => Some (now + ROLE_REVEAL_DURATION)%Z
end
else None.

(** A render of App at time [now]: render [S (renders a)] passes its own
[handleRoleRevealComplete] to the reveal page when it shows it (App.tsx
95-103). *)
Definition render (now : Z) (a : t) : t :=
let r := S (renders a) in
mk (client a) (hasVoted a) (showRoleReveal a)
(reveal_effect now (bool_decide (page a = App.RoleRevealPage))
(handleRoleRevealComplete (renders a)) (handleRoleRevealComplete r) (revealDeadline a))
r.

(** The effects on [state.phase] (App.tsx 32-44): entering [VOTING] clears
[hasVoted], entering [ROLE_REVEAL] sets [showRoleReveal]. *)
Definition phase_effects (a : t) : t :=
match Client.phase (client a) with
| VOTING => mk (client a) false (showRoleReveal a) (revealDeadline a) (renders a)
| ROLE_REVEAL => mk (client a) (hasVoted a) true (revealDeadline a) (renders a)
| _ => a
end.

(** A server message at time [now]: the reducer gives App a new state, App
renders, the effects run when the phase changed, and App renders again
with what they set. *)
Definition receive (now : Z) (m : ServerMessage) (a : t) : t :=
let a1 := render now (mk (Client.handleMessage m (client a)).1 (hasVoted a) (showRoleReveal a) (revealDeadline a) (renders a)) in
if decide (Client.phase (client a1) = Client.phase (client a)) then a1
else render now (phase_effects a1).

(** The clock reaches [now]: the reveal page's timeout fires when due and
calls [handleRoleRevealComplete] (App.tsx 46-48). *)
Definition tick (now : Z) (a : t) : t :=
match revealDeadline a with
| Some d => if decide (d <= now)%Z then render now (mk (client a) (hasVoted a) false None (renders a)) else a
| None => a
end.

(** [handleVote] (App.tsx 50-55) *)
Definition handleVote (now : Z) (votedPlayerId : string) (a : t) : t * list ClientMessage :=
if hasVoted a then (a, [])
else (render now (mk (client a) true (showRoleReveal a) (revealDeadline a) (renders a)), [SUBMIT_VOTE votedPlayerId]).

(** The first render: [useState(false)], [useState(true)]. *)
Definition initial : t := render 0 (mk Client.initial false true None 0).

Inductive event :=
| Receive (now : Z) (m : ServerMessage)
| Tick (now : Z)
| Vote (now : Z) (votedPlayerId : string).

Definition step (ev : event) (a : t) : t * list ClientMessage :=
match ev with
| Receive now m => (receive now m a, [])
| Tick now => (tick now a, [])
| Vote now pid => handleVote now pid a
end.

Definition run (evs : list event) (a : t) : t * list ClientMessage :=
foldl (fun acc ev => let '(a', out) := step ev acc.1 in (a', (acc.2 ++ out)%list)) (a, []) evs.


(** ** Lemmas *)

Lemma page_render now a : page (render now a) = page a.
Proof. reflexivity. Qed.

(** Every render of App hands the reveal page a new [onComplete], so a
render that shows the page restarts its timeout. *)
Lemma render_deadline now a :
revealDeadline (render now a) = if decide (page a = App.RoleRevealPage) then Some (now + ROLE_REVEAL_DURATION)%Z else None.
Proof.
unfold render, reveal_effect, handleRoleRevealComplete; cbn.
case_bool_decide; rewrite ?decide_True, ?decide_False by done; [| done].
destruct (revealDeadline a); [| done]. rewrite decide_False; [done | lia].
Qed.

Lemma receive_render now m a : exists a0, receive now m a = render now a0.
Proof. unfold receive. case_decide; eauto. Qed.

(** The reveal page is shown in [ROLE_REVEAL] with a room code; without
[showRoleReveal], the board is. *)
Lemma renderPage_reveal s :
App.renderPage s true = App.RoleRevealPage ->
Client.phase s = ROLE_REVEAL /\ App.renderPage s false = App.GameBoardPage.
Proof.
unfold App.renderPage. destruct (Client.phase s), (truthy_string (Client.roomCode s)), (Client.role s) as [[]|];
cbn; intros H; try discriminate; repeat case_match; done.
Qed.

Lemma renderPage_phase s b :
Client.phase s = ROLE_REVEAL -> truthy_string (Client.roomCode s) <> None ->
App.renderPage s b = if b then App.RoleRevealPage else App.GameBoardPage.
Proof. intros Hp Hr. unfold App.renderPage. rewrite Hp. repeat case_decide; try done; by destruct b. Qed.

Lemma page_reveal_show a : page a = App.RoleRevealPage -> showRoleReveal a = true.
Proof.
unfold page. destruct (showRoleReveal a); [done |]. unfold App.renderPage.
destruct (Client.phase (client a)), (truthy_string (Client.roomCode (client a))), (Client.role (client a)) as [[]|];
cbn; repeat case_match; discriminate.
Qed.

(** A tick leaves the reveal page shown until its deadline, and shows the
board from then on. *)
Lemma tick_reveal t' d a :
page a = App.RoleRevealPage -> revealDeadline a = Some d ->
page (tick t' a) = if decide (d <= t')%Z then App.GameBoardPage else App.RoleRevealPage.
Proof.
intros Hp Hd. unfold tick. rewrite Hd. pose proof (page_reveal_show a Hp) as Hs.
case_decide; [| done]. rewrite page_render. unfold page in *. cbn.
rewrite Hs in Hp. by destruct (renderPage_reveal _ Hp) as [_ Hb].
Qed.

Lemma tick_render_board t' now a : page a <> App.RoleRevealPage -> tick t' (render now a) = render now a.
Proof. intros H. unfold tick. rewrite render_deadline. by rewrite decide_False. Qed.

Lemma tick_render_reveal t' now a :
page a = App.RoleRevealPage -> (now + ROLE_REVEAL_DURATION <= t')%Z ->
page (tick t' (render now a)) = App.GameBoardPage.
Proof.
intros Hp Ht. rewrite (tick_reveal t' (now + ROLE_REVEAL_DURATION)).
- by rewrite decide_True.
- by rewrite page_render.
- rewrite render_deadline. by rewrite decide_True.
Qed.

(** ** Properties of App's flow *)

(** C20: While the reveal page is shown, every message restarts its
timeout, because each render of App hands the page a new
[handleRoleRevealComplete] and the page's effect depends on it: after a
message at time [now] that leaves the page shown, the
page is still shown at every time before [now + ROLE_REVEAL_DURATION]
and gives way to the board from then on, however long it has been
shown already. *)
Theorem reveal_restarts_on_message (now : Z) (m : ServerMessage) (a : t) (t' : Z) :
page (receive now m a) = App.RoleRevealPage ->
(page (tick t' (receive now m a)) = App.RoleRevealPage <-> (t' < now + ROLE_REVEAL_DURATION)%Z).
Proof.
intros Hp. destruct (receive_render now m a) as [a0 Ha0].
assert (Hd : revealDeadline (receive now m a) = Some (now + ROLE_REVEAL_DURATION)%Z).
{ rewrite Ha0 in *. rewrite render_deadline, <- (page_render now a0). by rewrite decide_True. }
rewrite (tick_reveal t' _ _ Hp Hd). case_decide; split; (discriminate || lia || done).
Qed.

(** When the reveal page's timeout fires before [TURN_START], App shows
the board in [ROLE_REVEAL], over the client state [GAME_STARTING] left. *)
Lemma reveal_timeout_shows_board (a : t) (now t' : Z)
(r : Role) (w : option string) (order : list string) (ps : list PlayerData.t) (st : GameSettings.t) :
truthy_string (Client.roomCode (client a)) <> None ->
(now + ROLE_REVEAL_DURATION <= t')%Z ->
let a' := tick t' (receive now (GAME_STARTING r w order ps st) a) in
client a' = (Client.handleMessage (GAME_STARTING r w order ps st) (client a)).1 /\
Client.phase (client a') = ROLE_REVEAL /\ page a' = App.GameBoardPage.
Proof.
intros Hr Ht a'.
set (c' := (Client.handleMessage (GAME_STARTING r w order ps st) (client a)).1).
assert (Hph : Client.phase c' = ROLE_REVEAL) by done.
assert (Hrc : truthy_string (Client.roomCode c') <> None) by done.
assert (Hcl : client a' = c').
{ unfold a', receive, tick. case_decide; cbn; repeat case_match; done. }
split_and!; [done | by rewrite Hcl |].
unfold a', receive. case_decide as Hsame.
- destruct (showRoleReveal a) eqn:Hs.
+ apply tick_render_reveal; [| done]. unfold page. cbn. rewrite ?Hs. by apply renderPage_phase.
+ rewrite tick_render_board; [rewrite page_render |]; unfold page; cbn; rewrite ?Hs, renderPage_phase by done; done.
- apply tick_render_reveal; [| done]. unfold page, phase_effects. cbn. by apply renderPage_phase.
Qed.

(** [GAME_STARTING] does not reset [activePlayerId]: when the next round
starts, the player who drew last in the previous round is shown, once
the reveal page's timeout has fired and before [TURN_START] arrives,
the game board with an enabled canvas although the room is still in
[ROLE_REVEAL]. *)
Lemma stale_turn_after_next_round (a : t) (me : string) (now t' : Z)
(r : Role) (w : option string) (order : list string) (ps : list PlayerData.t) (st : GameSettings.t) :
truthy_string (Client.roomCode (client a)) <> None ->
Client.playerId (client a) = Some me -> Client.activePlayerId (client a) = Some me ->
(now + ROLE_REVEAL_DURATION <= t')%Z ->
let a' := tick t' (receive now (GAME_STARTING r w order ps st) a) in
Client.phase (client a') = ROLE_REVEAL /\ page a' = App.GameBoardPage /\
Canvas.enabled (GameBoard.canvas_options (client a')) = true.
Proof.
intros Hr Hme Hact Ht a'.
destruct (reveal_timeout_shows_board a now t' r w order ps st Hr Ht) as (Hcl & Hph & Hpage).
fold a' in Hcl, Hph, Hpage. split_and!; [done | done |].
rewrite Hcl. unfold GameBoard.canvas_options, GameBoard.isMyTurn. cbn.
rewrite Hme, Hact. by rewrite bool_decide_eq_true_2.
Qed.

(** In the first game [activePlayerId] is still [null] during the reveal:
once the reveal page's timeout has fired, App shows a board that says
"undefined's Turn". *)
Lemma first_round_board_undefined (a : t) (me : string) (now t' : Z)
(r : Role) (w : option string) (order : list string) (ps : list PlayerData.t) (st : GameSettings.t) :
truthy_string (Client.roomCode (client a)) <> None ->
Client.playerId (client a) = Some me -> Client.activePlayerId (client a) = None ->
(now + ROLE_REVEAL_DURATION <= t')%Z ->
let a' := tick t' (receive now (GAME_STARTING r w order ps st) a) in
page a' = App.GameBoardPage /\ GameBoard.turnText (GameBoard.render (client a')) = "undefined's Turn".
Proof.
intros Hr Hme Hact Ht a'.
destruct (reveal_timeout_shows_board a now t' r w order ps st Hr Ht) as (Hcl & _ & Hpage).
fold a' in Hcl, Hpage. split; [done |]. rewrite Hcl.
by apply (GameBoard.board_without_active_player _ me).
Qed.
End AppFlow.

(** Witness: a reveal page shown since time 0 receives a [TIMEOUT_UPDATE]
    at 4000 ms; at 6000 ms it is still shown. *)
Module AppFlowWitnesses.
Local Open Scope string_scope.

Definition revealing : AppFlow.t :=
AppFlow.receive 0 (GAME_STARTING artist (Some "cat") ["a"; "b"; "c"] [] DEFAULT_SETTINGS)
(AppFlow.render 0 (AppFlow.mk (Client.set_playerId (Some "a") (Client.set_roomCode (Some "AAAA") Client.initial))
        false true None 0)).

Lemma reveal_restarts_on_message_witness :
AppFlow.page (AppFlow.tick 6000 (AppFlow.receive 4000 (TIMEOUT_UPDATE []) revealing)) = App.RoleRevealPage <->
(6000 < 4000 + ROLE_REVEAL_DURATION)%Z.
Proof. apply AppFlow.reveal_restarts_on_message. vm_compute. reflexivity. Defined.
End AppFlowWitnesses.
