(* ===== verification/Views.v ===== *)
(** * Views: what the remaining components show

    - [Clock]: the [m:ss] countdown text of [pages/Voting.tsx] (line 41)
      and [pages/ImposterGuess.tsx] (line 53),
      [Math.floor(t / 60)] and [String(t % 60).padStart(2, '0')], with a
      reader for it: the text is minutes, a colon and two digits, and reads
      back as the seconds left.
    - [TimerView]: what [components/Timer.tsx] shows (the label, the
      seconds, the colour and the percentage), over the states its interval
      goes through ([trace]): with a clock that does not go back, it shows
      [0] exactly when [onComplete] has been called, and neither the
      seconds nor the colour ever go back.
    - [VotingView], [ImposterGuessView]: the countdowns and texts of the
      two pages, over the page states of [ClientUI].
    - [PlayerList]: the rows of [components/PlayerList.tsx], and the lobby's
      list built from it.
    - [CanvasView]: the props the [Canvas] component hands to [useCanvas]
      and the attributes of its element.
    - [AppView]: App's error banner and fallback page.

    Numbers are JavaScript's only where the code computes with integers
    (seconds, counts); the percentage is a rational. *)

From Stdlib Require Import ZArith QArith Lia Ascii Sorting.Sorted.
From S2P Require Import Prelude Types ClientState Canvas ClientUI AppFlow.

Local Open Scope string_scope.

Module Clock.
(** [{Math.floor(t / 60)}:{String(t % 60).padStart(2, '0')}]; JavaScript's
[%] keeps the sign of [t], as [Z.rem] does. *)
Definition text (t : Z) : string :=
js_string_of_Z (t / 60) ++ ":" ++ padStart 2 "0"%char (js_string_of_Z (Z.rem t 60)).

(** Splitting a text at its first colon. *)
Fixpoint split_colon (s : string) : option (string * string) :=
match s with
| EmptyString => None
| String c s' =>
if Ascii.eqb c ":"%char then Some ("", s')
else (fun '(a, b) => (String c a, b)) <$> split_colon s'
end.

(** Reading a clock text back as a number of seconds. *)
Definition parse (s : string) : option Z :=
'(m, ss) ← split_colon s;
m' ← parse_Z m;
ss' ← parse_Z ss;
Some (60 * m' + ss')%Z.

Definition seconds_field (r : Z) : string := padStart 2 "0"%char (js_string_of_Z r).

Lemma digit_not_colon c : is_digit c = true -> Ascii.eqb c ":"%char = false.
Proof. destruct (Ascii.eqb_spec c ":"%char); [intros; subst; done | done]. Qed.

Lemma split_colon_app a b :
forallb is_digit (String.list_ascii_of_string a) = true ->
split_colon (a ++ ":" ++ b) = Some (a, b).
Proof.
induction a as [|c a IH]; cbn; [done |].
intros [Hc Ha]%andb_prop. simpl. by rewrite digit_not_colon, IH.
Qed.

(** The sixty seconds fields, checked by evaluation. *)
Lemma seconds_field_spec r :
(0 <= r < 60)%Z ->
String.length (seconds_field r) = 2%nat /\
forallb is_digit (String.list_ascii_of_string (seconds_field r)) = true /\
parse_Z (seconds_field r) = Some r.
Proof.
intros Hr.
assert (Hall : Forall (fun k : nat =>
String.length (seconds_field (Z.of_nat k)) = 2%nat /\
forallb is_digit (String.list_ascii_of_string (seconds_field (Z.of_nat k))) = true /\
parse_Z (seconds_field (Z.of_nat k)) = Some (Z.of_nat k)) (seq 0 60)) by decide_by_eval.
rewrite Forall_forall in Hall. specialize (Hall (Z.to_nat r)).
rewrite Z2Nat.id in Hall by lia. apply Hall, list_elem_of_In, in_seq. lia.
Qed.

Lemma rem_60_bounds t : (0 <= t)%Z -> (0 <= Z.rem t 60 < 60)%Z.
Proof. intros Ht. rewrite Z.rem_mod_nonneg by lia. apply Z.mod_pos_bound. lia. Qed.

(** C24: The countdown of the voting and guessing pages shows, for any
number of seconds left, minutes, a colon and exactly two digits, and the
text reads back as that number of seconds. *)
Theorem clock_text_roundtrip t :
(0 <= t)%Z ->
exists m ss, text t = m ++ ":" ++ ss /\ String.length ss = 2%nat /\
forallb is_digit (String.list_ascii_of_string m) = true /\
forallb is_digit (String.list_ascii_of_string ss) = true /\
parse (text t) = Some t.
Proof.
intros Ht. pose proof (rem_60_bounds t Ht) as Hr.
destruct (seconds_field_spec _ Hr) as (Hlen & Hdig & Hparse).
exists (js_string_of_Z (t / 60)), (seconds_field (Z.rem t 60)).
assert (Hm : forallb is_digit (String.list_ascii_of_string (js_string_of_Z (t / 60))) = true)
by (apply js_string_of_Z_digits; apply Z.div_pos; lia).
split_and!; try done.
unfold parse, text. fold (seconds_field (Z.rem t 60)).
rewrite split_colon_app by done. cbn. rewrite parse_js_string_of_Z. cbn. rewrite Hparse. cbn.
f_equal. rewrite Z.rem_mod_nonneg by lia. pose proof (Z.div_mod t 60). lia.
Qed.
End Clock.

(** [Sorted] carries over to the image of a map whose pairs keep the order. *)
Lemma Sorted_map_impl {A B} (R : A -> A -> Prop) (R' : B -> B -> Prop) (f : A -> B) l :
  (forall a b, R a b -> R' (f a) (f b)) -> Sorted R l -> Sorted R' (map f l).
Proof.
  intros Himpl Hs. induction Hs as [|a l Hs IH Hd]; cbn; constructor; [done |].
  destruct Hd; constructor. by apply Himpl.
Qed.

Module TimerView.
(** What the timer shows (Timer.tsx 48-122): the label, [seconds] in the
centre, the colour of the ring and the bar, and the bar's
[percentage]. Division by a zero [duration] gives [0] in [Q] and [NaN]
in JavaScript; the board mounts the timer with [drawTimeLimit * 1000]. *)
Record view := mk_view {
labelText : option string;
secondsText : string;
shade : Timer.colour;
percentage : Q
}.

(** [(remaining / duration) * 100] *)
Definition percentage_of (s : Timer.t) : Q :=
(inject_Z (Timer.remaining s) / inject_Z (Timer.duration s) * 100)%Q.

Definition render (label : option string) (s : Timer.t) : view :=
mk_view (truthy_string label) (js_string_of_Z (Timer.seconds s)) (Timer.color s) (percentage_of s).

(** The states the interval's ticks go through. *)
Fixpoint trace (times : list Z) (s : Timer.t) : list Timer.t :=
match times with
| [] => []
| now :: times' => let s1 := (Timer.tick now s).1 in s1 :: trace times' s1
end.

(** The timer as mounted, then after each tick. *)
Definition trace_from (d start : Z) (times : list Z) : list Timer.t :=
Timer.mount d start :: trace times (Timer.mount d start).

(** Green, then yellow, then red. *)
Definition rank (c : Timer.colour) : nat :=
match c with Timer.green => 0 | Timer.yellow => 1 | Timer.red => 2 end.

Definition colour_le (c1 c2 : Timer.colour) : Prop := (rank c1 <= rank c2)%nat.

#[global] Instance colour_le_dec : RelDecision colour_le.
Proof. intros c1 c2. unfold colour_le. apply _. Defined.

#[global] Instance colour_le_PreOrder : PreOrder colour_le.
Proof. unfold colour_le. split; [intros ?; lia | intros ???; lia]. Qed.

(** The state agrees with a tick at time [last]: the time left counted
from the start, and [completedRef] set exactly when none is left. *)
Definition at_time (last : Z) (s : Timer.t) : Prop :=
Timer.remaining s = Z.max 0 (Timer.duration s - (last - Timer.startTime s)) /\
(Timer.completed s = true <-> Timer.remaining s = 0%Z).

Lemma tick_remaining now s :
Timer.remaining (Timer.tick now s).1 = Z.max 0 (Timer.duration s - (now - Timer.startTime s)).
Proof. unfold Timer.tick. by case_match. Qed.

Lemma mount_at_time d now : (0 < d)%Z -> at_time now (Timer.mount d now).
Proof. intros Hd. unfold at_time; cbn. split; [lia | split; [done | lia]]. Qed.

Lemma tick_at_time last now s :
(last <= now)%Z -> at_time last s -> at_time now (Timer.tick now s).1.
Proof.
intros Hle [Hr Hc]. destruct (Timer.tick_fields now s) as (Hd & Hst & Hc1 & _).
unfold at_time. rewrite Hd, Hst, Hc1, tick_remaining. split; [done |].
destruct (Timer.completed s); cbn.
- destruct Hc as [Hc _]. specialize (Hc eq_refl). split; [lia | done].
- case_bool_decide; split; intros; try done; lia.
Qed.

#[export] Hint Resolve mount_at_time tick_at_time : loki.

(** Along a clock that does not go back, the time left never grows and
the duration stays. *)
Lemma trace_sorted times last s :
Sorted Z.le (last :: times) -> at_time last s ->
Sorted (fun a b => Timer.duration b = Timer.duration a /\ (Timer.remaining b <= Timer.remaining a)%Z)
(s :: trace times s).
Proof.
revert last s. induction times as [|now times IH]; intros last s Hs Ha; cbn; [by repeat constructor |].
apply Sorted_inv in Hs as [Hs Hd]. apply HdRel_inv in Hd.
constructor; [apply (IH now); eauto with loki |].
constructor. destruct (Timer.tick_fields now s) as (Hdur & _).
split; [done |]. rewrite tick_remaining. destruct Ha as [Hr _]. lia.
Qed.

(** Every state on the trace agrees with some tick time after [last]. *)
Lemma trace_at_time times last s :
Sorted Z.le (last :: times) -> at_time last s ->
Forall (fun s' => Timer.duration s' = Timer.duration s /\ Timer.startTime s' = Timer.startTime s /\
          exists t, (last <= t)%Z /\ at_time t s') (s :: trace times s).
Proof.
revert last s. induction times as [|now times IH]; intros last s Hs Ha;
(constructor; [split_and!; [done | done | exists last; split; [lia | done]] |]); [done |].
apply Sorted_inv in Hs as [Hs Hd]. apply HdRel_inv in Hd. cbn.
destruct (Timer.tick_fields now s) as (Hdur & Hst & _).
specialize (IH now _ Hs (tick_at_time last now s Hd Ha)).
eapply Forall_impl; [exact IH |]. intros s' (H1 & H2 & t & Ht & Hat).
split_and!; [congruence | congruence | exists t; split; [lia | done]].
Qed.

Lemma seconds_zero_iff s : (0 <= Timer.remaining s)%Z -> Timer.seconds s = 0%Z <-> Timer.remaining s = 0%Z.
Proof. intros Hr. unfold Timer.seconds. rewrite Z.div_small_iff by lia. lia. Qed.

Lemma seconds_mono s s' :
(Timer.remaining s' <= Timer.remaining s)%Z -> (Timer.seconds s' <= Timer.seconds s)%Z.
Proof. intros Hr. unfold Timer.seconds. apply Z.div_le_mono; lia. Qed.

Lemma color_mono s s' :
Timer.duration s' = Timer.duration s -> (Timer.remaining s' <= Timer.remaining s)%Z ->
colour_le (Timer.color s) (Timer.color s').
Proof.
intros Hd Hr. unfold colour_le, Timer.color. rewrite Hd.
repeat case_bool_decide; cbn; lia.
Qed.

(** C25: With a positive duration and a clock that does not go back, every
state the timer shows, from its mount on, has between 0 and [duration]
milliseconds left and shows the text "0" exactly when it has called
[onComplete]. *)
Theorem timer_shows_zero_iff_completed label d start times :
(0 < d)%Z -> Sorted Z.le (start :: times) ->
Forall (fun s => (0 <= Timer.remaining s <= d)%Z /\
         (secondsText (render label s) = "0" <-> Timer.completed s = true))
(trace_from d start times).
Proof.
intros Hd Hs. unfold trace_from.
eapply Forall_impl; [apply (trace_at_time times start); eauto with loki |].
cbn. intros s (Hdur & Hst & t & Ht & Hr & Hc).
assert (Hb : (0 <= Timer.remaining s <= d)%Z) by lia.
split; [done |]. cbn. rewrite Hc, <- seconds_zero_iff by lia.
change "0" with (js_string_of_Z 0). split; [apply js_string_of_Z_inj | intros ->; done].
Qed.

(** C26: With a clock that does not go back, the seconds the timer shows
never go up and its colour only goes from green to yellow to red. *)
Theorem timer_countdown_monotone d start times :
(0 < d)%Z -> Sorted Z.le (start :: times) ->
Sorted (fun a b => (b <= a)%Z) (map Timer.seconds (trace_from d start times)) /\
Sorted colour_le (map Timer.color (trace_from d start times)).
Proof.
intros Hd Hs. pose proof (trace_sorted times start (Timer.mount d start) Hs (mount_at_time d start Hd)) as Ht.
split; eapply Sorted_map_impl; try exact Ht; cbn; intros a b [Hab Hr].
- by apply seconds_mono.
- by apply color_mono.
Qed.
End TimerView.

Module VotingView.
(** The page's countdown (Voting.tsx 14-22): [VOTING_DURATION / 1000]
seconds, one less each second and never below 0; it only displays. *)
Definition countdown_start : Z := VOTING_DURATION / 1000.

Definition countdown_tick (t : Z) : Z := Z.max 0 (t - 1).

(** One vote button: the player, whether it is enabled, whether it is
marked as the one voted for. *)
Record button := mk_button { button_player : PlayerData.t; enabled : bool; selected : bool }.

(** What the page shows (Voting.tsx 31-94). *)
Record view := mk_view {
clockText : string;
votesCast : nat;            (** [{votesCast}/{totalPlayers} votes cast] *)
totalPlayers : nat;
voteCastBanner : bool;      (** "Vote cast!" *)
buttons : list button
}.

Definition render (players : list PlayerData.t) (currentPlayerId : string) (votedPlayerIds : list string)
(u : Voting.ui) (timeRemaining : Z) : view :=
mk_view (Clock.text timeRemaining) (length votedPlayerIds) (length players) (Voting.hasVoted u)
(map (fun p => mk_button p (negb (Voting.hasVoted u))
           (Voting.hasVoted u && bool_decide (Voting.selectedPlayerId u = Some (PlayerData.id p))))
(Voting.votablePlayers players currentPlayerId)).

Lemma countdown_after k : Nat.iter k countdown_tick countdown_start = Z.max 0 (30 - Z.of_nat k).
Proof.
induction k as [|k IH]; [done |]. rewrite Nat.iter_succ, IH. unfold countdown_tick. lia.
Qed.

(** From the thirtieth second on, the page shows "0:00". *)
Lemma countdown_expired k : (30 <= k)%nat -> Clock.text (Nat.iter k countdown_tick countdown_start) = "0:00".
Proof. intros Hk. rewrite countdown_after. by replace (Z.max 0 (30 - Z.of_nat k)) with 0%Z by lia. Qed.

Lemma click_all_first p rest u :
Voting.hasVoted u = false ->
Voting.hasVoted (Voting.click_all (p :: rest) u).1 = true /\
Voting.selectedPlayerId (Voting.click_all (p :: rest) u).1 = Some p.
Proof.
intros Hu.
assert (Hkeep : forall clicks u0 o0, Voting.hasVoted u0 = true ->
(foldl (fun (acc : Voting.ui * list ClientMessage) q =>
let '(u', out) := Voting.handleVote q acc.1 in (u', (acc.2 ++ out)%list)) (u0, o0) clicks).1 = u0).
{ induction clicks as [|q clicks IH]; intros u0 o0 Hu0; [done |]. cbn [foldl fst snd].
destruct (Voting.handleVote q u0) as [u1 o1] eqn:Hh. unfold Voting.handleVote in Hh.
rewrite Hu0 in Hh. injection Hh as <- <-. by apply IH. }
unfold Voting.click_all. cbn [foldl fst snd].
destruct (Voting.handleVote p u) as [u1 o1] eqn:Hh. unfold Voting.handleVote in Hh.
rewrite Hu in Hh. rewrite Hkeep; [| destruct (Voting.appHasVoted u); by injection Hh as <- <-].
destruct (Voting.appHasVoted u); by injection Hh as <- <-.
Qed.

(** After the first click, the banner shows, every button is disabled and
the buttons marked are those of the player clicked first. *)
Lemma view_after_clicks players me voted p rest t :
let v := render players me voted (Voting.click_all (p :: rest) Voting.enter).1 t in
voteCastBanner v = true /\ Forall (fun b => enabled b = false) (buttons v) /\
map button_player (filter (fun b => selected b = true) (buttons v)) =
filter (fun q => PlayerData.id q = p) (Voting.votablePlayers players me).
Proof.
destruct (click_all_first p rest Voting.enter eq_refl) as [Hv Hs]. cbn zeta. unfold render; cbn [voteCastBanner buttons].
rewrite Hv, Hs. split_and!; [done | apply Forall_forall; intros b (q & -> & _)%list_elem_of_fmap; done |].
generalize (Voting.votablePlayers players me) as l. induction l as [|q l IH]; [done |]. cbn.
repeat case_decide; repeat case_bool_decide; simplify_eq/=; try congruence; first [exact IH | f_equal; exact IH].
Qed.
End VotingView.

Module ImposterGuessView.
Import ImposterGuess.

(** What the page shows (ImposterGuess.tsx 39-98): the countdown, the
input and its button (enabled once the trimmed guess is not empty)
until a guess is submitted, then "Guess submitted!". *)
Record view := mk_view { clockText : string; inputShown : bool; submitEnabled : bool; submittedBanner : bool }.

Definition render (p : page) : view :=
mk_view (Clock.text (timeRemaining p)) (negb (hasSubmitted p))
(negb (hasSubmitted p) && bool_decide (trim (guess p) <> "")) (hasSubmitted p).

(** The page's flag and the one its interval captured agree. *)
Definition flags_agree (p : page) : Prop := hasSubmitted p = cap_submitted p.

Lemma step_flags e p :
flags_agree p ->
flags_agree (step e p).1 /\
(hasSubmitted p = true -> hasSubmitted (step e p).1 = true /\ (step e p).2 = []) /\
(hasSubmitted p = false -> length (step e p).2 = Nat.b2n (hasSubmitted (step e p).1)).
Proof.
unfold flags_agree. destruct p as [g hs tr cg cs]; cbn. intros <-.
destruct hs, e; cbn; unfold handleSubmit;
repeat (case_match || case_decide || case_bool_decide); cbn; intuition congruence.
Qed.

(** Over any events, a page whose flags agree sends at most one guess,
and sends one exactly when it ends up submitted. *)
Lemma run_stays evs q :
flags_agree q -> hasSubmitted q = true ->
hasSubmitted (run evs q).1 = true /\ (run evs q).2 = [].
Proof.
revert q. induction evs as [|e evs IH]; intros q Hq Hs; [done |].
rewrite run_cons. cbn [fst snd]. destruct (step_flags e q Hq) as (Hq' & Hdone & _).
destruct (Hdone Hs) as [Hs' ->]. destruct (IH _ Hq' Hs') as [-> ->]. done.
Qed.

Lemma run_sent evs p :
flags_agree p -> hasSubmitted p = false ->
length (run evs p).2 = Nat.b2n (hasSubmitted (run evs p).1).
Proof.
revert p. induction evs as [|e evs IH]; intros p Hf Hs; [by cbn; rewrite Hs |].
rewrite run_cons. cbn [fst snd]. rewrite length_app.
destruct (step_flags e p Hf) as (Hf' & _ & Hfresh). rewrite (Hfresh Hs).
destruct (hasSubmitted (step e p).1) eqn:Hs'.
- destruct (run_stays evs _ Hf' Hs') as [-> ->]. cbn. lia.
- cbn. by apply IH.
Qed.

(** From the mount, the page shows "Guess submitted!" exactly when it has
sent one guess, and it never sends two. *)
Lemma banner_iff_sent T evs :
(submittedBanner (render (run evs (mount T)).1) = true <-> length (run evs (mount T)).2 = 1%nat) /\
(length (run evs (mount T)).2 <= 1)%nat.
Proof.
rewrite (run_sent evs (mount T)) by done. cbn. destruct (hasSubmitted _); cbn; split; try done; lia.
Qed.
End ImposterGuessView.

Module CanvasView.
(** [CanvasProps] (Canvas.tsx 5-11); [onStrokeComplete] is the stroke the
hook emits. *)
Record props := mk_props { color : string; brushSize : Z; enabled : bool; strokes : list Stroke.t }.

(** The options the component hands to [useCanvas] (Canvas.tsx 13-25). *)
Definition hook_options (p : props) : Canvas.options := Canvas.mk_options (color p) (brushSize p) (enabled p).

(** The attributes of the element (Canvas.tsx 54-78): the wrapper's
[data-testid] and the canvas's cursor. *)
Record element_view := mk_element_view { testid : option string; cursor : string }.

Definition render (p : props) : element_view :=
mk_element_view (if enabled p then Some "canvas-active" else None)
        (if enabled p then "crosshair" else "default").

(** The board's canvas is marked [canvas-active] on the drawer's board only. *)
Lemma board_canvas_active s ss :
testid (render (mk_props (Canvas.color (GameBoard.canvas_options s)) (Canvas.brushSize (GameBoard.canvas_options s))
                 (Canvas.enabled (GameBoard.canvas_options s)) ss)) = Some "canvas-active" <->
GameBoard.isMyTurn s = true.
Proof. unfold render, GameBoard.canvas_options. cbn. destruct (GameBoard.isMyTurn s); cbn; by split. Qed.
End CanvasView.

Module AppView.
(** [renderError()] (App.tsx 57-82): a fixed banner over every page while
[state.error] is a non-empty string. *)
Definition renderError (s : Client.t) : option string := truthy_string (Client.error s).

(** What App renders (App.tsx 180-207): the banner, the page, and the
fallback's connection line. *)
Record view := mk_view { errorBanner : option string; page : App.page; fallbackText : option string }.

Definition render (s : Client.t) (showRoleReveal connected : bool) : view :=
let pg := App.renderPage s showRoleReveal in
mk_view (renderError s) pg
(match pg with App.ConnectingPage => Some (if connected then "Connected" else "Connecting...") | _ => None end).

(** The messages whose case in the reducer does not touch [error]. *)
Definition keeps_error (m : ServerMessage) : bool :=
match m with
| GAME_CREATED _ _ | PLAYER_JOINED _ _ | GAME_STARTING _ _ _ _ _ | ERROR _ => false
| _ => true
end.

Lemma handleMessage_keeps_error m s :
keeps_error m = true -> Client.error (Client.handleMessage m s).1 = Client.error s.
Proof. destruct m; cbn; try done; by repeat case_match. Qed.

Lemma receive_all_keeps_error msgs s :
Forall (fun m => keeps_error m = true) msgs -> Client.error (Client.receive_all msgs s) = Client.error s.
Proof.
unfold Client.receive_all. revert s. induction msgs as [|m msgs IH]; intros s Hall; [done |].
apply Forall_cons in Hall as [Hm Hall]. cbn [foldl]. rewrite IH by done. by apply handleMessage_keeps_error.
Qed.

(** C16: Once the server has sent an ERROR to a client that has a player id,
App shows the message in its banner over every page, whatever the
phase, through every later message but GAME_CREATED, PLAYER_JOINED,
GAME_STARTING or another ERROR: voting, the guess and the scoreboard
included. *)
Theorem error_banner_sticks m msgs s showRoleReveal connected :
m <> "" -> is_Some (truthy_string (Client.playerId s)) ->
Forall (fun x => keeps_error x = true) msgs ->
errorBanner (render (Client.receive_all (ERROR m :: msgs) s) showRoleReveal connected) = Some m.
Proof.
intros Hm [pid Hpid] Hall. unfold render, renderError. cbn [errorBanner].
change (Client.receive_all (ERROR m :: msgs) s) with (Client.receive_all msgs (Client.handleMessage (ERROR m) s).1).
rewrite receive_all_keeps_error by done. cbn. rewrite Hpid. cbn. by case_decide.
Qed.
End AppView.

(** Witnesses: a clock at 75 seconds; a one-second timer ticking at 0.5 s,
    1 s and 1.2 s; and the board's error banner kept through a vote and the
    round's result. *)
Module ViewsWitnesses.

Lemma clock_text_roundtrip_witness :
Clock.text 75 = "1:15" /\ exists m ss, Clock.text 75 = m ++ ":" ++ ss /\ String.length ss = 2%nat /\
forallb is_digit (String.list_ascii_of_string m) = true /\
forallb is_digit (String.list_ascii_of_string ss) = true /\ Clock.parse (Clock.text 75) = Some 75%Z.
Proof. split; [vm_compute; reflexivity | apply Clock.clock_text_roundtrip; lia]. Defined.

Definition ticks : list Z := [500; 1000; 1200]%Z.

Lemma ticks_sorted : Sorted Z.le (0%Z :: ticks).
Proof. repeat constructor; cbn; lia. Qed.

Lemma timer_shows_zero_iff_completed_witness :
map Timer.completed (TimerView.trace_from 1000 0 ticks) = [false; false; true; true] /\
Forall (fun s => (0 <= Timer.remaining s <= 1000)%Z /\
(TimerView.secondsText (TimerView.render (Some "Time Remaining") s) = "0" <-> Timer.completed s = true))
(TimerView.trace_from 1000 0 ticks).
Proof.
split; [vm_compute; reflexivity |].
apply TimerView.timer_shows_zero_iff_completed; [lia | exact ticks_sorted].
Defined.

Lemma timer_countdown_monotone_witness :
map Timer.color (TimerView.trace_from 1000 0 ticks) = [Timer.green; Timer.yellow; Timer.red; Timer.red] /\
Sorted (fun a b => (b <= a)%Z) (map Timer.seconds (TimerView.trace_from 1000 0 ticks)) /\
Sorted TimerView.colour_le (map Timer.color (TimerView.trace_from 1000 0 ticks)).
Proof.
split; [vm_compute; reflexivity |].
apply TimerView.timer_countdown_monotone; [lia | exact ticks_sorted].
Defined.

Definition drawer : Client.t :=
Client.set_phase DRAWING (Client.set_roomCode (Some "ABCD") (Client.set_playerId (Some "p1") Client.initial)).

Definition after_error : list ServerMessage :=
[VOTING_START []; VOTE_CAST "p1"; VOTE_CAST "p2"; IMPOSTER_GUESS_PHASE "p2"].

Lemma error_banner_sticks_witness :
AppView.page (AppView.render (Client.receive_all (ERROR "Not your turn" :: after_error) drawer) false true) = App.WaitingForGuessPage /\
AppView.errorBanner (AppView.render (Client.receive_all (ERROR "Not your turn" :: after_error) drawer) false true) = Some "Not your turn".
Proof.
split; [vm_compute; reflexivity |].
apply AppView.error_banner_sticks; [done | vm_compute; eexists; reflexivity | repeat constructor].
Defined.
End ViewsWitnesses.
