(* ===== verification/Socket.v ===== *)
(** * Socket: the connection hook of [src/client/src/hooks/useWebSocket.ts]

    The hook keeps, in refs, the current [WebSocket] ([wsRef]) with its
    [readyState], the URL to reconnect to ([urlRef]), the retry counter
    ([retriesRef]), whether a reconnection [setTimeout] is pending
    ([reconnectTimeoutRef]) and the messages queued while connecting
    ([pendingMessagesRef]).  A socket is a number; [cleanup] detaches the
    handlers of the current socket and closes it, so later events of a
    detached socket reach no handler.  [ws.send] is recorded in [wire].

    The events are the browser's: a socket opens, closes or fails, the
    reconnection timer fires, a message arrives ([on_message]: only the
    current socket delivers, and only a message [JSON.parse] accepts); the
    calls are [connect], [disconnect], [send] and the unmount. *)

From Stdlib Require Import ZArith Lia.
From S2P Require Import Prelude Types.

Module Socket.

Inductive readyState := CONNECTING | OPEN | CLOSING | CLOSED.

#[export] Instance readyState_eq_dec : EqDecision readyState.
Proof. solve_decision. Defined.

Definition MAX_RETRIES : nat := 5.
Definition RECONNECT_DELAY : Z := 2000.

Record t := mk {
connected : bool;
wsRef : option (nat * readyState);
urlRef : option string;
retries : nat;
reconnectPending : bool;
pending : list ClientMessage;
next_socket : nat;
wire : list (nat * ClientMessage)
}.

Definition initial : t := mk false None None 0 false [] 0 [].

(** [cleanup()]: [clearTimeout], then detach and close the socket. *)
Definition cleanup (h : t) : t :=
mk (connected h) None (urlRef h) (retries h) false (pending h) (next_socket h) (wire h).

(** [connect(url)]: a new socket, [CONNECTING], with handlers attached. *)
Definition connect (url : string) (h : t) : t :=
let h := cleanup h in
mk (connected h) (Some (next_socket h, CONNECTING)) (Some url) 0 (reconnectPending h)
(pending h) (S (next_socket h)) (wire h).

(** [ws.onopen]: flush the queue in order. *)
Definition on_open (ws : nat) (h : t) : t :=
match wsRef h with
| Some (w, _) =>
if decide (w = ws)
then mk true (Some (w, OPEN)) (urlRef h) 0 (reconnectPending h) []
(next_socket h) (wire h ++ map (fun m => (w, m)) (pending h))
else h
| None => h
end.

(** [ws.onclose]: schedule a reconnection while [retries < MAX_RETRIES]. *)
Definition on_close (ws : nat) (h : t) : t :=
match wsRef h with
| Some (w, _) =>
if decide (w = ws) then
let retry := bool_decide (retries h < MAX_RETRIES) && bool_decide (is_Some (truthy_string (urlRef h))) in
mk false (Some (w, CLOSED)) (urlRef h) (if retry then S (retries h) else retries h)
(if retry then true else reconnectPending h) (pending h) (next_socket h) (wire h)
else h
| None => h
end.

(** [ws.onerror] *)
Definition on_error (ws : nat) (h : t) : t :=
match wsRef h with
| Some (w, st) =>
if decide (w = ws)
then mk false (Some (w, st)) (urlRef h) (retries h) (reconnectPending h) (pending h)
(next_socket h) (wire h)
else h
| None => h
end.

(** The reconnection callback: [if (urlRef.current) connect(urlRef.current)]. *)
Definition fire_reconnect (h : t) : t :=
if reconnectPending h then
let h := mk (connected h) (wsRef h) (urlRef h) (retries h) false (pending h) (next_socket h) (wire h) in
match truthy_string (urlRef h) with
| Some u => connect u h
| None => h
end
else h.

(** [disconnect()] *)
Definition disconnect (h : t) : t :=
let h := cleanup (mk (connected h) (wsRef h) None (retries h) (reconnectPending h) (pending h)
 (next_socket h) (wire h)) in
mk false (wsRef h) (urlRef h) (retries h) (reconnectPending h) (pending h) (next_socket h) (wire h).

(** [send(message)]: written when open, queued while connecting, dropped
otherwise. *)
Definition send (m : ClientMessage) (h : t) : t :=
match wsRef h with
| Some (w, OPEN) => mk (connected h) (wsRef h) (urlRef h) (retries h) (reconnectPending h) (pending h)
   (next_socket h) (wire h ++ [(w, m)])
| Some (w, CONNECTING) => mk (connected h) (wsRef h) (urlRef h) (retries h) (reconnectPending h)
         (pending h ++ [m]) (next_socket h) (wire h)
| _ => h
end.

Definition current (h : t) : option nat := fst <$> wsRef h.

(** A connection attempt that fails: the current socket closes and the
reconnection timer fires. *)
Definition failed_attempt (h : t) : t :=
match current h with
| Some w => fire_reconnect (on_close w h)
| None => h
end.

(** [ws.onmessage] of socket [ws] (lines 73-82), with [data = None] when
[JSON.parse] throws (the error is only logged): the message reaches the
handler [onMessage] registered in [messageHandlerRef] (lines 101-103),
when there is one.  [cleanup] set the handlers of every earlier socket to
[null], so only the current socket delivers. *)
Definition on_message (ws : nat) (data : option ServerMessage) (handlerSet : bool) (h : t) : option ServerMessage :=
match current h with
| Some w => if decide (w = ws) then (if handlerSet then data else None) else None
| None => None
end.

(** The effect's cleanup when the hook unmounts (lines 105-109). *)
Definition unmount (h : t) : t := cleanup h.

(** A socket other than the current one delivers nothing. *)
Lemma on_message_detached ws data b h : current h <> Some ws -> on_message ws data b h = None.
Proof. unfold on_message. destruct (current h) as [w|]; [case_decide; congruence | done]. Qed.

(** After [disconnect] or an unmount no socket delivers a message. *)
Lemma closed_hook_silent ws data b h :
on_message ws data b (disconnect h) = None /\ on_message ws data b (unmount h) = None.
Proof. done. Qed.

(** A new connection drops the messages of every earlier socket. *)
Lemma connect_drops_old ws data b u h :
(ws < next_socket h)%nat -> on_message ws data b (connect u h) = None.
Proof. intros Hw. apply on_message_detached. unfold connect, cleanup, current; cbn. intros [= Heq]. lia. Qed.

(** ** Reconnection *)

(** A hook connecting to [u], with the retry counter back at zero. *)
Definition connecting_to (u : string) (h : t) : Prop :=
(exists w, wsRef h = Some (w, CONNECTING)) /\ urlRef h = Some u /\ retries h = 0.

Lemma connect_connecting u h : connecting_to u (connect u h).
Proof. unfold connecting_to. simpl. split; [by eexists | done]. Qed.

Lemma failed_attempt_connecting u h :
u <> "" -> connecting_to u h -> connecting_to u (failed_attempt h).
Proof.
intros Hu ((w & Hw) & Hurl & Hr). unfold failed_attempt, current. rewrite Hw. simpl.
unfold on_close. rewrite Hw, decide_True, Hurl, Hr by done.
unfold fire_reconnect. simpl. destruct (decide (u = "")) as [->|_]; [done |].
apply connect_connecting.
Qed.

(** C9: [connect] resets the retry counter and the reconnection callback
calls [connect]: after any number of failed attempts the hook is
connecting again with the counter at zero, so [MAX_RETRIES] never
stops the reconnection loop. *)
Theorem reconnect_never_stops (u : string) (h : t) (k : nat) :
u <> "" -> connecting_to u (Nat.iter k failed_attempt (connect u h)).
Proof.
intros Hu. induction k as [|k IH]; [apply connect_connecting |].
apply (failed_attempt_connecting u _ Hu IH).
Qed.

(** ** The queue of a connecting socket *)

Lemma send_connecting m h w :
wsRef h = Some (w, CONNECTING) ->
send m h = mk (connected h) (wsRef h) (urlRef h) (retries h) (reconnectPending h)
(pending h ++ [m]) (next_socket h) (wire h).
Proof. intros Hw. unfold send. by rewrite Hw. Qed.

Lemma send_all_connecting ms h w :
wsRef h = Some (w, CONNECTING) ->
foldl (fun h m => send m h) h ms =
mk (connected h) (wsRef h) (urlRef h) (retries h) (reconnectPending h)
(pending h ++ ms) (next_socket h) (wire h).
Proof.
revert h. induction ms as [|m ms IH]; intros h Hw; simpl.
- rewrite app_nil_r. by destruct h.
- rewrite send_connecting with (w := w) by done. rewrite IH by done. simpl. by rewrite <- app_assoc.
Qed.

(** C31: messages sent while the socket is connecting are queued and, when
it opens, written to it in the order they were sent, after the
messages queued before; the queue is then empty. *)
Theorem connecting_queue_flushed (h : t) (w : nat) (ms : list ClientMessage) :
wsRef h = Some (w, CONNECTING) ->
let h' := on_open w (foldl (fun h m => send m h) h ms) in
wire h' = wire h ++ map (fun m => (w, m)) (pending h ++ ms) /\ pending h' = [] /\
wsRef h' = Some (w, OPEN) /\ connected h' = true.
Proof.
intros Hw. cbv zeta. rewrite (send_all_connecting ms h w Hw). unfold on_open. simpl.
rewrite Hw, decide_True by done. done.
Qed.
End Socket.

(** Witnesses: a hook on a fresh page. *)
Module SocketWitnesses.
Import Socket.
Local Open Scope string_scope.

Lemma reconnect_never_stops_witness :
connecting_to "ws://host" (Nat.iter 7 failed_attempt (connect "ws://host" initial)).
Proof. apply reconnect_never_stops. discriminate. Defined.

Lemma connecting_queue_flushed_witness :
let h' := on_open 0 (foldl (fun h m => send m h) (connect "ws://host" initial) [CREATE_GAME "Ann"; PLAYER_READY]) in
(wire h' = wire (connect "ws://host" initial) ++
map (fun m => (0, m)) (pending (connect "ws://host" initial) ++ [CREATE_GAME "Ann"; PLAYER_READY]))%list /\
pending h' = [] /\ wsRef h' = Some (0, OPEN) /\ connected h' = true.
Proof. apply connecting_queue_flushed. reflexivity. Defined.
End SocketWitnesses.
