(* ===== verification/ClientServer.v ===== *)
(** * ClientServer: the client against the server

    The theorems of this file compose the models of both sides: what the
    pages of the client send is what the server's handlers look up, and
    what the server broadcasts leaves the client's copy of the room equal
    to the server's.

    - The room code a player types is the code [GameRoom.generateRoomCode]
      drew ([Home.tsx], [useGame.ts] [joinGame]).
    - After [ROUND_RESULT], the players of the client are the serialised
      players of the scored room ([useGame.ts] 114-122 against
      [GameRoom.calculateScores] and [getPlayerList]), and the scoreboard
      declares the game over exactly when the server's [NEXT_ROUND]
      refuses ([Scoreboard.tsx] 24-26 against [messages.ts] 282-287).
    - A connection the server has not bound to a player, as a reconnected
      socket of [useWebSocket.ts] is, has every message but
      [CREATE_GAME] and a [JOIN_GAME] of an existing room ignored, without
      a reply ([index.ts] 60 and the [if (!playerId) return {}] guards of
      [messages.ts]).
    - The pages' actions are accepted by the room: the lobby's start button
      and settings, the vote buttons; the imposter page's timeout sends the
      empty guess.
    - The drawing timer completes once and does nothing, and no server
      path sends [TURN_TIMEOUT] ([sends_only] over [not_turn_timeout]).
    - A connection that never sends, as the spectator page's, is never
      written to: the handlers only schedule callbacks on the sender's
      connection ([keeps] over [timers_ok]), and [index.ts] only writes to
      bound connections and to the sender ([silent], [delivers_not]). *)

From Stdlib Require Import ZArith QArith Lia.
From S2P Require Import Prelude Types Player VotingManager WordBank GameRoom Router Server ClientState Canvas ClientUI AppFlow.

Local Open Scope string_scope.

Module ClientServer.
Import GameRoom Router Server.

(** ** The roster of a room: every player is stored under its own id *)

Definition ids_match (r : GameRoom.t) : Prop :=
Forall (fun e => Player.id e.2 = e.1) (players r).

Lemma applyScores_Forall (P : string -> Player.t -> Prop) sc ps :
(forall k n p, P k p -> P k (Player.addPoints n p)) ->
Forall (fun e => P e.1 e.2) ps -> Forall (fun e => P e.1 e.2) (applyScores sc ps).
Proof.
intros HP. unfold applyScores. revert ps.
induction sc as [|[k n] sc IH]; intros ps Hps; simpl; [done |].
apply IH, (Forall_map_alter P), Hps. intros p. apply HP.
Qed.

Lemma run_ids_match c r : ids_match r -> ids_match (run c r).
Proof.
unfold ids_match. intros Hid.
destruct c; simpl; unfold_methods; run_monad; try done.
- by apply (Forall_map_set (fun k p => Player.id p = k)).
- by apply (Forall_map_delete (fun k p => Player.id p = k)).
- by apply (Forall_map_alter (fun k p => Player.id p = k)).
- by apply (applyScores_Forall (fun k p => Player.id p = k)).
Qed.

Lemma reachable_roster r : reachable r -> roster_ok r /\ ids_match r.
Proof.
induction 1 as [g | c r _ [Hro Hid]].
- unfold create. destruct (generateRoomCode g). split; [split; [constructor | cbv; lia] | constructor].
- split; [by apply run_roster_ok | by apply run_ids_match].
Qed.

Lemma totalScores_get k ps : map_get k (totalScores ps) = Player.score <$> map_get k ps.
Proof. induction ps as [|[k' p] ps IH]; simpl; [done |]. case_decide; [done | apply IH]. Qed.

(** On a roster with distinct ids, [result.totalScores[p.id]] is [p]'s score. *)
Lemma totalScores_own r e :
roster_ok r -> e ∈ players r -> map_get e.1 (totalScores (players r)) = Some (Player.score e.2).
Proof.
intros [Hnd _] He. rewrite totalScores_get. destruct e as [k p].
by rewrite (map_get_NoDup_elem k p) by done.
Qed.

(** ** Scoring as the client sees it *)

(** [p'] differs from [p] at most in its score. *)
Definition rescored (p p' : Player.t) : Prop :=
p' = Player.mk (Player.id p) (Player.name p) (Player.color p) (Player.isHost p)
(Player.isReady p) (Player.score p').

Definition rescored_roster (ps ps' : list (string * Player.t)) : Prop :=
Forall2 (fun e e' => e.1 = e'.1 /\ rescored e.2 e'.2) ps ps'.

Lemma rescored_roster_refl ps : rescored_roster ps ps.
Proof.
apply Forall_Forall2_diag, Forall_forall. intros [k [i n c h rd sc]] _. by split.
Qed.

Lemma applyScores_rescored sc ps0 ps :
rescored_roster ps0 ps -> rescored_roster ps0 (applyScores sc ps).
Proof.
unfold applyScores. revert ps. induction sc as [|[k n] sc IH]; intros ps H; simpl; [done |].
apply IH. unfold map_alter, rescored_roster. apply Forall2_fmap_r. apply (Forall2_impl _ _ _ _ H).
intros [k0 p0] [k1 p1] [Hk Hr]. simpl in *. case_decide; [| done]. split; [done |].
unfold rescored in *. rewrite Hr at 1. done.
Qed.

(** [{ ...player, score: totalScores[player.id] ?? player.score }] over a
roster rescored into [ps'] gives the players of [ps']. *)
Lemma update_scores_rescored T ps ps' :
rescored_roster ps ps' -> Forall (fun e => Player.id e.2 = e.1) ps ->
(forall e', e' ∈ ps' -> map_get e'.1 T = Some (Player.score e'.2)) ->
map (Client.update_score T) (map (fun e => Player.toData e.2) ps) = map (fun e => Player.toData e.2) ps'.
Proof.
unfold rescored_roster.
induction 1 as [|[k p] [k' [i n c h rd sc]] ps ps' [Hk Hr] _ IH]; intros Hid HT; [done |].
apply Forall_cons in Hid as [Hid Hids]. simpl in *. f_equal; [| apply IH; [done | set_solver]].
unfold rescored in Hr. simplify_eq/=. unfold Client.update_score. simpl.
pose proof (HT _ ltac:(constructor)) as H1. simpl in H1. by rewrite H1.
Qed.

Lemma calculateScores_Ok r res :
(calculateScores r).1 = Ok res ->
exists sc, (calculateScores r).2 = set_players (applyScores sc (players r)) r /\
RoundResult.totalScores res = totalScores (applyScores sc (players r)).
Proof.
unfold calculateScores, sbind, sget, smodify, sret, slift, sthrow.
destruct (votingManager r); [| done]. destruct (findImposterId _); simpl; [| done].
intros [= <-]. by eexists.
Qed.

(** C11: when the server scores a round of a room built by method calls and
broadcasts [ROUND_RESULT], a client whose players were the room's
serialised players before has, after the reducer, exactly the
serialised players of the scored room: new totals, same order, same
names, colours, host and ready flags. *)
Theorem round_result_mirrors (r : GameRoom.t) (res : RoundResult.t) (s : Client.t) :
reachable r -> (calculateScores r).1 = Ok res -> Client.players s = getPlayerList r ->
Client.players (Client.handleMessage (ROUND_RESULT res) s).1 = getPlayerList (calculateScores r).2.
Proof.
intros Hreach Hres Hs. destruct (reachable_roster r Hreach) as [Hro Hid].
destruct (calculateScores_Ok r res Hres) as (sc & -> & Htot). simpl. rewrite Hs, Htot.
unfold getPlayerList. simpl. apply update_scores_rescored; [by apply applyScores_rescored, rescored_roster_refl | done |].
intros e' He'. apply (totalScores_own (set_players (applyScores sc (players r)) r)); [| done].
destruct Hro as [Hnd Hlen]. split; simpl; by rewrite ?applyScores_keys, ?applyScores_length.
Qed.

Lemma existsb_map_Forall {A B} (f : B -> bool) (g : A -> bool) (h : A -> B) (l : list A) :
Forall (fun a => f (h a) = g a) l -> existsb f (map h l) = existsb g l.
Proof. induction 1 as [|a l Ha _ IH]; simpl; [done | by rewrite Ha, IH]. Qed.

(** C30: on the scoreboard of a room built by method calls, with the totals
the server sent, the client declares the game over exactly when the
server's [NEXT_ROUND] refuses with "Game is over": the host is offered
"Play Again" or "Next Round" as the server would accept them. *)
Theorem scoreboard_gameOver_agrees (r : GameRoom.t) (res : RoundResult.t) pid tids :
reachable r -> RoundResult.totalScores res = totalScores (players r) ->
Scoreboard.gameOver (RoundResult.totalScores res) (getPlayerList r) (GameSettings.winScore (settings r))
= Router.someone_won r /\
Scoreboard.controls res (getPlayerList r) pid (GameSettings.winScore (settings r)) tids true
= [if Router.someone_won r then Client.PlayAgain else Client.NextRound].
Proof.
intros Hreach Htot. destruct (reachable_roster r Hreach) as [Hro Hid].
assert (Hover : Scoreboard.gameOver (RoundResult.totalScores res) (getPlayerList r)
(GameSettings.winScore (settings r)) = Router.someone_won r).
{ rewrite Scoreboard.gameOver_existsb. unfold getPlayerList, Router.someone_won.
apply existsb_map_Forall, Forall_forall. intros e He. unfold Scoreboard.total_of. simpl.
rewrite Htot. unfold ids_match in Hid. rewrite Forall_forall in Hid. rewrite (Hid e He).
by rewrite (totalScores_own r e). }
split; [done |]. unfold Scoreboard.controls. by rewrite Hover.
Qed.

(** ** The room code *)

Lemma isNameValid_trim name : trim name <> "" -> Home.isNameValid name = true.
Proof.
intros Hn. unfold Home.isNameValid. apply bool_decide_eq_true.
destruct (trim name); [done | simpl; lia].
Qed.

(** C29: a room code typed on the home page in any case, with anything after
its four letters, is upper-cased and cut by the field to the code the
server drew; with a non-blank name the join button is enabled and
[joinGame] records that code and sends [JOIN_GAME] with it, the key the
server stored the room under. *)
Theorem join_code_roundtrip (g : rng) (typed rest name : string) (s : Client.t) :
string_upper typed = (generateRoomCode g).1 ++ rest -> trim name <> "" ->
let code := (generateRoomCode g).1 in
Home.join_click name (Home.handleRoomCodeChange typed) = Some (Client.JoinGame (trim name) code) /\
Client.perform (Client.JoinGame (trim name) code) s =
(Client.set_roomCode (Some code) s, true, JOIN_GAME code (trim name)).
Proof.
intros Htyped Hn. cbv zeta. destruct (generateRoomCode_wf g) as [Hlen Hup].
revert Htyped Hlen Hup. generalize (generateRoomCode g).1. intros code Htyped Hlen Hup.
unfold all_upper in Hup. unfold Home.handleRoomCodeChange. rewrite Htyped, <- Hlen, substring_app_length.
split.
- unfold Home.join_click, Home.isJoinValid. rewrite isNameValid_trim, trim_upper, Hlen by done. simpl.
rewrite decide_True; [by rewrite string_upper_id |]. split; [done |]. intros Hc.
rewrite Hc in Hlen. discriminate.
- simpl. by rewrite string_upper_id.
Qed.

(** ** The pages' actions against the room *)

Lemma string_lower_nonempty w : w <> "" -> string_lower w <> "".
Proof. destruct w; simpl; congruence. Qed.

(** C10: the imposter types a guess, even the secret word, and lets the
time run out: the interval calls the [handleSubmit] captured when the
page mounted, which sends the initial empty guess, and the room scores
the guess as wrong. *)
Theorem imposter_timeout_discards_guess (r : GameRoom.t) (typed : list string) (w : string) :
truthy_string (secretWord r) = Some w ->
let T := (IMPOSTER_GUESS_DURATION / 1000)%Z in
let evs := (map ImposterGuess.Change typed ++ repeat ImposterGuess.Tick (Z.to_nat T))%list in
ImposterGuess.guess (ImposterGuess.run evs (ImposterGuess.mount T)).1 = default "" (last typed) /\
(ImposterGuess.run evs (ImposterGuess.mount T)).2 = [SUBMIT_GUESS ""] /\
submitImposterGuess "" r = (Ok false, set_imposterGuessCorrect (Some false) r).
Proof.
intros Hw. cbv zeta. rewrite (ImposterGuess.timeout_after_typing _ 19) by reflexivity.
split; [done | split; [done |]].
assert (Hw' : w <> "") by (destruct (secretWord r) as [x|]; cbn in Hw; [case_decide |]; congruence).
unfold submitImposterGuess, sbind, sget, smodify, sret. rewrite Hw. cbn [fst snd].
rewrite bool_decide_eq_false_2; [done |]. intros Hl. by apply (string_lower_nonempty w).
Qed.

Lemma votable_in_roster r me v :
ids_match r -> v ∈ map PlayerData.id (Voting.votablePlayers (getPlayerList r) me) ->
v ∈ map_keys (players r) /\ v <> me.
Proof.
unfold ids_match. rewrite Forall_forall. intros Hid (p & -> & Hp)%list_elem_of_fmap.
apply list_elem_of_filter in Hp as [Hne Hp]. split; [| done].
apply list_elem_of_fmap in Hp as (e & -> & He). simpl. rewrite (Hid e He).
by apply list_elem_of_fmap_2.
Qed.

(** C28: during a vote, a player clicking vote buttons any number of times
sends one [SUBMIT_VOTE], for the first player clicked; when the
client's players are the room's and the voter is on the collector's
roster without a ballot, the room accepts that vote. *)
Theorem voting_vote_accepted (r : GameRoom.t) (vm : VotingManager.t) (s : Client.t) (me : string)
(clicks : list string) :
reachable r -> votingManager r = Some vm -> Client.players s = getPlayerList r ->
map_keys (players r) ⊆ VotingManager.playerIds vm -> me ∈ VotingManager.playerIds vm ->
me ∉ map_keys (VotingManager.votes vm) ->
Forall (fun v => v ∈ map PlayerData.id (Voting.votablePlayers (Client.players s) me)) clicks ->
(Voting.click_all clicks Voting.enter).2 = (match clicks with [] => [] | v :: _ => [SUBMIT_VOTE v] end) /\
forall v, head clicks = Some v -> (submitVote me v r).1 = Ok tt.
Proof.
intros Hreach Hvm Hs Hsub Hme Hnew Hclicks. destruct (reachable_roster r Hreach) as [_ Hid]. split.
- destruct clicks as [|v cs]; [done |]. unfold Voting.click_all. simpl.
enough (forall o, foldl (fun (acc : Voting.ui * list ClientMessage) p =>
let '(u', out) := Voting.handleVote p acc.1 in (u', (acc.2 ++ out)%list))
(Voting.mk_ui true true (Some v), o) cs = (Voting.mk_ui true true (Some v), o)) as -> by done.
intros o. clear. induction cs as [|c cs IH]; [done |]. simpl. by rewrite app_nil_r.
- intros v Hv. destruct clicks as [|c cs]; simplify_eq/=. apply Forall_cons in Hclicks as [Hv _].
rewrite Hs in Hv. destruct (votable_in_roster r me v Hid Hv) as [Hin Hne].
unfold submitVote, sbind, sget, smodify, slift. rewrite Hvm.
rewrite (proj2 (VotingManager.castVote_Ok me v vm
(VotingManager.mk (VotingManager.playerIds vm) (VotingManager.imposterId vm)
(VotingManager.votes vm ++ [(me, v)])))); [done |].
split_and!; [done | set_solver | done | done | done].
Qed.

Lemma allReady_getPlayerList r : Lobby.allReady (getPlayerList r) = allPlayersReady r.
Proof.
unfold Lobby.allReady, allPlayersReady, getPlayerList. rewrite length_map. f_equal.
induction (players r) as [|e ps IH]; simpl; [done | by rewrite IH].
Qed.

Lemma categories_known c :
c ∈ Lobby.CATEGORIES -> is_Some (map_get c (WordBank.categories WordBank.create)).
Proof.
assert (Hall : Forall (fun c => is_Some (map_get c (WordBank.categories WordBank.create))) Lobby.CATEGORIES)
by decide_by_eval.
rewrite Forall_forall in Hall. apply Hall.
Qed.

(** Every category button of the lobby names a category of the word bank. *)
Lemma lobby_word f g :
Lobby.category f ∈ Lobby.CATEGORIES ->
exists w g1, pickSecretWord (Lobby.handleStartGame f) g = Ok (Some w, g1).
Proof.
intros Hc. destruct (categories_known _ Hc) as [ws Hws].
unfold pickSecretWord, Lobby.handleStartGame. cbn [GameSettings.customWord GameSettings.category truthy_string].
unfold WordBank.getRandomWord, WordBank.getWordsByCategory. rewrite Hws. cbn [rbind].
pose proof (rng_next_bound g) as Hb. destruct (rng_next g) as [x g1]. cbn [fst] in Hb.
destruct (WordBank.random_pick_in ws x) as (w & Hw & _);
[by eapply WordBank.create_categories_nonempty | done |].
exists w, g1. by rewrite Hw.
Qed.

(** C27: the host's "Start Game" button is enabled exactly when the room's
[startGame] guards pass (the client's players being the room's), and
the settings it sends, whatever options were clicked, are accepted:
the room enters [ROLE_REVEAL] with those settings and a word. *)
Theorem lobby_start_accepted (r : GameRoom.t) (s : Client.t) (clicks : list Lobby.click) (g : rng) :
Forall Lobby.offered clicks -> Client.players s = getPlayerList r ->
Lobby.canStart s = Client.isHost s && allPlayersReady r /\
(Lobby.canStart s = true ->
let st := Lobby.handleStartGame (Lobby.fill clicks) in
Lobby.start_click (Lobby.fill clicks) s = Some (Client.StartGame st) /\
exists w g', (startGame (Some st) g r).1 = Ok g' /\ phase (startGame (Some st) g r).2 = ROLE_REVEAL /\
settings (startGame (Some st) g r).2 = st /\ secretWord (startGame (Some st) g r).2 = Some w).
Proof.
intros Hclicks Hs. unfold Lobby.canStart. rewrite Hs, allReady_getPlayerList. split; [done |].
intros Hcan. cbv zeta. split; [unfold Lobby.start_click, Lobby.canStart; by rewrite Hs, allReady_getPlayerList, Hcan |].
apply andb_prop in Hcan as [_ Hready]. unfold allPlayersReady in Hready.
apply andb_prop in Hready as [Hmin%bool_decide_eq_true Hall].
destruct (lobby_word (Lobby.fill clicks) g) as (w & g1 & Hpick); [by apply Lobby.fill_category |].
pose proof (startGame_Ok r _ g (Some w) g1 Hmin Hall Hpick) as Hst. cbv zeta in Hst. rewrite Hst.
exists w. eexists. split_and!; reflexivity.
Qed.

(** ** The drawing time limit *)

(** Not a [TURN_TIMEOUT]. *)
Definition not_turn_timeout (m : ServerMessage) : Prop := forall p, m <> TURN_TIMEOUT p.

Lemma sends_only_modify_same (P : ServerMessage -> Prop) (f : Router.world -> Router.world) :
(forall w, outbox (f w) = outbox w) -> sends_only P (smodify f).
Proof. intros Hf w. exists []. rewrite app_nil_r. split; [apply Hf | constructor]. Qed.

Ltac no_timeout_solve :=
repeat first
[ progress intros
| apply sends_only_bind
| apply sends_only_send; intros ? [=]
| apply sends_only_broadcast; intros ? [=]
| apply sends_only_with_room; [intros ? [=] | intros ? [=] |]
| apply sends_only_modify_same; intros; reflexivity
| solve [eauto with loki]
| case_match ].

Lemma send_roles_no_timeout l ids : sends_only not_turn_timeout (send_roles l ids).
Proof. induction ids as [|p ids IH]; simpl; no_timeout_solve. Qed.

#[local] Hint Resolve send_roles_no_timeout : loki.

Lemma dispatch_no_timeout msg pid conn : sends_only not_turn_timeout (dispatch msg pid conn).
Proof.
destruct msg; simpl;
unfold create_game, join_game, player_ready, start_game, submit_stroke, submit_vote,
after_votes, submit_guess, timeout_request, next_round, play_again, new_room, add_player,
require_host, with_rand, schedule;
no_timeout_solve.
Qed.

(** C14: the drawing timer of the game board calls its [onComplete] exactly
once, when the time limit has elapsed, and that callback does nothing
("handled by server"); but no handler and no callback of the server
ever sends [TURN_TIMEOUT] or ends a turn on time: a drawer who does
not draw holds the game in [DRAWING]. *)
Theorem draw_time_not_enforced (s : Client.t) (now : Z) (times : list Z) (msg : ClientMessage)
(pid : option string) (conn : nat) (t : timer) (w : Router.world) :
(forall tm, GameBoard.timer s now = Some tm ->
(Timer.run times tm).2 =
(if existsb (fun n => bool_decide (Client.drawTimeLimit s * 1000 <= n - now)%Z) times then 1 else 0)%nat) /\
GameBoard.onTimerComplete s = None /\
(exists msgs, outbox (Router.handleMessage msg pid conn w).2 = (outbox w ++ msgs)%list /\
Forall (fun e => not_turn_timeout e.2) msgs) /\
(exists msgs, outbox (fire t w).2 = (outbox w ++ msgs)%list /\ Forall (fun e => not_turn_timeout e.2) msgs).
Proof.
split; [| split; [done | split]].
- intros tm. unfold GameBoard.timer. destruct (truthy_string _); intros [= <-].
by apply Timer.run_completes_once.
- unfold Router.handleMessage. destruct (dispatch_no_timeout msg pid conn w) as (msgs & Ho & Hf).
destruct (dispatch msg pid conn w) as [[r|e] w']; cbn [fst snd] in *; [by exists msgs |].
destruct (truthy_string pid) as [p|]; [| by exists msgs].
exists (msgs ++ [(p, ERROR_of e)])%list. cbn. rewrite Ho, app_assoc. split; [done |].
apply Forall_app. split; [done | repeat constructor]. intros ? [=].
- assert (H : sends_only not_turn_timeout (fire t)) by (unfold fire; no_timeout_solve).
apply H.
Qed.

(** ** Connections without a player *)

(** The handlers with [playerId = null] return [{}] without a message,
except [CREATE_GAME] and [JOIN_GAME] of an existing room. *)
Definition ignored_unbound (w : Router.world) (msg : ClientMessage) : Prop :=
match msg with
| CREATE_GAME _ => False
| JOIN_GAME code _ => map_get code (rooms w) = None
| _ => True
end.

Lemma dispatch_unbound msg conn w :
ignored_unbound w msg -> dispatch msg None conn w = (Ok none, w).
Proof.
destruct msg; simpl; try done. intros Hr. unfold join_game, sbind, sget. by rewrite Hr.
Qed.

Lemma on_message_unbound s ws c msg :
map_get ws (Server.connections s) = Some c -> c_player c = None -> outbox (Server.router s) = [] ->
ignored_unbound (Server.router s) msg -> on_message ws msg s = s.
Proof.
intros Hc Hp Hout Hmsg. unfold on_message, Router.handleMessage. rewrite Hc, Hp, dispatch_unbound by done.
unfold flush. simpl. rewrite Hout. simpl.
destruct s as [[] cs pw d]; simpl in *; subst. by rewrite map_set_same.
Qed.

(** C12: a connection the server has just accepted, as the one a client's
socket reconnects on, is bound to no player: every message it then
sends except [CREATE_GAME] and a [JOIN_GAME] of an existing room,
[JOIN_GAME] of an unknown code included, is dropped without a reply
and without any change to the server. *)
Theorem unbound_connection_ignored (s : Server.server) (ws : nat) (msgs : list ClientMessage) :
outbox (Server.router s) = [] -> Forall (ignored_unbound (Server.router s)) msgs ->
let s1 := set_connections (map_set ws (mk_conn None None) (Server.connections s)) s in
run_events (Connect ws :: map (Message ws) msgs) s = Ok s1.
Proof.
intros Hout Hmsgs. cbv zeta. simpl.
induction Hmsgs as [|m msgs Hm _ IH]; [done |]. simpl.
rewrite (on_message_unbound _ ws (mk_conn None None)); [done | | done | done | done].
apply map_get_set_eq.
Qed.

(** ** A connection that never sends

The spectator page connects and never sends a message.  The router only
schedules callbacks on the connection of the message it handles, and
[index.ts] only writes to the connection bound to a player or to the
connection a message came on, so such a connection receives nothing. *)

Definition sender (ev : event) : option nat :=
match ev with
| Message w _ | Malformed w _ => Some w
| _ => None
end.

Section Silent.
Variable ws : nat.
#[local] Abbreviation Act := (stx Router.world GameError).

Definition timers_ok (w : Router.world) : Prop := Forall (fun t => tm_conn t <> ws) (timers w).

Lemma keeps_timers_modify (f : Router.world -> Router.world) :
(forall w, timers (f w) = timers w) -> keeps (E:=GameError) timers_ok (smodify f).
Proof. intros Hf. apply keeps_modify. intros w. unfold timers_ok. by rewrite Hf. Qed.

Lemma keeps_send p m : keeps timers_ok (send p m).
Proof. by apply keeps_timers_modify. Qed.

Lemma keeps_broadcast code m : keeps timers_ok (broadcast code m).
Proof. apply keeps_timers_modify. intros w. by destruct (room_at w code). Qed.

Lemma keeps_on_room {A} l (m : Exc A) : keeps timers_ok (on_room l m).
Proof. intros w Hw. unfold on_room. destruct (map_get l (heap w)) as [r|]; [destruct (m r) |]; done. Qed.

Lemma keeps_room_field {A} l (f : GameRoom.t -> A) : keeps timers_ok (room_field l f).
Proof. apply keeps_on_room. Qed.

Lemma keeps_schedule l code conn : conn <> ws -> keeps timers_ok (schedule l code conn).
Proof.
intros Hc. apply keeps_modify. intros w Hw. unfold timers_ok in *. simpl.
apply Forall_app. split; [done | by constructor].
Qed.

#[local] Hint Resolve keeps_send keeps_broadcast keeps_on_room keeps_room_field : loki.

Ltac keeps_solve :=
repeat first
[ progress intros
| apply keeps_bind
| apply keeps_modify; intros ?; unfold timers_ok; by simpl
| apply keeps_schedule; done
| solve [eauto with loki]
| case_match ].

Lemma keeps_with_rand {A} (k : rng -> Act (A * rng)) :
(forall g, keeps timers_ok (k g)) -> keeps timers_ok (with_rand k).
Proof. intros Hk. unfold with_rand. keeps_solve. Qed.

Lemma keeps_send_roles l ids : keeps timers_ok (send_roles l ids).
Proof. induction ids as [|p ids IH]; simpl; keeps_solve. Qed.

Lemma keeps_with_room notify pid k :
(forall p code l, keeps timers_ok (k p code l)) -> keeps timers_ok (with_room notify pid k).
Proof. intros Hk. unfold with_room. keeps_solve. Qed.

Lemma keeps_require_host pid l msg k : keeps timers_ok k -> keeps timers_ok (require_host pid l msg k).
Proof. intros Hk. unfold require_host. keeps_solve. Qed.

#[local] Hint Resolve keeps_send_roles : loki.

Lemma keeps_dispatch msg pid conn : conn <> ws -> keeps timers_ok (dispatch msg pid conn).
Proof.
intros Hc. destruct msg; simpl;
unfold create_game, join_game, player_ready, start_game, submit_stroke, submit_vote,
after_votes, submit_guess, timeout_request, next_round, play_again, new_room, add_player;
repeat first [ apply keeps_with_room | apply keeps_require_host | apply keeps_with_rand ];
keeps_solve.
Qed.
Lemma handleMessage_timers msg pid conn w :
conn <> ws -> timers_ok w -> timers_ok (Router.handleMessage msg pid conn w).2.
Proof.
intros Hc Hw. unfold Router.handleMessage. pose proof (keeps_dispatch msg pid conn Hc w Hw) as H.
destruct (dispatch msg pid conn w) as [[r|e] w']; cbn [fst snd] in *; [done |].
by destruct (truthy_string pid).
Qed.

(** [ws] is bound to no player and no pending callback writes to it. *)
Definition silent (s : Server.server) : Prop := ws ∉ map snd (playerToWs s) /\ timers_ok (Server.router s).

(** From [s] to [s'] the server only wrote to connections other than [ws]. *)
Definition delivers_not (s s' : Server.server) : Prop :=
exists d, delivered s' = (delivered s ++ d)%list /\ Forall (fun e => e.1 <> ws) d.

Lemma delivers_not_refl s s' : delivered s' = delivered s -> delivers_not s s'.
Proof. intros H. exists []. rewrite H, app_nil_r. split; [done | constructor]. Qed.

Lemma delivers_not_trans s1 s2 s3 : delivers_not s1 s2 -> delivers_not s2 s3 -> delivers_not s1 s3.
Proof.
intros (d1 & H1 & F1) (d2 & H2 & F2). exists (d1 ++ d2)%list.
rewrite H2, H1, app_assoc. split; [done | by apply Forall_app].
Qed.

Lemma delivers_not_snoc s w m : w <> ws -> delivers_not s (set_delivered (delivered s ++ [(w, m)])%list s).
Proof. intros Hw. exists [(w, m)]. split; [done | by repeat constructor]. Qed.

Lemma value_not_ws (m : list (string * nat)) p w :
ws ∉ map snd m -> map_get p m = Some w -> w <> ws.
Proof. intros Hws Hp ->. apply Hws, list_elem_of_fmap. exists (p, ws). split; [done | by apply map_get_In_value]. Qed.

(** One write of [send] or [wrappedSend]: only [delivered] changes. *)
Definition writes_only (s s' : Server.server) : Prop :=
Server.router s' = Server.router s /\ playerToWs s' = playerToWs s /\
Server.connections s' = Server.connections s /\ delivers_not s s'.

Lemma writes_only_trans s1 s2 s3 : writes_only s1 s2 -> writes_only s2 s3 -> writes_only s1 s3.
Proof.
intros (R1 & P1 & C1 & D1) (R2 & P2 & C2 & D2). split_and!; try congruence.
by eapply delivers_not_trans.
Qed.

Lemma send_wrapped_writes fb s p m :
fb <> ws -> ws ∉ map snd (playerToWs s) -> writes_only s (send_wrapped fb s p m).
Proof.
intros Hfb Hws. unfold send_wrapped.
assert (Hw : default fb (map_get p (playerToWs s)) <> ws).
{ destruct (map_get p (playerToWs s)) eqn:E; simpl; [by eapply value_not_ws | done]. }
destruct (is_open s _); split_and!; try done; [by apply delivers_not_snoc | by apply delivers_not_refl].
Qed.

Lemma send_top_writes s p m : ws ∉ map snd (playerToWs s) -> writes_only s (send_top s p m).
Proof.
intros Hws. unfold send_top. destruct (map_get p (playerToWs s)) as [w|] eqn:E;
[case_match |]; try (split_and!; try done; by apply delivers_not_refl).
split_and!; try done. apply delivers_not_snoc. by eapply value_not_ws.
Qed.

Lemma foldl_writes {A} (f : Server.server -> A -> Server.server) s l :
(forall s e, ws ∉ map snd (playerToWs s) -> writes_only s (f s e)) ->
ws ∉ map snd (playerToWs s) -> writes_only s (foldl f s l).
Proof.
intros Hf. revert s. induction l as [|e l IH]; intros s Hws; simpl.
- split_and!; try done. by apply delivers_not_refl.
- pose proof (Hf s e Hws) as H1. eapply writes_only_trans; [exact H1 |].
apply IH. by destruct H1 as (_ & -> & _).
Qed.

Lemma broadcast_top_writes s code m :
ws ∉ map snd (playerToWs s) -> writes_only s (broadcast_top s code m).
Proof.
intros Hws. unfold broadcast_top. destruct (room_at _ code).
- apply foldl_writes; [intros; by apply send_top_writes | done].
- split_and!; try done. by apply delivers_not_refl.
Qed.

Lemma flush_silent fb s :
fb <> ws -> silent s ->
silent (flush fb s) /\ delivers_not s (flush fb s) /\ Server.connections (flush fb s) = Server.connections s.
Proof.
intros Hfb [Hws Ht]. unfold flush.
destruct (foldl_writes (fun s e => send_wrapped fb s e.1 e.2) s (outbox (Server.router s)))
as (HR & HP & HC & HD); [intros; by apply send_wrapped_writes | done |].
cbn. rewrite HR, HP, HC. by split_and!.
Qed.
Lemma on_message_silent w msg s :
w <> ws -> silent s -> silent (on_message w msg s) /\ delivers_not s (on_message w msg s).
Proof.
intros Hw [Hws Ht]. unfold on_message.
destruct (map_get w (Server.connections s)) as [c|]; [| split; [done | by apply delivers_not_refl]].
destruct (Router.handleMessage msg (c_player c) w (Server.router s)) as [res w'] eqn:Eh.
assert (Ht' : timers_ok w').
{ change w' with (res, w').2. rewrite <- Eh. by apply handleMessage_timers. }
destruct (flush_silent w (set_router w' s)) as ([Hws1 Ht1] & (d & Hd & Fd) & _); [done | done |].
set (s1 := flush w (set_router w' s)) in *.
assert (HD : delivers_not s s1) by (exists d; split; [exact Hd | exact Fd]).
destruct (truthy_string res.1) as [p|]; cbn.
- split; [split; [| done] | exact HD]. intros [->|Hin]%map_set_values; [done | by apply Hws1].
- split; [by split | exact HD].
Qed.

Lemma fire_timers t w : timers_ok w -> timers_ok (fire t w).2.
Proof. intros Hw. unfold fire. revert w Hw. keeps_solve. Qed.

(** The end of [ws.on('close')]: the player is forgotten. *)
Lemma close_tail s y x pid pr :
silent y -> delivers_not s y ->
let s' := set_connections x (set_playerToWs (map_delete pid (playerToWs y))
(set_router (set_playerRooms pr (Server.router y)) y)) in
silent s' /\ delivers_not s s'.
Proof.
intros [Hws Ht] (d & Hd & Fd). split; [split | by exists d].
- intros Hin%map_delete_values. by apply Hws.
- exact Ht.
Qed.

Lemma on_close_silent w s : silent s -> silent (Server.on_close w s) /\ delivers_not s (Server.on_close w s).
Proof.
intros [Hws Ht]. unfold Server.on_close.
destruct (map_get w (Server.connections s)) as [c|]; [| split; [done | by apply delivers_not_refl]].
destruct (truthy_string (c_player c)) as [pid|], (truthy_string (c_room c)) as [code|];
try (split; [done | by apply delivers_not_refl]).
apply close_tail.
- destruct (map_get code (rooms (Server.router s))) as [l|]; [| done].
assert (Ht1 : timers_ok (on_room l (removePlayer pid) (Server.router s)).2) by (by apply keeps_on_room).
destruct (room_at _ code); [case_decide |];
try match goal with |- context [broadcast_top ?s0 ?c ?m] =>
destruct (broadcast_top_writes s0 c m) as (HR & HP & _ & _); [done |];
revert HR HP; generalize (broadcast_top s0 c m); intros F HR HP end;
(split; [cbn [set_router set_rooms playerToWs Server.router timers]; rewrite ?HP; exact Hws
| unfold timers_ok; cbn [set_router set_rooms playerToWs Server.router timers]; rewrite ?HR; exact Ht1]).
- destruct (map_get code (rooms (Server.router s))) as [l|]; [| by apply delivers_not_refl].
destruct (room_at _ code); [case_decide | by apply delivers_not_refl];
match goal with |- context [broadcast_top ?s0 ?c ?m] =>
destruct (broadcast_top_writes s0 c m) as (_ & _ & _ & (d & Hd & Fd)); [done |] end;
by exists d.
Qed.
Lemma step_silent ev s s' :
sender ev <> Some ws -> silent s -> step ev s = Ok s' -> silent s' /\ delivers_not s s'.
Proof.
intros Hsnd Hs Hst. destruct ev as [w|w msg|w err|w|]; cbn [step] in Hst.
- injection Hst as <-. split; [exact Hs | by apply delivers_not_refl].
- injection Hst as <-. apply on_message_silent; [cbn in Hsnd; congruence | exact Hs].
- injection Hst as <-. split; [exact Hs | apply delivers_not_snoc; cbn in Hsnd; congruence].
- injection Hst as <-. by apply on_close_silent.
- destruct Hs as [Hws Ht]. unfold timers_ok in Ht.
destruct (timers (Server.router s)) as [|t rest] eqn:Et;
[injection Hst as <-; split; [split; [done | unfold timers_ok; by rewrite Et] | by apply delivers_not_refl] |].
apply Forall_cons in Ht as [Htc Hrest].
pose proof (fire_timers t (set_timers rest (Server.router s)) Hrest) as Hf.
destruct (fire t (set_timers rest (Server.router s))) as [[u|e] w'] eqn:Ef; [| discriminate].
injection Hst as <-.
destruct (flush_silent (tm_conn t) (set_router w' s)) as (Hs' & (d & Hd & Fd) & _); [done | by split |].
split; [exact Hs' | by exists d].
Qed.
End Silent.

(** C13: a connection that never sends a message, as the spectator page of
[SharedScreen.tsx] (it connects and sends nothing), is bound to no
player, so whatever the players do the server never writes to it, and
the spectator's state never changes. *)
Theorem spectator_receives_nothing (s s' : Server.server) (ws : nat) (evs : list event) :
ws ∉ map snd (playerToWs s) -> Forall (fun t => tm_conn t <> ws) (timers (Server.router s)) ->
Forall (fun ev => sender ev <> Some ws) evs -> run_events evs s = Ok s' ->
(exists d, delivered s' = (delivered s ++ d)%list /\ Forall (fun e => e.1 <> ws) d) /\
Spectator.receive_all (map snd (filter (fun e => e.1 = ws) (delivered s'))) Spectator.initial =
Spectator.receive_all (map snd (filter (fun e => e.1 = ws) (delivered s))) Spectator.initial.
Proof.
intros Hws Ht Hevs Hrun.
assert (HD : delivers_not ws s s').
{ assert (Hs : silent ws s) by done. clear Hws Ht. revert s Hs Hrun.
induction Hevs as [|ev evs Hev _ IH]; intros s Hs Hrun; cbn [run_events] in Hrun.
- injection Hrun as <-. by apply delivers_not_refl.
- destruct (step ev s) as [s1|e] eqn:Est; [| discriminate]. cbn in Hrun.
destruct (step_silent ws ev s s1 Hev Hs Est) as [Hs1 HD1].
eapply delivers_not_trans; [exact HD1 | by apply IH]. }
split; [exact HD |]. destruct HD as (d & -> & Fd).
rewrite filter_app, (filter_empty_intro _ d), app_nil_r; [done |].
rewrite Forall_forall in Fd. intros e He. by apply Fd.
Qed.

(** ** A stale turn at the start of the next round *)

(** A stroke submitted while the room is not drawing is refused: the
sender gets the [ERROR] of [NotDrawing] and nothing else changes. *)
Lemma submit_stroke_not_drawing (w : world) (pid code : string) (l : nat) (r : GameRoom.t) (st : Stroke.t) (conn : nat) :
pid <> "" -> code <> "" -> map_get pid (playerRooms w) = Some code -> map_get code (rooms w) = Some l ->
map_get l (heap w) = Some r -> phase r <> DRAWING ->
Router.handleMessage (SUBMIT_STROKE st) (Some pid) conn w =
(none, set_outbox (outbox w ++ [(pid, ERROR "Can only submit strokes during DRAWING phase")]) w).
Proof.
intros Hp Hc Hpr Hr Hl Hph. unfold Router.handleMessage, dispatch, submit_stroke.
rewrite (with_room_run true pid code l) by done. unfold sbind at 1.
rewrite (on_room_run _ _ _ r) by done.
unfold GameRoom.submitStroke, sbind, sget, sthrow. cbn [fst snd]. rewrite decide_True by done.
cbn. rewrite decide_False by done. cbn. rewrite map_set_same by done. reflexivity.
Qed.

(** C15: [GAME_STARTING] does not reset the client's [activePlayerId]. When
the host starts the next round, the player who drew last in the
previous round is shown, once the reveal page's timeout has fired and
before [TURN_START] arrives, the game board with an enabled canvas
although the room is in [ROLE_REVEAL]; a stroke drawn there is
submitted, and the server refuses it with an [ERROR] the client shows
in its banner. *)
Theorem stale_turn_stroke_refused (a : AppFlow.t) (me : string) (now t' : Z)
(rl : Role) (wd : option string) (order : list string) (ps : list PlayerData.t) (set : GameSettings.t)
(c : Canvas.t) (x0 y0 : Q) (moves : list (Q * Q)) (tnow : Z)
(w : world) (code : string) (l : nat) (r : GameRoom.t) (conn : nat) :
truthy_string (Client.roomCode (AppFlow.client a)) <> None ->
Client.playerId (AppFlow.client a) = Some me -> Client.activePlayerId (AppFlow.client a) = Some me ->
(now + ROLE_REVEAL_DURATION <= t')%Z ->
let a' := AppFlow.tick t' (AppFlow.receive now (GAME_STARTING rl wd order ps set) a) in
Canvas.opts c = GameBoard.canvas_options (AppFlow.client a') ->
me <> "" -> code <> "" -> map_get me (playerRooms w) = Some code -> map_get code (rooms w) = Some l ->
map_get l (heap w) = Some r -> phase r = ROLE_REVEAL ->
AppFlow.page a' = App.GameBoardPage /\
exists stroke,
(Canvas.run (Canvas.gesture x0 y0 moves tnow) c).2 = [stroke] /\
GameBoard.onStrokeComplete stroke (AppFlow.client a') = Some (Client.SubmitStroke stroke) /\
(Client.perform (Client.SubmitStroke stroke) (AppFlow.client a')).2 = SUBMIT_STROKE stroke /\
Router.handleMessage (SUBMIT_STROKE stroke) (Some me) conn w =
(none, set_outbox (outbox w ++ [(me, ERROR "Can only submit strokes during DRAWING phase")]) w).
Proof.
intros Hrc Hme Hact Ht a' Hc Hm Hcode Hpr Hr Hl Hph.
destruct (AppFlow.stale_turn_after_next_round a me now t' rl wd order ps set Hrc Hme Hact Ht)
as (_ & Hpage & Hen). fold a' in Hpage, Hen.
split; [done |]. rewrite Canvas.run_gesture by (by rewrite Hc). eexists. split; [reflexivity |].
assert (Hmy : GameBoard.isMyTurn (AppFlow.client a') = true).
{ revert Hen. unfold GameBoard.canvas_options. by destruct (GameBoard.isMyTurn _). }
split; [unfold GameBoard.onStrokeComplete; by rewrite Hmy |]. split; [done |].
apply (submit_stroke_not_drawing w me code l r); try done. by rewrite Hph.
Qed.

End ClientServer.

(** Witnesses: the scored round of [GameRoomWitnesses], the constant
    random stream, and a player of [ServerScenarios] whose socket closed
    and reconnected. *)
Module ClientServerWitnesses.
Import GameRoom Router Server ClientServer.
Local Open Scope string_scope.

Definition voted_result : RoundResult.t :=
match (calculateScores GameRoomWitnesses.voted).1 with
| Ok res => res
| Err _ => RoundResult.mk [] [] "" false None None
end.

Definition voted_client : Client.t := Client.set_players (getPlayerList GameRoomWitnesses.voted) Client.initial.

Lemma voted_reachable : reachable GameRoomWitnesses.voted.
Proof. unfold GameRoomWitnesses.voted, GameRoomWitnesses.lobby. cbn [foldl]. repeat constructor. Qed.

Lemma round_result_mirrors_witness :
Client.players (Client.handleMessage (ROUND_RESULT voted_result) voted_client).1 =
getPlayerList (calculateScores GameRoomWitnesses.voted).2.
Proof. apply round_result_mirrors; [apply voted_reachable | vm_compute; reflexivity | reflexivity]. Defined.

Definition scored : GameRoom.t := (calculateScores GameRoomWitnesses.voted).2.

Lemma scoreboard_gameOver_agrees_witness :
Scoreboard.gameOver (RoundResult.totalScores voted_result) (getPlayerList scored)
(GameSettings.winScore (settings scored)) = someone_won scored /\
Scoreboard.controls voted_result (getPlayerList scored) (Some "u1") (GameSettings.winScore (settings scored))
[] true = [if someone_won scored then Client.PlayAgain else Client.NextRound].
Proof.
apply scoreboard_gameOver_agrees; [apply (reachable_step CallCalculateScores), voted_reachable |].
vm_compute. reflexivity.
Defined.

Lemma join_code_roundtrip_witness :
Home.join_click "Bo" (Home.handleRoomCodeChange "aaaa") =
Some (Client.JoinGame (trim "Bo") (generateRoomCode GameRoomWitnesses.zeros).1) /\
Client.perform (Client.JoinGame (trim "Bo") (generateRoomCode GameRoomWitnesses.zeros).1) Client.initial =
(Client.set_roomCode (Some (generateRoomCode GameRoomWitnesses.zeros).1) Client.initial, true,
JOIN_GAME (generateRoomCode GameRoomWitnesses.zeros).1 (trim "Bo")).
Proof. apply (join_code_roundtrip GameRoomWitnesses.zeros "aaaa" ""); vm_compute; [reflexivity | discriminate]. Defined.

(** [b] left when its socket 2 closed; the hook reconnects on socket 4. *)
Definition s_left : server := ServerScenarios.after (ServerScenarios.lobby ++ [Close 2]).

Lemma unbound_connection_ignored_witness :
run_events (Connect 4 :: map (Message 4) [PLAYER_READY; JOIN_GAME "ZZZZ" "Bo"; SUBMIT_VOTE "a"]) s_left =
Ok (set_connections (map_set 4 (mk_conn None None) (connections s_left)) s_left).
Proof.
apply unbound_connection_ignored; [vm_compute; reflexivity |].
by repeat constructor.
Defined.
Lemma imposter_timeout_discards_guess_witness :
let T := (IMPOSTER_GUESS_DURATION / 1000)%Z in
let evs := (map ImposterGuess.Change ["c"; "ca"; "cat"] ++ repeat ImposterGuess.Tick (Z.to_nat T))%list in
ImposterGuess.guess (ImposterGuess.run evs (ImposterGuess.mount T)).1 = default "" (last ["c"; "ca"; "cat"]) /\
(ImposterGuess.run evs (ImposterGuess.mount T)).2 = [SUBMIT_GUESS ""] /\
submitImposterGuess "" GameRoomWitnesses.voted =
(Ok false, set_imposterGuessCorrect (Some false) GameRoomWitnesses.voted).
Proof. apply (imposter_timeout_discards_guess GameRoomWitnesses.voted ["c"; "ca"; "cat"] "cat"). vm_compute. reflexivity. Defined.

(** The lobby of [GameRoomWitnesses] after the drawing: [u1] votes. *)
Definition drawn : GameRoom.t :=
foldl (fun r c => run c r) GameRoomWitnesses.lobby
[CallStartGame (Some GameRoomWitnesses.one_round) GameRoomWitnesses.zeros; CallStartDrawing;
CallSubmitStroke "u2" GameRoomWitnesses.dot; CallSubmitStroke "u3" GameRoomWitnesses.dot;
CallSubmitStroke "u1" GameRoomWitnesses.dot].

Definition drawn_vm : VotingManager.t := default (VotingManager.create [] "") (votingManager drawn).

Definition drawn_client : Client.t := Client.set_players (getPlayerList drawn) Client.initial.

Lemma voting_vote_accepted_witness :
(Voting.click_all ["u3"; "u2"] Voting.enter).2 = [SUBMIT_VOTE "u3"] /\
forall v, head ["u3"; "u2"] = Some v -> (submitVote "u1" v drawn).1 = Ok tt.
Proof.
apply (voting_vote_accepted drawn drawn_vm drawn_client "u1" ["u3"; "u2"]).
- unfold drawn, GameRoomWitnesses.lobby. cbn [foldl]. repeat constructor.
- vm_compute. reflexivity.
- reflexivity.
- decide_by_eval.
- decide_by_eval.
- decide_by_eval.
- decide_by_eval.
Defined.

Definition host_client : Client.t :=
Client.set_isHost true (Client.set_players (getPlayerList GameRoomWitnesses.lobby) Client.initial).

Definition host_clicks : list Lobby.click := [Lobby.SetCategory "movies & tv"; Lobby.SetWinScore 5].

Lemma lobby_start_accepted_witness :
Lobby.canStart host_client = Client.isHost host_client && allPlayersReady GameRoomWitnesses.lobby /\
(Lobby.canStart host_client = true ->
let st := Lobby.handleStartGame (Lobby.fill host_clicks) in
Lobby.start_click (Lobby.fill host_clicks) host_client = Some (Client.StartGame st) /\
exists w g', (startGame (Some st) GameRoomWitnesses.zeros GameRoomWitnesses.lobby).1 = Ok g' /\
phase (startGame (Some st) GameRoomWitnesses.zeros GameRoomWitnesses.lobby).2 = ROLE_REVEAL /\
settings (startGame (Some st) GameRoomWitnesses.zeros GameRoomWitnesses.lobby).2 = st /\
secretWord (startGame (Some st) GameRoomWitnesses.zeros GameRoomWitnesses.lobby).2 = Some w).
Proof. apply lobby_start_accepted; [decide_by_eval | reflexivity]. Defined.
(** A shared screen on connection 9 while the scenario's round is played. *)
Definition spectated : list event := (Connect 9 :: ServerScenarios.round)%list.

Definition s_spectated : server := ServerScenarios.after spectated.

Lemma spectator_receives_nothing_witness :
(exists d, delivered s_spectated = (delivered (init ServerScenarios.zeros ServerScenarios.uid) ++ d)%list /\
Forall (fun e => e.1 <> 9) d) /\
Spectator.receive_all (map snd (filter (fun e => e.1 = 9) (delivered s_spectated))) Spectator.initial =
Spectator.receive_all (map snd (filter (fun e => e.1 = 9)
               (delivered (init ServerScenarios.zeros ServerScenarios.uid)))) Spectator.initial.
Proof.
apply (spectator_receives_nothing (init ServerScenarios.zeros ServerScenarios.uid) s_spectated 9 spectated).
- cbn. set_solver.
- constructor.
- decide_by_eval.
- vm_compute. reflexivity.
Defined.
Definition drawing_client : Client.t :=
Client.set_drawTimeLimit 20 (Client.set_activePlayerId (Some "b") (Client.set_phase DRAWING Client.initial)).

Definition w_lobby : world := router (ServerScenarios.after ServerScenarios.lobby).

Lemma draw_time_not_enforced_witness :
(forall tm, GameBoard.timer drawing_client 0 = Some tm ->
(Timer.run [100; 20000; 20100]%Z tm).2 =
(if existsb (fun n => bool_decide (Client.drawTimeLimit drawing_client * 1000 <= n - 0)%Z)
[100; 20000; 20100]%Z then 1 else 0)%nat) /\
GameBoard.onTimerComplete drawing_client = None /\
(exists msgs, outbox (Router.handleMessage (SUBMIT_STROKE ServerScenarios.dot) (Some "b") 2 w_lobby).2 =
(outbox w_lobby ++ msgs)%list /\ Forall (fun e => not_turn_timeout e.2) msgs) /\
(exists msgs, outbox (fire (mk_timer 0 "AAAA" 1) w_lobby).2 = (outbox w_lobby ++ msgs)%list /\
Forall (fun e => not_turn_timeout e.2) msgs).
Proof. apply draw_time_not_enforced. Defined.

(** Player [a] drew last in the round of [ServerScenarios]; the host
starts the next round and the reveal page's timeout fires at 5000 ms,
before [TURN_START]. The room of [ServerScenarios.w_started] is in
[ROLE_REVEAL]. *)
Definition last_drawer : AppFlow.t :=
AppFlow.mk (Client.set_activePlayerId (Some "a") (Client.set_playerId (Some "a")
(Client.set_phase SCOREBOARD (Client.set_roomCode (Some "AAAA") Client.initial)))) true false None 0.

Definition stale : AppFlow.t :=
AppFlow.tick 5000 (AppFlow.receive 0 (GAME_STARTING artist (Some "cat") ["b"; "c"; "a"] [] ServerScenarios.sett) last_drawer).

Definition stale_canvas : Canvas.t :=
(Canvas.mount (GameBoard.canvas_options (AppFlow.client stale)) [] None CanvasWitnesses.e0).1.

Lemma stale_turn_stroke_refused_witness :
AppFlow.page stale = App.GameBoardPage /\
exists stroke,
(Canvas.run (Canvas.gesture 40%Q 50%Q [(70, 80)%Q] 6000) stale_canvas).2 = [stroke] /\
GameBoard.onStrokeComplete stroke (AppFlow.client stale) = Some (Client.SubmitStroke stroke) /\
(Client.perform (Client.SubmitStroke stroke) (AppFlow.client stale)).2 = SUBMIT_STROKE stroke /\
Router.handleMessage (SUBMIT_STROKE stroke) (Some "a") 1 ServerScenarios.w_started =
(none, set_outbox (outbox ServerScenarios.w_started ++
     [("a", ERROR "Can only submit strokes during DRAWING phase")]) ServerScenarios.w_started).
Proof.
refine (stale_turn_stroke_refused last_drawer "a" 0 5000 artist (Some "cat") ["b"; "c"; "a"] [] ServerScenarios.sett
stale_canvas 40%Q 50%Q [(70, 80)%Q] 6000 ServerScenarios.w_started "AAAA" 0
(ServerScenarios.room_of ServerScenarios.w_started 0) 1 _ _ _ _ _ _ _ _ _ _ _);
vm_compute; first [reflexivity | discriminate].
Defined.
End ClientServerWitnesses.
